(* ===== verification/_CoqProject ===== *)
-Q . S2P
Prelude.v
JsString.v
Regex.v
JsNumber.v
Encoding.v
Sha256.v
Json.v
Io.v
Rely.v
Shell.v
Ndjson.v
RoundTrip.v
Types.v
Auth.v
Config.v
PodSpec.v
Queues.v
Armada.v
Wire.v
ApiCheck.v
Channel.v
Sandbox.v
SandboxInv.v
SandboxSpec.v
ProcessSpec.v
Provider.v
Operations.v
Liveness.v
Session.v
FilesSpec.v
Lifecycle.v
Dedup.v
Contract.v
Changelog.v
Smoke.v
SmokeSpec.v
