(* ===== verification/Prelude.v ===== *)
(** * A marimohub compute adapter for Armada

    The program (src/) runs notebook kernels as jobs of Armada, a batch
    scheduler over many clusters.  marimohub loads it as a module and asks it
    for sandboxes, one per kernel session.  A sandbox submits one job, follows
    the job's event stream until its pod runs, learns from the same stream
    where the pod's ports are, and from then on talks to a small agent in the
    pod.  Armada's Lookout is asked which sandboxes are alive and in which
    queue one is.

    ** The files

    The language and the platform, as far as the program uses them:
    - Prelude: results and errors, JavaScript sets, the tactics;
    - JsString, JsNumber: strings as the octets of their UTF-8 encoding,
      numbers as integers and dyadic fractions rounded to binary64;
    - Regex: the anchored expressions, with a matcher;
    - Encoding, Sha256: UTF-8 with its streaming decoder, base64, percent
      encoding, SHA-256 and HMAC, all computed;
    - Json: values, objects in property order, [JSON.parse] and
      [JSON.stringify];
    - Io: an [async] function as a tree of reads and changes of the shared
      state and of calls to the outside; [run] runs one alone against a
      handler, [pool_step] interleaves any number;
    - Rely: rules a process keeps to (an invariant, how the state may evolve,
      what a single change is, what the outside may answer), and [obeys], a
      program that keeps to them among others that do.

    The program, one file per source file:
    - Shell (shell.ts): quoting, the env prefix, the clone command, the
      stray-process script and its parser; with the fragment of [sh] that
      reads what they build;
    - Ndjson (ndjson.ts): the incremental reader;
    - Types (types.ts): the records that cross the border to marimohub;
    - Wire (armada-types.ts): the wire types of Armada as data, and the JSON
      values that are of one;
    - Auth (auth.ts): the authorization header;
    - Config (config.ts): the environment, read and validated;
    - PodSpec (podspec.ts): the pod of a session, and the JSON of it;
    - Queues (queues.ts): the directory of queues, over any state that holds
      its map (class [Directory]);
    - Armada (armada.ts): every call of the client, message by message;
    - Channel (channel.ts): the interface [ControlChannel] as a class, the
      [AgentChannel] that implements it, and the stream of a command's output
      as a step relation of its consumer, its timer and its source;
      [QuietChannel] is what the interface promises the sandbox: no call of it
      starts a job, or touches the state of the process;
    - Sandbox (sandbox.ts): the sandbox objects of a process by address, the
      two maps its provider shares between them, and every operation.  The
      callback that opens a channel is a program, and [kept] is the variable
      one may keep the channel in, as the smoke test's does;
    - Provider (provider.ts, index.ts): the provider, the module that makes
      it, and the process marimohub runs it in ([service_step]): sandboxes
      are made, used and swept, and all of that interleaves;
    - Contract (types.ts): the interfaces marimohub uses a sandbox, a process
      and the provider through, with the laws of a sandbox;
    - ApiCheck (scripts/check-armada-api.ts): the comparison of the tables of
      what the adapter depends on with a release of Armada;
    - Changelog (scripts/changelog.ts): the release script;
    - Smoke (dev/smoke.ts): the smoke test, a program over the operations of
      all of these, run on a state of its own ([Smoke.script]) that holds the
      state of its sandbox's process and that of a second provider's ([zoom]).

    The others hold theorems.  RoundTrip: what is written as JSON is read back,
    value by value from a stream.  SmokeSpec: what the smoke test promises, and
    a run of it against a simulated pod.  What an operation does when nothing else runs:
    SandboxSpec, ProcessSpec (the handle of a process, and ports), Liveness
    (that the good outcome comes), and, across the layers, Session (a sandbox
    from its making to its end) and FilesSpec (its files, over the pod's).  What every operation keeps at every one of
    its steps, whatever else runs: SandboxInv, Operations (for any rules of
    Rely), Lifecycle (the abstract machine of a sandbox's life) and Dedup (one
    job per sandbox).

    ** What is shown

    Safety of the whole process (Provider): from a process just started,
    through any interleaving and any answers, every sandbox object and every
    shared placement stays with the job set that is its id and an agent
    addressed with its own token; a process that only attaches never submits;
    and a sandbox found by a sweep is destroyed in the queue it was found in.

    Refinement: the process implements the machine of three phases (no job
    known, one known, its agent reached too) that Lifecycle states, for every
    sandbox in every interleaving; and every sandbox the provider makes keeps
    the contract of [SandboxInstance] at every moment of the process, down to
    the handles of the processes it starts.

    Several objects of one sandbox becoming ready at once (Dedup) all submit,
    and hold one job all the same, as long as Armada answers a client id it
    knows with the job it has; that answer is the hypothesis, and the client
    id is the adapter's part.

    Liveness: when Armada takes the job, its stream announces the pod and its
    addresses, and the agent answers, [ready] succeeds.  With an agent that
    runs what it is sent, the first command's output comes back text for text,
    and a kernel is started, waited for, exposed and, in the end, cancelled
    (Session).  What is asked of Armada and the agent are hypotheses on the
    answers to the very requests the adapter makes.

    The files of a sandbox are those of its pod (FilesSpec): with an agent that
    answers with what the pod's paths hold, refuses what it will and may have
    two names for one file, what is written is what is read.

    What a release of Armada may change: the drift check passes exactly when a
    release has everything its tables name, and then every request of the
    client that runs a sandbox's job is a request that release has, member by
    member.  The tables leave out some of what the client reads of events
    ([ApiCheck.unnamed_fields]).

    Each operation (SandboxSpec, Armada, Channel, Queues): becoming ready,
    adopting another instance's placement, executing, starting a process,
    waiting for its port, reading, writing, probing a port and destroying, on
    success and on every failure; submitting, waiting for a job, finding one,
    listing all; a command's output, bounded reads, health polling and
    streaming; and which queue a sandbox is in.

    What crosses a border unharmed: quoted words and exported variables
    through a shell, records and lines through their parsers, JSON values
    through a stream however the network cuts it, files through their
    encodings, credentials through the header; and the bearer token never into
    the log.

    The smoke test: the agent it talks to is its own sandbox's, its exit status
    is its verdict, and a run that returns has cancelled its job.

    What is refused: [readConfig] accepts only well-formed configurations,
    authentication and pod metadata are accepted exactly when their rules
    hold, a pod that is built obeys the rules Armada submits by, and a
    changelog with a heading no release could use is not released.

    ** Bounds and fuel

    - [Ndjson.drain] is given the length of the text and takes a line of it at
      each step; [readNdjson_lines] shows the reader never stops short.  The
      JSON parser has twice the length, and takes a character at every second
      step at least.
    - [Channel.ready_polls] allows one poll per [READY_POLL_MS] of the timeout
      and two more; [ready_ends] shows that with a clock that a timer moves on
      by its delay the polls do not run out.
    - [Armada.listActive] takes the number of pages it may read, where the
      code has no bound; [listActive_complete] shows that one more page than
      Lookout fills is enough.
    - [Sandbox.write_from] has a round per file, and each round takes a file.
    - [Shell.sh_run] has the length of the text, and each command consumes
      some of it.
    - [Smoke.await_end] and [Smoke.await_gone] have the code's own bounds, 50
      and 15; [Smoke.digits36] has the binary logarithm of the number.

    ** What is outside the model

    - A lone surrogate in a string, and upper case beyond ASCII.
    - A member of an answer of Armada, Lookout or the agent whose type is not
      the declared one is read as absent.
    - Timeouts that callers give are whole milliseconds that a timer takes, and
      the abort signal of a request is a number in it: when it fires is the
      handler's answer, and making it never throws.
    - Sorting is by octet, which is the language's order on all but characters
      beyond U+FFFF; the ids that are sorted are ASCII.
    - [Shell.sh] is a fragment of a POSIX shell: every variable may be
      exported, where a real one refuses those it holds read-only.
    - A response body is a finite list of chunks with the way it ended: a
      watch without end is ended by its signal.  Cancelling a reader that
      stops early releases a connection and has no result.
    - [URL.canParse], a URL's protocol and the message of a JSON syntax error
      are parameters ([Io.Platform]); a token file is what a function or the
      handler answers.
    - The objects whose keys come from outside are lists of their own
      properties.  The one place where the code can reach a property of
      [Object.prototype] through them, [forOwner] with an owner's id, has it
      written out ([Queues.js_read]).
    - A line on the console is a call like any other, and a script ends with
      its exit status.  [ARMADA_VERSION] is an argument of the drift check;
      the package that parses the changelog is one of the release script.
    - Interleaving is finer than the language's: it may occur at any read or
      change of the shared state, and not only where the code awaits.  What is
      shown of every interleaving therefore holds of the real ones.

    - The stream the smoke test cancels after its first chunk is pulled once.

    Not modelled at all: the agent in the pod (agent/, in Go), whose answers
    are the handler's, and the tests.

    The interfaces of types.ts that hold one option or one result
    (SetEnvVarsOptions, ExecOptions, ExecStreamOptions, ExposePortResult) are
    that member, and SandboxUserHome is an option nothing reads.  What is left of
    the files under src/ is comments, imports and the frames of classes.

    ** What could be added

    - the round trip of JSON numbers that are fractions;
    - the sessions of Session among other programs of the process: what is
      shown of interleavings is safety. *)
From Stdlib Require Export Ascii ZArith Lia ZifyBool.
From Stdlib Require String.
From stdpp Require Export base tactics list strings gmap option.

#[export] Set Default Goal Selector "!".
#[global] Open Scope string_scope.
#[global] Open Scope list_scope.

(** ** Outcomes: a returned value or a thrown error *)

(** The classes of error the adapter tells apart with [instanceof]. *)
Inductive err_kind := PlainError | QueueUnknownError | CommandTimeoutError.

#[export] Instance err_kind_eq_dec : EqDecision err_kind.
Proof. solve_decision. Defined.

Record err := mk_err { kind : err_kind; message : string }.

#[export] Instance err_eq_dec : EqDecision err.
Proof. solve_decision. Defined.

(** [new Error(message)]. *)
Definition error (m : string) : err := mk_err PlainError m.

Inductive result (A : Type) := Ok (a : A) | Err (e : err).
Arguments Ok {A} a.
Arguments Err {A} e.

#[export] Instance result_ret : MRet result := @Ok.
#[export] Instance result_bind : MBind result := fun _ _ f r =>
  match r with Ok a => f a | Err e => Err e end.
#[export] Instance result_fmap : FMap result := fun _ _ f r =>
  match r with Ok a => Ok (f a) | Err e => Err e end.

(** [throw]. *)
Definition throw {A} (m : string) : result A := Err (error m).

(** The condition of an early [throw]. *)
Definition require (b : bool) (m : string) : result unit :=
  if b then Ok tt else throw m.

Definition is_ok {A} (r : result A) : bool :=
  match r with Ok _ => true | Err _ => false end.

Lemma Ok_inj {A} (a b : A) : Ok a = Ok b -> a = b.
Proof. congruence. Qed.

Lemma bind_Ok {A B} (r : result A) (f : A -> result B) b :
  mbind f r = Ok b <-> exists a, r = Ok a /\ f a = Ok b.
Proof. destruct r; simpl; naive_solver. Qed.

Lemma require_Ok b m u : require b m = Ok u <-> b = true.
Proof. destruct b, u; simpl; naive_solver. Qed.

(** [for (x of l) out.push(f(x))], stopping at the first throw. *)
Fixpoint map_result {A B} (f : A -> result B) (l : list A) : result (list B) :=
  match l with
  | [] => Ok []
  | x :: l' => y ← f x; ys ← map_result f l'; Ok (y :: ys)
  end.

Lemma map_result_Ok {A B} (f : A -> result B) l l' :
  map_result f l = Ok l' <-> Forall2 (fun x y => f x = Ok y) l l'.
Proof.
  revert l'; induction l as [|x l IH]; intros l'; simpl.
  - split; [intros [= <-]; constructor | by inversion 1].
  - rewrite bind_Ok. split.
    + intros (y & Hy & (ys & Hys & [= <-])%bind_Ok). constructor; [done | by apply IH].
    + inversion 1; subst. eexists; split; [done|]. apply bind_Ok.
      eexists; split; [by apply IH | done].
Qed.

(** ** [new Set(l)], in insertion order *)

Definition set_add {A} `{EqDecision A} (s : list A) (x : A) : list A :=
  if decide (x ∈ s) then s else s ++ [x].
Definition js_set {A} `{EqDecision A} (l : list A) : list A := foldl set_add [] l.

Lemma elem_of_set_add {A} `{EqDecision A} (s : list A) x y : x ∈ set_add s y <-> x ∈ s \/ x = y.
Proof. unfold set_add. case_decide; set_solver. Qed.

Lemma elem_of_js_set {A} `{EqDecision A} (l : list A) x : x ∈ js_set l <-> x ∈ l.
Proof.
  unfold js_set. assert (forall s, x ∈ foldl set_add s l <-> x ∈ s \/ x ∈ l) as H
    by (induction l as [|y l IH]; intros s; simpl; [set_solver|]; rewrite IH, elem_of_set_add; set_solver).
  rewrite H. set_solver.
Qed.

Lemma js_set_NoDup {A} `{EqDecision A} (l : list A) : NoDup (js_set l).
Proof.
  unfold js_set. assert (forall s, NoDup s -> NoDup (foldl set_add s l)) as H; [|apply H; constructor].
  induction l as [|y l IH]; intros s Hs; simpl; [done|]. apply IH. unfold set_add.
  case_decide; [done|]. apply list.NoDup_app.
  split; [done|]. split; [|apply NoDup_singleton]. intros z Hz Hz'. set_solver.
Qed.

(** ** Tactics *)

(** Decompose a hypothesis saying that a chain of binds succeeded. *)
Ltac inv_ok :=
  repeat match goal with
  | H : mbind _ _ = Ok _ |- _ =>
      let a := fresh "v" in let E := fresh "E" in
      apply bind_Ok in H as (a & E & H)
  | H : require _ _ = Ok _ |- _ => apply require_Ok in H
  | H : Ok _ = Ok _ |- _ => injection H as H; try subst
  | H : Err _ = Ok _ |- _ => discriminate H
  | H : throw _ = Ok _ |- _ => discriminate H
  end.

(** Case on every [match] and [if] of the goal, closing what computes. *)
Ltac cases := repeat (case_match; simplify_eq/=; try done).

(** [lia] with divisions and remainders by constants. *)
Ltac dlia := zify; Z.to_euclidean_division_equations; lia.

#[global] Arguments String.append !_ _ : simpl nomatch.

Create HintDb hub.
Create Rewrite HintDb hubr.
