(* ===== verification/JsString.v ===== *)
(** JavaScript strings.

    A JavaScript string is represented by its UTF-8 encoding, as a [string]
    of octets.  Every well-formed string has exactly one representation;
    concatenation, equality, and searching or cutting at an ASCII character
    are the same on both sides.  What is not the same is written out:
    [utf16_length] counts UTF-16 code units and [trim] knows the multi-octet
    white space.  Two things are outside the representation: a string with a
    lone surrogate, and [toUpperCase] beyond ASCII, which [to_upper] leaves
    alone. *)
From Stdlib Require Sorting.Sorted.
From S2P Require Import Prelude.

Definition code (c : ascii) : N := N_of_ascii c.
Definition chr (n : N) : ascii := ascii_of_N n.

Definition ascii_in (lo hi : N) (c : ascii) : bool :=
  (N.leb lo (code c) && N.leb (code c) hi)%bool.

Definition is_digit : ascii -> bool := ascii_in 48 57.
Definition is_upper : ascii -> bool := ascii_in 65 90.
Definition is_lower : ascii -> bool := ascii_in 97 122.
Definition is_alnum (c : ascii) : bool := (is_digit c || is_upper c || is_lower c)%bool.

(** ** Characters and pieces *)

Fixpoint all_chars (p : ascii -> bool) (s : string) : bool :=
  match s with
  | "" => true
  | String c s' => (p c && all_chars p s')%bool
  end.

Fixpoint map_chars (f : ascii -> string) (s : string) : string :=
  match s with
  | "" => ""
  | String c s' => f c +:+ map_chars f s'
  end.

(** [s.slice(n)]. *)
Fixpoint str_drop (n : nat) (s : string) : string :=
  match n, s with
  | S n', String _ s' => str_drop n' s'
  | _, _ => s
  end.

(** [s.slice(0, n)]. *)
Fixpoint str_take (n : nat) (s : string) : string :=
  match n, s with
  | S n', String c s' => String c (str_take n' s')
  | _, _ => ""
  end.

(** [s.startsWith(p)]. *)
Fixpoint starts_with (p s : string) : bool :=
  match p, s with
  | "", _ => true
  | String a p', String b s' => if decide (a = b) then starts_with p' s' else false
  | String _ _, "" => false
  end.

(** [s.includes(p)]. *)
Fixpoint includes (p s : string) : bool :=
  (starts_with p s ||
   match s with "" => false | String _ s' => includes p s' end)%bool.

(** [s.indexOf(c)], [None] for -1. *)
Fixpoint index_of (c : ascii) (s : string) : option nat :=
  match s with
  | "" => None
  | String b s' => if decide (c = b) then Some O else S <$> index_of c s'
  end.

(** [s.lastIndexOf(c)], [None] for -1. *)
Fixpoint last_index_of (c : ascii) (s : string) : option nat :=
  match s with
  | "" => None
  | String b s' =>
      match last_index_of c s' with
      | Some n => Some (S n)
      | None => if decide (c = b) then Some O else None
      end
  end.

(** [s.split(c)] for a one-character separator. *)
Fixpoint split_on (c : ascii) (s : string) : list string :=
  match s with
  | "" => [""]
  | String b s' =>
      if decide (c = b) then "" :: split_on c s'
      else match split_on c s' with
           | w :: ws => String b w :: ws
           | [] => [String b ""]
           end
  end.

(** [l.join(sep)]. *)
Fixpoint join (sep : string) (l : list string) : string :=
  match l with
  | [] => ""
  | [w] => w
  | w :: l' => w +:+ sep +:+ join sep l'
  end.

(** [s.replaceAll(needle, by)] for a non-empty needle and a replacement
    without [$]; [skip] counts the octets of a match still to pass over. *)
Fixpoint replace_from (needle by_ : string) (skip : nat) (s : string) : string :=
  match s with
  | "" => ""
  | String c s' =>
      match skip with
      | S k => replace_from needle by_ k s'
      | O => if starts_with needle s
             then by_ +:+ replace_from needle by_ (String.length needle - 1) s'
             else String c (replace_from needle by_ O s')
      end
  end.

Definition replace_all (needle by_ s : string) : string := replace_from needle by_ O s.

(** ** White space and case *)

(** The octets the white-space or line-terminator character at the front
    takes, 0 when there is none: TAB, LF, VT, FF, CR, SP, NBSP, U+1680,
    U+2000-200A, U+2028, U+2029, U+202F, U+205F, U+3000 and U+FEFF. *)
Definition ws_len (s : string) : nat :=
  match s with
  | String a s1 =>
      let x := code a in
      if (N.leb 9 x && N.leb x 13 || N.eqb x 32)%bool then 1%nat else
      match s1 with
      | String b s2 =>
          let y := code b in
          if (N.eqb x 194 && N.eqb y 160)%bool then 2%nat else
          match s2 with
          | String c _ =>
              let z := code c in
              if (N.eqb x 225 && N.eqb y 154 && N.eqb z 128
                  || N.eqb x 226 && N.eqb y 128 &&
                     (N.leb 128 z && N.leb z 138 || N.eqb z 168 || N.eqb z 169 || N.eqb z 175)
                  || N.eqb x 226 && N.eqb y 129 && N.eqb z 159
                  || N.eqb x 227 && N.eqb y 128 && N.eqb z 128
                  || N.eqb x 239 && N.eqb y 187 && N.eqb z 191)%bool then 3%nat else 0%nat
          | "" => 0%nat
          end
      | "" => 0%nat
      end
  | "" => 0%nat
  end.

Fixpoint trim_start_from (skip : nat) (s : string) : string :=
  match s with
  | "" => ""
  | String _ s' =>
      match skip with
      | S k => trim_start_from k s'
      | O => match ws_len s with
             | O => s
             | S k => trim_start_from k s'
             end
      end
  end.

Definition trim_start (s : string) : string := trim_start_from 0 s.

Fixpoint trim_end (s : string) : string :=
  match s with
  | "" => ""
  | String c s' => if decide (trim_start s = "") then "" else String c (trim_end s')
  end.

(** [s.trim()]. *)
Definition trim (s : string) : string := trim_end (trim_start s).

(** [!s.trim()]: empty or white space only. *)
Definition blank (s : string) : bool := bool_decide (trim s = "").

(** [s.toUpperCase()] on ASCII letters. *)
Definition upper_char (c : ascii) : ascii :=
  if is_lower c then chr (code c - 32) else c.
Fixpoint to_upper (s : string) : string :=
  match s with
  | "" => ""
  | String c s' => String (upper_char c) (to_upper s')
  end.

(** [s.length]: UTF-16 code units, so a continuation octet counts nothing and
    a four-octet sequence counts two. *)
Fixpoint utf16_length (s : string) : Z :=
  match s with
  | "" => 0
  | String c s' =>
      ((if ascii_in 128 191 c then 0 else if N.leb 240 (code c) then 2 else 1)
       + utf16_length s')%Z
  end.

(** JavaScript's order on strings, by octets. *)
Fixpoint str_ltb (s t : string) : bool :=
  match s, t with
  | "", "" => false
  | "", String _ _ => true
  | String _ _, "" => false
  | String a s', String b t' =>
      if decide (a = b) then str_ltb s' t' else N.ltb (code a) (code b)
  end.

(** [l.toSorted()]: insertion from the right, so equal strings keep their
    order. *)
Fixpoint insert_sorted (x : string) (l : list string) : list string :=
  match l with
  | [] => [x]
  | y :: l' => if str_ltb y x then y :: insert_sorted x l' else x :: l
  end.
Definition to_sorted (l : list string) : list string := foldr insert_sorted [] l.

(** ** Decimal digits *)

Definition digit_char (d : Z) : ascii := chr (Z.to_N (48 + d)).
Definition digit_value (c : ascii) : Z := (Z.of_N (code c) - 48)%Z.

Fixpoint digits_from (fuel : nat) (n : Z) (acc : string) : string :=
  match fuel with
  | O => acc
  | S f =>
      let acc' := String (digit_char (n mod 10)) acc in
      if (n <? 10)%Z then acc' else digits_from f (n / 10) acc'
  end.

(** [String(n)] for an integer below [10^21] in size. *)
Definition string_of_Z (n : Z) : string :=
  if (n <? 0)%Z then "-" +:+ digits_from (S (Z.to_nat (Z.log2 (- n)))) (- n) ""
  else digits_from (S (Z.to_nat (Z.log2 n))) n "".

Fixpoint digits_value_from (acc : Z) (s : string) : Z :=
  match s with
  | "" => acc
  | String c s' => digits_value_from (acc * 10 + digit_value c) s'
  end.
Definition digits_value : string -> Z := digits_value_from 0.

(** ** Lemmas *)

Lemma string_app_assoc (a b c : string) : (a +:+ b) +:+ c = a +:+ b +:+ c.
Proof. induction a as [|x a IH]; simpl; [done | by rewrite IH]. Qed.

Lemma string_app_nil_r (a : string) : a +:+ "" = a.
Proof. induction a as [|x a IH]; simpl; [done | by rewrite IH]. Qed.

Lemma string_app_inj_l (a b c : string) : a +:+ b = a +:+ c -> b = c.
Proof. induction a as [|x a IH]; simpl; [done|]. intros [= H]. auto. Qed.

Lemma str_length_app (a b : string) :
  String.length (a +:+ b) = (String.length a + String.length b)%nat.
Proof. induction a as [|x a IH]; simpl; [done | by rewrite IH]. Qed.

Lemma str_take_app (a b : string) : str_take (String.length a) (a +:+ b) = a.
Proof. induction a as [|x a IH]; simpl; [by destruct b | by rewrite IH]. Qed.

Lemma str_drop_app (a b : string) : str_drop (String.length a) (a +:+ b) = b.
Proof. induction a as [|x a IH]; simpl; [by destruct b | done]. Qed.

Lemma all_chars_app p a b : all_chars p (a +:+ b) = (all_chars p a && all_chars p b)%bool.
Proof. induction a as [|x a IH]; simpl; [done|]. by rewrite IH, andb_assoc. Qed.

Lemma all_chars_impl (p r : ascii -> bool) s :
  (forall c, p c = true -> r c = true) -> all_chars p s = true -> all_chars r s = true.
Proof.
  intros H. induction s as [|c s IH]; simpl; [done|].
  rewrite !andb_true_iff. intros [Hc Hs]. auto.
Qed.

Lemma index_of_first c a b :
  all_chars (fun d => negb (bool_decide (c = d))) a = true ->
  index_of c (a +:+ String c b) = Some (String.length a).
Proof.
  induction a as [|x a IH]; simpl; [by rewrite decide_True|].
  intros [Hx Ha]%andb_true_iff. apply negb_true_iff, bool_decide_eq_false in Hx.
  by rewrite decide_False, IH.
Qed.

Lemma join_empty_app (l k : list string) : join "" (l ++ k) = join "" l +:+ join "" k.
Proof.
  induction l as [|w l IH]; simpl; [done|].
  destruct l as [|w' l]; simpl in *.
  - destruct k; simpl; [by rewrite string_app_nil_r | done].
  - by rewrite IH, !string_app_assoc.
Qed.

Lemma join_empty_cons w (l : list string) : join "" (w :: l) = w +:+ join "" l.
Proof. destruct l; simpl; [by rewrite string_app_nil_r | done]. Qed.

Lemma starts_with_app p s : starts_with p (p +:+ s) = true.
Proof. induction p as [|c p IH]; simpl; [done|]. by rewrite decide_True. Qed.

Lemma starts_with_inv p s : starts_with p s = true -> exists r, s = p +:+ r.
Proof.
  revert s; induction p as [|c p IH]; intros s; simpl; [by exists s|].
  destruct s as [|d s]; [done|]. case_decide; [|done]. subst.
  intros (r & ->)%IH. by exists r.
Qed.

(** Replacing a one-character needle works character by character. *)
Lemma replace_all_cons n by_ c s :
  replace_all (String n "") by_ (String c s)
  = if decide (n = c) then by_ +:+ replace_all (String n "") by_ s
    else String c (replace_all (String n "") by_ s).
Proof. unfold replace_all. simpl. by case_decide. Qed.

(** No [c] in [s]. *)
Definition no_char (c : ascii) (s : string) : bool :=
  all_chars (fun d => negb (bool_decide (c = d))) s.

Lemma split_on_none c a : no_char c a = true -> split_on c a = [a].
Proof.
  unfold no_char. induction a as [|x a IH]; simpl; [done|].
  intros [Hx Ha]%andb_true_iff. apply negb_true_iff, bool_decide_eq_false in Hx.
  by rewrite decide_False, IH.
Qed.

Lemma split_on_first c a b :
  no_char c a = true -> split_on c (a +:+ String c b) = a :: split_on c b.
Proof.
  unfold no_char. induction a as [|x a IH]; simpl; [by rewrite decide_True|].
  intros [Hx Ha]%andb_true_iff. apply negb_true_iff, bool_decide_eq_false in Hx.
  by rewrite decide_False, IH.
Qed.

Lemma split_on_nonempty c s : split_on c s <> [].
Proof. destruct s as [|d s]; simpl; [done|]. case_decide; [done|]. by case_match. Qed.

(** [s.split(c).join(c)] is [s]. *)
Lemma join_split c s : join (String c "") (split_on c s) = s.
Proof.
  induction s as [|d s IH]; [done|]. cbn [split_on].
  pose proof (split_on_nonempty c s) as Hne. case_decide as Hd.
  - subst. destruct (split_on d s) as [|w ws]; [done|]. cbn [join] in *.
    change (("" +:+ String d "") +:+ ?x) with (String d x). by simpl in *; rewrite IH.
  - destruct (split_on c s) as [|w ws]; [done|]. destruct ws; simpl in *; by rewrite <- IH.
Qed.

(** Decimal digits are read back. *)
Lemma digit_char_code d : (0 <= d < 10)%Z -> code (digit_char d) = Z.to_N (48 + d).
Proof. intros H. unfold code, digit_char, chr. apply N_ascii_embedding. lia. Qed.

Lemma digit_char_digit d : (0 <= d < 10)%Z -> is_digit (digit_char d) = true.
Proof. intros H. unfold is_digit, ascii_in. rewrite digit_char_code by done. lia. Qed.

Lemma digit_value_char d : (0 <= d < 10)%Z -> digit_value (digit_char d) = d.
Proof. intros H. unfold digit_value. rewrite digit_char_code by done. lia. Qed.

Lemma digits_from_value f n acc :
  (0 <= n < 2 ^ Z.of_nat f)%Z ->
  digits_value_from 0 (digits_from f n acc) = digits_value_from n acc /\
  (all_chars is_digit acc = true -> all_chars is_digit (digits_from f n acc) = true).
Proof.
  revert n acc; induction f as [|f IH]; intros n acc Hn; cbn [digits_from].
  - assert (n = 0%Z) as -> by (simpl in Hn; lia). by destruct acc.
  - assert (0 <= n mod 10 < 10)%Z by dlia. destruct (n <? 10)%Z eqn:E.
    + replace (n mod 10)%Z with n in * by dlia. cbn [digits_value_from all_chars].
      by rewrite digit_char_digit, digit_value_char.
    + destruct (IH (n / 10)%Z (String (digit_char (n mod 10)) acc)) as [-> Hall].
      { rewrite Nat2Z.inj_succ, Z.pow_succ_r in Hn by lia. dlia. }
      cbn [digits_value_from all_chars] in *. rewrite digit_value_char, digit_char_digit in * by done.
      split; [f_equal; dlia | auto].
Qed.

Lemma string_of_Z_digits n :
  (0 <= n)%Z -> digits_value (string_of_Z n) = n /\ all_chars is_digit (string_of_Z n) = true.
Proof.
  intros Hn. unfold string_of_Z, digits_value. replace (n <? 0)%Z with false by lia.
  destruct (digits_from_value (S (Z.to_nat (Z.log2 n))) n "") as [-> Hall]; [|auto].
  rewrite Nat2Z.inj_succ, Z2Nat.id by apply Z.log2_nonneg.
  destruct (decide (n = 0)%Z) as [->|]; [done|]. split; [done|]. apply Z.log2_spec. lia.
Qed.

Lemma digits_from_nonempty f n acc : digits_from (S f) n acc <> "".
Proof.
  revert n acc; induction f as [|f IH]; intros n acc; cbn [digits_from].
  - by case_match.
  - case_match; [done | apply IH].
Qed.

Lemma string_of_Z_nonempty n : string_of_Z n <> "".
Proof. unfold string_of_Z. case_match; [done | apply digits_from_nonempty]. Qed.

Lemma str_ltb_irrefl s : str_ltb s s = false.
Proof. induction s as [|c s IH]; simpl; [done|]. by rewrite decide_True. Qed.

Lemma code_inj a b : code a = code b -> a = b.
Proof. unfold code. intros H. by rewrite <- (ascii_N_embedding a), H, ascii_N_embedding. Qed.

Lemma str_ltb_trans a b c : str_ltb a b = true -> str_ltb b c = true -> str_ltb a c = true.
Proof.
  revert b c; induction a as [|x a IH]; intros [|y b] [|z c]; simpl; try done.
  repeat case_decide; subst; try done; eauto; lia.
Qed.

Lemma str_ltb_total a b : str_ltb a b = false -> a = b \/ str_ltb b a = true.
Proof.
  revert b; induction a as [|x a IH]; intros [|y b]; simpl; auto.
  repeat case_decide; subst; try done.
  - intros [->|]%IH; auto.
  - intros E. right. assert (code x <> code y) by (by intros ?%code_inj). lia.
Qed.

Lemma elem_of_insert_sorted x y l : y ∈ insert_sorted x l <-> y = x \/ y ∈ l.
Proof.
  induction l as [|z l IH]; simpl; [set_solver|]. case_match; rewrite ?elem_of_cons, ?IH; set_solver.
Qed.

Lemma elem_of_to_sorted y l : y ∈ to_sorted l <-> y ∈ l.
Proof.
  induction l as [|z l IH]; simpl; [done|]. by rewrite elem_of_insert_sorted, IH, elem_of_cons.
Qed.

Definition not_after (a b : string) : Prop := str_ltb b a = false.

Lemma insert_sorted_sorted x l :
  Sorted.StronglySorted not_after l -> Sorted.StronglySorted not_after (insert_sorted x l).
Proof.
  unfold not_after. induction 1 as [|a l Hl IH Ha]; simpl; [repeat constructor|].
  destruct (str_ltb a x) eqn:E.
  - constructor; [done|]. apply list.Forall_forall. intros b [->|Hb]%elem_of_insert_sorted.
    + destruct (str_ltb x a) eqn:E'; [|done]. by rewrite <- (str_ltb_irrefl a), (str_ltb_trans a x a).
    + by eapply list.Forall_forall in Ha.
  - constructor; [by constructor|]. constructor; [done|]. apply list.Forall_forall. intros b Hb.
    eapply list.Forall_forall in Ha; [|done]. destruct (str_ltb b x) eqn:E'; [|done].
    destruct (str_ltb_total _ _ Ha) as [->|Hab]; [congruence|]. by rewrite (str_ltb_trans a b x) in E.
Qed.

Lemma to_sorted_sorted l : Sorted.StronglySorted not_after (to_sorted l).
Proof. induction l; simpl; [constructor | by apply insert_sorted_sorted]. Qed.

Lemma last_in {A} (l : list A) y : list.last l = Some y -> y ∈ l.
Proof. intros (l' & ->)%list.last_Some. set_solver. Qed.

(** The last of the sorted list is the greatest. *)
Lemma to_sorted_last l y :
  list.last (to_sorted l) = Some y -> y ∈ l /\ forall w, w ∈ l -> str_ltb y w = false.
Proof.
  intros Hy. split; [by apply elem_of_to_sorted, last_in|]. intros w Hw.
  apply elem_of_to_sorted in Hw. revert Hy Hw. induction (to_sorted_sorted l) as [|a k _ IH Ha]; [done|].
  intros Hy. destruct k as [|b k].
  - injection Hy as ->. intros ->%list_elem_of_singleton. apply str_ltb_irrefl.
  - change (list.last (a :: b :: k)) with (list.last (b :: k)) in Hy. intros [->|Hw]%elem_of_cons; [|auto].
    eapply list.Forall_forall in Ha; [exact Ha | by apply last_in].
Qed.

Lemma to_sorted_nil l : list.last (to_sorted l) = None <-> l = [].
Proof.
  rewrite list.last_None. split; [|by intros ->]. destruct l as [|x l]; [done|]. intros E.
  assert (x ∈ to_sorted (x :: l)) as Hx by (apply elem_of_to_sorted; left). rewrite E in Hx. set_solver.
Qed.

#[export] Hint Rewrite string_app_nil_r string_app_assoc str_length_app : hubr.

(** ** A message, and the log under it *)

(** An ASCII character that is no white space. *)
Definition solid : ascii -> bool := ascii_in 33 126.

Lemma ws_len_solid_first d b : solid d = true -> ws_len (String d b) = O.
Proof.
  cbn [ws_len]. unfold solid, ascii_in. intros [H1 H2]%andb_true_iff. apply N.leb_le in H1, H2.
  repeat case_match; try done; exfalso; lia.
Qed.

(** White space does not reach past such a character. *)
Lemma ws_len_solid a d b : solid d = true -> (ws_len (a +:+ String d b) <= String.length a)%nat.
Proof.
  intros Hd. destruct a as [|x [|y [|z a]]]; cbn [String.append String.length]; [by rewrite ws_len_solid_first|..];
    cbn [ws_len]; unfold solid, ascii_in in Hd; apply andb_true_iff in Hd as [H1 H2]; apply N.leb_le in H1, H2;
    repeat case_match; lia.
Qed.

Lemma trim_start_solid skip a d b :
  solid d = true -> (skip <= String.length a)%nat -> trim_start_from skip (a +:+ String d b) <> "".
Proof.
  intros Hd. revert skip; induction a as [|c a IH]; intros skip Hs; cbn [String.append String.length] in *.
  - assert (skip = O) as -> by lia. cbn [trim_start_from]. by rewrite ws_len_solid_first.
  - cbn [trim_start_from]. destruct skip as [|skip]; [|apply IH; lia].
    pose proof (ws_len_solid (String c a) d b Hd) as Hw. cbn [String.append String.length] in Hw.
    destruct (ws_len (String c (a +:+ String d b))) as [|k]; [done|]. apply IH. lia.
Qed.

Lemma trim_end_solid a d b : solid d = true -> trim_end (a +:+ String d b) = a +:+ String d (trim_end b).
Proof.
  intros Hd. induction a as [|c a IH]; cbn [String.append trim_end]; (rewrite decide_False; [by rewrite ?IH|]).
  - by apply (trim_start_solid 0 "" d b).
  - apply (trim_start_solid 0 (String c a) d b); [done|simpl; lia].
Qed.

(** Text that begins and ends so is not trimmed at the front, nor before its
    last such character. *)
Lemma trim_solid c a d b : solid c = true -> solid d = true -> trim (String c a +:+ String d b) = String c a +:+ String d (trim_end b).
Proof.
  intros Hc Hd. unfold trim, trim_start. cbn [String.append trim_start_from]. rewrite ws_len_solid_first by done.
  by apply (trim_end_solid (String c a)).
Qed.

Lemma trim_one c : solid c = true -> trim (String c "") = String c "".
Proof. intros Hc. unfold trim, trim_start. cbn [trim_start_from]. rewrite ws_len_solid_first by done. by apply (trim_end_solid "" c ""). Qed.

(** A message that starts with a letter and ends with a full stop is kept,
    and of the log under it only the white space at its end is dropped. *)
Lemma trim_under c a log :
  is_lower c = true -> trim (String c a +:+ "." +:+ log) = String c a +:+ "." +:+ trim_end log.
Proof.
  intros Hc. apply trim_solid; [|done]. unfold is_lower, solid, ascii_in in *. apply andb_true_iff in Hc as [H1 H2]. lia.
Qed.
