(* ===== verification/Regex.v ===== *)
(** The regular expressions of the adapter, all of them anchored at both ends:
    what one matches, and a matcher by derivatives. *)
From S2P Require Import Prelude JsString.

Inductive regex :=
| Nothing
| Empty
| Class_ (p : ascii -> bool)
| Seq (r1 r2 : regex)
| Alt (r1 r2 : regex)
| Star (r : regex).

(** [r?] and [r{0,n}]. *)
Definition Opt (r : regex) : regex := Alt Empty r.
Fixpoint UpTo (n : nat) (r : regex) : regex :=
  match n with
  | O => Empty
  | S k => Opt (Seq r (UpTo k r))
  end.

(** The strings an expression matches. *)
Inductive matches : regex -> string -> Prop :=
| m_empty : matches Empty ""
| m_class p c : p c = true -> matches (Class_ p) (String c "")
| m_seq r1 r2 a b : matches r1 a -> matches r2 b -> matches (Seq r1 r2) (a +:+ b)
| m_left r1 r2 a : matches r1 a -> matches (Alt r1 r2) a
| m_right r1 r2 a : matches r2 a -> matches (Alt r1 r2) a
| m_nil r : matches (Star r) ""
| m_more r a b : matches r a -> matches (Star r) b -> matches (Star r) (a +:+ b).

(** ** The matcher *)

Fixpoint nullable (r : regex) : bool :=
  match r with
  | Nothing | Class_ _ => false
  | Empty | Star _ => true
  | Seq a b => (nullable a && nullable b)%bool
  | Alt a b => (nullable a || nullable b)%bool
  end.

Definition seq_ (a b : regex) : regex :=
  match a with Nothing => Nothing | Empty => b | _ => Seq a b end.
Definition alt_ (a b : regex) : regex :=
  match a, b with Nothing, _ => b | _, Nothing => a | _, _ => Alt a b end.

Fixpoint deriv (c : ascii) (r : regex) : regex :=
  match r with
  | Nothing | Empty => Nothing
  | Class_ p => if p c then Empty else Nothing
  | Seq a b =>
      if nullable a then alt_ (seq_ (deriv c a) b) (deriv c b) else seq_ (deriv c a) b
  | Alt a b => alt_ (deriv c a) (deriv c b)
  | Star a => seq_ (deriv c a) (Star a)
  end.

(** [/^r$/.test(s)]. *)
Fixpoint re_test (r : regex) (s : string) : bool :=
  match s with
  | "" => nullable r
  | String c s' => re_test (deriv c r) s'
  end.

(** ** The matcher decides matching *)

Lemma matches_seq r1 r2 s :
  matches (Seq r1 r2) s <-> exists a b, s = a +:+ b /\ matches r1 a /\ matches r2 b.
Proof.
  split; [inversion 1; subst; eauto|]. intros (a & b & -> & ? & ?). by constructor.
Qed.

Lemma matches_alt r1 r2 s : matches (Alt r1 r2) s <-> matches r1 s \/ matches r2 s.
Proof. split; [inversion 1; auto|]. intros []; by constructor. Qed.

Lemma matches_class p s : matches (Class_ p) s <-> exists c, s = String c "" /\ p c = true.
Proof. split; [inversion 1; eauto|]. intros (c & -> & ?). by constructor. Qed.

Lemma matches_empty s : matches Empty s <-> s = "".
Proof. split; [by inversion 1|]. intros ->. constructor. Qed.

Lemma matches_nothing s : matches Nothing s <-> False.
Proof. split; [inversion 1 | done]. Qed.

Lemma matches_opt r s : matches (Opt r) s <-> s = "" \/ matches r s.
Proof. unfold Opt. by rewrite matches_alt, matches_empty. Qed.

Lemma matches_seq_ a b s : matches (seq_ a b) s <-> matches (Seq a b) s.
Proof.
  destruct a; try done; rewrite matches_seq; cbn [seq_].
  - split; [inversion 1|]. intros (x & y & _ & H & _). inversion H.
  - split; [intros; by exists "", s; repeat constructor|].
    intros (x & y & -> & H & ?). by inversion H; subst.
Qed.

Lemma matches_alt_ a b s : matches (alt_ a b) s <-> matches (Alt a b) s.
Proof.
  rewrite matches_alt. destruct a, b; cbn [alt_]; try rewrite matches_alt;
    rewrite ?matches_nothing; naive_solver.
Qed.

Lemma nullable_spec r : nullable r = true <-> matches r "".
Proof.
  induction r as [| |p|a IHa b IHb|a IHa b IHb|a IH]; cbn [nullable].
  - by rewrite matches_nothing.
  - by rewrite matches_empty.
  - rewrite matches_class. split; [done|]. by intros (c & ? & _).
  - rewrite andb_true_iff, IHa, IHb, matches_seq. split.
    + intros [? ?]. by exists "", "".
    + intros (x & y & E & ? & ?). by destruct x, y.
  - by rewrite orb_true_iff, IHa, IHb, matches_alt.
  - split; [constructor | done].
Qed.

Lemma matches_star_cons r c s :
  matches (Star r) (String c s) <->
  exists a b, s = a +:+ b /\ matches r (String c a) /\ matches (Star r) b.
Proof.
  split.
  - intros H. remember (Star r) as st eqn:Er. remember (String c s) as t eqn:Et.
    revert r c s Er Et; induction H as [| | | | | |r' a b Ha _ Hb IH]; intros; try discriminate.
    injection Er as ->. destruct a as [|d a]; [by apply IH|].
    injection Et as -> <-. by exists a, b.
  - intros (a & b & -> & H1 & H2). change (String c (a +:+ b)) with (String c a +:+ b). by constructor.
Qed.

Lemma deriv_spec c r s : matches (deriv c r) s <-> matches r (String c s).
Proof.
  revert s; induction r as [| |p|a IHa b IHb|a IHa b IHb|a IH]; intros s; cbn [deriv].
  - by rewrite !matches_nothing.
  - by rewrite matches_nothing, matches_empty.
  - rewrite matches_class. destruct (p c) eqn:Hp.
    + rewrite matches_empty. split; [intros ->; eauto|]. by intros (d & [= _ ->] & _).
    + rewrite matches_nothing. split; [done|]. intros (d & [= <- _] & ?). congruence.
  - assert (matches (Seq a b) (String c s) <->
            matches (Seq (deriv c a) b) s \/ (nullable a = true /\ matches (deriv c b) s)) as ->.
    { rewrite !matches_seq, IHb, nullable_spec. split.
      - intros (x & y & E & Hx & Hy). destruct x as [|d x]; [right; simpl in E; by subst y|].
        injection E as -> ->. left. exists x, y. by rewrite IHa.
      - intros [(x & y & -> & Hx & Hy)|[Hn Hs]].
        + exists (String c x), y. by rewrite <- IHa.
        + by exists "", (String c s). }
    destruct (nullable a); rewrite ?matches_alt_, ?matches_alt, matches_seq_; naive_solver.
  - by rewrite matches_alt_, !matches_alt, IHa, IHb.
  - rewrite matches_seq_, matches_seq, matches_star_cons.
    split; intros (x & y & -> & Hx & Hy); exists x, y; by rewrite IH in *.
Qed.

Lemma re_test_spec r s : re_test r s = true <-> matches r s.
Proof.
  revert r; induction s as [|c s IH]; intros r; cbn [re_test]; [apply nullable_spec|].
  by rewrite IH, deriv_spec.
Qed.

(** ** Expressions over a class *)

Lemma matches_up_to p n s :
  matches (UpTo n (Class_ p)) s <-> all_chars p s = true /\ (String.length s <= n)%nat.
Proof.
  revert s; induction n as [|n IH]; intros s; cbn [UpTo].
  - rewrite matches_empty. destruct s; simpl; [naive_solver|]. split; [done|]. intros []. lia.
  - rewrite matches_opt, matches_seq. split.
    + intros [->|(x & y & -> & (c & -> & Hc)%matches_class & (Hy & ?)%IH)]; [split; [done|simpl; lia]|].
      simpl. rewrite Hc, Hy. split; [done|lia].
    + destruct s as [|c s]; [by left|]. simpl. intros [[Hc Hs]%andb_true_iff Hl]. right.
      exists (String c ""), s. repeat split; [by constructor|]. apply IH. split; [done|lia].
Qed.

Lemma matches_star_class p s : matches (Star (Class_ p)) s <-> all_chars p s = true.
Proof.
  induction s as [|c s IH]; simpl; [split; [done|constructor]|].
  rewrite matches_star_cons, andb_true_iff. split.
  - intros (a & b & -> & (d & [= <- ->] & Hc)%matches_class & Hb). by rewrite <- IH.
  - intros [Hc Hs]. exists "", s. repeat split; [by constructor | by apply IH].
Qed.
