(* ===== verification/JsNumber.v ===== *)
(** JavaScript numbers: binary64 values, [Number(text)] and [String(number)].

    A finite number is an integer or a dyadic fraction, so that
    [Number.isInteger] is a constructor test.  Rounding is to nearest, ties to
    even, with the binary64 precision and range.  The two zeros are one. *)
From S2P Require Import Prelude JsString.
#[local] Open Scope Z_scope.

(** [Frac m k] is [m / 2^k] in lowest terms, [k > 0]. *)
Inductive num := NaN | Inf (neg : bool) | Int (n : Z) | Frac (m k : Z).

#[export] Instance num_eq_dec : EqDecision num.
Proof. solve_decision. Defined.

(** [m * 2^e] as a number, exactly. *)
Definition dyadic (m e : Z) : num :=
  if 0 <=? e then Int (m * 2 ^ e)
  else
    let g := Z.gcd m (2 ^ (- e)) in
    let k := - e - Z.log2 g in
    if k =? 0 then Int (m / g) else Frac (m / g) k.

(** [n / d] to an integer, ties to even. *)
Definition div_even (n d : Z) : Z :=
  let q := n / d in
  match Z.compare (2 * (n mod d)) d with
  | Lt => q
  | Gt => q + 1
  | Eq => if Z.even q then q else q + 1
  end.

(** The binary64 number nearest to [n / d], for [n >= 0] and [d > 0]. *)
Definition round_ratio (n d : Z) : num :=
  if n =? 0 then Int 0 else
  let e0 := Z.log2 n - Z.log2 d - 52 in
  let scaled e := (n * 2 ^ Z.max 0 (- e), d * 2 ^ Z.max 0 e) in
  let e1 := if (let '(a, b) := scaled e0 in a <? b * 2 ^ 52) then e0 - 1 else e0 in
  let e := Z.max e1 (-1074) in
  let '(a, b) := scaled e in
  let m := div_even a b in
  if (2 ^ 1024 <=? m * 2 ^ Z.max 0 e) then Inf false else dyadic m e.

Definition negate (x : num) : num :=
  match x with
  | NaN => NaN
  | Inf b => Inf (negb b)
  | Int n => Int (- n)
  | Frac m k => Frac (- m) k
  end.

(** The number nearest to [ds * 10^x].  Past 400 decimal places either way
    the result is already settled, and the powers are not computed. *)
Definition of_decimal (ds x : Z) : num :=
  if ds =? 0 then Int 0
  else if 400 <? x then Inf false
  else if x + Z.log2 ds <? -1200 then Int 0
  else if 0 <=? x then round_ratio (ds * 10 ^ x) 1
  else round_ratio ds (10 ^ (- x)).

(** ** Comparison *)

Definition ratio (x : num) : option (Z * Z) :=
  match x with
  | Int n => Some (n, 1)
  | Frac m k => Some (m, 2 ^ k)
  | NaN | Inf _ => None
  end.

(** [x < y]. *)
Definition num_lt (x y : num) : bool :=
  match x, y with
  | NaN, _ | _, NaN => false
  | Inf a, Inf b => (a && negb b)%bool
  | Inf a, _ => a
  | _, Inf b => negb b
  | _, _ =>
      match ratio x, ratio y with
      | Some (a, b), Some (c, d) => a * d <? c * b
      | _, _ => false
      end
  end.

Definition num_le (x y : num) : bool :=
  match x, y with
  | NaN, _ | _, NaN => false
  | _, _ => negb (num_lt y x)
  end.

(** [Number.isInteger]. *)
Definition is_integer (x : num) : bool := match x with Int _ => true | _ => false end.

(** [Number.isFinite]. *)
Definition is_finite (x : num) : bool :=
  match x with Int _ | Frac _ _ => true | NaN | Inf _ => false end.

Definition MAX_SAFE_INTEGER : Z := 2 ^ 53 - 1.

(** [Number.isSafeInteger]. *)
Definition is_safe_integer (x : num) : bool :=
  match x with Int n => Z.abs n <=? MAX_SAFE_INTEGER | _ => false end.

(** [Math.ceil]. *)
Definition ceil (x : num) : num :=
  match x with
  | Frac m k => Int (- ((- m) / 2 ^ k))
  | _ => x
  end.

(** [x / d] for a positive integer [d]. *)
Definition num_div (x : num) (d : Z) : num :=
  match ratio x with
  | Some (a, b) =>
      if a <? 0 then negate (round_ratio (- a) (b * d)) else round_ratio a (b * d)
  | None => x
  end.

(** [d * x] for a positive integer [d]. *)
Definition num_mul (d : Z) (x : num) : num :=
  match ratio x with
  | Some (a, b) =>
      if a <? 0 then negate (round_ratio (- a * d) b) else round_ratio (a * d) b
  | None => x
  end.

(** [x % d === 0] for a positive integer [d]. *)
Definition divisible (x : num) (d : Z) : bool :=
  match x with Int n => n mod d =? 0 | _ => false end.

(** ** [Number(text)] *)

Fixpoint span_digits (s : string) : string * string :=
  match s with
  | String c s' =>
      if is_digit c then let '(ds, r) := span_digits s' in (String c ds, r) else ("", s)
  | "" => ("", "")
  end.

(** An exponent part, [e] or [E] with an optional sign and at least one
    digit; the exponent and what is left. *)
Definition exponent_part (s : string) : option (Z * string) :=
  match s with
  | String c s' =>
      if (bool_decide (c = "e"%char) || bool_decide (c = "E"%char))%bool then
        let '(neg, s'') :=
          match s' with
          | String "-" r => (true, r)
          | String "+" r => (false, r)
          | _ => (false, s')
          end in
        match span_digits s'' with
        | ("", _) => None
        | (ds, r) => Some (if neg then - digits_value ds else digits_value ds, r)
        end
      else Some (0, s)
  | "" => Some (0, "")
  end.

(** An unsigned decimal literal that takes the whole text: digits, an
    optional fraction, an optional exponent. *)
Definition decimal_literal (s : string) : num :=
  let '(ip, r) := span_digits s in
  let '(fp, r') := match r with String "." r1 => span_digits r1 | _ => ("", r) end in
  if bool_decide (ip +:+ fp = "") then NaN
  else match exponent_part r' with
       | Some (x, "") => of_decimal (digits_value (ip +:+ fp)) (x - Z.of_nat (String.length fp))
       | _ => NaN
       end.

Definition signed_literal (s : string) : num :=
  if decide (s = "Infinity") then Inf false else decimal_literal s.

Definition digit_of (c : ascii) : option Z :=
  if is_digit c then Some (Z.of_N (code c) - 48)
  else if is_lower c then Some (Z.of_N (code c) - 87)
  else if is_upper c then Some (Z.of_N (code c) - 55)
  else None.

(** The digits of a [0x], [0o] or [0b] literal, all of them or none. *)
Fixpoint radix_value (radix acc : Z) (s : string) : option Z :=
  match s with
  | "" => Some acc
  | String c s' =>
      match digit_of c with
      | Some d => if d <? radix then radix_value radix (acc * radix + d) s' else None
      | None => None
      end
  end.

Definition radix_literal (radix : Z) (s : string) : num :=
  match s with
  | "" => NaN
  | _ => match radix_value radix 0 s with Some n => round_ratio n 1 | None => NaN end
  end.

(** [Number(text)]. *)
Definition to_number (text : string) : num :=
  match trim text with
  | "" => Int 0
  | String "0" (String "x" r) | String "0" (String "X" r) => radix_literal 16 r
  | String "0" (String "o" r) | String "0" (String "O" r) => radix_literal 8 r
  | String "0" (String "b" r) | String "0" (String "B" r) => radix_literal 2 r
  | String "-" r => negate (signed_literal r)
  | String "+" r => signed_literal r
  | r => signed_literal r
  end.

(** ** [String(number)] *)

Definition zeros (n : Z) : string := Nat.iter (Z.to_nat n) (String "0") "".

(** The decimal exponent [n] with [10^(n-1) <= a/b < 10^n]. *)
Fixpoint scale_down (fuel : nat) (a b : Z) : Z :=
  match fuel with
  | O => 0
  | S f => if a * 10 <? b then scale_down f (a * 10) b - 1 else 0
  end.
Definition decimal_exponent (a b : Z) : Z :=
  if b <=? a then Z.of_nat (String.length (string_of_Z (a / b)))
  else scale_down 400 a b.

(** The fewest digits that read back as the number: the digits [s], how many
    [k], and the exponent [n].  Rounding up to [10^k] is one digit and the next
    exponent. *)
Fixpoint shortest (fuel : nat) (k n : Z) (a b : Z) (x : num) : Z * Z * Z :=
  let s0 := div_even (a * 10 ^ Z.max 0 (k - n)) (b * 10 ^ Z.max 0 (n - k)) in
  let '(s, n') := if s0 =? 10 ^ k then (s0 / 10, n + 1) else (s0, n) in
  match fuel with
  | O => (s, k, n')
  | S f =>
      if decide (of_decimal s (n' - k) = x) then (s, k, n') else shortest f (k + 1) n a b x
  end.

(** Digits, their number [k] and the exponent [n], laid out as
    [Number::toString] does. *)
Definition layout (s k n : Z) : string :=
  let ds := string_of_Z s in
  if (k <=? n) && (n <=? 21) then ds +:+ zeros (n - k)
  else if (0 <? n) && (n <=? 21) then
    str_take (Z.to_nat n) ds +:+ "." +:+ str_drop (Z.to_nat n) ds
  else if (-6 <? n) && (n <=? 0) then "0." +:+ zeros (- n) +:+ ds
  else
    let x := n - 1 in
    let sign := if 0 <=? x then "+" else "-" in
    (match ds with
     | String d "" => String d ""
     | String d r => String d ("." +:+ r)
     | "" => ""
     end) +:+ "e" +:+ sign +:+ string_of_Z (Z.abs x).

Definition positive_to_string (a b : Z) (x : num) : string :=
  let '(s, k, n) := shortest 17 1 (decimal_exponent a b) a b x in
  layout s k n.

(** [String(x)]. *)
Definition num_to_string (x : num) : string :=
  match x with
  | NaN => "NaN"
  | Inf b => if b then "-Infinity" else "Infinity"
  | Int n =>
      if Z.abs n <? 10 ^ 21 then string_of_Z n
      else if n <? 0 then "-" +:+ positive_to_string (- n) 1 (Int (- n))
      else positive_to_string n 1 x
  | Frac m k =>
      if m <? 0 then "-" +:+ positive_to_string (- m) (2 ^ k) (Frac (- m) k)
      else positive_to_string m (2 ^ k) x
  end.

Example to_number_forms :
  map to_number ["8718"; " 8718 "; "0x1F"; "1e3"; "0.5"; "-3"; ""; "12a"; "1e400"; "8718.0"; ".5"; "5."; "."]
  = [Int 8718; Int 8718; Int 31; Int 1000; Frac 1 1; Int (-3); Int 0; NaN; Inf false; Int 8718; Frac 1 1; Int 5; NaN].
Proof. vm_compute. reflexivity. Qed.

Example number_strings :
  map (fun s => num_to_string (to_number s)) ["0.1"; "0.30000000000000004"; "1e21"; "1.5e-7"; "123456.789"; "5e-324"; "1e23"; "9007199254740993"]
  = ["0.1"; "0.30000000000000004"; "1e+21"; "1.5e-7"; "123456.789"; "5e-324"; "1e+23"; "9007199254740992"].
Proof. vm_compute. reflexivity. Qed.

(** ** Lemmas *)

Lemma span_digits_app ds rest :
  all_chars is_digit ds = true -> match rest with String c _ => is_digit c = false | "" => True end ->
  span_digits (ds +:+ rest) = (ds, rest).
Proof.
  intros Hd Hr. induction ds as [|c ds IH]; simpl in *.
  - destruct rest as [|c rest]; [done|]. simpl. by rewrite Hr.
  - apply andb_true_iff in Hd as [Hc Hd]. by rewrite Hc, IH.
Qed.

(** Dividing by a power of two is exact on safe integers. *)
Lemma round_ratio_exact m j : 0 <= m < 2 ^ 53 -> 0 <= j -> round_ratio (m * 2 ^ j) (2 ^ j) = Int m.
Proof.
  intros Hm Hj. unfold round_ratio. assert (0 < 2 ^ j) by (apply Z.pow_pos_nonneg; lia).
  case_match eqn:E; [f_equal; nia|]. assert (0 < m) as Hm0 by nia.
  rewrite Z.log2_mul_pow2, Z.log2_pow2 by done.
  set (t := 52 - Z.log2 m). assert (0 <= Z.log2 m <= 52) as Hl.
  { split; [apply Z.log2_nonneg|]. apply Z.lt_succ_r, Z.log2_lt_pow2; lia. }
  replace (j + Z.log2 m - j - 52) with (- t) by lia.
  assert (0 <= t) by lia. assert (0 < 2 ^ t) by (apply Z.pow_pos_nonneg; lia).
  assert (2 ^ 52 <= m * 2 ^ t) as Hbig.
  { replace (2 ^ 52) with (2 ^ Z.log2 m * 2 ^ t) by (rewrite <- Z.pow_add_r by lia; f_equal; lia).
    apply Z.mul_le_mono_nonneg_r; [lia|]. by apply Z.log2_spec. }
  rewrite Z.opp_involutive. rewrite (Z.max_r 0 t), (Z.max_l 0 (- t)) by lia.
  rewrite Z.pow_0_r, Z.mul_1_r.
  replace (m * 2 ^ j * 2 ^ t <? 2 ^ j * 2 ^ 52) with false.
  2:{ symmetry. apply Z.ltb_ge. replace (m * 2 ^ j * 2 ^ t) with (2 ^ j * (m * 2 ^ t)) by ring.
      apply Z.mul_le_mono_nonneg_l; lia. }
  rewrite (Z.max_l (- t)) by lia. rewrite Z.opp_involutive, (Z.max_r 0 t), (Z.max_l 0 (- t)) by lia.
  rewrite Z.pow_0_r, !Z.mul_1_r.
  assert (div_even (m * 2 ^ j * 2 ^ t) (2 ^ j) = m * 2 ^ t) as ->.
  { unfold div_even. replace (m * 2 ^ j * 2 ^ t) with (m * 2 ^ t * 2 ^ j) by ring.
    rewrite Z.div_mul, Z.mod_mul by lia. rewrite Z.mul_0_r. destruct (Z.compare_spec 0 (2 ^ j)); [lia|done|lia]. }
  assert (m * 2 ^ t < 2 ^ 106) as Hup.
  { apply (Z.lt_le_trans _ (2 ^ 53 * 2 ^ t)); [nia|]. rewrite <- Z.pow_add_r by lia. apply Z.pow_le_mono_r; lia. }
  replace (2 ^ 1024 <=? m * 2 ^ t) with false.
  2:{ symmetry. apply Z.leb_gt. eapply Z.lt_le_trans; [exact Hup|]. apply Z.pow_le_mono_r; lia. }
  unfold dyadic. destruct (0 <=? - t) eqn:Et.
  - assert (t = 0) as -> by lia. f_equal. simpl. lia.
  - rewrite Z.opp_involutive. rewrite Z.gcd_comm, (Z.mul_comm m), Z.gcd_mul_diag_l, Z.log2_pow2 by lia.
    rewrite Z.sub_diag. simpl. f_equal. rewrite Z.mul_comm. apply Z.div_mul. lia.
Qed.

(** A divisor of a power of two is one. *)
Lemma divides_pow2 g s : 0 <= g -> 0 <= s -> (g | 2 ^ s) -> 2 ^ Z.log2 g = g.
Proof.
  intros Hg Hs. revert g Hg. pattern s. revert s Hs. apply natlike_ind.
  - intros g Hg Hd. by apply Z.divide_1_r_nonneg in Hd as ->.
  - intros s Hs IH g Hg. rewrite Z.pow_succ_r by done. intros Hd.
    destruct (Z.Even_or_Odd g) as [[h ->]|Hodd].
    + apply Z.mul_divide_cancel_l in Hd; [|done]. assert (2 ^ Z.log2 h = h) as IHh by (apply IH; lia || done).
      assert (0 < h) by (rewrite <- IHh; apply Z.pow_pos_nonneg; [lia | apply Z.log2_nonneg]).
      rewrite Z.log2_double, Z.pow_succ_r by (done || apply Z.log2_nonneg). lia.
    + apply IH; [done|]. apply (Z.gauss _ 2); [done|].
      destruct Hodd as [h ->]. rewrite Z.gcd_comm, Z.add_comm, Z.mul_comm, Z.gcd_add_mult_diag_r. done.
Qed.

Lemma ceil_dyadic m s : 0 <= s -> ceil (dyadic m (- s)) = Int (- (- m / 2 ^ s)).
Proof.
  intros Hs. unfold dyadic. destruct (0 <=? - s) eqn:E.
  - assert (s = 0) as -> by lia. simpl. f_equal. rewrite Z.div_1_r. lia.
  - rewrite Z.opp_involutive. assert (0 < 2 ^ s) as Hp by (apply Z.pow_pos_nonneg; lia).
    set (g := Z.gcd m (2 ^ s)). assert (2 ^ Z.log2 g = g) as Hg
      by (apply (divides_pow2 g s); [apply Z.gcd_nonneg | done | apply Z.gcd_divide_r]).
    assert ((g | m)) as [x Hx] by apply Z.gcd_divide_l.
    assert (0 < g) as Hg0 by (rewrite <- Hg; apply Z.pow_pos_nonneg; [lia | apply Z.log2_nonneg]).
    assert (Z.log2 g <= s) as Hle.
    { rewrite <- (Z.log2_pow2 s) by done. apply Z.log2_le_mono. apply Z.divide_pos_le; [done|apply Z.gcd_divide_r]. }
    assert (2 ^ s = 2 ^ (s - Z.log2 g) * g) as Hsplit
      by (rewrite <- Hg at 2; rewrite <- Z.pow_add_r by (pose proof (Z.log2_nonneg g); lia); f_equal; lia).
    rewrite Hsplit, Hx, Z.div_mul by lia. rewrite <- Z.mul_opp_l, Z.div_mul_cancel_r by
      (try lia; pose proof (Z.pow_pos_nonneg 2 (s - Z.log2 g)); lia).
    destruct (s - Z.log2 g =? 0) eqn:Ez; simpl; f_equal.
    assert (s - Z.log2 g = 0) as -> by lia. rewrite Z.div_1_r. lia.
Qed.

Lemma div_even_near n d : 0 < d -> Z.abs (2 * (div_even n d * d - n)) <= d.
Proof.
  intros Hd. unfold div_even. pose proof (Z.div_mod n d). pose proof (Z.mod_pos_bound n d).
  destruct (Z.compare_spec (2 * (n mod d)) d); [case_match|..]; nia.
Qed.

(** A third of a safe integer, rounded up, is exact: the binary64 quotient
    rounds, but never across an integer. *)
Lemma ceil_third n : 0 <= n < 2 ^ 53 -> ceil (round_ratio n 3) = Int ((n + 2) / 3).
Proof.
  intros Hn. unfold round_ratio. destruct (n =? 0) eqn:E0; [assert (n = 0) as -> by lia; done|].
  assert (0 <= Z.log2 n <= 52) as Hl.
  { split; [apply Z.log2_nonneg|]. apply Z.lt_succ_r, Z.log2_lt_pow2; lia. }
  change (Z.log2 3) with 1. match goal with |- context [if ?b then ?x - 1 else ?x] => set (e1 := if b then x - 1 else x) end.
  assert (exists s, e1 = - s /\ 1 <= s <= 54) as (s & -> & Hs).
  { exists (- e1). split; [lia|]. unfold e1. case_match; lia. }
  rewrite (Z.max_l (- s)) by lia. rewrite Z.opp_involutive, (Z.max_r 0 s), (Z.max_l 0 (- s)) by lia.
  rewrite Z.pow_0_r, !Z.mul_1_r. set (m := div_even (n * 2 ^ s) 3).
  pose proof (div_even_near (n * 2 ^ s) 3) as Hm. fold m in Hm.
  assert (2 <= 2 ^ s) as HP by (change 2 with (2 ^ 1) at 1; apply Z.pow_le_mono_r; lia).
  assert (m < 2 ^ 1024) as Hbig.
  { apply (Z.le_lt_trans _ (n * 2 ^ s)); [nia|]. apply (Z.lt_le_trans _ (2 ^ 53 * 2 ^ s)); [nia|].
    rewrite <- Z.pow_add_r by lia. apply Z.pow_le_mono_r; lia. }
  replace (2 ^ 1024 <=? m) with false by (symmetry; by apply Z.leb_gt).
  rewrite ceil_dyadic by lia. f_equal. clearbody m. clear Hbig. revert Hm HP. generalize (2 ^ s). intros P Hm HP.
  assert (- m / P = - ((n + 2) / 3)) as ->; [|lia].
  symmetry. apply (Z.div_unique _ _ _ (((n + 2) / 3) * P - m)); [|lia]. left.
  pose proof (Z.div_mod (n + 2) 3). pose proof (Z.mod_pos_bound (n + 2) 3). nia.
Qed.

(** Four times a safe integer is exact. *)
Lemma round_quadruple c : 0 <= c < 2 ^ 53 -> round_ratio (4 * c) 1 = Int (4 * c).
Proof.
  intros Hc. destruct (Z.lt_ge_cases (4 * c) (2 ^ 53)) as [Hs|Hb].
  { pose proof (round_ratio_exact (4 * c) 0) as He. rewrite Z.pow_0_r, Z.mul_1_r in He. apply He; lia. }
  assert (Z.log2 (4 * c) = 53 \/ Z.log2 (4 * c) = 54) as Hl.
  { assert (53 <= Z.log2 (4 * c)) by (by apply Z.log2_le_pow2; lia).
    assert (Z.log2 (4 * c) < 55) by (apply Z.log2_lt_pow2; lia). lia. }
  pose proof (Z.log2_spec (4 * c) ltac:(lia)) as [Hlow _].
  unfold round_ratio. destruct (4 * c =? 0) eqn:E0; [lia|]. change (Z.log2 1) with 0.
  assert (forall j, j = 1 \/ j = 2 -> div_even (4 * c) (2 ^ j) * 2 ^ j = 4 * c) as Hd.
  { intros j Hj. unfold div_even. pose proof (Z.div_mod (4 * c) (2 ^ j)).
    assert ((4 * c) mod 2 ^ j = 0) as Hm0 by (destruct Hj as [-> | ->]; rewrite Z.mul_comm;
      [change 4 with (2 * 2); rewrite Z.mul_assoc|]; apply Z.mod_mul; lia).
    rewrite Hm0. destruct Hj as [-> | ->]; simpl; lia. }
  assert (4 * c < 2 ^ 1024) as Hbig by (apply (Z.lt_trans _ (2 ^ 60)); [lia | by apply Z.pow_lt_mono_r]).
  apply Z.leb_gt in Hbig.
  destruct Hl as [Hl|Hl]; rewrite Hl in Hlow |- *.
  - change (53 - 0 - 52) with 1. change (Z.max 0 (- (1))) with 0. change (Z.max 0 1) with 1.
    destruct (_ <? _) eqn:E; [apply Z.ltb_lt in E; lia|]. change (Z.max 1 (-1074)) with 1.
    change (Z.max 0 (- (1))) with 0. change (Z.max 0 1) with 1. rewrite Z.mul_1_r, Z.mul_1_l, Hd, Hbig by lia.
    unfold dyadic. change (0 <=? 1) with true. by rewrite Hd by lia.
  - change (54 - 0 - 52) with 2. change (Z.max 0 (- (2))) with 0. change (Z.max 0 2) with 2.
    destruct (_ <? _) eqn:E; [apply Z.ltb_lt in E; lia|]. change (Z.max 2 (-1074)) with 2.
    change (Z.max 0 (- (2))) with 0. change (Z.max 0 2) with 2. rewrite Z.mul_1_r, Z.mul_1_l, Hd, Hbig by lia.
    unfold dyadic. change (0 <=? 2) with true. by rewrite Hd by lia.
Qed.
