(* ===== verification/Encoding.v ===== *)
(** The codecs the adapter takes from its platform: UTF-8 ([TextDecoder],
    [Buffer.from(s, 'utf8')]), base64 ([Buffer]) and percent encoding
    ([encodeURIComponent]).  A [Uint8Array] is a list of octets; since a string
    is its UTF-8 encoding, [utf8_encode] only changes the type. *)
From S2P Require Import Prelude JsString.
#[local] Open Scope N_scope.

Abbreviation bytes := (list ascii) (only parsing).

Definition utf8_encode : string -> bytes := String.list_ascii_of_string.
Definition string_of_bytes : bytes -> string := String.string_of_list_ascii.

(** ** UTF-8 *)

(** One code point, encoded. *)
Definition encode_cp (cp : N) : bytes :=
  if cp <? 128 then [chr cp]
  else if cp <? 2048 then [chr (192 + cp / 64); chr (128 + cp mod 64)]
  else if cp <? 65536 then
    [chr (224 + cp / 4096); chr (128 + cp / 64 mod 64); chr (128 + cp mod 64)]
  else
    [chr (240 + cp / 262144); chr (128 + cp / 4096 mod 64);
     chr (128 + cp / 64 mod 64); chr (128 + cp mod 64)].

Definition encode_cps (cps : list N) : bytes := concat (map encode_cp cps).

(** The decoder of the Encoding Standard between two octets: idle, or inside
    a sequence with the code point so far, how many octets are still due and
    the bounds the next one must respect. *)
Inductive utf8_state := Idle | Pending (cp : N) (due : nat) (lo hi : N).

Definition first_octet (x : N) : list (option N) * utf8_state :=
  if x <? 128 then ([Some x], Idle)
  else if (194 <=? x) && (x <=? 223) then ([], Pending (x - 192) 1 128 191)
  else if (224 <=? x) && (x <=? 239) then
    ([], Pending (x - 224) 2 (if x =? 224 then 160 else 128) (if x =? 237 then 159 else 191))
  else if (240 <=? x) && (x <=? 244) then
    ([], Pending (x - 240) 3 (if x =? 240 then 144 else 128) (if x =? 244 then 143 else 191))
  else ([None], Idle).

(** One octet: the code points it completes ([None] is a decoding error) and
    the next state.  An octet out of bounds ends the sequence with an error
    and is then taken as a first octet. *)
Definition utf8_step (st : utf8_state) (c : ascii) : list (option N) * utf8_state :=
  let x := code c in
  match st with
  | Idle => first_octet x
  | Pending cp due lo hi =>
      if (lo <=? x) && (x <=? hi) then
        let cp' := cp * 64 + (x - 128) in
        match due with
        | S (S d) => ([], Pending cp' (S d) 128 191)
        | _ => ([Some cp'], Idle)
        end
      else let '(out, st') := first_octet x in (None :: out, st')
  end.

Fixpoint utf8_run (st : utf8_state) (bs : bytes) : list (option N) * utf8_state :=
  match bs with
  | [] => ([], st)
  | c :: bs' =>
      let '(o1, st1) := utf8_step st c in
      let '(o2, st2) := utf8_run st1 bs' in ((o1 ++ o2)%list, st2)
  end.

(** The error a flush reports for a sequence cut short. *)
Definition utf8_flush (st : utf8_state) : list (option N) :=
  match st with Idle => [] | Pending _ _ _ _ => [None] end.

(** [new TextDecoder('utf-8', { fatal: true, ignoreBOM: true }).decode(bs)],
    [None] when it throws. *)
Definition decode_fatal (bs : bytes) : option string :=
  let '(out, st) := utf8_run Idle bs in
  cps ← mapM id (out ++ utf8_flush st)%list;
  Some (string_of_bytes (encode_cps cps)).

(** A replacing [TextDecoder] between chunks: the decoder and whether the byte
    order mark can no longer come. *)
Record text_decoder := { td_state : utf8_state; td_started : bool }.

Definition new_text_decoder : text_decoder := {| td_state := Idle; td_started := false |}.

Definition replace_errors (out : list (option N)) : list N :=
  map (default 65533) out.

Definition strip_bom (started : bool) (cps : list N) : list N :=
  match cps with
  | cp :: rest => if negb started && (cp =? 65279) then rest else cps
  | [] => []
  end.

Definition emit (d : text_decoder) (cps : list N) : string :=
  string_of_bytes (encode_cps (strip_bom (td_started d) cps)).

(** [decoder.decode(chunk, { stream: true })]. *)
Definition decode_stream (d : text_decoder) (chunk : bytes) : string * text_decoder :=
  let '(out, st) := utf8_run (td_state d) chunk in
  let cps := replace_errors out in
  (emit d cps,
   {| td_state := st; td_started := td_started d || negb (bool_decide (cps = [])) |}).

(** A whole body as text, as [response.text()] decodes it. *)
Definition decode_text (bs : bytes) : string :=
  let '(out, st) := utf8_run Idle bs in
  emit new_text_decoder (replace_errors (out ++ utf8_flush st)%list).

(** [buffer.toString('utf8')]: a leading byte order mark stays. *)
Definition buffer_text (bs : bytes) : string :=
  let '(out, st) := utf8_run Idle bs in
  string_of_bytes (encode_cps (replace_errors (out ++ utf8_flush st)%list)).

(** ** Base64 *)

Definition sextet_char (v : N) : ascii :=
  if v <? 26 then chr (65 + v)
  else if v <? 52 then chr (71 + v)
  else if v <? 62 then chr (v - 4)
  else if v =? 62 then "+" else "/".

(** Both alphabets read back. *)
Definition sextet_value (c : ascii) : option N :=
  let x := code c in
  if is_upper c then Some (x - 65)
  else if is_lower c then Some (x - 71)
  else if is_digit c then Some (x + 4)
  else if (x =? 43) || (x =? 45) then Some 62
  else if (x =? 47) || (x =? 95) then Some 63
  else None.

(** [Buffer.from(bs).toString('base64')]. *)
Fixpoint base64_encode (bs : bytes) : string :=
  match bs with
  | a :: b :: c :: rest =>
      let n := code a * 65536 + code b * 256 + code c in
      String (sextet_char (n / 262144)) (String (sextet_char (n / 4096 mod 64))
        (String (sextet_char (n / 64 mod 64)) (String (sextet_char (n mod 64))
          (base64_encode rest))))
  | [a; b] =>
      let n := code a * 256 + code b in
      String (sextet_char (n / 1024)) (String (sextet_char (n / 16 mod 64))
        (String (sextet_char (n mod 16 * 4)) "="))
  | [a] =>
      let n := code a in
      String (sextet_char (n / 4)) (String (sextet_char (n mod 4 * 16)) "==")
  | [] => ""
  end.

(** The digits of a base64 text: up to a [=], skipping what is no digit. *)
Fixpoint sextets (s : string) : list N :=
  match s with
  | "" => []
  | String c s' =>
      if decide (c = "="%char) then []
      else match sextet_value c with
           | Some v => v :: sextets s'
           | None => sextets s'
           end
  end.

Fixpoint bytes_of_sextets (l : list N) : bytes :=
  match l with
  | a :: b :: c :: d :: rest =>
      chr (a * 4 + b / 16) :: chr (b mod 16 * 16 + c / 4) :: chr (c mod 4 * 64 + d)
        :: bytes_of_sextets rest
  | [a; b; c] => [chr (a * 4 + b / 16); chr (b mod 16 * 16 + c / 4)]
  | [a; b] => [chr (a * 4 + b / 16)]
  | _ => []
  end.

(** [Buffer.from(s, 'base64')]. *)
Definition base64_decode (s : string) : bytes := bytes_of_sextets (sextets s).

(** ** Percent encoding and hexadecimal *)

Definition hex_char (upper : bool) (v : N) : ascii :=
  if v <? 10 then chr (48 + v) else chr ((if upper then 55 else 87) + v).

Definition hex_value (c : ascii) : option N :=
  let x := code c in
  if is_digit c then Some (x - 48)
  else if ascii_in 65 70 c then Some (x - 55)
  else if ascii_in 97 102 c then Some (x - 87)
  else None.

(** [digest('hex')] of a digest. *)
Definition hex (bs : bytes) : string :=
  string_of_bytes
    (concat (map (fun c => [hex_char false (code c / 16); hex_char false (code c mod 16)]) bs)).

Definition uri_unreserved (c : ascii) : bool :=
  (is_alnum c || bool_decide (c ∈ String.list_ascii_of_string "-_.!~*'()"))%bool.

Definition percent_char (c : ascii) : string :=
  if uri_unreserved c then String c ""
  else String "%" (String (hex_char true (code c / 16)) (String (hex_char true (code c mod 16)) "")).

(** [encodeURIComponent(s)]. *)
Definition encode_uri_component (s : string) : string := map_chars percent_char s.

(** How a server reads a query parameter back, [None] when it is malformed. *)
Fixpoint percent_decode (s : string) : option string :=
  match s with
  | "" => Some ""
  | String "%" (String a (String b s')) =>
      x ← hex_value a; y ← hex_value b; r ← percent_decode s'; Some (String (chr (x * 16 + y)) r)
  | String "%" _ => None
  | String c s' => r ← percent_decode s'; Some (String c r)
  end.

(** ** The codecs are inverse *)

Lemma code_lt c : code c < 256.
Proof. apply N_ascii_bounded. Qed.

Lemma chr_code c : chr (code c) = c.
Proof. apply ascii_N_embedding. Qed.

Lemma code_chr n : n < 256 -> code (chr n) = n.
Proof. apply N_ascii_embedding. Qed.

Lemma utf8_encode_string bs : utf8_encode (string_of_bytes bs) = bs.
Proof. apply String.list_ascii_of_string_of_list_ascii. Qed.

Lemma string_of_utf8 s : string_of_bytes (utf8_encode s) = s.
Proof. apply String.string_of_list_ascii_of_string. Qed.

Lemma utf8_run_app st xs ys :
  utf8_run st (xs ++ ys)%list =
  let '(o1, st1) := utf8_run st xs in
  let '(o2, st2) := utf8_run st1 ys in ((o1 ++ o2)%list, st2).
Proof.
  revert st; induction xs as [|c xs IH]; intros st; simpl.
  - by destruct (utf8_run st ys).
  - destruct (utf8_step st c) as [o1 st1]. rewrite IH.
    destruct (utf8_run st1 xs) as [o2 st2], (utf8_run st2 ys) as [o3 st3].
    by rewrite app_assoc.
Qed.

(** What the held octets [p] of an unfinished sequence promise: any octets in
    bounds that complete it are, after [p], the encoding of the code point. *)
Fixpoint held (due : nat) (p : bytes) (cp lo hi : N) : Prop :=
  forall c, lo <= code c <= hi ->
  let cp' := cp * 64 + (code c - 128) in
  match due with
  | S (S _ as d) => held d (p ++ [c])%list cp' 128 191
  | _ => encode_cp cp' = (p ++ [c])%list
  end.

Definition held_state (p : bytes) (st : utf8_state) : Prop :=
  match st with
  | Idle => p = []
  | Pending cp due lo hi => held due p cp lo hi
  end.

Ltac chr_eq :=
  repeat match goal with
  | |- _ :: _ = _ :: _ => f_equal
  | |- chr _ = ?c => transitivity (chr (code c)); [f_equal; dlia | apply chr_code]
  | |- [] = [] => reflexivity
  end.

Lemma encode_cp_1 c : code c < 128 -> encode_cp (code c) = [c].
Proof. intros H. unfold encode_cp. destruct (N.ltb_spec (code c) 128); [|lia]. by rewrite chr_code. Qed.

Lemma held_first c st :
  first_octet (code c) = ([], st) -> held_state [c] st.
Proof.
  unfold first_octet.
  destruct (N.ltb_spec (code c) 128); [done|].
  destruct ((194 <=? code c) && (code c <=? 223)) eqn:H2.
  { intros [= <-]. intros d Hd. simpl. unfold encode_cp.
    destruct (N.ltb_spec ((code c - 192) * 64 + (code d - 128)) 128); [lia|].
    destruct (N.ltb_spec ((code c - 192) * 64 + (code d - 128)) 2048); [|lia].
    chr_eq. }
  destruct ((224 <=? code c) && (code c <=? 239)) eqn:H3.
  { intros [= <-] d Hd cp1 e He.
    assert (128 <= code d <= 191 /\ (code c = 224 -> 160 <= code d)) as [Hd1 Hd2]
      by (revert Hd; destruct (N.eqb_spec (code c) 224), (N.eqb_spec (code c) 237); lia).
    simpl. unfold encode_cp, cp1. set (u := (_ * 64 + (code e - 128))).
    assert (u = (code c - 224) * 4096 + (code d - 128) * 64 + (code e - 128)) as Hu by (unfold u; lia).
    assert (2048 <= u < 65536) by lia.
    destruct (N.ltb_spec u 128); [lia|]. destruct (N.ltb_spec u 2048); [lia|].
    destruct (N.ltb_spec u 65536); [|lia]. chr_eq. }
  destruct ((240 <=? code c) && (code c <=? 244)) eqn:H4; [|done].
  intros [= <-] d Hd cp1 e He cp2 f Hf.
  assert (128 <= code d <= 191 /\ (code c = 240 -> 144 <= code d)) as [Hd1 Hd2]
    by (revert Hd; destruct (N.eqb_spec (code c) 240), (N.eqb_spec (code c) 244); lia).
  simpl. unfold encode_cp, cp2, cp1. set (u := (_ * 64 + (code f - 128))).
  assert (u = (code c - 240) * 262144 + (code d - 128) * 4096 + (code e - 128) * 64 + (code f - 128))
    as Hu by (unfold u; lia).
  assert (65536 <= u) by lia.
  destruct (N.ltb_spec u 128); [lia|]. destruct (N.ltb_spec u 2048); [lia|].
  destruct (N.ltb_spec u 65536); [lia|]. chr_eq.
Qed.

Lemma first_octet_cases c :
  first_octet (code c) = ([None], Idle)
  \/ (first_octet (code c) = ([Some (code c)], Idle) /\ code c < 128)
  \/ exists st, first_octet (code c) = ([], st) /\ st <> Idle.
Proof.
  unfold first_octet. destruct (N.ltb_spec (code c) 128); [naive_solver|].
  repeat (case_match; [right; right; eexists; by split|]). by left.
Qed.

(** One octet without an error: what it completes, encoded, is the held
    octets and itself. *)
Lemma utf8_step_held p st c out st' :
  held_state p st -> utf8_step st c = (out, st') -> Forall is_Some out ->
  exists q, held_state q st' /\ (encode_cps (omap id out) ++ q = p ++ [c])%list.
Proof.
  intros Hp Hs Hout. destruct st as [|cp due lo hi]; simpl in *.
  - subst p. destruct (first_octet_cases c) as [E|[[E Hc]|(st1 & E & Hst)]];
      rewrite E in Hs; injection Hs as <- <-.
    + by inversion Hout as [|?? [] ?].
    + exists []. simpl. unfold encode_cps. simpl. rewrite encode_cp_1 by done. by rewrite !app_nil_r.
    + exists [c]. split; [by apply held_first | done].
  - destruct ((lo <=? code c) && (code c <=? hi)) eqn:Hb.
    + destruct due as [|[|d]]; simpl in Hp; injection Hs as <- <-; specialize (Hp c ltac:(lia)).
      * exists []. simpl. unfold encode_cps. simpl. rewrite Hp. by rewrite !app_nil_r.
      * exists []. simpl. unfold encode_cps. simpl. rewrite Hp. by rewrite !app_nil_r.
      * by exists (p ++ [c])%list.
    + destruct (first_octet (code c)) as [o s]. injection Hs as <- <-.
      by inversion Hout as [|?? [] ?].
Qed.

Lemma utf8_run_held bs p st out st' :
  held_state p st -> utf8_run st bs = (out, st') -> Forall is_Some out ->
  exists q, held_state q st' /\ (encode_cps (omap id out) ++ q = p ++ bs)%list.
Proof.
  revert p st out; induction bs as [|c bs IH]; intros p st out Hp Hr Hout; simpl in Hr.
  - injection Hr as <- <-. exists p. by rewrite app_nil_r.
  - destruct (utf8_step st c) as [o1 s1] eqn:E1, (utf8_run s1 bs) as [o2 s2] eqn:E2.
    injection Hr as <- <-. apply Forall_app in Hout as [H1 H2].
    destruct (utf8_step_held p st c o1 s1) as (q & Hq & Hq'); [done..|].
    destruct (IH q s1 o2) as (r & Hr & Hr'); [done..|].
    exists r. split; [done|]. rewrite omap_app. unfold encode_cps in *.
    rewrite map_app, concat_app, <- app_assoc, Hr', app_assoc, Hq', <- app_assoc. done.
Qed.

Lemma mapM_id_Some {A} (l : list (option A)) k :
  mapM id l = Some k -> Forall is_Some l /\ omap id l = k.
Proof.
  rewrite mapM_Some. induction 1 as [|x y l k Hx _ [IH1 IH2]]; [done|].
  simpl in Hx. subst x. split; [by constructor | by rewrite <- IH2].
Qed.

(** A fatal decode that succeeds loses nothing: its text encodes back to the
    octets it read. *)
Lemma decode_fatal_inv bs s : decode_fatal bs = Some s -> utf8_encode s = bs.
Proof.
  unfold decode_fatal. destruct (utf8_run Idle bs) as [out st] eqn:E.
  intros (cps & [Hall Hcps]%mapM_id_Some & [= <-])%bind_Some.
  apply Forall_app in Hall as [Hout Hfl].
  destruct (utf8_run_held bs [] Idle out st) as (q & Hq & Hr); [done..|].
  destruct st; [|by inversion Hfl as [|?? [] ?]].
  simpl in Hq. subst q cps. rewrite utf8_encode_string.
  rewrite omap_app. simpl. by rewrite app_nil_r in *.
Qed.

Lemma sextet_roundtrip v : v < 64 ->
  sextet_value (sextet_char v) = Some v /\ sextet_char v <> "="%char.
Proof.
  intros H.
  assert (Forall (fun n => sextet_value (sextet_char (N.of_nat n)) = Some (N.of_nat n)
                          /\ sextet_char (N.of_nat n) <> "="%char) (seq 0 64)) as Hall.
  { by repeat (constructor; [vm_compute; split; [reflexivity | discriminate]|]). }
  rewrite list.Forall_forall in Hall. specialize (Hall (N.to_nat v)).
  rewrite N2Nat.id in Hall. apply Hall, elem_of_seq. lia.
Qed.

Lemma sextets_cons v s : v < 64 -> sextets (String (sextet_char v) s) = v :: sextets s.
Proof.
  intros [H1 H2]%sextet_roundtrip. simpl. by rewrite decide_False, H1.
Qed.

(** A list of octets, three at a time. *)
Lemma triples_ind (P : bytes -> Prop) :
  P [] -> (forall a, P [a]) -> (forall a b, P [a; b]) ->
  (forall a b c l, P l -> P (a :: b :: c :: l)) -> forall l, P l.
Proof.
  intros H0 H1 H2 H3. fix IH 1. intros [|a [|b [|c l]]]; [exact H0 | apply H1 | apply H2 |].
  apply H3, IH.
Qed.

Lemma base64_roundtrip bs : base64_decode (base64_encode bs) = bs.
Proof.
  unfold base64_decode. induction bs as [|a|a b|a b c l IH] using triples_ind; cbn [base64_encode].
  - done.
  - pose proof (code_lt a). rewrite !sextets_cons by dlia. simpl. chr_eq.
  - pose proof (code_lt a). pose proof (code_lt b). rewrite !sextets_cons by dlia. simpl. chr_eq.
  - pose proof (code_lt a). pose proof (code_lt b). pose proof (code_lt c).
    rewrite !sextets_cons by dlia. cbn [bytes_of_sextets]. rewrite IH. chr_eq.
Qed.

Lemma hex_value_char v u : v < 16 -> hex_value (hex_char u v) = Some v.
Proof.
  intros H.
  assert (Forall (fun n => forall u, hex_value (hex_char u (N.of_nat n)) = Some (N.of_nat n)) (seq 0 16)) as Hall.
  { by repeat (constructor; [by intros []|]). }
  rewrite list.Forall_forall in Hall. specialize (Hall (N.to_nat v)).
  rewrite N2Nat.id in Hall. apply Hall, elem_of_seq. lia.
Qed.

Lemma percent_decode_plain c s :
  c <> "%"%char -> percent_decode (String c s) = r ← percent_decode s; Some (String c r).
Proof. intros H. destruct c as [[] [] [] [] [] [] [] []]; done. Qed.

Lemma percent_roundtrip s : percent_decode (encode_uri_component s) = Some s.
Proof.
  unfold encode_uri_component. induction s as [|c s IH]; [done|]. cbn [map_chars].
  unfold percent_char. destruct (uri_unreserved c) eqn:Hu.
  - change (percent_decode (String c (map_chars percent_char s)) = Some (String c s)).
    rewrite percent_decode_plain; [by rewrite IH|]. intros ->. discriminate Hu.
  - pose proof (code_lt c).
    change ((x ← hex_value (hex_char true (code c / 16)); y ← hex_value (hex_char true (code c mod 16));
             r ← percent_decode (map_chars percent_char s); Some (String (chr (x * 16 + y)) r))
            = Some (String c s)).
    rewrite !hex_value_char by dlia. simpl. rewrite IH. simpl. do 2 f_equal. chr_eq.
Qed.

(** ** Decoding in chunks *)

Lemma string_of_bytes_app xs ys :
  string_of_bytes (xs ++ ys)%list = string_of_bytes xs +:+ string_of_bytes ys.
Proof. induction xs as [|c xs IH]; simpl; [done | by rewrite <- IH]. Qed.

Lemma encode_cps_app xs ys : encode_cps (xs ++ ys)%list = (encode_cps xs ++ encode_cps ys)%list.
Proof. unfold encode_cps. by rewrite map_app, concat_app. Qed.

Lemma strip_bom_app b xs ys :
  strip_bom b (xs ++ ys)%list
  = (strip_bom b xs ++ strip_bom (b || negb (bool_decide (xs = []))) ys)%list.
Proof.
  destruct xs as [|x xs]; simpl; [by rewrite orb_false_r|].
  rewrite orb_true_r.
  assert (strip_bom true ys = ys) as -> by by destruct ys.
  by destruct (negb b && (x =? 65279)).
Qed.

(** Where a chunk ends does not matter to the text, a cut inside a character
    or before the byte order mark included. *)
Lemma decode_stream_app d xs ys :
  decode_stream d (xs ++ ys)%list =
  let '(t1, d1) := decode_stream d xs in
  let '(t2, d2) := decode_stream d1 ys in (t1 +:+ t2, d2).
Proof.
  unfold decode_stream, emit. rewrite utf8_run_app.
  destruct (utf8_run (td_state d) xs) as [o1 s1] eqn:E1. simpl.
  destruct (utf8_run s1 ys) as [o2 s2] eqn:E2. simpl. unfold replace_errors. f_equal.
  - by rewrite map_app, strip_bom_app, encode_cps_app, string_of_bytes_app.
  - rewrite map_app. f_equal. rewrite <- orb_assoc. f_equal.
    by destruct (map (default 65533) o1).
Qed.

Lemma decode_stream_nil d : decode_stream d [] = ("", d).
Proof. unfold decode_stream, emit. simpl. rewrite orb_false_r. by destruct d. Qed.
