(* ===== verification/Sha256.v ===== *)
(** SHA-256 and HMAC-SHA256, as [createHash('sha256')] and
    [createHmac('sha256', key)] of [node:crypto] compute them. *)
From S2P Require Import Prelude JsString Encoding.
#[local] Open Scope N_scope.

Definition w32 (n : N) : N := N.land n 4294967295.
Definition add32 (a b : N) : N := w32 (a + b).
Definition rotr (n : N) (x : N) : N := N.lor (N.shiftr x n) (w32 (N.shiftl x (32 - n))).

(** The constants are made as the standard defines them: the first 32 bits of
    the fractional parts of the cube roots, and for the initial state of the
    square roots, of the first primes. *)
Definition prime (n : N) : bool :=
  forallb (fun d => negb (N.eqb (n mod N.of_nat d) 0)) (seq 2 (N.to_nat (N.sqrt n) - 1)).
Definition primes : list N := List.filter prime (map N.of_nat (seq 2 310)).

(** The largest [r] below [2^bits] above [acc] with [r^3 <= x]. *)
Fixpoint cube_root_bits (bits : nat) (acc x : N) : N :=
  match bits with
  | O => acc
  | S b =>
      let r := acc + 2 ^ N.of_nat b in
      cube_root_bits b (if r * r * r <=? x then r else acc) x
  end.
Definition cube_root_fraction (p : N) : N := w32 (cube_root_bits 36 0 (p * 2 ^ 96)).
Definition square_root_fraction (p : N) : N := w32 (N.sqrt (p * 2 ^ 64)).

Definition round_constants : list N := Eval vm_compute in map cube_root_fraction primes.
Definition initial_words : list N := Eval vm_compute in map square_root_fraction (take 8 primes).

(** The eight working variables. *)
Record hash_state := H8 { ha : N; hb : N; hc : N; hd : N; he : N; hf : N; hg : N; hh : N }.

Definition state_of (ws : list N) : hash_state :=
  let w i := nth i ws 0 in
  H8 (w 0%nat) (w 1%nat) (w 2%nat) (w 3%nat) (w 4%nat) (w 5%nat) (w 6%nat) (w 7%nat).
Definition initial_state : hash_state := state_of initial_words.

(** One round, with its constant and its word of the schedule. *)
Definition sha_round (h : hash_state) (k w : N) : hash_state :=
  let s1 := N.lxor (rotr 6 (he h)) (N.lxor (rotr 11 (he h)) (rotr 25 (he h))) in
  let ch := N.lxor (N.land (he h) (hf h)) (N.land (N.lxor (he h) 4294967295) (hg h)) in
  let t1 := w32 (hh h + s1 + ch + k + w) in
  let s0 := N.lxor (rotr 2 (ha h)) (N.lxor (rotr 13 (ha h)) (rotr 22 (ha h))) in
  let maj := N.lxor (N.land (ha h) (hb h)) (N.lxor (N.land (ha h) (hc h)) (N.land (hb h) (hc h))) in
  H8 (add32 t1 (add32 s0 maj)) (ha h) (hb h) (hc h) (add32 (hd h) t1) (he h) (hf h) (hg h).

(** The next word from the last sixteen, and the window moved by one. *)
Definition next_word (win : list N) : N :=
  let w i := nth i win 0 in
  let s0 x := N.lxor (rotr 7 x) (N.lxor (rotr 18 x) (N.shiftr x 3)) in
  let s1 x := N.lxor (rotr 17 x) (N.lxor (rotr 19 x) (N.shiftr x 10)) in
  w32 (w 0%nat + s0 (w 1%nat) + w 9%nat + s1 (w 14%nat)).

Fixpoint sha_rounds (ks : list N) (win : list N) (h : hash_state) : hash_state :=
  match ks with
  | [] => h
  | k :: ks' =>
      sha_rounds ks' (tail win ++ [next_word win])%list (sha_round h k (nth 0 win 0))
  end.

Fixpoint words_of (bs : bytes) : list N :=
  match bs with
  | a :: b :: c :: d :: rest =>
      code a * 16777216 + code b * 65536 + code c * 256 + code d :: words_of rest
  | _ => []
  end.

Definition compress (h : hash_state) (block : list N) : hash_state :=
  let r := sha_rounds round_constants block h in
  H8 (add32 (ha h) (ha r)) (add32 (hb h) (hb r)) (add32 (hc h) (hc r)) (add32 (hd h) (hd r))
     (add32 (he h) (he r)) (add32 (hf h) (hf r)) (add32 (hg h) (hg r)) (add32 (hh h) (hh r)).

Fixpoint sha_blocks (fuel : nat) (ws : list N) (h : hash_state) : hash_state :=
  match fuel, ws with
  | S f, _ :: _ => sha_blocks f (drop 16 ws) (compress h (take 16 ws))
  | _, _ => h
  end.

Definition be_octets (n : nat) (x : N) : bytes :=
  map (fun i => chr (N.land (N.shiftr x (8 * N.of_nat (n - 1 - i))) 255)) (seq 0 n).

(** The message with its padding: a one bit, zeros, and its length in bits. *)
Definition sha_pad (bs : bytes) : bytes :=
  let l := length bs in
  let z := ((119 - l mod 64) mod 64)%nat in
  (bs ++ chr 128 :: replicate z (chr 0) ++ be_octets 8 (8 * N.of_nat l))%list.

Definition sha256 (bs : bytes) : bytes :=
  let ws := words_of (sha_pad bs) in
  let h := sha_blocks (length ws) ws initial_state in
  concat (map (be_octets 4) [ha h; hb h; hc h; hd h; he h; hf h; hg h; hh h]).

Definition xor_key (pad : N) (key : bytes) : bytes :=
  map (fun c => chr (N.lxor (code c) pad)) (key ++ replicate (64 - length key) (chr 0))%list.

Definition hmac_sha256 (key msg : bytes) : bytes :=
  let k := if (length key <=? 64)%nat then key else sha256 key in
  sha256 (xor_key 92 k ++ sha256 (xor_key 54 k ++ msg))%list.

Example sha256_abc :
  hex (sha256 (utf8_encode "abc")) = "ba7816bf8f01cfea414140de5dae2223b00361a396177a9cb410ff61f20015ad".
Proof. vm_compute. reflexivity. Qed.

Example sha256_two_blocks :
  hex (sha256 (utf8_encode "abcdbcdecdefdefgefghfghighijhijkijkljklmklmnlmnomnopnopq"))
  = "248d6a61d20638b8e5c026930c3e6039a33ce45964ff2167f6ecedd419db06c1".
Proof. vm_compute. reflexivity. Qed.

Example hmac_rfc4231_2 :
  hex (hmac_sha256 (utf8_encode "Jefe") (utf8_encode "what do ya want for nothing?"))
  = "5bdcc146bf60754e6a042426089575c75a003f089d2739839dec58b964ec3843".
Proof. vm_compute. reflexivity. Qed.

Lemma sha256_length bs : length (sha256 bs) = 32%nat.
Proof. done. Qed.

(** ** Hexadecimal digests *)

Definition is_hex (c : ascii) : bool := (is_digit c || ascii_in 97 102 c)%bool.

Lemma is_hex_char v : v < 16 -> is_hex (hex_char false v) = true.
Proof.
  intros H.
  assert (Forall (fun n => is_hex (hex_char false (N.of_nat n)) = true) (seq 0 16)) as Hall
    by by repeat constructor.
  rewrite list.Forall_forall in Hall. specialize (Hall (N.to_nat v)).
  rewrite N2Nat.id in Hall. apply Hall, elem_of_seq. lia.
Qed.

Lemma hex_cons c bs :
  hex (c :: bs)
  = String (hex_char false (code c / 16)) (String (hex_char false (code c mod 16)) (hex bs)).
Proof. done. Qed.

Lemma hex_is_hex bs : all_chars is_hex (hex bs) = true.
Proof.
  induction bs as [|c bs IH]; [done|]. rewrite hex_cons. pose proof (code_lt c). simpl.
  by rewrite !is_hex_char, IH by dlia.
Qed.

Lemma hex_length bs : String.length (hex bs) = (2 * length bs)%nat.
Proof. induction bs as [|c bs IH]; [done|]. rewrite hex_cons. simpl. lia. Qed.
