(* ===== verification/Json.v ===== *)
(** JSON values, [JSON.parse] and [JSON.stringify], and plain objects used as
    maps.

    An object is the association list of its own properties in JavaScript's
    order: array indices ascending, then the other keys as they were added. *)
From Stdlib Require Sorting.Sorted.
From S2P Require Import Prelude JsString JsNumber Encoding.

(** ** Plain objects *)

Abbreviation obj V := (list (string * V)) (only parsing).

(** A key that is an array index, in canonical form. *)
Definition array_index (k : string) : option Z :=
  if (negb (bool_decide (k = "")) && all_chars is_digit k
      && (bool_decide (k = "0") || negb (starts_with "0" k))
      && (digits_value k <? 4294967295)%Z)%bool
  then Some (digits_value k) else None.

Definition key_precedes (k k' : string) : bool :=
  match array_index k, array_index k' with
  | Some i, Some j => (i <? j)%Z
  | Some _, None => true
  | None, _ => false
  end.

(** [o[k]] among the own properties. *)
Fixpoint obj_get {V} (k : string) (o : obj V) : option V :=
  match o with
  | [] => None
  | (k', v) :: o' => if decide (k = k') then Some v else obj_get k o'
  end.

(** The own property [k] created or overwritten, as an object literal, a
    spread or [JSON.parse] does. *)
Fixpoint obj_define {V} (k : string) (v : V) (o : obj V) : obj V :=
  match o with
  | [] => [(k, v)]
  | (k', v') :: o' =>
      if decide (k = k') then (k, v) :: o'
      else if key_precedes k k' then (k, v) :: o
      else (k', v') :: obj_define k v o'
  end.

(** [o[k] = v] for a [v] that is a string: [__proto__] names the inherited
    setter, which ignores a string. *)
Definition obj_assign {V} (k : string) (v : V) (o : obj V) : obj V :=
  if decide (k = "__proto__") then o else obj_define k v o.

(** [{ ...o, ...o' }]. *)
Definition obj_spread {V} (o o' : obj V) : obj V :=
  foldl (fun acc kv => obj_define (fst kv) (snd kv) acc) o o'.

(** [map.set(k, v)] of a [Map]: insertion order, a key set again keeps its
    place. *)
Fixpoint map_set {V} (k : string) (v : V) (m : list (string * V)) : list (string * V) :=
  match m with
  | [] => [(k, v)]
  | (k', v') :: m' => if decide (k = k') then (k, v) :: m' else (k', v') :: map_set k v m'
  end.

Definition obj_keys {V} (o : obj V) : list string := map fst o.
Definition obj_values {V} (o : obj V) : list V := map snd o.

(** What every plain object inherits from [Object.prototype], which a read
    [o[k]] finds when [k] is no own property. *)
Definition object_prototype_keys : list string :=
  ["__proto__"; "constructor"; "hasOwnProperty"; "isPrototypeOf"; "propertyIsEnumerable";
   "toLocaleString"; "toString"; "valueOf"; "__defineGetter__"; "__defineSetter__";
   "__lookupGetter__"; "__lookupSetter__"].

(** ** Values *)

Inductive json :=
| JNull
| JBool (b : bool)
| JNum (n : num)
| JStr (s : string)
| JArr (l : list json)
| JObj (o : list (string * json)).

Definition dquote : ascii := chr 34.
Definition backslash : ascii := chr 92.

(** ** [JSON.stringify] *)

(** One character inside a JSON string. *)
Definition json_escape (c : ascii) : string :=
  if decide (c = dquote) then String backslash (String dquote "")
  else if decide (c = backslash) then String backslash (String backslash "")
  else if N.ltb (code c) 32 then
    String backslash
      (match N.to_nat (code c) with
       | 8%nat => "b" | 9%nat => "t" | 10%nat => "n" | 12%nat => "f" | 13%nat => "r"
       | _ => "u00" +:+ String (hex_char false (code c / 16)) (String (hex_char false (code c mod 16)) "")
       end)
  else String c "".

(** [JSON.stringify(s)] of a string. *)
Definition json_quote (s : string) : string :=
  String dquote (map_chars json_escape s +:+ String dquote "").

Fixpoint json_stringify (v : json) : string :=
  match v with
  | JNull => "null"
  | JBool b => if b then "true" else "false"
  | JNum n => if is_finite n then num_to_string n else "null"
  | JStr s => json_quote s
  | JArr l => "[" +:+ join "," (map json_stringify l) +:+ "]"
  | JObj o =>
      "{" +:+ join "," (map (fun '(k, x) => json_quote k +:+ ":" +:+ json_stringify x) o) +:+ "}"
  end.

(** ** [JSON.parse] *)

Definition json_ws (c : ascii) : bool :=
  (N.eqb (code c) 32 || N.eqb (code c) 9 || N.eqb (code c) 10 || N.eqb (code c) 13)%bool.

Fixpoint skip_ws (s : string) : string :=
  match s with
  | String c s' => if json_ws c then skip_ws s' else s
  | "" => ""
  end.

(** [s] without the literal [p] it starts with. *)
Definition expect (p s : string) : option string :=
  if starts_with p s then Some (str_drop (String.length p) s) else None.

Definition hex4 (a b c d : ascii) : option N :=
  w ← hex_value a; x ← hex_value b; y ← hex_value c; z ← hex_value d;
  Some (((w * 16 + x) * 16 + y) * 16 + z)%N.

Definition high_surrogate (u : N) : bool := (N.leb 55296 u && N.leb u 56319)%bool.
Definition low_surrogate (u : N) : bool := (N.leb 56320 u && N.leb u 57343)%bool.

Definition cp_string (cp : N) : string := string_of_bytes (encode_cp cp).

Definition simple_escape (c : ascii) : option ascii :=
  if decide (c = dquote) then Some dquote
  else if decide (c = backslash) then Some backslash
  else if decide (c = "/"%char) then Some "/"%char
  else if decide (c = "b"%char) then Some (chr 8)
  else if decide (c = "f"%char) then Some (chr 12)
  else if decide (c = "n"%char) then Some (chr 10)
  else if decide (c = "r"%char) then Some (chr 13)
  else if decide (c = "t"%char) then Some (chr 9)
  else None.

(** The rest of a string after its opening quote, and what follows its
    closing one.  A lone surrogate, which has no UTF-8 encoding, becomes
    U+FFFD. *)
Fixpoint parse_chars (s : string) : option (string * string) :=
  match s with
  | "" => None
  | String c s1 =>
      if decide (c = dquote) then Some ("", s1)
      else if decide (c = backslash) then
        match s1 with
        | String "u" (String a (String b (String x (String y s2)))) =>
            u ← hex4 a b x y;
            match s2 with
            | String e (String "u" (String a' (String b' (String x' (String y' s3))))) =>
                match (if decide (e = backslash) then hex4 a' b' x' y' else None) with
                | Some u' =>
                    if (high_surrogate u && low_surrogate u')%bool then
                      '(t, r) ← parse_chars s3;
                      Some (cp_string (65536 + (u - 55296) * 1024 + (u' - 56320))%N +:+ t, r)
                    else
                      '(t, r) ← parse_chars s2;
                      Some (cp_string (if (high_surrogate u || low_surrogate u)%bool then 65533 else u) +:+ t, r)
                | None =>
                    '(t, r) ← parse_chars s2;
                    Some (cp_string (if (high_surrogate u || low_surrogate u)%bool then 65533 else u) +:+ t, r)
                end
            | _ =>
                '(t, r) ← parse_chars s2;
                Some (cp_string (if (high_surrogate u || low_surrogate u)%bool then 65533 else u) +:+ t, r)
            end
        | String e s2 =>
            x ← simple_escape e; '(t, r) ← parse_chars s2; Some (String x t, r)
        | "" => None
        end
      else if N.ltb (code c) 32 then None
      else '(t, r) ← parse_chars s1; Some (String c t, r)
  end.

(** A number: no leading zero, a digit on both sides of the point. *)
Definition parse_number (s : string) : option (num * string) :=
  let '(neg, s1) := match s with String "-" r => (true, r) | _ => (false, s) end in
  let '(ip, r1) := span_digits s1 in
  if (bool_decide (ip = "") || (starts_with "0" ip && negb (bool_decide (ip = "0"))))%bool then None
  else
    frac ← match r1 with
           | String "." r2 =>
               match span_digits r2 with
               | ("", _) => None
               | (ds, r3) => Some (ds, r3)
               end
           | _ => Some ("", r1)
           end;
    let '(fp, r2) := frac in
    '(x, r3) ← exponent_part r2;
    let n := of_decimal (digits_value (ip +:+ fp)) (x - Z.of_nat (String.length fp)) in
    Some (if neg then negate n else n, r3).

Fixpoint parse_value (fuel : nat) (s : string) : option (json * string) :=
  match fuel with
  | O => None
  | S f =>
      match skip_ws s with
      | String "[" r =>
          match skip_ws r with
          | String "]" r' => Some (JArr [], r')
          | _ => '(l, r') ← parse_elements f r; Some (JArr l, r')
          end
      | String "{" r =>
          match skip_ws r with
          | String "}" r' => Some (JObj [], r')
          | _ => '(o, r') ← parse_members f [] r; Some (JObj o, r')
          end
      | String "n" r => r' ← expect "ull" r; Some (JNull, r')
      | String "t" r => r' ← expect "rue" r; Some (JBool true, r')
      | String "f" r => r' ← expect "alse" r; Some (JBool false, r')
      | String c r as s' =>
          if decide (c = dquote) then '(t, r') ← parse_chars r; Some (JStr t, r')
          else '(n, r') ← parse_number s'; Some (JNum n, r')
      | "" => None
      end
  end
with parse_elements (fuel : nat) (s : string) : option (list json * string) :=
  match fuel with
  | O => None
  | S f =>
      '(v, r) ← parse_value f s;
      match skip_ws r with
      | String "," r' => '(l, r'') ← parse_elements f r'; Some (v :: l, r'')
      | String "]" r' => Some ([v], r')
      | _ => None
      end
  end
with parse_members (fuel : nat) (acc : obj json) (s : string) : option (obj json * string) :=
  match fuel with
  | O => None
  | S f =>
      match skip_ws s with
      | String c r =>
          if decide (c = dquote) then
            '(k, r1) ← parse_chars r;
            match skip_ws r1 with
            | String ":" r2 =>
                '(v, r3) ← parse_value f r2;
                let acc' := obj_define k v acc in
                match skip_ws r3 with
                | String "," r4 => parse_members f acc' r4
                | String "}" r4 => Some (acc', r4)
                | _ => None
                end
            | _ => None
            end
          else None
      | "" => None
      end
  end.

(** [JSON.parse(text)], [None] when it throws.  Every call consumes a
    character or ends, and a value takes two calls per level. *)
Definition json_parse (text : string) : option json :=
  match parse_value (S (2 * String.length text)) text with
  | Some (v, r) => if decide (skip_ws r = "") then Some v else None
  | None => None
  end.

(** ** Reading a value's shape *)

(** [typeof v === 'object' && v !== null]; an array is one. *)
Definition is_object (v : json) : bool :=
  match v with JArr _ | JObj _ => true | _ => false end.

(** [v.k]: [None] for [undefined].  An array has none of the properties read. *)
Definition prop (k : string) (v : json) : option json :=
  match v with JObj o => obj_get k o | _ => None end.

Definition as_string (v : option json) : option string :=
  match v with Some (JStr s) => Some s | _ => None end.

(** ** Lemmas *)

Lemma obj_get_define {V} k k' (v : V) o :
  obj_get k (obj_define k' v o) = if decide (k = k') then Some v else obj_get k o.
Proof.
  induction o as [|[k1 v1] o IH]; simpl; [done|].
  destruct (decide (k' = k1)) as [->|Hne]; simpl; [by case_decide|].
  destruct (key_precedes k' k1); simpl; [done|]. rewrite IH.
  repeat case_decide; by simplify_eq.
Qed.

Lemma obj_get_not_in {V} k (o : obj V) : k ∉ obj_keys o -> obj_get k o = None.
Proof.
  induction o as [|[k1 v1] o IH]; simpl; [done|]. intros H.
  rewrite decide_False by set_solver. apply IH. set_solver.
Qed.

Lemma obj_get_spread {V} k (o o' : obj V) :
  NoDup (obj_keys o') ->
  obj_get k (obj_spread o o') = match obj_get k o' with Some v => Some v | None => obj_get k o end.
Proof.
  unfold obj_spread. revert o; induction o' as [|[k1 v1] o' IH]; intros o Hnd; simpl; [done|].
  apply list.NoDup_cons in Hnd as [Hk Hnd]. rewrite IH by done. rewrite obj_get_define.
  case_decide as Heq; [|done]. subst k1. by rewrite obj_get_not_in.
Qed.

Lemma obj_get_In {V} k (o : obj V) v : obj_get k o = Some v -> (k, v) ∈ o.
Proof.
  induction o as [|[k1 v1] o IH]; simpl; [done|].
  case_decide; [intros [= <-]; subst; left | right; auto].
Qed.

#[export] Hint Rewrite @obj_get_define : hubr.

Lemma obj_define_Forall {V} (P : string * V -> Prop) k v o :
  P (k, v) -> Forall P o -> Forall P (obj_define k v o).
Proof.
  intros Hkv. induction 1 as [|[k' v'] o Hx Ho IH]; simpl; [by repeat constructor|].
  case_decide; [by constructor|]. destruct (key_precedes k k'); by repeat constructor.
Qed.

Lemma obj_define_keys {V} k (v : V) o x :
  x ∈ obj_keys (obj_define k v o) <-> x = k \/ x ∈ obj_keys o.
Proof.
  induction o as [|[k' v'] o IH]; simpl; [set_solver|].
  case_decide; [subst; simpl; set_solver|]. destruct (key_precedes k k'); simpl; [set_solver|].
  rewrite !elem_of_cons, IH. set_solver.
Qed.

Lemma map_set_keys {V} k (v : V) m x : x ∈ obj_keys (map_set k v m) <-> x = k \/ x ∈ obj_keys m.
Proof.
  induction m as [|[k' v'] m IH]; simpl; [set_solver|].
  case_decide; simpl; [subst; set_solver|]. rewrite !elem_of_cons, IH. set_solver.
Qed.

Lemma map_set_NoDup {V} k (v : V) m : NoDup (obj_keys m) -> NoDup (obj_keys (map_set k v m)).
Proof.
  induction m as [|[k' v'] m IH]; simpl; [repeat constructor; set_solver|].
  intros [Hk Hnd]%list.NoDup_cons. case_decide as Hd; simpl; [subst; by constructor|].
  constructor; [|auto]. rewrite map_set_keys. set_solver.
Qed.

Lemma obj_get_map_set {V} k k' (v : V) m :
  obj_get k (map_set k' v m) = if decide (k = k') then Some v else obj_get k m.
Proof.
  induction m as [|[k1 v1] m IH]; simpl; [done|].
  destruct (decide (k' = k1)) as [->|Hne]; simpl; [by case_decide|].
  rewrite IH. repeat case_decide; by simplify_eq.
Qed.

(** Property order: array indices ascending, and no key twice. *)
Definition in_order (k k' : string) : Prop := k <> k' /\ key_precedes k' k = false.
Definition wf_obj {V} (o : obj V) : Prop := Sorted.StronglySorted in_order (obj_keys o).

Lemma key_precedes_order k k' x : key_precedes k k' = true -> in_order k' x -> in_order k x.
Proof.
  unfold in_order, key_precedes. destruct (array_index k) as [i|] eqn:Ek; [|done].
  intros H1 [Hne H2]. destruct (array_index x) as [m|] eqn:Ex; [|naive_solver].
  destruct (array_index k') as [j|]; [|done]. split; [intros ->; simplify_eq|]; lia.
Qed.

Lemma wf_obj_define {V} k (v : V) o : wf_obj o -> wf_obj (obj_define k v o).
Proof.
  unfold wf_obj. induction o as [|[k' v'] o IH]; simpl; [repeat constructor|].
  intros [Hs Hk']%Sorted.StronglySorted_inv. case_decide as Hk; [subst; by constructor|].
  destruct (key_precedes k k') eqn:E; simpl; constructor; auto.
  - by constructor.
  - constructor.
    + split; [done|]. unfold key_precedes in *. repeat case_match; (done || lia).
    + eapply list.Forall_impl; [exact Hk'|]. intros x. by apply key_precedes_order.
  - apply list.Forall_forall. intros x [->|Hx]%obj_define_keys; [done|].
    by eapply list.Forall_forall in Hk'.
Qed.

Lemma wf_obj_NoDup {V} (o : obj V) : wf_obj o -> NoDup (obj_keys o).
Proof.
  unfold wf_obj. induction 1 as [|k ks _ IH Hk]; constructor; [|done].
  intros Hin. eapply list.Forall_forall in Hk; [|done]. by destruct Hk.
Qed.

Lemma wf_obj_assign {V} k (v : V) o : wf_obj o -> wf_obj (obj_assign k v o).
Proof. unfold obj_assign. case_decide; [done | apply wf_obj_define]. Qed.

Lemma wf_obj_spread {V} (o o' : obj V) : wf_obj o -> wf_obj (obj_spread o o').
Proof.
  unfold obj_spread. revert o; induction o' as [|[k v] o' IH]; intros o Ho; simpl; [done|].
  by apply IH, wf_obj_define.
Qed.

Lemma obj_assign_Forall {V} (P : string * V -> Prop) k v o :
  P (k, v) -> Forall P o -> Forall P (obj_assign k v o).
Proof. unfold obj_assign. case_decide; [done | by apply obj_define_Forall]. Qed.

Definition q (s : string) : string := replace_all "'" (String dquote "") s.

Example parse_forms :
  map json_parse [q "{'a': [1, 2.5e1, true], '10': null, '9': 'x\u00e9\n'}"; "nul"; "[1,]"; "01"; " [ ] "]
  = [Some (JObj [("9", JStr ("xé" +:+ String (chr 10) "")); ("10", JNull);
                 ("a", JArr [JNum (Int 1); JNum (Int 25); JBool true])]);
     None; None; None; Some (JArr [])].
Proof. vm_compute. reflexivity. Qed.

Example stringify_form :
  json_stringify (JObj [("a", JArr [JNum (Int 1); JStr "x'y"]); ("b", JNull)])
  = q "{'a':[1,'x" +:+ "'" +:+ q "y'],'b':null}".
Proof. vm_compute. reflexivity. Qed.
