(* ===== verification/Io.v ===== *)
(** Effectful code: programs over a shared state and the outside world.

    An [async] function is a tree of what it does: read the shared state of
    the process, change it, or make one call to the outside and wait for the
    answer.  Awaiting is where other code of the process may run, and happens
    only at a call.  [run] executes a program alone against a handler;
    [pool_step] interleaves any number of programs, each call being answered
    in any way at all. *)
From S2P Require Import Prelude JsString Encoding JsNumber Json.

(** ** HTTP, as [fetch] has it *)

(** A response body as it arrives: the chunks, and the error the stream ends
    with when it does not end cleanly.  A watch that would go on for ever is
    ended by the request's abort signal, so a body is finite. *)
Record body := { chunks : list (list ascii); ending : option err }.

Record response := { status : Z; statusText : string; content : option body }.

(** [response.ok]. *)
Definition ok_status (r : response) : bool := ((200 <=? status r) && (status r <=? 299))%Z%bool.

(** What a request carries: [JSON.stringify] of a value, or octets. *)
Inductive payload := JsonPayload (j : json) | RawPayload (b : list ascii).

(** [abort_ms] is when the request's abort signal fires, if one is armed. *)
Record request := {
  method : string;
  url : string;
  headers : obj string;
  payload_of : option payload;
  abort_ms : option Z
}.

(** The calls a program makes. [FetchAll] starts every request in order and
    waits as [Promise.all] does; [ReadTextFile] is [readFile(path, 'utf8')];
    [Now] is [Date.now()]; [Sleep] a timer; [Console] a line on the console. *)
Inductive console := console_log | console_warn | console_error.

Inductive io :=
| Fetch (r : request)
| FetchAll (rs : list request)
| ReadTextFile (path : string)
| Now
| Sleep (ms : Z)
| Console (to : console) (line : string).

(** The answers. A [FetchAll] is answered with what each request got and the
    order in which they settled. *)
Definition answer (c : io) : Type :=
  match c with
  | Fetch _ => result response
  | FetchAll _ => list (result response) * list nat
  | ReadTextFile _ => result string
  | Now => Z
  | Sleep _ => unit
  | Console _ _ => unit
  end.

(** ** Programs *)

Inductive prog (S A : Type) : Type :=
| Done (a : A)
| Get (k : S -> prog S A)
| Modify (f : S -> S) (k : prog S A)
| Call (c : io) (k : answer c -> prog S A).
Arguments Done {S A} a.
Arguments Get {S A} k.
Arguments Modify {S A} f k.
Arguments Call {S A} c k.

Fixpoint pbind {S A B} (p : prog S A) (k : A -> prog S B) : prog S B :=
  match p with
  | Done a => k a
  | Get g => Get (fun s => pbind (g s) k)
  | Modify f q => Modify f (pbind q k)
  | Call c g => Call c (fun r => pbind (g r) k)
  end.

(** A program that may throw. *)
Definition M (S A : Type) : Type := prog S (result A).

#[export] Instance M_ret S : MRet (M S) := fun _ a => Done (Ok a).
#[export] Instance M_bind S : MBind (M S) := fun _ _ k p =>
  pbind p (fun r => match r with Ok a => k a | Err e => Done (Err e) end).

Definition lift {S A} (r : result A) : M S A := Done r.
Definition call {S} (c : io) : prog S (answer c) := Call c Done.

(** The shared state read through a projection, and changed. *)
Definition gets {S A} (f : S -> A) : M S A := Get (fun s => Done (Ok (f s))).
Definition modify {S} (f : S -> S) : M S unit := Modify f (Done (Ok tt)).

(** [try { p } catch (e) { h(e) }]. *)
Definition try_catch {S A} (p : M S A) (h : err -> M S A) : M S A :=
  pbind p (fun r => match r with Ok a => Done (Ok a) | Err e => h e end).

Definition fetch {S} (r : request) : M S response := Call (Fetch r) Done.
Definition read_text_file {S} (path : string) : M S string := Call (ReadTextFile path) Done.
Definition now {S} : M S Z := Call Now (fun t => Done (Ok t)).
Definition sleep {S} (ms : Z) : M S unit := Call (Sleep ms) (fun _ => Done (Ok tt)).
Definition say {S} (to : console) (line : string) : M S unit := Call (Console to line) (fun _ => Done (Ok tt)).
Definition warn {S} (line : string) : M S unit := say console_warn line.

Fixpoint say_all {S} (to : console) (lines : list string) : M S unit :=
  match lines with [] => mret tt | l :: lines => say to l;; say_all to lines end.

(** A program over a part of the state. *)
Fixpoint zoom {S T A} (part : S -> T) (put : T -> S -> S) (p : prog T A) : prog S A :=
  match p with
  | Done a => Done a
  | Get k => Get (fun s => zoom part put (k (part s)))
  | Modify f k => Modify (fun s => put (f (part s)) s) (zoom part put k)
  | Call c k => Call c (fun r => zoom part put (k r))
  end.

(** ** Bodies read whole *)

(** What the model takes from the platform beyond the language: the message
    of the error [JSON.parse] throws on a text, and the protocol of a URL,
    [None] when [URL.canParse] refuses it. *)
Class Platform := {
  syntax_error : string -> string;
  url_protocol : string -> option string
}.

Definition body_bytes (b : body) : list ascii := concat (chunks b).

(** [response.text()]. *)
Definition text_of (r : response) : result string :=
  match content r with
  | None => Ok ""
  | Some b => match ending b with
              | Some e => Err e
              | None => Ok (decode_text (body_bytes b))
              end
  end.

(** [response.arrayBuffer()]. *)
Definition array_buffer (r : response) : result (list ascii) :=
  match content r with
  | None => Ok []
  | Some b => match ending b with Some e => Err e | None => Ok (body_bytes b) end
  end.

(** [JSON.parse(text)]. *)
Definition parse_json `{Platform} (text : string) : result json :=
  match json_parse text with
  | Some v => Ok v
  | None => throw (syntax_error text)
  end.

(** [response.json()]. *)
Definition json_of `{Platform} (r : response) : result json := text_of r ≫= parse_json.

(** [Promise.all]: the first to fail, in the order they settle, is the
    failure of all. *)
Fixpoint first_failure (outcomes : list (result unit)) (order : list nat) : result unit :=
  match order with
  | [] => Ok tt
  | i :: order' =>
      match outcomes !! i with Some (Err e) => Err e | _ => first_failure outcomes order' end
  end.

(** ** Running alone *)

Record outcome (S W A : Type) := {
  value : A;
  final : S;
  world : W;
  trace : list io
}.
Arguments value {S W A} _.
Arguments final {S W A} _.
Arguments world {S W A} _.
Arguments trace {S W A} _.

(** The outside: how each call is answered, and what that does to it. *)
Definition handler (W : Type) : Type := forall c : io, W -> answer c * W.

Fixpoint run {S W A} (h : handler W) (p : prog S A) (s : S) (w : W) : outcome S W A :=
  match p with
  | Done a => {| value := a; final := s; world := w; trace := [] |}
  | Get k => run h (k s) s w
  | Modify f k => run h k (f s) w
  | Call c k =>
      let '(r, w') := h c w in
      let o := run h (k r) s w' in
      {| value := value o; final := final o; world := world o; trace := c :: trace o |}
  end.

(** ** What holds of a program whatever the rest of the world does *)

(** Started among programs that keep [I], the program keeps [I] at every
    change of the shared state, makes only calls in [P], and returns a value
    in [Q]. *)
Fixpoint guarded {S A} (I : S -> Prop) (P : io -> Prop) (Q : A -> Prop) (p : prog S A) : Prop :=
  match p with
  | Done a => Q a
  | Get k => forall s, I s -> guarded I P Q (k s)
  | Modify f k => (forall s, I s -> I (f s)) /\ guarded I P Q k
  | Call c k => P c /\ forall r, guarded I P Q (k r)
  end.

(** The post-condition of a program that may throw: [Q] when it returns. *)
Definition returns {A} (Q : A -> Prop) (r : result A) : Prop :=
  match r with Ok a => Q a | Err _ => True end.

(** ** Interleaving *)

(** One atomic move of one program; a call may be answered in any way. *)
Inductive pstep {S A} : prog S A * S -> option io -> prog S A * S -> Prop :=
| step_get k s : pstep (Get k, s) None (k s, s)
| step_modify f k s : pstep (Modify f k, s) None (k, f s)
| step_call c k r s : pstep (Call c k, s) (Some c) (k r, s).

(** A process: its programs, its state, and the calls made so far. *)
Record pool (S A : Type) := { threads : list (prog S A); shared : S; calls : list io }.
Arguments threads {S A} _.
Arguments shared {S A} _.
Arguments calls {S A} _.

Inductive pool_step {S A} : pool S A -> pool S A -> Prop :=
| pool_move ts i p s cs l p' s' :
    ts !! i = Some p ->
    pstep (p, s) l (p', s') ->
    pool_step {| threads := ts; shared := s; calls := cs |}
              {| threads := <[i := p']> ts; shared := s';
                 calls := cs ++ option_list l |}.

(** ** Laws *)

Lemma pbind_assoc {S A B C} (p : prog S A) (f : A -> prog S B) (g : B -> prog S C) s0 (W : Type) (h : handler W) w :
  run h (pbind (pbind p f) g) s0 w = run h (pbind p (fun a => pbind (f a) g)) s0 w.
Proof.
  revert s0 w; induction p as [a|k IH|m k IH|c k IH]; intros s0 w; simpl; auto.
  destruct (h c w) as [r w']. by rewrite IH.
Qed.

Lemma run_pbind {S W A B} (h : handler W) (p : prog S A) (k : A -> prog S B) s w :
  run h (pbind p k) s w =
  let o := run h p s w in
  let o' := run h (k (value o)) (final o) (world o) in
  {| value := value o'; final := final o'; world := world o'; trace := trace o ++ trace o' |}.
Proof.
  revert s w; induction p as [a|k' IH|f p IH|c k' IH]; intros s w; simpl; auto.
  - by destruct (run h (k a) s w).
  - destruct (h c w) as [r w']. by rewrite IH.
Qed.

Section guarded.
Context {S : Type} (I : S -> Prop) (P : io -> Prop).

Lemma guarded_weaken {A} (P' : io -> Prop) (Q Q' : A -> Prop) p :
  (forall c, P c -> P' c) -> (forall a, Q a -> Q' a) ->
  guarded I P Q p -> guarded I P' Q' p.
Proof. intros HP HQ. induction p; simpl; naive_solver. Qed.

Lemma guarded_pbind {A B} (Q : A -> Prop) (R : B -> Prop) p k :
  guarded I P Q p -> (forall a, Q a -> guarded I P R (k a)) -> guarded I P R (pbind p k).
Proof. intros Hp Hk. induction p; simpl in *; naive_solver. Qed.

Lemma guarded_bind {A B} (Q : A -> Prop) (R : B -> Prop) (p : M S A) (k : A -> M S B) :
  guarded I P (returns Q) p -> (forall a, Q a -> guarded I P (returns R) (k a)) ->
  guarded I P (returns R) (p ≫= k).
Proof.
  intros Hp Hk. eapply guarded_pbind; [exact Hp|]. intros [a|e] Ha; [by apply Hk | done].
Qed.

(** What is kept by a program is kept by the first part of it. *)
Lemma guarded_pbind_inv {A B} (Q : B -> Prop) (p : prog S A) k :
  guarded I P Q (pbind p k) -> guarded I P (fun a => guarded I P Q (k a)) p.
Proof. induction p; simpl; naive_solver. Qed.

Lemma guarded_try {A} (Q : A -> Prop) (p : M S A) h :
  guarded I P (returns Q) p -> (forall e, guarded I P (returns Q) (h e)) ->
  guarded I P (returns Q) (try_catch p h).
Proof. intros Hp Hh. eapply guarded_pbind; [exact Hp|]. by intros [a|e] Ha. Qed.

Lemma guarded_lift {A} (Q : A -> Prop) r : returns Q r -> guarded I P (returns Q) (@lift S A r).
Proof. done. Qed.

Lemma guarded_gets {A} (Q : A -> Prop) (f : S -> A) :
  (forall s, I s -> Q (f s)) -> guarded I P (returns Q) (gets f).
Proof. done. Qed.

Lemma guarded_modify f : (forall s, I s -> I (f s)) -> guarded I P (returns (fun _ => True)) (modify f).
Proof. done. Qed.

Lemma guarded_fetch r : P (Fetch r) -> guarded I P (returns (fun _ => True)) (@fetch S r).
Proof. simpl. intros Hr. split; [done|]. by intros []. Qed.

(** Run alone, a guarded program keeps the invariant and makes only the
    calls it may, whatever the handler answers. *)
Lemma guarded_run {A W} (Q : A -> Prop) (h : handler W) p s w :
  guarded I P Q p -> I s ->
  let o := run h p s w in Q (value o) /\ I (final o) /\ Forall P (trace o).
Proof.
  revert s w; induction p as [a|k IH|f p IH|c k IH]; intros s w Hp Hs; simpl in *.
  - done.
  - by apply IH; [apply Hp|].
  - destruct Hp as [Hf Hp]. apply IH; auto.
  - destruct Hp as [Hc Hp]. destruct (h c w) as [r w'].
    destruct (IH r s w' (Hp r) Hs) as (H1 & H2 & H3).
    split_and!; [done|done|]. by constructor.
Qed.

(** One move of a guarded program. *)
Lemma guarded_step {A} (Q : A -> Prop) p s l p' s' :
  pstep (p, s) l (p', s') -> guarded I P Q p -> I s ->
  guarded I P Q p' /\ I s' /\ Forall P (option_list l).
Proof. inversion 1; subst; simpl; intros Hp Hs; split_and!; try constructor; naive_solver. Qed.
End guarded.

(** Whatever a program does, it does. *)
Lemma guarded_any {S A} (p : prog S A) : guarded (fun _ => True) (fun _ => True) (fun _ => True) p.
Proof. induction p; simpl; auto. Qed.

#[export] Hint Resolve guarded_lift guarded_gets guarded_modify guarded_fetch : hub.

Lemma run_bind {S W A B} (h : handler W) (p : M S A) (k : A -> M S B) s w :
  run h (p ≫= k) s w =
  let o := run h p s w in
  match value o with
  | Ok a =>
      let o' := run h (k a) (final o) (world o) in
      {| value := value o'; final := final o'; world := world o'; trace := trace o ++ trace o' |}
  | Err e => {| value := Err e; final := final o; world := world o; trace := trace o |}
  end.
Proof.
  unfold mbind, M_bind. rewrite run_pbind. simpl. destruct (value (run h p s w)); simpl; [done|].
  by rewrite app_nil_r.
Qed.

Lemma run_try {S W A} (h : handler W) (p : M S A) (k : err -> M S A) s w :
  run h (try_catch p k) s w =
  let o := run h p s w in
  match value o with
  | Ok a => {| value := Ok a; final := final o; world := world o; trace := trace o |}
  | Err e =>
      let o' := run h (k e) (final o) (world o) in
      {| value := value o'; final := final o'; world := world o'; trace := trace o ++ trace o' |}
  end.
Proof.
  unfold try_catch. rewrite run_pbind. simpl. destruct (value (run h p s w)); simpl; [|done].
  by rewrite app_nil_r.
Qed.

(** A bind that returned is both parts that did. *)
Lemma run_bind_Ok {S W A B} (h : handler W) (p : M S A) (k : A -> M S B) s w b :
  value (run h (p ≫= k) s w) = Ok b ->
  exists a, value (run h p s w) = Ok a /\
    let o := run h (k a) (final (run h p s w)) (world (run h p s w)) in
    value o = Ok b /\ final (run h (p ≫= k) s w) = final o /\ world (run h (p ≫= k) s w) = world o /\
    trace (run h (p ≫= k) s w) = trace (run h p s w) ++ trace o.
Proof. rewrite run_bind. cbn zeta. destruct (value (run h p s w)) as [a|e]; [|done]. intros Hv. by exists a. Qed.

(** A bind that returned, past a first part that keeps [I]. *)
Lemma past_kept {S A B W} (h : handler W) (I : S -> Prop) P (Q : A -> Prop) (p : M S A) (k : A -> M S B) s w b :
  guarded I P (returns Q) p -> I s -> value (run h (p ≫= k) s w) = Ok b ->
  exists a s' w' before, Q a /\ I s' /\ value (run h (k a) s' w') = Ok b /\
    final (run h (p ≫= k) s w) = final (run h (k a) s' w') /\
    trace (run h (p ≫= k) s w) = before ++ trace (run h (k a) s' w').
Proof.
  intros Hp Hs (a & Ha & Hv & Hf & _ & Ht)%run_bind_Ok.
  destruct (guarded_run I P _ h p s w Hp Hs) as (HQ & HI & _). rewrite Ha in HQ. by eexists a, _, _, _.
Qed.

(** ** A part of the state *)

Section zoom.
Context {S T : Type} (part : S -> T) (put : T -> S -> S).
Context (part_put : forall t s, part (put t s) = t).

Lemma run_zoom {W A} (h : handler W) (p : prog T A) s w :
  let o := run h p (part s) w in
  let o' := run h (zoom part put p) s w in
  value o' = value o /\ part (final o') = final o /\ world o' = world o /\ trace o' = trace o.
Proof.
  cbn zeta. revert s w. induction p as [a|k IH|f p IH|c k IH]; intros s w; cbn [zoom run]; [done|apply IH| |].
  - specialize (IH (put (f (part s)) s) w). by rewrite part_put in IH.
  - destruct (h c w) as [r w']. cbn [value final world trace]. destruct (IH r s w') as (-> & -> & -> & ->). done.
Qed.

(** Kept in the part, and in the rest whatever the part is put to. *)
Lemma guarded_zoom {A} (I : T -> Prop) (J : S -> Prop) P (Q : A -> Prop) (p : prog T A) :
  (forall s, J s -> I (part s)) -> (forall s t, J s -> I t -> J (put t s)) ->
  guarded I P Q p -> guarded J P Q (zoom part put p).
Proof.
  intros HI HJ. induction p as [a|k IH|f p IH|c k IH]; cbn [zoom guarded]; [done| | |]; naive_solver.
Qed.
End zoom.

(** Waiting for all succeeds exactly when each succeeded, and otherwise fails
    as one of them failed. *)
Lemma first_failure_spec outcomes order :
  order ≡ₚ seq 0 (length outcomes) ->
  (first_failure outcomes order = Ok tt <-> Forall (fun r => r = Ok tt) outcomes) /\
  (forall e, first_failure outcomes order = Err e -> Err e ∈ outcomes).
Proof.
  intros Hord.
  assert (forall l, (first_failure outcomes l = Ok tt <-> forall i e, i ∈ l -> outcomes !! i <> Some (Err e)) /\
            (forall e, first_failure outcomes l = Err e -> Err e ∈ outcomes)) as Hgen.
  { induction l as [|i l [IH1 IH2]]; simpl; [split; [set_solver|done]|].
    destruct (outcomes !! i) as [[[]|e]|] eqn:E.
    - split; [|done]. rewrite IH1. split; [|set_solver]. intros Hl j e [->|Hj]%elem_of_cons; [congruence|eauto].
    - split; [split; [done|]; intros Hl; by destruct (Hl i e); [left|]|].
      intros e' [= <-]. by eapply list_elem_of_lookup_2.
    - split; [|done]. rewrite IH1. split; [|set_solver]. intros Hl j e [->|Hj]%elem_of_cons; [congruence|eauto]. }
  destruct (Hgen order) as [H1 H2]. split; [|done]. rewrite H1, Forall_lookup. split.
  - intros Hl i r Hi. destruct r as [[]|e]; [done|]. exfalso. apply (Hl i e); [|done].
    rewrite Hord. apply elem_of_seq. apply lookup_lt_Some in Hi. lia.
  - intros Hl i e _ Hi. by specialize (Hl i _ Hi).
Qed.

Lemma placed_at {A} (l : list A) i x y : l !! i = Some x -> <[i := y]> l !! i = Some y.
Proof. intros Hi. apply list_lookup_insert_eq. by eapply lookup_lt_Some. Qed.

(** A program of a pool that is left to itself runs as it does alone. *)
Lemma pool_run {S A W} (h : handler W) (p : prog S A) ts i s w cs :
  ts !! i = Some p ->
  let o := run h p s w in
  rtc pool_step {| threads := ts; shared := s; calls := cs |}
                {| threads := <[i := Done (value o)]> ts; shared := final o; calls := cs ++ trace o |}.
Proof.
  revert ts s w cs; induction p as [a|k IH|f p IH|c k IH]; intros ts s w cs Hi; cbn [run value final trace].
  - rewrite list_insert_id by done. by rewrite app_nil_r.
  - specialize (IH s (<[i := k s]> ts) s w (cs ++ [])). cbn zeta in IH. rewrite list_insert_insert_eq, app_nil_r in IH.
    eapply rtc_l; [by eapply pool_move, step_get|]. cbn [option_list]. rewrite app_nil_r. by eapply IH, placed_at.
  - specialize (IH (<[i := p]> ts) (f s) w (cs ++ [])). cbn zeta in IH. rewrite list_insert_insert_eq, app_nil_r in IH.
    eapply rtc_l; [by eapply pool_move, step_modify|]. cbn [option_list]. rewrite app_nil_r. by eapply IH, placed_at.
  - destruct (h c w) as [r w']. specialize (IH r (<[i := k r]> ts) s w' (cs ++ [c])).
    cbn zeta in IH. rewrite list_insert_insert_eq, <- (assoc_L (++)) in IH.
    eapply rtc_l; [by eapply pool_move, (step_call c k r)|]. by eapply IH, placed_at.
Qed.

(** A world in which every request is answered by [f], for examples. *)
Definition answering (f : request -> result response) : handler unit := fun c w =>
  (match c return answer c with
   | Fetch r => f r
   | FetchAll rs => (map f rs, seq 0 (length rs))
   | ReadTextFile _ => throw "ENOENT"
   | Now => 0%Z
   | Sleep _ => tt
   | Console _ _ => tt
   end, w).

Definition offline : handler unit := answering (fun _ => throw "fetch failed").

Definition http_ok (text : string) : response :=
  {| status := 200; statusText := "OK"; content := Some {| chunks := [utf8_encode text]; ending := None |} |}.

(** A platform for examples: URLs by their scheme. *)
Definition example_platform : Platform :=
  {| syntax_error := fun text => "Unexpected token in JSON: " +:+ text;
     url_protocol := fun u =>
       if starts_with "https://" u then Some "https:"
       else if starts_with "http://" u then Some "http:" else None |}.
