(* ===== verification/Rely.v ===== *)
(** Programs among others that keep to the same rules: what a program may rely
    on the rest of the process for, and what it guarantees at every change it
    makes itself.  Where [guarded] is about each state on its own, [obeys]
    remembers: what was read of the state stays known as far as the rules say. *)
From S2P Require Import Prelude JsString Encoding JsNumber Json Io.

(** ** Rules *)

(** An invariant of the state, how it may have changed since it was last seen,
    what a single change is, and what the outside may answer. *)
Record rules (S : Type) := {
  holds : S -> Prop;
  evolves : S -> S -> Prop;
  moves : S -> S -> Prop;
  answerable : forall c : io, answer c -> Prop
}.
Arguments holds {S} _ _.
Arguments evolves {S} _ _ _.
Arguments moves {S} _ _ _.
Arguments answerable {S} _ _ _.

Class Sound {S} (R : rules S) : Prop := {
  evolves_refl s : evolves R s s;
  evolves_trans s t u : evolves R s t -> evolves R t u -> evolves R s u;
  moves_evolves s t : moves R s t -> evolves R s t
}.

(** Started when the state was [s] or has evolved from it, the program changes
    the state by moves that keep the invariant, and ends in [Q] of the last
    state it knows. *)
Fixpoint obeys {S A} (R : rules S) (Q : S -> A -> Prop) (s : S) (p : prog S A) : Prop :=
  match p with
  | Done a => Q s a
  | Get k => forall t, holds R t -> evolves R s t -> obeys R Q t (k t)
  | Modify f k => forall t, holds R t -> evolves R s t -> holds R (f t) /\ moves R t (f t) /\ obeys R Q (f t) k
  | Call c k => forall r, answerable R c r -> obeys R Q s (k r)
  end.

(** No change at all. *)
Fixpoint calm {S A} (p : prog S A) : Prop :=
  match p with
  | Done _ => True
  | Get k => forall s, calm (k s)
  | Modify _ _ => False
  | Call _ k => forall r, calm (k r)
  end.

(** The post-condition of a program that may throw. *)
Definition gives {S A} (Q : S -> A -> Prop) (s : S) (r : result A) : Prop :=
  match r with Ok a => Q s a | Err _ => True end.

Definition anything {S A} (s : S) (a : A) : Prop := True.

(** ** Laws *)

Section laws.
Context {S : Type} (R : rules S) `{!Sound R}.

Definition stable {A} (Q : S -> A -> Prop) : Prop := forall s t a, Q s a -> evolves R s t -> Q t a.

(** What is known may be forgotten. *)
Lemma obeys_later {A} (Q : S -> A -> Prop) p s t :
  stable Q -> evolves R s t -> obeys R Q s p -> obeys R Q t p.
Proof.
  intros HQ. revert s t; induction p as [a|k IH|f p IH|c k IH]; intros s t Hst; simpl.
  - intros Ha. by eapply HQ.
  - intros Hp u Hu Htu. apply Hp; [done|]. by eapply evolves_trans.
  - intros Hp u Hu Htu. apply Hp; [done|]. by eapply evolves_trans.
  - intros Hp r Hr. by eapply IH, Hp.
Qed.

Lemma obeys_weaken {A} (Q Q' : S -> A -> Prop) p s :
  (forall t a, evolves R s t -> Q t a -> Q' t a) -> obeys R Q s p -> obeys R Q' s p.
Proof.
  revert s; induction p as [a|k IH|f p IH|c k IH]; intros s HQ; simpl.
  - apply HQ, evolves_refl.
  - intros Hp t Ht Hst. apply IH; [|by apply Hp]. intros u a Htu. apply HQ. by eapply evolves_trans.
  - intros Hp t Ht Hst. destruct (Hp t Ht Hst) as (Hi & Hm & Hk). split; [done|]. split; [done|].
    apply IH; [|done]. intros u a Htu. apply HQ. eapply evolves_trans; [done|].
    eapply evolves_trans; [by apply moves_evolves|done].
  - intros Hp r Hr. by apply IH, Hp.
Qed.

Lemma obeys_pbind {A B} (Q : S -> A -> Prop) (Q' : S -> B -> Prop) p k s :
  obeys R Q s p -> (forall t a, evolves R s t -> Q t a -> obeys R Q' t (k a)) -> obeys R Q' s (pbind p k).
Proof.
  revert s; induction p as [a|k' IH|f p IH|c k' IH]; intros s; simpl.
  - intros Ha Hk. apply Hk; [apply evolves_refl | done].
  - intros Hp Hk t Ht Hst. apply IH; [by apply Hp|]. intros u a Htu. apply Hk. by eapply evolves_trans.
  - intros Hp Hk t Ht Hst. destruct (Hp t Ht Hst) as (Hi & Hm & Hp'). split; [done|]. split; [done|].
    apply IH; [done|]. intros u a Htu. apply Hk. eapply evolves_trans; [done|].
    eapply evolves_trans; [by apply moves_evolves|done].
  - intros Hp Hk r Hr. apply IH; [by apply Hp|done].
Qed.

Lemma obeys_bind {A B} (Q : S -> A -> Prop) (Q' : S -> B -> Prop) (p : M S A) (k : A -> M S B) s :
  obeys R (gives Q) s p -> (forall t a, evolves R s t -> Q t a -> obeys R (gives Q') t (k a)) ->
  obeys R (gives Q') s (p ≫= k).
Proof. intros Hp Hk. eapply obeys_pbind; [exact Hp|]. intros t [a|e] Hst Ha; [by apply Hk | done]. Qed.

Lemma obeys_try {A} (Q : S -> A -> Prop) (p : M S A) h s :
  obeys R (gives Q) s p -> (forall t e, evolves R s t -> obeys R (gives Q) t (h e)) ->
  obeys R (gives Q) s (try_catch p h).
Proof. intros Hp Hh. eapply obeys_pbind; [exact Hp|]. by intros t [a|e] Hst Ha; [|apply Hh]. Qed.

Lemma obeys_gets {A} (Q : S -> A -> Prop) (f : S -> A) s :
  (forall t, holds R t -> evolves R s t -> Q t (f t)) -> obeys R (gives Q) s (gets f).
Proof. done. Qed.

Lemma obeys_modify f s (Q : S -> unit -> Prop) :
  (forall t, holds R t -> evolves R s t -> holds R (f t) /\ moves R t (f t) /\ Q (f t) tt) ->
  obeys R (gives Q) s (modify f).
Proof. done. Qed.

Lemma calm_obeys {A} (p : prog S A) s : calm p -> obeys R anything s p.
Proof. revert s; induction p; simpl; naive_solver. Qed.

Lemma calm_obeys_gives {A} (p : M S A) s : calm p -> obeys R (gives anything) s p.
Proof. intros Hp. eapply obeys_weaken; [|by apply calm_obeys]. by intros t []. Qed.

(** One move of a program that obeys, from a state that evolved from the one
    it knew: a call that is answered as may be, *)
Lemma obeys_call {A} (Q : S -> A -> Prop) s t c k r :
  stable Q -> obeys R Q s (Call c k) -> answerable R c r -> evolves R s t -> obeys R Q t (k r).
Proof. intros HQ Hp Hr Hst. by eapply obeys_later, Hp. Qed.

(** or any move, where any answer may be given or there is no call. *)
Lemma obeys_step {A} (Q : S -> A -> Prop) p s t l p' t' :
  stable Q -> pstep (p, t) l (p', t') -> obeys R Q s p -> holds R t -> evolves R s t ->
  l = None \/ (forall c r, answerable R c r) ->
  holds R t' /\ (t' = t \/ moves R t t') /\ obeys R Q t' p'.
Proof.
  intros HQ. inversion 1; subst; simpl; intros Hp Ht Hst Hg.
  - split; [done|]. split; [by left|]. by apply Hp.
  - destruct (Hp t Ht Hst) as (? & ? & ?). split; [done|]. split; [by right|done].
  - destruct Hg as [|Hg]; [done|]. split; [done|]. split; [by left|]. by eapply obeys_call.
Qed.

(** Run alone. *)
Lemma obeys_run {A W} (Q : S -> A -> Prop) (h : handler W) p s0 s w :
  stable Q -> obeys R Q s0 p -> evolves R s0 s -> holds R s -> (forall c r, answerable R c r) ->
  let o := run h p s w in holds R (final o) /\ evolves R s (final o) /\ Q (final o) (value o).
Proof.
  intros HQ. revert s0 s w; induction p as [a|k IH|f p IH|c k IH]; intros s0 s w Hp Hs Ht Hg; simpl in *.
  - split; [done|]. split; [apply evolves_refl|]. by eapply HQ.
  - apply (IH s s); [by apply Hp|apply evolves_refl|done..].
  - destruct (Hp s Ht Hs) as (Hi & Hm & Hk). destruct (IH (f s) (f s) w Hk (evolves_refl _) Hi Hg) as (H1 & H2 & H3).
    split; [done|]. split; [|done]. eapply evolves_trans; [by apply moves_evolves|done].
  - destruct (h c w) as [r w']. apply (IH r s0); auto.
Qed.
End laws.

(** ** Calm programs *)

Lemma calm_pbind {S A B} (p : prog S A) (k : A -> prog S B) : calm p -> (forall a, calm (k a)) -> calm (pbind p k).
Proof. induction p; simpl; naive_solver. Qed.

Lemma calm_bind {S A B} (p : M S A) (k : A -> M S B) : calm p -> (forall a, calm (k a)) -> calm (p ≫= k).
Proof. intros Hp Hk. apply calm_pbind; [done|]. intros [a|e]; [apply Hk | done]. Qed.

Lemma calm_try {S A} (p : M S A) h : calm p -> (forall e, calm (h e)) -> calm (try_catch p h).
Proof. intros Hp Hh. apply calm_pbind; [done|]. intros [a|e]; [done | apply Hh]. Qed.

Lemma run_calm {S A W} (h : handler W) (p : prog S A) s w : calm p -> final (run h p s w) = s.
Proof.
  revert s w. induction p as [a|k IH|f p IH|c k IH]; intros s w Hp; simpl in *; [done|by apply IH|done|].
  destruct (h c w) as [r w']. by apply IH.
Qed.

(** What holds where a program returned, past its first, calm, part. *)
Lemma past_calm {S A B W} (h : handler W) (p : M S A) (k : A -> M S B) (R : S -> Prop) s w b :
  calm p -> value (run h (p ≫= k) s w) = Ok b ->
  (forall a w', value (run h (k a) s w') = Ok b -> R (final (run h (k a) s w'))) ->
  R (final (run h (p ≫= k) s w)).
Proof.
  intros Hp (a & _ & Hv & -> & _)%run_bind_Ok Hk. rewrite (run_calm h p s w Hp) in Hv |- *. by apply Hk.
Qed.

Lemma calm_zoom {S T A} (part : S -> T) (put : T -> S -> S) (p : prog T A) : calm p -> calm (zoom part put p).
Proof. induction p; simpl; naive_solver. Qed.

Lemma calm_guarded {S A} I (p : prog S A) : calm p -> guarded I (fun _ => True) (fun _ => True) p.
Proof. induction p; simpl; naive_solver. Qed.

Lemma calm_fetch {S} r : calm (@fetch S r).
Proof. by intros []. Qed.

Lemma calm_read_text_file {S} f : calm (@read_text_file S f).
Proof. by intros []. Qed.

(** The steps of a calm program, one by one. *)
Create HintDb calm.
#[export] Hint Resolve calm_fetch calm_read_text_file : calm.
Ltac calm_step :=
  first [ exact I
        | solve [eauto 2 with calm nocore]
        | apply calm_bind; [|intros ?]
        | apply calm_try; [|intros ?]
        | apply calm_pbind; [|intros ?]
        | progress case_match
        | done ].
Ltac calm := repeat calm_step.
