(* ===== verification/Shell.v ===== *)
(** Shell-building helpers (src/shell.ts), and the fragment of [sh] that reads
    what they build back: the lexer and the two builtins the env prefix uses. *)
From S2P Require Import Prelude JsString Regex Encoding JsNumber Json.

(** ** What the adapter builds *)

Definition shellQuote (value : string) : string :=
  "'" +:+ replace_all "'" "'\''" value +:+ "'".

Definition env_start (c : ascii) : bool := (is_upper c || is_lower c || bool_decide (c = "_"%char))%bool.
Definition env_rest (c : ascii) : bool := (is_alnum c || bool_decide (c = "_"%char))%bool.

(** [/^[A-Za-z_][A-Za-z0-9_]*$/]. *)
Definition ENV_NAME : regex := Seq (Class_ env_start) (Star (Class_ env_rest)).
Definition env_name (name : string) : bool := re_test ENV_NAME name.

Definition assertEnvName (name : string) : result string :=
  if env_name name then Ok name
  else throw ("Invalid environment variable name: " +:+ json_quote name).

Definition forced_export (kv : string * string) : result string :=
  k ← assertEnvName (fst kv);
  Ok ("export " +:+ k +:+ "=" +:+ shellQuote (snd kv) +:+ "; ").

Definition guarded_export (kv : string * string) : result string :=
  k ← assertEnvName (fst kv);
  Ok ("[ -n " +:+ String dquote "${" +:+ k +:+ ":-}" +:+ String dquote " ] || export "
      +:+ fst kv +:+ "=" +:+ shellQuote (snd kv) +:+ "; ").

Definition withEnvPrefix (cmd : string) (env defaults : obj string) : result string :=
  forced ← map_result forced_export env;
  guarded ← map_result guarded_export defaults;
  Ok (join "" forced +:+ join "" guarded +:+ cmd).

Record GitCheckoutOptions := { targetDir : option string; branch : option string }.

Definition gitCloneCommand (repo : string) (options : option GitCheckoutOptions) : string :=
  let parts := ["git"; "clone"] in
  let parts := match options ≫= branch with
               | Some b => parts ++ ["--branch"; shellQuote b]
               | None => parts
               end in
  let parts := parts ++ [shellQuote repo; shellQuote (default "." (options ≫= targetDir))] in
  join " " parts.

(** A script with a backquote for each double quote. *)
Definition dq (s : string) : string := replace_all "`" (String dquote "") s.

Definition strayProcessCommand : string :=
  "self=$$; for dir in /proc/[0-9]*; do pid=${dir#/proc/}; " +:+
  dq "[ `$pid` = 1 ] && continue; [ `$pid` = `$self` ] && continue; " +:+
  "rest=$(sed 's/^.*) //' $dir/stat 2>/dev/null) || continue; " +:+
  dq "set -- $rest; [ `$2` = `$self` ] && continue; " +:+
  "cmd=$(tr '\0' ' ' < $dir/cmdline 2>/dev/null); " +:+
  dq "printf '%s\t%s\t%s\0' `$pid` `$1` `$cmd`; done".

Record StrayProcess := { pid : string; state : string; command : string }.

Definition nul : ascii := chr 0.
Definition tab : ascii := chr 9.

Definition parse_record (record : string) : option StrayProcess :=
  if decide (record = "") then None
  else
    match split_on tab record with
    | [] => None
    | p :: rest =>
        if decide (p = "") then None
        else
          match rest with
          | [] => Some {| pid := p; state := ""; command := trim "" |}
          | st :: cmd =>
              Some {| pid := p; state := st; command := trim (join (String tab "") cmd) |}
          end
    end.

Definition parseStrayProcesses (stdout : string) : list StrayProcess :=
  omap parse_record (split_on nul stdout).

(** ** A fragment of the shell *)

Inductive token := Word (w : string) | OrElse.

(** Where the lexer is: between or inside unquoted characters, after a
    backslash, inside single or double quotes, or inside a parameter
    expansion [${NAME:-}] of a double-quoted part. *)
Inductive mode := Plain | Escaped | Single | Double | Dollar | Param (n : string) | ParamDash (n : string) | ParamEnd (n : string).

Definition literal (c : ascii) : bool :=
  (is_alnum c || bool_decide (c ∈ String.list_ascii_of_string "_-./=:,+@%[]"))%bool.

Definition put (cur : option string) (s : string) : option string := Some (default "" cur +:+ s).

Definition push (cur : option string) (r : list token * string) : list token * string :=
  match cur with Some w => (Word w :: fst r, snd r) | None => r end.

(** The tokens of the first command line, up to a [;], and what is left;
    [None] outside the fragment.  [rho] gives the variables their values. *)
Fixpoint lex (rho : gmap string string) (m : mode) (cur : option string) (s : string) : option (list token * string) :=
  match s with
  | "" => match m with Plain => Some (push cur ([], "")) | _ => None end
  | String c s' =>
      match m with
      | Plain =>
          if decide (c = " "%char) then push cur <$> lex rho Plain None s'
          else if decide (c = ";"%char) then Some (push cur ([], s'))
          else if decide (c = "|"%char) then
            match s' with
            | String "|" s'' =>
                '(ts, r) ← lex rho Plain None s''; Some (push cur (OrElse :: ts, r))
            | _ => None
            end
          else if decide (c = "'"%char) then lex rho Single (put cur "") s'
          else if decide (c = dquote) then lex rho Double (put cur "") s'
          else if decide (c = backslash) then lex rho Escaped (put cur "") s'
          else if literal c then lex rho Plain (put cur (String c "")) s'
          else None
      | Escaped => lex rho Plain (put cur (String c "")) s'
      | Single =>
          if decide (c = "'"%char) then lex rho Plain cur s'
          else lex rho Single (put cur (String c "")) s'
      | Double =>
          if decide (c = dquote) then lex rho Plain cur s'
          else if decide (c = "$"%char) then lex rho Dollar cur s'
          else if (bool_decide (c = backslash) || bool_decide (c = "`"%char))%bool then None
          else lex rho Double (put cur (String c "")) s'
      | Dollar => if decide (c = "{"%char) then lex rho (Param "") cur s' else None
      | Param n =>
          if env_rest c then lex rho (Param (n +:+ String c "")) cur s'
          else if decide (c = ":"%char) then lex rho (ParamDash n) cur s' else None
      | ParamDash n => if decide (c = "-"%char) then lex rho (ParamEnd n) cur s' else None
      | ParamEnd n =>
          if decide (c = "}"%char) then lex rho Double (put cur (default "" (rho !! n))) s' else None
      end
  end.

(** A builtin: the variables after it and whether it succeeded. *)
Definition builtin (rho : gmap string string) (words : list string) : option (gmap string string * bool) :=
  match words with
  | [] => Some (rho, true)
  | ["export"; a] =>
      i ← index_of "=" a;
      if env_name (str_take i a) then Some (<[str_take i a := str_drop (S i) a]> rho, true) else None
  | ["["; "-n"; w; "]"] => Some (rho, negb (bool_decide (w = "")))
  | _ => None
  end.

(** A list of commands joined by [||]: stop at the first that succeeds. *)
Fixpoint or_list (rho : gmap string string) (words : list string) (ts : list token) : option (gmap string string) :=
  match ts with
  | [] => fst <$> builtin rho words
  | Word w :: ts' => or_list rho (words ++ [w]) ts'
  | OrElse :: ts' =>
      '(rho', ok) ← builtin rho words;
      if (ok : bool) then Some rho' else or_list rho' [] ts'
  end.

(** A script of [;]-separated commands, each expanded when it runs. *)
Fixpoint sh_run (fuel : nat) (rho : gmap string string) (s : string) : option (gmap string string) :=
  match fuel with
  | O => None
  | S f =>
      match s with
      | "" => Some rho
      | _ =>
          '(ts, rest) ← lex rho Plain None s;
          rho' ← or_list rho [] ts;
          sh_run f rho' rest
      end
  end.

Definition sh (rho : gmap string string) (s : string) : option (gmap string string) :=
  sh_run (S (S (String.length s))) rho s.

(** The words of a simple command, unquoted. *)
Definition sh_words (s : string) : option (list token) :=
  '(ts, rest) ← lex ∅ Plain None s; if decide (rest = "") then Some ts else None.

(** What the prefix is for: the forced variables override, a default fills in
    only where no variable or an empty one is. *)
Definition effective (rho : gmap string string) (env defaults : obj string) (k : string) : option string :=
  let base := match obj_get k env with Some v => Some v | None => rho !! k end in
  match obj_get k defaults with
  | Some d => if decide (default "" base = "") then Some d else base
  | None => base
  end.

(** What [printf '%s\t%s\t%s\0'] prints for a process. *)
Definition print_record (r : StrayProcess) : string :=
  pid r +:+ String tab (state r +:+ String tab (command r +:+ String nul "")).

(** A process the script can print: no NUL anywhere, no TAB before the
    command, a pid, and a command without outer white space. *)
Definition printable (r : StrayProcess) : Prop :=
  pid r <> "" /\ no_char tab (pid r) = true /\ no_char nul (pid r) = true /\
  no_char tab (state r) = true /\ no_char nul (state r) = true /\
  no_char nul (command r) = true /\ trim (command r) = command r.

Example prefix_runs :
  (p ← match withEnvPrefix "" [("A", "it's $HOME; `x`"); ("B", "")] [("A", "no"); ("C", "c")] with
       | Ok p => Some p | Err _ => None end; rho ← sh {[ "C" := "image" ]} p; Some (rho !! "A", rho !! "B", rho !! "C"))
  = Some (Some "it's $HOME; `x`", Some "", Some "image").
Proof. vm_compute. reflexivity. Qed.


(** ** The shell reads back what was quoted *)

Lemma literal_plain c : literal c = true ->
  c <> " "%char /\ c <> ";"%char /\ c <> "|"%char /\ c <> "'"%char /\ c <> dquote /\ c <> backslash.
Proof. intros H. repeat split; intros ->; vm_compute in H; discriminate H. Qed.

Lemma env_rest_literal c : env_rest c = true -> literal c = true.
Proof.
  unfold env_rest, literal. rewrite !orb_true_iff. intros [H|H]; [by left|right].
  apply bool_decide_eq_true in H as ->. by vm_compute.
Qed.

Lemma env_start_rest c : env_start c = true -> env_rest c = true.
Proof.
  unfold env_start, env_rest, is_alnum. rewrite !orb_true_iff. naive_solver.
Qed.

Lemma env_name_cons c k : env_name (String c k) = (env_start c && all_chars env_rest k)%bool.
Proof.
  apply eq_iff_eq_true. unfold env_name, ENV_NAME. rewrite re_test_spec, matches_seq, andb_true_iff. split.
  - by intros (x & y & E & (d & -> & Hd)%matches_class & Hy%matches_star_class); injection E as -> ->.
  - intros [Hc Hk]. exists (String c ""), k. repeat split; [by constructor | by apply matches_star_class].
Qed.

Lemma env_name_rest k : env_name k = true -> all_chars env_rest k = true.
Proof.
  destruct k as [|c k]; [done|]. rewrite env_name_cons. simpl. rewrite !andb_true_iff.
  intros [H1 H2]. split; [by apply env_start_rest | done].
Qed.

Section lexing.
Context (rho : gmap string string).

Lemma lex_literal w cur s :
  all_chars literal w = true ->
  lex rho Plain (Some cur) (w +:+ s) = lex rho Plain (Some (cur +:+ w)) s.
Proof.
  revert cur; induction w as [|c w IH]; intros cur; simpl; [by rewrite string_app_nil_r|].
  intros [Hc Hw]%andb_true_iff.
  destruct (literal_plain c Hc) as (? & ? & ? & ? & ? & ?).
  rewrite !decide_False, Hc by done. unfold put. simpl. rewrite IH by done.
  by rewrite string_app_assoc.
Qed.

(** A word that begins with literals and goes on with a quoted part. *)
Lemma lex_literal_start c w s :
  literal c = true -> all_chars literal w = true ->
  lex rho Plain None (String c (w +:+ s)) = lex rho Plain (Some (String c w)) s.
Proof.
  intros Hc Hw. simpl. destruct (literal_plain c Hc) as (? & ? & ? & ? & ? & ?).
  rewrite !decide_False, Hc by done. unfold put. simpl. by rewrite lex_literal.
Qed.

Lemma lex_single v cur s :
  lex rho Single (Some cur) (replace_all "'" "'\''" v +:+ String "'" s)
  = lex rho Plain (Some (cur +:+ v)) s.
Proof.
  revert cur; induction v as [|c v IH]; intros cur.
  - simpl. by rewrite string_app_nil_r.
  - rewrite replace_all_cons. case_decide as Hc.
    + subst c. rewrite !string_app_assoc. simpl. unfold put. simpl.
      rewrite !string_app_nil_r, IH. by rewrite string_app_assoc.
    + simpl. rewrite decide_False by congruence. unfold put. simpl. rewrite IH.
      by rewrite string_app_assoc.
Qed.

(** Whatever the value holds, its quotation adds exactly it to the word. *)
Lemma lex_quote v cur s :
  lex rho Plain cur (shellQuote v +:+ s) = lex rho Plain (put cur v) s.
Proof.
  unfold shellQuote. rewrite !string_app_assoc. simpl. unfold put. simpl.
  rewrite string_app_nil_r. by rewrite lex_single.
Qed.

Lemma lex_space s : lex rho Plain None (" " +:+ s) = lex rho Plain None s.
Proof. simpl. by destruct (lex rho Plain None s) as [[]|]. Qed.

Lemma lex_param k n cur s :
  all_chars env_rest k = true ->
  lex rho (Param n) cur (k +:+ ":-}" +:+ s) = lex rho Double (put cur (default "" (rho !! (n +:+ k)))) s.
Proof.
  revert n; induction k as [|c k IH]; intros n; simpl.
  - by rewrite string_app_nil_r.
  - intros [Hc Hk]%andb_true_iff. rewrite Hc, IH by done. by rewrite string_app_assoc.
Qed.

(** An assignment word [k='v'] followed by [; ]. *)
Lemma lex_assignment k v s :
  env_name k = true ->
  lex rho Plain None (k +:+ "=" +:+ shellQuote v +:+ "; " +:+ s)
  = Some ([Word (k +:+ "=" +:+ v)], " " +:+ s).
Proof.
  intros Hk. pose proof (all_chars_impl _ _ k env_rest_literal (env_name_rest k Hk)) as Hl.
  destruct k as [|c k]; [done|]. simpl in Hl. apply andb_true_iff in Hl as [Hc Hl].
  change (String c k +:+ "=" +:+ shellQuote v +:+ "; " +:+ s)
    with (String c (k +:+ "=" +:+ shellQuote v +:+ "; " +:+ s)).
  rewrite lex_literal_start, lex_literal, lex_quote by done. unfold put. simpl.
  by rewrite string_app_assoc.
Qed.
End lexing.

Lemma assertEnvName_Ok k n : assertEnvName k = Ok n <-> env_name k = true /\ n = k.
Proof. unfold assertEnvName. destruct (env_name k); naive_solver. Qed.

Lemma env_rest_not_eq c : env_rest c = true -> negb (bool_decide ("="%char = c)) = true.
Proof.
  intros H. apply negb_true_iff, bool_decide_eq_false. intros <-. discriminate H.
Qed.

Lemma builtin_export rho k v :
  env_name k = true -> builtin rho ["export"; k +:+ "=" +:+ v] = Some (<[k := v]> rho, true).
Proof.
  intros Hk. cbn [builtin]. change ("=" +:+ v) with (String "=" v).
  rewrite index_of_first by (eapply all_chars_impl; [apply env_rest_not_eq | by apply env_name_rest]).
  cbn [mbind option_bind]. rewrite str_take_app, Hk.
  assert (str_drop (S (String.length k)) (k +:+ String "=" v) = v) as ->; [|done].
  clear Hk. induction k as [|c k IH]; [done | exact IH].
Qed.

Lemma builtin_test rho w : builtin rho ["["; "-n"; w; "]"] = Some (rho, negb (bool_decide (w = ""))).
Proof. reflexivity. Qed.

(** ** Running the prefix *)

Definition fill (rho : gmap string string) (kv : string * string) : gmap string string :=
  if decide (default "" (rho !! fst kv) = "") then <[fst kv := snd kv]> rho else rho.

Definition force (rho : gmap string string) (kv : string * string) : gmap string string :=
  <[fst kv := snd kv]> rho.

(** White space the lexer skips between two statements. *)
Definition gap (s : string) : Prop := s = "" \/ s = " ".

Lemma lex_gap rho lead s : gap lead -> lex rho Plain None (lead +:+ s) = lex rho Plain None s.
Proof. intros [->| ->]; [done | apply lex_space]. Qed.

Lemma sh_run_step f rho s ts rest rho' :
  s <> "" -> lex rho Plain None s = Some (ts, rest) -> or_list rho [] ts = Some rho' ->
  sh_run (S f) rho s = sh_run f rho' rest.
Proof. intros Hs Hl Ho. destruct s; [done|]. cbn [sh_run]. rewrite Hl. cbn [mbind option_bind]. by rewrite Ho. Qed.

Lemma lex_export rho s :
  lex rho Plain None ("export " +:+ s) = push (Some "export") <$> lex rho Plain None s.
Proof. reflexivity. Qed.

Lemma lex_test_open rho s :
  lex rho Plain None ("[ -n " +:+ String dquote "${" +:+ s)
  = (fun r => push (Some "[") (push (Some "-n") r)) <$> lex rho (Param "") (Some "") s.
Proof. simpl. unfold put; simpl. by destruct (lex rho (Param "") (Some "") s) as [[]|]. Qed.

Lemma lex_test_close rho w s :
  lex rho Double (Some w) (String dquote " ] || export " +:+ s)
  = (fun r => push (Some w) (push (Some "]") (OrElse :: fst (push (Some "export") r), snd r)))
      <$> lex rho Plain None s.
Proof. simpl. unfold put; simpl. by destruct (lex rho Plain None s) as [[]|]. Qed.

Lemma sh_run_forced f rho kv p lead rest :
  gap lead -> forced_export kv = Ok p ->
  sh_run (S f) rho (lead +:+ p +:+ rest) = sh_run f (force rho kv) (" " +:+ rest).
Proof.
  intros Hg. destruct kv as [k v]. unfold forced_export. cbn [fst snd].
  intros (n & [Hk ->]%assertEnvName_Ok & <-%Ok_inj)%bind_Ok.
  eapply sh_run_step.
  - by destruct Hg as [->| ->].
  - rewrite lex_gap by done. rewrite !string_app_assoc, lex_export, lex_assignment by done.
    reflexivity.
  - cbn [or_list app fst snd push]. by rewrite builtin_export.
Qed.

Lemma sh_run_guarded f rho kv p lead rest :
  gap lead -> guarded_export kv = Ok p ->
  sh_run (S f) rho (lead +:+ p +:+ rest) = sh_run f (fill rho kv) (" " +:+ rest).
Proof.
  intros Hg. destruct kv as [k v]. unfold guarded_export. cbn [fst snd].
  intros (n & [Hk ->]%assertEnvName_Ok & <-%Ok_inj)%bind_Ok.
  eapply sh_run_step.
  - by destruct Hg as [->| ->].
  - rewrite lex_gap by done. rewrite !string_app_assoc. rewrite lex_test_open, lex_param by (by apply env_name_rest).
    unfold put. rewrite lex_test_close, lex_assignment by done. reflexivity.
  - cbn [or_list app fst snd push]. unfold fill. cbn [fst snd].
    change (default "" (Some "") +:+ default "" (rho !! ("" +:+ k))) with (default "" (rho !! k)).
    rewrite builtin_test. cbn [mbind option_bind]. case_decide as Hd.
    + rewrite bool_decide_true by done. cbn [negb]. by rewrite builtin_export.
    + by rewrite bool_decide_false.
Qed.

Lemma gap_one : gap " ".
Proof. by right. Qed.

(** A list of pieces, each a statement with the effect [eff]. *)
Lemma sh_run_pieces (piece : string * string -> result string) eff l ps f rho lead rest :
  (forall f rho kv p lead rest, gap lead -> piece kv = Ok p ->
     sh_run (S f) rho (lead +:+ p +:+ rest) = sh_run f (eff rho kv) (" " +:+ rest)) ->
  gap lead -> map_result piece l = Ok ps ->
  exists lead', gap lead' /\
    sh_run (length l + f) rho (lead +:+ join "" ps +:+ rest) = sh_run f (foldl eff rho l) (lead' +:+ rest).
Proof.
  intros Hpiece. revert ps rho lead; induction l as [|kv l IH]; intros ps rho lead Hg.
  - intros <-%Ok_inj. by exists lead.
  - cbn [map_result]. intros (p & Hp & (ps' & Hps & <-%Ok_inj)%bind_Ok)%bind_Ok.
    rewrite join_empty_cons, string_app_assoc. cbn [length Nat.add foldl].
    rewrite (Hpiece _ _ kv) by done. by apply IH; [apply gap_one|].
Qed.

Lemma sh_run_gap f rho lead : gap lead -> sh_run (S (S f)) rho (lead +:+ "") = Some rho.
Proof. by intros [->| ->]. Qed.

Lemma pieces_length (piece : string * string -> result string) l ps :
  (forall kv p, piece kv = Ok p -> p <> "") ->
  map_result piece l = Ok ps -> (length l <= String.length (join "" ps))%nat.
Proof.
  intros Hne H%map_result_Ok. induction H as [|kv p l ps Hp _ IH]; [simpl; lia|].
  rewrite join_empty_cons, str_length_app. simpl. apply Hne in Hp. destruct p; [done|]. simpl. lia.
Qed.

Lemma forced_nonempty kv p : forced_export kv = Ok p -> p <> "".
Proof. by intros (n & _ & <-%Ok_inj)%bind_Ok. Qed.

Lemma guarded_nonempty kv p : guarded_export kv = Ok p -> p <> "".
Proof. by intros (n & _ & <-%Ok_inj)%bind_Ok. Qed.

(** Forced exports, defaults, and forced exports again, one after another. *)
Lemma prefixes_run rho env defaults more ps gs qs :
  map_result forced_export env = Ok ps -> map_result guarded_export defaults = Ok gs ->
  map_result forced_export more = Ok qs ->
  sh rho (join "" ps +:+ join "" gs +:+ join "" qs)
  = Some (foldl force (foldl fill (foldl force rho env) defaults) more).
Proof.
  intros Hp Hg Hq. unfold sh.
  pose proof (pieces_length _ _ _ forced_nonempty Hp) as Lp.
  pose proof (pieces_length _ _ _ guarded_nonempty Hg) as Lg.
  pose proof (pieces_length _ _ _ forced_nonempty Hq) as Lq.
  rewrite !str_length_app.
  destruct (Nat.le_exists_sub (length env + (length defaults + length more))
              (String.length (join "" ps) + (String.length (join "" gs) + String.length (join "" qs)))) as (d & -> & _); [lia|].
  replace (S (S (d + _))) with (length env + (length defaults + (length more + (S (S d)))))%nat by lia.
  destruct (sh_run_pieces forced_export force env ps (length defaults + (length more + S (S d))) rho "" (join "" gs +:+ join "" qs))
    as (l1 & Hl1 & E1); [apply sh_run_forced | by left | done |].
  change ("" +:+ ?x) with x in E1. rewrite E1.
  destruct (sh_run_pieces guarded_export fill defaults gs (length more + S (S d)) (foldl force rho env) l1 (join "" qs))
    as (l2 & Hl2 & E2); [apply sh_run_guarded | done | done |]. rewrite E2.
  destruct (sh_run_pieces forced_export force more qs (S (S d)) (foldl fill (foldl force rho env) defaults) l2 "")
    as (l3 & Hl3 & E3); [apply sh_run_forced | done | done |].
  rewrite string_app_nil_r in E3. rewrite E3. by apply sh_run_gap.
Qed.

Lemma prefix_run rho env defaults ps gs :
  map_result forced_export env = Ok ps -> map_result guarded_export defaults = Ok gs ->
  sh rho (join "" ps +:+ join "" gs) = Some (foldl fill (foldl force rho env) defaults).
Proof.
  intros Hp Hg. rewrite <- (string_app_nil_r (join "" gs)).
  exact (prefixes_run rho env defaults [] ps gs [] Hp Hg eq_refl).
Qed.

Lemma force_lookup rho env k :
  NoDup (obj_keys env) ->
  foldl force rho env !! k = match obj_get k env with Some v => Some v | None => rho !! k end.
Proof.
  revert rho; induction env as [|[k1 v1] env IH]; intros rho Hnd; simpl; [done|].
  apply list.NoDup_cons in Hnd as [Hk Hnd]. rewrite IH by done. unfold force at 1. cbn [fst snd].
  destruct (decide (k = k1)) as [->|Hne].
  - rewrite obj_get_not_in by done. by rewrite lookup_insert_eq.
  - by rewrite lookup_insert_ne.
Qed.

Lemma fill_lookup rho defaults k :
  NoDup (obj_keys defaults) ->
  foldl fill rho defaults !! k =
  match obj_get k defaults with
  | Some d => if decide (default "" (rho !! k) = "") then Some d else rho !! k
  | None => rho !! k
  end.
Proof.
  revert rho; induction defaults as [|[k1 v1] l IH]; intros rho Hnd; simpl; [done|].
  apply list.NoDup_cons in Hnd as [Hk Hnd]. rewrite IH by done. unfold fill; simpl.
  destruct (decide (k = k1)) as [->|Hne].
  - rewrite obj_get_not_in by done. case_decide; [by rewrite lookup_insert_eq | done].
  - destruct (decide (default "" (rho !! k1) = "")); [by rewrite lookup_insert_ne | done].
Qed.

Lemma map_result_total {A B} (f : A -> result B) l :
  (exists l', map_result f l = Ok l') <-> Forall (fun x => exists y, f x = Ok y) l.
Proof.
  split.
  - intros (l' & H%map_result_Ok). by induction H; constructor; [eexists|].
  - induction 1 as [|x l (y & Hy) _ (l' & IH)]; [by eexists|]. simpl. rewrite Hy. simpl.
    rewrite IH. simpl. by eexists.
Qed.

Lemma forced_Ok kv : (exists p, forced_export kv = Ok p) <-> env_name (fst kv) = true.
Proof.
  unfold forced_export, assertEnvName. destruct (env_name (fst kv)); simpl; [naive_solver|].
  split; [by intros (? & ?) | done].
Qed.

Lemma guarded_Ok kv : (exists p, guarded_export kv = Ok p) <-> env_name (fst kv) = true.
Proof.
  unfold guarded_export, assertEnvName. destruct (env_name (fst kv)); simpl; [naive_solver|].
  split; [by intros (? & ?) | done].
Qed.

#[local] Opaque shellQuote.

(** ** Properties *)

Lemma map_result_bad {B} (f : string * string -> result B) l e :
  (forall kv, (exists p, f kv = Ok p) <-> env_name (fst kv) = true) ->
  map_result f l = Err e -> Exists (fun k => env_name k = false) (obj_keys l).
Proof.
  intros Hf. revert e; induction l as [|kv l IH]; intros e; simpl; [done|].
  destruct (f kv) as [p|e'] eqn:Hk; simpl.
  - destruct (map_result f l) as [ps|e'']; simpl; [done|]. intros _. right. by eapply IH.
  - intros _. left. destruct (env_name (fst kv)) eqn:Hn; [|done].
    apply Hf in Hn as (p & Hp). congruence.
Qed.

(** A process's own variables are exported after the sandbox's, and win. *)
Lemma nested_prefix cmd own env defaults inner text :
  NoDup (obj_keys own) -> NoDup (obj_keys env) -> NoDup (obj_keys defaults) ->
  withEnvPrefix cmd own [] = Ok inner -> withEnvPrefix inner env defaults = Ok text ->
  exists prefix, text = prefix +:+ cmd /\
    forall rho, exists rho', sh rho prefix = Some rho' /\
      forall k, rho' !! k = match obj_get k own with Some v => Some v | None => effective rho env defaults k end.
Proof.
  intros Ho He Hd (qs & Hq & (gs0 & E0 & <-%Ok_inj)%bind_Ok)%bind_Ok (ps & Hp & (gs & Hg & <-%Ok_inj)%bind_Ok)%bind_Ok.
  simpl in E0. apply Ok_inj in E0 as <-.
  exists (join "" ps +:+ join "" gs +:+ join "" qs). split; [by rewrite !string_app_assoc|].
  intros rho. eexists. split; [by apply prefixes_run|].
  intros k. rewrite force_lookup, fill_lookup, force_lookup by done. reflexivity.
Qed.

(** C21  [gitCloneCommand] is injection-safe: a shell reads exactly the
    intended words out of it, whatever the repository, the branch and the
    target directory contain. *)
Theorem git_clone_words repo options :
  sh_words (gitCloneCommand repo options)
  = Some (map Word (["git"; "clone"]
      ++ match options ≫= branch with Some b => ["--branch"; b] | None => [] end
      ++ [repo; default "." (options ≫= targetDir)])).
Proof.
  unfold sh_words, gitCloneCommand. set (t := default "." (options ≫= targetDir)).
  assert (lex ∅ Plain None (shellQuote repo +:+ String " " (shellQuote t))
          = Some ([Word repo; Word t], "")) as Htail.
  { rewrite lex_quote, <- (string_app_nil_r (shellQuote t)). simpl. by rewrite lex_quote. }
  destruct (options ≫= branch) as [b|]; simpl; [rewrite lex_quote; simpl|]; by rewrite Htail.
Qed.

(** C20  The env prefix does what it is for.  It is refused exactly when a name
    is no shell variable name; otherwise the command comes out unchanged after
    a prefix that, run by a shell, gives every variable its effective value:
    forced over default, a default only where nothing or an empty value is. *)
Theorem env_prefix_effect cmd env defaults :
  NoDup (obj_keys env) -> NoDup (obj_keys defaults) ->
  match withEnvPrefix cmd env defaults with
  | Ok text =>
      exists prefix, text = prefix +:+ cmd /\
      forall rho, exists rho', sh rho prefix = Some rho' /\
        forall k, rho' !! k = effective rho env defaults k
  | Err _ => Exists (fun k => env_name k = false) (obj_keys env ++ obj_keys defaults)
  end.
Proof.
  intros He Hd. unfold withEnvPrefix.
  destruct (map_result forced_export env) as [ps|e] eqn:Hp; simpl.
  2:{ apply Exists_app. left. by apply (map_result_bad _ _ _ forced_Ok Hp). }
  destruct (map_result guarded_export defaults) as [gs|e] eqn:Hg; simpl.
  2:{ apply Exists_app. right. by apply (map_result_bad _ _ _ guarded_Ok Hg). }
  exists (join "" ps +:+ join "" gs). rewrite string_app_assoc. split; [done|].
  intros rho. eexists. split; [by apply prefix_run|].
  intros k. rewrite fill_lookup, force_lookup by done. reflexivity.
Qed.

Lemma env_prefix_effect_witness :
  NoDup (obj_keys [("A", "1")]) /\ NoDup (obj_keys [("B", "2")]) /\
  match withEnvPrefix "uv sync" [("A", "1")] [("B", "2")] with
  | Ok text =>
      exists prefix, text = prefix +:+ "uv sync" /\
      forall rho, exists rho', sh rho prefix = Some rho' /\
        forall k, rho' !! k = effective rho [("A", "1")] [("B", "2")] k
  | Err _ => Exists (fun k => env_name k = false) (obj_keys [("A", "1")] ++ obj_keys [("B", "2")])
  end.
Proof.
  split; [apply NoDup_singleton|]. split; [apply NoDup_singleton|].
  apply (env_prefix_effect "uv sync" [("A", "1")] [("B", "2")]); apply NoDup_singleton.
Defined.

Lemma no_char_app c a b : no_char c (a +:+ b) = (no_char c a && no_char c b)%bool.
Proof. apply all_chars_app. Qed.

Lemma parse_record_print p st cmd :
  p <> "" -> no_char tab p = true -> no_char tab st = true -> trim cmd = cmd ->
  parse_record (p +:+ String tab (st +:+ String tab cmd))
  = Some {| pid := p; state := st; command := cmd |}.
Proof.
  intros Hp Hpt Hst Hc. unfold parse_record. rewrite decide_False by (by destruct p).
  rewrite !split_on_first by done. rewrite decide_False by done. by rewrite join_split, Hc.
Qed.

(** The records the stray-process script prints, one [pid TAB state TAB
    command NUL] each, are parsed back as they were, for any list of them. *)
Theorem stray_processes_roundtrip l :
  Forall printable l -> parseStrayProcesses (join "" (map print_record l)) = l.
Proof.
  intros H. unfold parseStrayProcesses.
  induction H as [|[p st cmd] l (H1 & H2 & H3 & H4 & H5 & H6 & H7) _ IH]; [done|].
  cbn [map]. rewrite join_empty_cons. unfold print_record at 1. cbn [pid state command] in *.
  replace ((p +:+ String tab (st +:+ String tab (cmd +:+ String nul ""))) +:+ join "" (map print_record l))
    with ((p +:+ String tab (st +:+ String tab cmd)) +:+ String nul (join "" (map print_record l)))
    by (by rewrite ?string_app_assoc; simpl; rewrite ?string_app_assoc; simpl; rewrite ?string_app_assoc).
  rewrite split_on_first.
  - cbn [omap list_omap]. by rewrite parse_record_print, IH.
  - rewrite no_char_app, H3. change (no_char nul (st +:+ String tab cmd) = true).
    rewrite no_char_app, H5. exact H6.
Qed.

Lemma stray_processes_roundtrip_witness :
  parseStrayProcesses (join "" (map print_record [{| pid := "7"; state := "Z"; command := "" |};
                                                  {| pid := "12"; state := "S"; command := "sleep 10" |}]))
  = [{| pid := "7"; state := "Z"; command := "" |}; {| pid := "12"; state := "S"; command := "sleep 10" |}].
Proof.
  apply stray_processes_roundtrip. repeat constructor; cbn; discriminate.
Defined.
