(* ===== verification/Ndjson.v ===== *)
(** The reader of newline-delimited JSON (src/ndjson.ts). *)
From S2P Require Import Prelude JsString Encoding JsNumber Json Io.

Definition newline : ascii := chr 10.

(** What a consumer of the generator sees: the values yielded, in order, and
    the error it ends with, if it does. *)
Definition yields : Type := list json * option err.

Definition cons_yield (v : json) (y : yields) : yields := (v :: fst y, snd y).

Section reader.
Context `{Platform}.

(** One trimmed line: nothing when blank, else its value. *)
Definition yield_line (line : string) (k : yields) : yields :=
  if decide (trim line = "") then k
  else match parse_json (trim line) with
       | Ok v => cons_yield v k
       | Err e => ([], Some e)
       end.

(** The inner loop: the complete lines of the buffer, then [k] on the rest. *)
Fixpoint drain (fuel : nat) (buffered : string) (k : string -> yields) : yields :=
  match index_of newline buffered with
  | None => k buffered
  | Some n =>
      match fuel with
      | O => k buffered
      | S f => yield_line (str_take n buffered) (drain f (str_drop (S n) buffered) k)
      end
  end.

Definition read_last (ending : option err) (buffered : string) : yields :=
  match ending with
  | Some e => ([], Some e)
  | None => yield_line buffered ([], None)
  end.

(** The outer loop over the chunks. A buffer holds at most as many newlines as
    characters, so its length is fuel enough. *)
Fixpoint read_chunks (d : text_decoder) (buffered : string) (cs : list (list ascii)) (ending : option err) : yields :=
  match cs with
  | [] => read_last ending buffered
  | c :: cs' =>
      let '(text, d') := decode_stream d c in
      let buffered := buffered +:+ text in
      drain (String.length buffered) buffered (fun rest => read_chunks d' rest cs' ending)
  end.

Definition readNdjson (b : body) : yields :=
  read_chunks new_text_decoder "" (chunks b) (ending b).

(** ** What it should yield: the lines of the whole text *)

Fixpoint parse_lines (ls : list string) (last : option err) : yields :=
  match ls with
  | [] => ([], last)
  | l :: ls' => yield_line l (parse_lines ls' last)
  end.

(** A body cut off by an error never completes its last line. *)
Definition ndjson_spec (b : body) : yields :=
  let ls := split_on newline (fst (decode_stream new_text_decoder (body_bytes b))) in
  match ending b with
  | None => parse_lines ls None
  | Some e => parse_lines (removelast ls) (Some e)
  end.

(** ** Proofs *)

Lemma index_of_split c s :
  match index_of c s with
  | None => no_char c s = true
  | Some n => no_char c (str_take n s) = true
              /\ (String.length (str_drop (S n) s) < String.length s)%nat
              /\ s = str_take n s +:+ String c (str_drop (S n) s)
  end.
Proof.
  unfold no_char. induction s as [|d s IH]; [done|]. cbn [index_of].
  case_decide as Hd.
  - subst. cbn [str_take str_drop String.length]. repeat split; lia.
  - destruct (index_of c s) as [n|]; cbn [fmap option_fmap option_map].
    + destruct IH as (IH1 & IH2 & IH3).
      cbn [str_take all_chars String.length str_drop] in *. rewrite bool_decide_false, IH1 by done.
      repeat split; [lia|]. by rewrite IH3 at 1.
    + cbn [all_chars]. by rewrite bool_decide_false, IH.
Qed.

(** What [parse_lines] reads of a text, with or without the last line. *)
Definition lines_of (text : string) (last : option err) : list string :=
  let ls := split_on newline text in
  match last with None => ls | Some _ => removelast ls end.

Lemma lines_of_first a b last :
  no_char newline a = true ->
  lines_of (a +:+ String newline b) last = a :: lines_of b last.
Proof.
  intros Ha. unfold lines_of. rewrite split_on_first by done. destruct last; [|done].
  pose proof (split_on_nonempty newline b). simpl. by destruct (split_on newline b).
Qed.

(** Draining the buffer does not change what is read in the end. *)
Lemma drain_lines f buffered k rest last :
  (String.length buffered <= f)%nat ->
  (forall b, no_char newline b = true -> k b = parse_lines (lines_of (b +:+ rest) last) last) ->
  drain f buffered k = parse_lines (lines_of (buffered +:+ rest) last) last.
Proof.
  revert buffered; induction f as [|f IH]; intros buffered Hf Hk; cbn [drain];
    pose proof (index_of_split newline buffered) as Hi;
    destruct (index_of newline buffered) as [n|] eqn:Hn; auto;
    destruct Hi as (Ha & Hlt & Heq); [lia|].
  rewrite (IH (str_drop (S n) buffered)) by (done || lia).
  rewrite Heq at 3. rewrite string_app_assoc. cbn [String.append]. by rewrite lines_of_first.
Qed.

Lemma read_last_lines last b :
  no_char newline b = true -> read_last last b = parse_lines (lines_of b last) last.
Proof. intros Hb. unfold lines_of. rewrite split_on_none by done. by destruct last. Qed.

Lemma read_chunks_lines cs d buffered last :
  no_char newline buffered = true ->
  read_chunks d buffered cs last
  = parse_lines (lines_of (buffered +:+ fst (decode_stream d (concat cs))) last) last.
Proof.
  revert d buffered; induction cs as [|c cs IH]; intros d buffered Hb; cbn [read_chunks concat].
  - rewrite decode_stream_nil. cbn [fst]. rewrite string_app_nil_r. by apply read_last_lines.
  - rewrite decode_stream_app. destruct (decode_stream d c) as [text d1].
    rewrite (drain_lines _ _ _ (fst (decode_stream d1 (concat cs))) last); [|done|auto].
    destruct (decode_stream d1 (concat cs)) as [t2 d2]. cbn [fst]. by rewrite string_app_assoc.
Qed.

Lemma read_lines (b : body) : readNdjson b = ndjson_spec b.
Proof.
  unfold readNdjson, ndjson_spec. rewrite read_chunks_lines by done. cbn [String.append].
  unfold lines_of, body_bytes. by destruct (ending b).
Qed.

(** C36  The reader yields exactly the parsed non-blank lines of the body's
    text, in order, up to the first that does not parse: it does not matter
    where the chunks end, be it inside a line or inside a character. *)
Theorem readNdjson_lines (b : body) : readNdjson b = ndjson_spec b.
Proof. apply read_lines. Qed.
End reader.
