(* ===== verification/RoundTrip.v ===== *)
(** What [JSON.stringify] writes, [JSON.parse] reads back; and a stream of
    such lines comes out of the reader of src/ndjson.ts value by value, however
    the network cuts it. *)
From Stdlib Require Sorting.Sorted.
From S2P Require Import Prelude JsString Encoding JsNumber Json Io Ndjson.

(** ** The values *)

Definition unicode (s : string) : Prop := decode_fatal (utf8_encode s) = Some s.

(** Text is Unicode, numbers are safe integers, and the keys of an object are
    in the order of the language. *)
Fixpoint sendable (v : json) : Prop :=
  match v with
  | JNull | JBool _ => True
  | JNum n => is_safe_integer n = true
  | JStr s => unicode s
  | JArr l => foldr (fun x P => sendable x /\ P) True l
  | JObj o => wf_obj o /\ foldr (fun kv P => (unicode (fst kv) /\ sendable (snd kv)) /\ P) True o
  end.

Section nested.
Context (P : json -> Prop).
Context (Hnull : P JNull) (Hbool : forall b, P (JBool b)) (Hnum : forall n, P (JNum n)) (Hstr : forall s, P (JStr s)).
Context (Harr : forall l, Forall P l -> P (JArr l)) (Hobj : forall o, Forall (fun kv => P (snd kv)) o -> P (JObj o)).

Fixpoint json_nested (v : json) : P v :=
  match v with
  | JNull => Hnull
  | JBool b => Hbool b
  | JNum n => Hnum n
  | JStr s => Hstr s
  | JArr l => Harr l ((fix go l := match l return Forall P l with
                                   | [] => list.Forall_nil_2 P
                                   | x :: l => list.Forall_cons_2 P x l (json_nested x) (go l)
                                   end) l)
  | JObj o => Hobj o ((fix go o := match o return Forall (fun kv : string * json => P (snd kv)) o with
                                   | [] => list.Forall_nil_2 _
                                   | kv :: o => list.Forall_cons_2 _ kv o (json_nested (snd kv)) (go o)
                                   end) o)
  end.
End nested.

Lemma foldr_and {A} (Q : A -> Prop) l : foldr (fun x P => Q x /\ P) True l <-> Forall Q l.
Proof. induction l as [|x l IH]; simpl; [by split|]. by rewrite list.Forall_cons, IH. Qed.

Lemma Forall_mp {A} (P Q : A -> Prop) l : Forall (fun x => P x -> Q x) l -> Forall P l -> Forall Q l.
Proof. induction 1; intros HP; [done|]. apply list.Forall_cons_1 in HP as [??]. constructor; auto. Qed.

(** ** Strings *)

Definition str_json (s : string) : string := map_chars json_escape s.

Lemma parse_unicode_escape a b x y u s :
  hex4 a b x y = Some u -> (u < 55296)%N ->
  parse_chars (String backslash (String "u" (String a (String b (String x (String y s)))))) =
  ('(t, r) ← parse_chars s; Some (cp_string u +:+ t, r)).
Proof.
  intros Hu Hlt. cbn [parse_chars]. rewrite decide_False by done. rewrite decide_True by done. rewrite Hu. cbn [mbind option_bind].
  assert (high_surrogate u = false) as Eh by (unfold high_surrogate; lia).
  assert (low_surrogate u = false) as El by (unfold low_surrogate; lia).
  rewrite Eh, El. cbn [andb orb]. repeat (case_match; try reflexivity).
Qed.

Lemma parse_escape c s :
  parse_chars (json_escape c +:+ s) = ('(t, r) ← parse_chars s; Some (String c t, r)).
Proof.
  destruct (decide (c = dquote)) as [->|Hq]; [reflexivity|]. destruct (decide (c = backslash)) as [->|Hb]; [reflexivity|].
  unfold json_escape. rewrite !decide_False by done. destruct (N.ltb_spec (code c) 32) as [Hc|Hc].
  - destruct c as [[] [] [] [] [] [] [] []]; try (by vm_compute in Hc); try reflexivity;
      (etransitivity; [eapply (parse_unicode_escape _ _ _ _ _ s); [vm_compute; reflexivity|vm_compute; reflexivity]|reflexivity]).
  - cbn [String.append]. cbn [parse_chars]. rewrite !decide_False by done. by destruct (N.ltb_spec (code c) 32); [lia|].
Qed.

Lemma parse_chars_text s rest : parse_chars (str_json s +:+ String dquote rest) = Some (s, rest).
Proof.
  unfold str_json. induction s as [|c s IH]; [reflexivity|]. cbn [map_chars]. rewrite string_app_assoc, parse_escape, IH. done.
Qed.

(** ** Numbers *)

(** What may follow a number without being read as part of it. *)
Definition ends_number (rest : string) : Prop :=
  match rest with String c _ => c ∈ [","; "]"; "}"; newline]%char | "" => True end.

Lemma digits_from_first f n acc : (0 < n)%Z -> (n < 2 ^ Z.of_nat f)%Z -> starts_with "0" (digits_from f n acc) = false.
Proof.
  revert n acc; induction f as [|f IH]; intros n acc Hn Hf; [simpl in Hf; lia|]. cbn [digits_from]. cbn zeta.
  destruct (Z.ltb_spec n 10) as [Hs|Hs].
  - rewrite Z.mod_small by lia. cbn [starts_with]. apply decide_False. intros Hc.
    pose proof (f_equal code Hc) as Hc'. rewrite digit_char_code in Hc' by lia. vm_compute (code "0"%char) in Hc'. lia.
  - apply IH; [dlia|]. rewrite Nat2Z.inj_succ, Z.pow_succ_r in Hf by lia. dlia.
Qed.

Lemma string_of_Z_first n : (0 < n)%Z -> starts_with "0" (string_of_Z n) = false.
Proof.
  intros Hn. unfold string_of_Z. replace (n <? 0)%Z with false by lia. apply digits_from_first; [done|].
  rewrite Nat2Z.inj_succ, Z2Nat.id by apply Z.log2_nonneg. by apply Z.log2_spec.
Qed.

Lemma of_decimal_small n : (0 <= n < 2 ^ 53)%Z -> of_decimal n 0 = Int n.
Proof.
  intros Hn. unfold of_decimal. destruct (Z.eqb_spec n 0) as [->|H0]; [done|].
  pose proof (Z.log2_nonneg n). replace (400 <? 0)%Z with false by done. replace (0 + Z.log2 n <? -1200)%Z with false by lia.
  cbn [Z.leb]. rewrite Z.mul_1_r. pose proof (round_ratio_exact n 0 ltac:(lia) ltac:(lia)) as E. by rewrite Z.mul_1_r in E.
Qed.

(** The digits of a number, and what comes after. *)
Definition parse_digits (neg : bool) (s : string) : option (num * string) :=
  let '(ip, r1) := span_digits s in
  if (bool_decide (ip = "") || (starts_with "0" ip && negb (bool_decide (ip = "0"))))%bool then None
  else
    frac ← match r1 with
           | String "." r2 =>
               match span_digits r2 with
               | ("", _) => None
               | (ds, r3) => Some (ds, r3)
               end
           | _ => Some ("", r1)
           end;
    let '(fp, r2) := frac in
    '(x, r3) ← exponent_part r2;
    let n := of_decimal (digits_value (ip +:+ fp)) (x - Z.of_nat (String.length fp)) in
    Some (if neg then negate n else n, r3).

Lemma parse_number_digits s :
  parse_number s = match s with String "-" r => parse_digits true r | _ => parse_digits false s end.
Proof. destruct s as [|c s]; [reflexivity|]. by destruct c as [[] [] [] [] [] [] [] []]. Qed.

Lemma parse_digits_text neg n rest :
  (0 <= n < 2 ^ 53)%Z -> ends_number rest ->
  parse_digits neg (string_of_Z n +:+ rest) = Some (if neg then negate (Int n) else Int n, rest).
Proof.
  intros Hn Hr. destruct (string_of_Z_digits n) as [Hv Hd]; [lia|]. unfold parse_digits.
  assert (match rest with String c _ => is_digit c = false | "" => True end) as Hrd.
  { destruct rest as [|c rest]; [done|]. unfold ends_number in Hr. rewrite !elem_of_cons, elem_of_nil in Hr. by destruct Hr as [->|[->|[->|[->|[]]]]]. }
  rewrite span_digits_app by done. rewrite (bool_decide_false (string_of_Z n = "")) by apply string_of_Z_nonempty.
  assert (starts_with "0" (string_of_Z n) && negb (bool_decide (string_of_Z n = "0")) = false)%bool as ->.
  { destruct (decide (n = 0)%Z) as [->|H0]; [reflexivity|]. by rewrite string_of_Z_first by lia. }
  cbn [orb]. 
  assert (match rest with
          | String "." r2 => match span_digits r2 with ("", _) => None | (ds, r3) => Some (ds, r3) end
          | _ => Some ("", rest)
          end = Some ("", rest)) as ->.
  { destruct rest as [|c rest]; [done|]. unfold ends_number in Hr. rewrite !elem_of_cons, elem_of_nil in Hr. by destruct Hr as [->|[->|[->|[->|[]]]]]. }
  cbn [mbind option_bind].
  assert (exponent_part rest = Some (0%Z, rest)) as ->.
  { destruct rest as [|c rest]; [done|]. unfold ends_number in Hr. rewrite !elem_of_cons, elem_of_nil in Hr. by destruct Hr as [->|[->|[->|[->|[]]]]]. }
  cbn [mbind option_bind]. rewrite string_app_nil_r, Hv. cbn [String.length Z.of_nat Z.sub Z.add Z.opp]. by rewrite of_decimal_small.
Qed.

Lemma is_safe_bound n : is_safe_integer (Int n) = true -> (- 2 ^ 53 < n < 2 ^ 53)%Z.
Proof. cbn [is_safe_integer]. unfold MAX_SAFE_INTEGER. lia. Qed.

Lemma safe_to_string n : is_safe_integer (Int n) = true -> num_to_string (Int n) = string_of_Z n.
Proof. intros Hn%is_safe_bound. unfold num_to_string. replace (Z.abs n <? 10 ^ 21)%Z with true by lia. done. Qed.

Lemma string_of_Z_neg n : (n < 0)%Z -> string_of_Z n = String "-" (string_of_Z (- n)).
Proof. intros Hn. unfold string_of_Z. replace (n <? 0)%Z with true by lia. by replace (- n <? 0)%Z with false by lia. Qed.

(** A character that begins a number. *)
Definition number_char (c : ascii) : Prop := is_digit c = true \/ c = "-"%char.

Lemma string_of_Z_head n : exists c s, string_of_Z n = String c s /\ number_char c.
Proof.
  destruct (Z.ltb_spec n 0) as [Hn|Hn]; [rewrite string_of_Z_neg by lia; eexists _, _; split; [done|by right]|].
  destruct (string_of_Z_digits n Hn) as [_ Hd]. pose proof (string_of_Z_nonempty n) as Hne.
  destruct (string_of_Z n) as [|c s]; [done|]. exists c, s. split; [done|]. left. simpl in Hd. by apply andb_true_iff in Hd as [? _].
Qed.

Lemma digit_not_minus c : is_digit c = true -> c <> "-"%char.
Proof. by intros H ->. Qed.

Lemma parse_number_text n rest :
  is_safe_integer (Int n) = true -> ends_number rest -> parse_number (string_of_Z n +:+ rest) = Some (Int n, rest).
Proof.
  intros Hs%is_safe_bound Hr. rewrite parse_number_digits. destruct (Z.ltb_spec n 0) as [Hn|Hn].
  - rewrite string_of_Z_neg by done. cbn [String.append]. rewrite parse_digits_text by (done || lia). cbn [negate]. do 3 f_equal. lia.
  - destruct (string_of_Z_head n) as (c & s & E & Hc). pose proof (parse_digits_text false n rest ltac:(lia) Hr) as Hp.
    assert (c <> "-"%char) as Hm.
    { apply digit_not_minus. destruct (string_of_Z_digits n Hn) as [_ Hd]. rewrite E in Hd. simpl in Hd. by apply andb_true_iff in Hd as [? _]. }
    rewrite E in Hp |- *. cbn [String.append] in *. destruct c as [[] [] [] [] [] [] [] []]; try exact Hp. done.
Qed.

(** ** Values *)

(** The first character of a value's text. *)
Definition value_char (c : ascii) : Prop := c ∈ [dquote; "["; "{"; "n"; "t"; "f"]%char \/ number_char c.

Ltac by_ascii c := destruct c as [[] [] [] [] [] [] [] []]; try reflexivity; exfalso.

Lemma value_char_ascii c : value_char c -> ascii_in 33 125 c = true /\ c <> "]"%char.
Proof.
  intros [Hc|[Hc| ->]]; [| |by split].
  - rewrite !elem_of_cons, elem_of_nil in Hc. by destruct Hc as [->|[->|[->|[->|[->|[->|[]]]]]]].
  - split; [|by intros ->]. unfold is_digit, ascii_in in *. apply andb_true_iff in Hc as [H1 H2]. lia.
Qed.

Lemma value_head v : sendable v -> exists c s, json_stringify v = String c s /\ value_char c.
Proof.
  intros Hv. unfold value_char. destruct v as [|b|n|s|l|o]; cbn [json_stringify].
  - eexists _, _. split; [done|]. left. set_solver.
  - destruct b; eexists _, _; (split; [done|]); left; set_solver.
  - destruct n as [| |n|]; try done. cbn [sendable is_finite] in *. rewrite safe_to_string by done.
    destruct (string_of_Z_head n) as (c & s & E & Hc). eauto.
  - eexists _, _. split; [done|]. left. set_solver.
  - eexists _, _. split; [done|]. left. set_solver.
  - eexists _, _. split; [done|]. left. set_solver.
Qed.

Lemma skip_ws_value c s : value_char c -> skip_ws (String c s) = String c s.
Proof.
  intros [Hc _]%value_char_ascii. cbn [skip_ws]. unfold json_ws, ascii_in in *. apply andb_true_iff in Hc as [H1 H2].
  by replace (_ || _ || _ || _)%bool with false by lia.
Qed.

(** The parser at each kind of value, past the white space there is not. *)
Lemma parse_number_value f c s :
  number_char c ->
  parse_value (S f) (String c s) = ('(n, r) ← parse_number (String c s); Some (JNum n, r)).
Proof.
  intros Hc. cbn [parse_value]. rewrite skip_ws_value by by right. destruct Hc as [Hc| ->]; [|reflexivity].
  by_ascii c; vm_compute in Hc; discriminate.
Qed.

Lemma parse_string_value f s : parse_value (S f) (String dquote s) = ('(t, r) ← parse_chars s; Some (JStr t, r)).
Proof. reflexivity. Qed.

Lemma parse_array_value f c s :
  value_char c -> parse_value (S f) (String "[" (String c s)) = ('(l, r) ← parse_elements f (String c s); Some (JArr l, r)).
Proof.
  intros Hc. cbn [parse_value]. rewrite (skip_ws_value "[") by (left; set_solver). rewrite skip_ws_value by done.
  apply value_char_ascii in Hc as [_ Hc]. by_ascii c; done.
Qed.

Lemma parse_object_value f s :
  parse_value (S f) (String "{" (String dquote s)) = ('(o, r) ← parse_members f [] (String dquote s); Some (JObj o, r)).
Proof. reflexivity. Qed.

(** What the parser makes of a value's text, whatever comes after it. *)
Definition reads (v : json) : Prop :=
  forall f rest, (2 * String.length (json_stringify v) <= f)%nat -> ends_number rest ->
  parse_value f (json_stringify v +:+ rest) = Some (v, rest).

Lemma parse_elements_text l f rest :
  l <> [] -> Forall reads l ->
  (2 * String.length (join "," (map json_stringify l)) < f)%nat ->
  parse_elements f (join "," (map json_stringify l) +:+ String "]" rest) = Some (l, rest).
Proof.
  intros Hne Hl. revert f Hne. induction Hl as [|v l Hv Hl IH]; intros f Hne Hf; [done|]. destruct f as [|f]; [lia|].
  cbn [parse_elements]. destruct l as [|w l]; cbn [map join] in Hf |- *.
  - rewrite Hv by (lia || (simpl; set_solver)). done.
  - rewrite !str_length_app in Hf. cbn [String.length] in Hf. rewrite !string_app_assoc.
    rewrite Hv by (lia || (simpl; set_solver)). cbn [mbind option_bind String.append skip_ws].
    replace (json_ws ",") with false by done. by rewrite IH by (done || (cbn [map join]; lia)).
Qed.

Lemma obj_define_last {V} k (x : V) acc o :
  wf_obj (acc ++ (k, x) :: o)%list -> obj_define k x acc = (acc ++ [(k, x)])%list.
Proof.
  unfold wf_obj. induction acc as [|[k' v'] acc IH]; cbn; [done|]. intros [Hs Hk]%Sorted.StronglySorted_inv.
  unfold obj_keys in Hk. rewrite map_app in Hk. apply list.Forall_app in Hk as [_ Hk]. cbn in Hk.
  apply list.Forall_cons_1 in Hk as [[Hne Hp] _]. rewrite decide_False by done. by rewrite Hp, IH.
Qed.

(** One property of an object's text. *)
Definition member_text (kv : string * json) : string := json_quote (fst kv) +:+ ":" +:+ json_stringify (snd kv).

Lemma parse_member f acc k v rest :
  reads v -> (2 * String.length (json_stringify v) <= f)%nat -> ends_number rest ->
  parse_members (S f) acc (member_text (k, v) +:+ rest) =
  match skip_ws rest with
  | String "," r => parse_members f (obj_define k v acc) r
  | String "}" r => Some (obj_define k v acc, r)
  | _ => None
  end.
Proof.
  intros Hv Hf Hr. unfold member_text, json_quote. cbn [fst snd String.append]. rewrite !string_app_assoc.
  cbn [String.append]. cbn [parse_members]. rewrite (skip_ws_value dquote) by (left; set_solver). rewrite decide_True by done.
  rewrite (parse_chars_text k). cbn [mbind option_bind]. cbn [skip_ws]. replace (json_ws ":") with false by done.
  by rewrite Hv.
Qed.

Lemma parse_members_text o acc f rest :
  o <> [] -> Forall (fun kv => reads (snd kv)) o -> wf_obj (acc ++ o)%list ->
  (2 * String.length (join "," (map member_text o)) < f)%nat ->
  parse_members f acc (join "," (map member_text o) +:+ String "}" rest) = Some ((acc ++ o)%list, rest).
Proof.
  intros Hne Ho. revert f acc Hne. induction Ho as [|[k v] o Hv Ho IH]; intros f acc Hne Hwf Hf; [done|]. destruct f as [|f]; [lia|].
  pose proof (obj_define_last _ _ _ _ Hwf) as Hd.
  assert (2 * String.length (json_stringify v) <= String.length (member_text (k, v)) * 2)%nat as Hlv.
  { unfold member_text, json_quote. cbn [fst snd]. rewrite !str_length_app. lia. }
  destruct o as [|kv o]; cbn [map join] in Hf |- *.
  - rewrite parse_member by (done || lia || (simpl; set_solver)). cbn [skip_ws]. replace (json_ws "}") with false by done. by rewrite Hd.
  - rewrite !str_length_app in Hf. cbn [String.length] in Hf. rewrite !string_app_assoc.
    rewrite parse_member by (done || lia || (simpl; set_solver)). cbn [String.append skip_ws]. replace (json_ws ",") with false by done.
    rewrite Hd. assert (acc ++ (k, v) :: kv :: o = (acc ++ [(k, v)]) ++ kv :: o)%list as Ea by by rewrite <- app_assoc.
    rewrite Ea in Hwf |- *. apply IH; [done|done|cbn [map join]; lia].
Qed.

Lemma stringify_obj o : json_stringify (JObj o) = "{" +:+ join "," (map member_text o) +:+ "}".
Proof. cbn [json_stringify]. do 3 f_equal. apply map_ext. by intros [k v]. Qed.

Lemma sendable_reads v : sendable v -> reads v.
Proof.
  induction v as [|b|n|s|l IH|o IH] using json_nested; intros Hv f rest Hf Hr;
    (destruct f as [|f]; [destruct (value_head _ Hv) as (? & ? & E & _); rewrite E in Hf; simpl in Hf; lia|]).
  - done.
  - by destruct b.
  - destruct n as [| |n|]; try done. cbn [json_stringify is_finite sendable] in *. rewrite safe_to_string by done. pose proof (parse_number_text n rest Hv Hr) as Hp.
    destruct (string_of_Z_head n) as (c & s & E & Hc). rewrite E in Hp |- *. cbn [String.append] in *. by rewrite parse_number_value, Hp.
  - cbn [json_stringify]. unfold json_quote. cbn [String.append]. rewrite string_app_assoc.
    rewrite parse_string_value. cbn [String.append]. by rewrite (parse_chars_text s).
  - cbn [sendable] in Hv. rewrite (foldr_and sendable) in Hv.
    cbn [json_stringify] in Hf |- *. rewrite !str_length_app in Hf. cbn [String.length] in Hf. rewrite !string_app_assoc.
    destruct (decide (l = [])) as [->|Hne]; [done|].
    assert (Forall reads l) as Hl. { rewrite list.Forall_forall in *. eauto. }
    pose proof (parse_elements_text l f rest Hne Hl ltac:(lia)) as Hp. cbn [String.append] in *.
    destruct l as [|w l]; [done|]. apply list.Forall_cons_1 in Hv as [Hw _].
    destruct (value_head w Hw) as (c & s & E & Hc).
    assert (exists s', join "," (map json_stringify (w :: l)) = String c s') as [s' Ej].
    { cbn [map join]. rewrite E. destruct (map json_stringify l); eexists; reflexivity. }
    rewrite Ej in Hp |- *. cbn [String.append] in *. by rewrite parse_array_value, Hp.
  - cbn [sendable] in Hv. rewrite (foldr_and (fun kv => unicode (fst kv) /\ sendable (snd kv))) in Hv. destruct Hv as [Hwf Hv].
    rewrite stringify_obj in Hf |- *. rewrite !str_length_app in Hf. cbn [String.length] in Hf. rewrite !string_app_assoc.
    destruct (decide (o = [])) as [->|Hne]; [done|].
    assert (Forall (fun kv => reads (snd kv)) o) as Ho. { rewrite list.Forall_forall in *. naive_solver. }
    pose proof (parse_members_text o [] f rest Hne Ho Hwf ltac:(lia)) as Hp. cbn [String.append app] in *.
    assert (exists s', join "," (map member_text o) = String dquote s') as [s' Ej].
    { destruct o as [|kv o]; [done|]. cbn [map join]. destruct (map member_text o); eexists; reflexivity. }
    rewrite Ej in Hp |- *. cbn [String.append] in *. by rewrite parse_object_value, Hp.
Qed.

Lemma json_parse_stringify v : sendable v -> json_parse (json_stringify v) = Some v.
Proof.
  intros Hv. unfold json_parse. pose proof (sendable_reads v Hv (S (2 * String.length (json_stringify v))) "" ltac:(lia) I) as Hp.
  rewrite string_app_nil_r in Hp. by rewrite Hp.
Qed.

(** ** Text as octets *)

(** Octets read from [st] without an error and with nothing left due. *)
Definition clean_run (st : utf8_state) (s : string) : Prop :=
  exists cps, utf8_run st (utf8_encode s) = (map Some cps, Idle).

Lemma utf8_encode_app a b : utf8_encode (a +:+ b) = (utf8_encode a ++ utf8_encode b)%list.
Proof. induction a as [|c a IH]; [done|]. cbn. by f_equal. Qed.

Lemma omap_id_some {A} (l : list (option A)) : Forall is_Some l -> l = map Some (omap id l).
Proof. induction 1 as [|x l [y ->] _ IH]; [done|]. cbn. by f_equal. Qed.

Lemma mapM_id_map {A} (l : list A) : mapM id (map Some l) = Some l.
Proof. induction l as [|x l IH]; [done|]. cbn. by rewrite IH. Qed.

Lemma unicode_clean s : unicode s -> clean_run Idle s.
Proof.
  unfold unicode, decode_fatal, clean_run. destruct (utf8_run Idle (utf8_encode s)) as [out st].
  intros (cps & [Hall _]%mapM_id_Some & _)%bind_Some. apply list.Forall_app in Hall as [Hout Hf].
  destruct st; [|by inversion Hf as [|?? []]]. eexists. f_equal. by apply omap_id_some.
Qed.

Lemma decode_fatal_run s cps :
  utf8_run Idle (utf8_encode s) = (map Some cps, Idle) -> decode_fatal (utf8_encode s) = Some (string_of_bytes (encode_cps cps)).
Proof. intros E. unfold decode_fatal. rewrite E. cbn [utf8_flush]. by rewrite app_nil_r, mapM_id_map. Qed.

Lemma clean_cps s cps : utf8_run Idle (utf8_encode s) = (map Some cps, Idle) -> string_of_bytes (encode_cps cps) = s.
Proof. intros E%decode_fatal_run%decode_fatal_inv%(f_equal string_of_bytes). by rewrite !string_of_utf8 in E. Qed.

Lemma replace_no_errors cps : replace_errors (map Some cps) = cps.
Proof. unfold replace_errors. rewrite map_map. apply map_id. Qed.

Lemma clean_unicode s : clean_run Idle s -> unicode s.
Proof. intros [cps E]. unfold unicode. rewrite (decode_fatal_run _ _ E). f_equal. by apply clean_cps. Qed.

(** What a buffer holds of such text is that text. *)
Lemma buffer_text_unicode s : unicode s -> buffer_text (utf8_encode s) = s.
Proof.
  intros [cps E]%unicode_clean. unfold buffer_text. rewrite E. cbn [utf8_flush].
  rewrite app_nil_r, replace_no_errors. by apply clean_cps.
Qed.

Lemma clean_app st a b : clean_run st a -> clean_run Idle b -> clean_run st (a +:+ b).
Proof.
  intros [x Ha] [y Hb]. exists (x ++ y)%list. by rewrite utf8_encode_app, utf8_run_app, Ha, Hb, map_app.
Qed.

Lemma clean_ascii s : all_chars (ascii_in 0 127) s = true -> clean_run Idle s.
Proof.
  induction s as [|c s IH]; [by exists []|]. cbn [all_chars]. intros [Hc Hs]%andb_true_iff. apply (clean_app _ (String c "")); [|auto].
  exists [code c]. cbn. unfold first_octet. unfold ascii_in in Hc. apply andb_true_iff in Hc as [_ Hc%N.leb_le].
  by destruct (N.ltb_spec (code c) 128); [|lia].
Qed.

Lemma escape_ascii c : (code c <? 128)%N = true -> all_chars (ascii_in 0 127) (json_escape c) = true.
Proof. destruct c as [[] [] [] [] [] [] [] []]; vm_compute; done. Qed.

Lemma escape_other c : (code c <? 128)%N = false -> json_escape c = String c "".
Proof. destruct c as [[] [] [] [] [] [] [] []]; vm_compute; done. Qed.

Lemma escape_newline c : no_char newline (json_escape c) = true.
Proof. by destruct c as [[] [] [] [] [] [] [] []]. Qed.

Lemma utf8_step_error cp n lo hi c :
  (code c <? 128)%N = true -> (128 <= lo)%N -> exists out, utf8_step (Pending cp n lo hi) c = (None :: out, Idle).
Proof.
  intros Hc Hlo. cbn [utf8_step]. replace ((lo <=? code c) && (code c <=? hi))%N%bool with false by lia.
  unfold first_octet. rewrite Hc. eauto.
Qed.

Definition due_high (st : utf8_state) : Prop := match st with Idle => True | Pending _ _ lo _ => (128 <= lo)%N end.

Lemma first_octet_due x : due_high (snd (first_octet x)).
Proof. unfold first_octet. repeat (match goal with |- context [if ?b then _ else _] => destruct b end; cbn); (done || lia). Qed.

Lemma utf8_step_due st c : due_high (snd (utf8_step st c)).
Proof.
  unfold utf8_step. pose proof (first_octet_due (code c)) as Hf. destruct st as [|cp n lo hi]; [done|].
  case_match; [by destruct n as [|[|n]]|]. by destruct (first_octet (code c)).
Qed.

Lemma clean_cons st c s :
  clean_run st (String c s) -> exists out, fst (utf8_step st c) = map Some out /\ clean_run (snd (utf8_step st c)) s.
Proof.
  intros [cps E]. cbn in E. destruct (utf8_step st c) as [o1 st1]. unfold clean_run. cbn [fst snd]. destruct (utf8_run st1 (utf8_encode s)) as [o2 st2].
  injection E as E ->. symmetry in E. apply map_eq_app in E as (x & y & -> & <- & <-). exists x. split; [done|]. by exists y.
Qed.

Lemma clean_step st c s out :
  fst (utf8_step st c) = map Some out -> clean_run (snd (utf8_step st c)) s -> clean_run st (String c s).
Proof.
  intros Ho [y E]. exists (out ++ y)%list. cbn. destruct (utf8_step st c) as [o1 st1]. cbn in *. by rewrite E, Ho, map_app.
Qed.

(** Escaping touches ASCII only, so it never cuts a character. *)
Lemma clean_escape s st : due_high st -> clean_run st s -> clean_run st (str_json s).
Proof.
  unfold str_json. revert st; induction s as [|c s IH]; intros st Hd Hs; [done|]. cbn [map_chars].
  apply clean_cons in Hs as (out & Ho & Hs). destruct (code c <? 128)%N eqn:Hc.
  - destruct st as [|cp n lo hi].
    + apply clean_app; [by apply clean_ascii, escape_ascii|]. apply IH; [done|]. unfold utf8_step, first_octet in Hs. by rewrite Hc in Hs.
    + destruct (utf8_step_error cp n lo hi c Hc Hd) as [o E]. rewrite E in Ho. by destruct out.
  - rewrite escape_other by done. cbn [String.append]. apply (clean_step _ _ _ out); [done|]. apply IH; [apply utf8_step_due|done].
Qed.

(** Text that survives a stream: decodable, and on one line. *)
Definition one_line (s : string) : Prop := clean_run Idle s /\ no_char newline s = true.

Lemma one_line_app a b : one_line a -> one_line b -> one_line (a +:+ b).
Proof.
  intros [Ha Hna] [Hb Hnb]. split; [by apply clean_app|]. unfold no_char in *. by rewrite all_chars_app, Hna, Hnb.
Qed.

Lemma one_line_solid s : all_chars solid s = true -> one_line s.
Proof.
  intros Hs. split.
  - apply clean_ascii. eapply all_chars_impl; [|done]. unfold solid, ascii_in. intros c. lia.
  - unfold no_char. eapply all_chars_impl; [|done]. intros c Hc. rewrite bool_decide_false; [done|]. by intros <-.
Qed.

Lemma sextet_char_solid v : (v < 64)%N -> solid (sextet_char v) = true.
Proof.
  intros Hv. unfold sextet_char. repeat case_match; try done; unfold solid, ascii_in; rewrite code_chr by lia; lia.
Qed.

Lemma base64_solid bs : all_chars solid (base64_encode bs) = true.
Proof.
  induction bs as [|a|a b|a b c l IH] using triples_ind; cbn [base64_encode all_chars]; rewrite ?IH; [done|..];
    pose proof (code_lt a); try pose proof (code_lt b); try pose proof (code_lt c);
    rewrite !sextet_char_solid by dlia; done.
Qed.

Lemma unicode_solid s : all_chars solid s = true -> unicode s.
Proof. intros Hs. apply clean_unicode, one_line_solid, Hs. Qed.

Lemma one_line_quote s : unicode s -> one_line (json_quote s).
Proof.
  intros Hs. unfold json_quote. apply (one_line_app (String dquote "")); [by apply one_line_solid|].
  apply one_line_app; [|by apply one_line_solid]. split; [by apply clean_escape, unicode_clean|].
  clear Hs. induction s as [|c s IH]; [done|]. unfold no_char in *. cbn [map_chars]. rewrite all_chars_app, IH, andb_true_r. apply escape_newline.
Qed.

Lemma one_line_join l : Forall one_line l -> one_line (join "," l).
Proof.
  induction 1 as [|x l Hx Hl IH]; [by apply one_line_solid|]. destruct l as [|y l]; [done|]. cbn [join] in *.
  apply one_line_app; [done|]. by apply (one_line_app ","); [apply one_line_solid|].
Qed.

Lemma string_of_Z_solid n : all_chars solid (string_of_Z n) = true.
Proof.
  assert (forall m, (0 <= m)%Z -> all_chars solid (string_of_Z m) = true) as Hp.
  { intros m Hm. destruct (string_of_Z_digits m Hm) as [_ Hd]. eapply all_chars_impl; [|exact Hd].
    intros c. unfold is_digit, solid, ascii_in. lia. }
  destruct (Z.ltb_spec n 0) as [Hn|Hn]; [|by apply Hp]. rewrite string_of_Z_neg by done. cbn [all_chars]. by rewrite Hp by lia.
Qed.

Lemma one_line_value v : sendable v -> one_line (json_stringify v).
Proof.
  induction v as [|b|n|s|l IH|o IH] using json_nested; intros Hv.
  - by apply one_line_solid.
  - destruct b; by apply one_line_solid.
  - destruct n as [| |n|]; try done. cbn [json_stringify is_finite sendable] in *. rewrite safe_to_string by done.
    apply one_line_solid, string_of_Z_solid.
  - by apply one_line_quote.
  - cbn [json_stringify sendable] in *. rewrite (foldr_and sendable) in Hv. apply one_line_app; [by apply one_line_solid|].
    apply one_line_app; [|by apply one_line_solid]. apply one_line_join, Forall_fmap.
    exact (Forall_mp _ _ _ IH Hv).
  - rewrite stringify_obj. cbn [sendable] in Hv. rewrite (foldr_and (fun kv => unicode (fst kv) /\ sendable (snd kv))) in Hv.
    destruct Hv as [_ Hv]. apply one_line_app; [by apply one_line_solid|].
    apply one_line_app; [|by apply one_line_solid]. apply one_line_join, Forall_fmap.
    apply (Forall_mp (fun kv => unicode (fst kv) /\ sendable (snd kv))); [|done]. eapply list.Forall_impl; [exact IH|].
    intros [k x] Hx [Hk Hs]. unfold member_text. cbn [fst snd] in *.
    apply one_line_app; [by apply one_line_quote|]. apply (one_line_app ":"); [by apply one_line_solid|auto].
Qed.

(** ** A line of the stream *)

Lemma all_solid_last s : s <> "" -> all_chars solid s = true -> exists a d, s = a +:+ String d "" /\ solid d = true.
Proof.
  induction s as [|c s IH]; [done|]. cbn [all_chars]. intros _ [Hc Hs]%andb_true_iff. destruct s as [|c' s]; [by exists "", c|].
  destruct IH as (a & d & -> & Hd); [done|done|]. by exists (String c a), d.
Qed.

Lemma value_last v : sendable v -> exists a d, json_stringify v = a +:+ String d "" /\ solid d = true.
Proof.
  intros Hv. destruct v as [|b|n|s|l|o].
  - by apply all_solid_last.
  - destruct b; by apply all_solid_last.
  - destruct n as [| |n|]; try done. cbn [json_stringify is_finite sendable] in *. rewrite safe_to_string by done.
    apply all_solid_last; [apply string_of_Z_nonempty|apply string_of_Z_solid].
  - exists (String dquote (str_json s)), dquote. by split.
  - exists ("[" +:+ join "," (map json_stringify l)), "]"%char. by split.
  - rewrite stringify_obj. exists ("{" +:+ join "," (map member_text o)), "}"%char. by split.
Qed.

Lemma value_char_solid c : value_char c -> solid c = true.
Proof. intros [Hc _]%value_char_ascii. unfold solid, ascii_in in *. lia. Qed.

Lemma trim_value v : sendable v -> trim (json_stringify v) = json_stringify v.
Proof.
  intros Hv. destruct (value_head v Hv) as (c & s & E & Hc%value_char_solid), (value_last v Hv) as (a & d & E' & Hd).
  rewrite E'. destruct a as [|c' a]; [by apply trim_one|].
  assert (c' = c) as -> by (rewrite E in E'; by injection E'). by rewrite trim_solid.
Qed.

(** The text a decoder makes of a stream that begins with a value. *)
Lemma decode_clean c s :
  solid c = true -> clean_run Idle (String c s) -> fst (decode_stream new_text_decoder (utf8_encode (String c s))) = String c s.
Proof.
  intros Hc [cps E]. pose proof (clean_cps _ _ E) as Hd. rewrite <- Hd at 2.
  unfold decode_stream, emit. cbn [td_state td_started new_text_decoder]. rewrite E. cbn [fst]. rewrite replace_no_errors.
  cbn in E. unfold first_octet in E. unfold solid, ascii_in in Hc. apply andb_true_iff in Hc as [_ Hc%N.leb_le].
  destruct (N.ltb_spec (code c) 128); [|lia]. destruct (utf8_run Idle (utf8_encode s)) as [o st].
  destruct cps as [|cp cps]; [done|]. injection E as <- _ _. cbn [strip_bom negb andb].
  by destruct (N.eqb_spec (code c) 65279); [lia|].
Qed.

(** What a server streams: each value on a line of its own. *)
Definition ndjson_text (vs : list json) : string :=
  join "" (map (fun v => json_stringify v +:+ String newline "") vs).

Lemma ndjson_text_cons v vs : ndjson_text (v :: vs) = json_stringify v +:+ String newline (ndjson_text vs).
Proof. unfold ndjson_text. cbn [map]. by rewrite join_empty_cons, string_app_assoc. Qed.

Lemma clean_text vs : Forall sendable vs -> clean_run Idle (ndjson_text vs).
Proof.
  induction 1 as [|v vs Hv _ IH]; [by exists []|]. rewrite ndjson_text_cons. apply clean_app; [by apply one_line_value|].
  by apply (clean_app _ (String newline "")); [apply clean_ascii|].
Qed.

Lemma decode_ndjson vs :
  Forall sendable vs -> fst (decode_stream new_text_decoder (utf8_encode (ndjson_text vs))) = ndjson_text vs.
Proof.
  intros Hvs. pose proof (clean_text vs Hvs) as Hc. destruct Hvs as [|v vs Hv Hvs]; [done|].
  rewrite ndjson_text_cons in *. destruct (value_head v Hv) as (c & s & E & Hs). rewrite E in *.
  by apply decode_clean; [apply value_char_solid|].
Qed.

Section stream.
Context `{Platform}.

Lemma yield_value v k : sendable v -> yield_line (json_stringify v) k = cons_yield v k.
Proof.
  intros Hv. unfold yield_line. rewrite trim_value by done. rewrite decide_False.
  - unfold parse_json. by rewrite json_parse_stringify.
  - destruct (value_head v Hv) as (c & s & -> & _). done.
Qed.

Lemma parse_lines_text vs last :
  Forall sendable vs -> parse_lines (lines_of (ndjson_text vs) last) last = (vs, last).
Proof.
  induction 1 as [|v vs Hv _ IH]; [by destruct last|].
  rewrite ndjson_text_cons, lines_of_first by by apply one_line_value. cbn [parse_lines]. by rewrite IH, yield_value.
Qed.

Lemma stream_lines (b : body) (vs : list json) :
  Forall sendable vs -> body_bytes b = utf8_encode (ndjson_text vs) -> readNdjson b = (vs, ending b).
Proof.
  intros Hvs Hb. rewrite read_lines. unfold ndjson_spec. rewrite Hb, decode_ndjson by done.
  rewrite <- (parse_lines_text vs (ending b)) by done. unfold lines_of. by destruct (ending b).
Qed.

(** C37  Round trip: whatever values a server writes as lines of [JSON.stringify]
    text (numbers that are safe integers, text that is Unicode, objects with
    their keys in the order of the language), the reader yields exactly those,
    in order, wherever the network cuts the octets, and then ends the way the
    stream does. *)
Theorem readNdjson_roundtrip (b : body) (vs : list json) :
  Forall sendable vs -> body_bytes b = utf8_encode (ndjson_text vs) -> readNdjson b = (vs, ending b).
Proof. apply stream_lines. Qed.
End stream.

(** Two events, one with text outside ASCII, cut inside that character. *)
Definition sample_events : list json :=
  [JObj [("1", JNum (Int (-7))); ("text", JStr ("é" +:+ String newline "'" +:+ String dquote ""))]; JArr [JNull; JBool true; JObj []]].

Definition sample_stream : body :=
  let bs := utf8_encode (ndjson_text sample_events) in
  {| chunks := [firstn 18 bs; skipn 18 bs]; ending := None |}.

Lemma readNdjson_roundtrip_witness : @readNdjson example_platform sample_stream = (sample_events, None).
Proof.
  apply (@readNdjson_roundtrip example_platform sample_stream sample_events); [|reflexivity].
  unfold sample_events. repeat constructor; done.
Defined.
