(* ===== verification/Types.v ===== *)
(** The contract with marimohub as far as the adapter uses it (src/types.ts)
    and the wire types of Armada it reads and writes (src/armada-types.ts). *)
From S2P Require Import Prelude JsString Encoding JsNumber Json Io.

Definition SandboxId : Type := string.

(** ** What marimohub asks of a sandbox *)

Record ComputeResources := { cpu : option num; memoryBytes : option num; gpu : option string }.

Record SandboxOwner := { projectId : string; userId : option string }.

(** The members of [CreateSandboxOptions] the adapter reads. *)
Record CreateSandboxOptions := {
  opt_image : option string;
  opt_resources : option ComputeResources;
  opt_owner : option SandboxOwner
}.

Record ActiveSandbox := { active_id : SandboxId; createdAt : option string }.

Record capabilities := { multiPort : bool; computeProfiles : bool; gpuProfiles : bool }.

(** ** What it is answered *)

Inductive exec_error := COMMAND_FAILED | SPAWN_FAILED | BACKEND_ERROR.
Inductive ExecResult :=
| ExecSuccess (stdout stderr : string)
| ExecFailure (stdout stderr : string) (e : exec_error).

Inductive read_encoding := utf_8 | base64.
Inductive read_error := NOT_FOUND | READ_FAILED | READ_BACKEND_ERROR.
Inductive ReadFileResult :=
| ReadFileSuccess (content : string) (encoding : read_encoding)
| ReadFileFailure (e : read_error).

Inductive file_type := file | directory | symlink | other.
Record FileInfo := {
  name : string; absolutePath : string; relativePath : string;
  info_type : file_type; info_size : num
}.
Inductive list_error := NOT_A_DIRECTORY | LIST_FAILED | LIST_BACKEND_ERROR.
Inductive ListFilesResult :=
| ListFilesSuccess (files : list FileInfo)
| ListFilesFailure (e : list_error).
Record ListFilesOptions := { recursive : option bool; includeHidden : option bool }.

Record BoundedReadOptions := { maxBytes : num; budget_timeoutMs : num }.

(** Text, or octets as they are. *)
Inductive file_content := Text (s : string) | Bytes (b : list ascii).
Record SandboxFileWrite := { write_path : string; write_content : file_content }.

Inductive probe_mode := tcp | http.
Record PortProbe := { mode : option probe_mode; path : option string }.
Record WaitForPortOptions := { wait_mode : option probe_mode; wait_path : option string; wait_timeout : option num }.

Record StartProcessOptions := {
  processId : option string;
  cwd : option string;
  process_env : option (obj (option string));
  process_timeout : option num
}.

(** ** Armada *)

(** [JOB_STATE]: the numbers of [api.JobState]. *)
Inductive job_state :=
| QUEUED | PENDING | RUNNING | SUCCEEDED | FAILED | UNKNOWN | SUBMITTED | LEASED
| PREEMPTED | CANCELLED | REJECTED.

Definition JOB_STATE (s : job_state) : Z :=
  match s with
  | QUEUED => 0 | PENDING => 1 | RUNNING => 2 | SUCCEEDED => 3 | FAILED => 4 | UNKNOWN => 5
  | SUBMITTED => 6 | LEASED => 7 | PREEMPTED => 8 | CANCELLED => 9 | REJECTED => 10
  end.

(** Annotation marking a job as this installation's (src/armada.ts). *)
Definition SANDBOX_MARK : string := "marimohub/sandbox".

(** Where a running job's pod lives. *)
Record PodLocation := {
  clusterId : string; podName : string; podNamespace : string; nodeName : option string
}.


(** A live job as Lookout reports it. *)
Record ActiveJob := { job_sandbox : ActiveSandbox; in_queue : string }.

(** A request that starts a job: it carries job request items. *)
Definition submits_job (r : request) : bool :=
  match payload_of r with
  | Some (JsonPayload j) => match prop "jobRequestItems" j with Some _ => true | None => false end
  | _ => false
  end.

Definition submits (c : io) : bool :=
  match c with
  | Fetch r => submits_job r
  | FetchAll rs => existsb submits_job rs
  | _ => false
  end.

Definition starts_nothing (c : io) : Prop := submits c = false.
