(* ===== verification/Auth.v ===== *)
(** How the adapter authenticates to Armada (src/auth.ts). *)
From S2P Require Import Prelude JsString Encoding JsNumber Json Io.

Inductive ArmadaAuth :=
| anonymous
| basic (username password : string)
| bearer (token : string)
| bearerFile (path : string).

(** The [Authorization] value; a token file is read for every request. *)
Definition authorizationHeader {S} (auth : ArmadaAuth) : M S (option string) :=
  match auth with
  | anonymous => mret None
  | basic username password =>
      let credentials := username +:+ ":" +:+ password in
      mret (Some ("Basic " +:+ base64_encode (utf8_encode credentials)))
  | bearer token => mret (Some ("Bearer " +:+ token))
  | bearerFile path =>
      contents ← read_text_file path;
      let token := trim contents in
      if decide (token = "") then lift (throw ("ARMADA_AUTH_TOKEN_FILE is empty: " +:+ path))
      else mret (Some ("Bearer " +:+ token))
  end.

(** ** What the server reads back *)

(** The credentials of a [Basic] header: what is before the first colon, and
    after it. *)
Definition parse_basic (header : string) : option (string * string) :=
  if starts_with "Basic " header then
    let text := string_of_bytes (base64_decode (str_drop 6 header)) in
    i ← index_of ":" text; Some (str_take i text, str_drop (S i) text)
  else None.

Lemma parse_basic_encoded u p :
  no_char ":" u = true ->
  parse_basic ("Basic " +:+ base64_encode (utf8_encode (u +:+ ":" +:+ p))) = Some (u, p).
Proof.
  intros Hu. unfold parse_basic. rewrite starts_with_app.
  change 6%nat with (String.length "Basic "). rewrite str_drop_app, base64_roundtrip, string_of_utf8.
  change (":" +:+ p) with (String ":" p). rewrite index_of_first by done.
  cbn [mbind option_bind]. f_equal. f_equal; [by rewrite str_take_app|].
  clear Hu. induction u as [|c u IH]; [done | exact IH].
Qed.

(** What a server reads out of the header is what was configured, for every
    mechanism: the user and the password whatever the password holds, the
    token as it is, and of a token file its current trimmed content, with an
    error when there is none. Nothing but the token file is consulted. *)
Theorem authorization_header {S W} (h : handler W) (auth : ArmadaAuth) (s : S) (w : W) :
  let o := run h (authorizationHeader auth) s w in
  final o = s /\
  match auth with
  | anonymous => value o = Ok None /\ trace o = []
  | basic u p => trace o = [] /\ exists v, value o = Ok (Some v)
                 /\ (no_char ":" u = true -> parse_basic v = Some (u, p))
  | bearer t => value o = Ok (Some ("Bearer " +:+ t)) /\ trace o = []
  | bearerFile path =>
      trace o = [ReadTextFile path] /\
      match fst (h (ReadTextFile path) w) with
      | Ok text => value o = if blank text
                             then throw ("ARMADA_AUTH_TOKEN_FILE is empty: " +:+ path)
                             else Ok (Some ("Bearer " +:+ trim text))
      | Err e => value o = Err e
      end
  end.
Proof.
  destruct auth as [|u p|t|path]; cbn [authorizationHeader].
  - done.
  - split; [done|]. split; [done|]. eexists; split; [done|]. apply parse_basic_encoded.
  - done.
  - unfold read_text_file, blank. simpl. destruct (h (ReadTextFile path) w) as [[text|e] w']; simpl; [|done].
    by case_decide; [rewrite bool_decide_true|rewrite bool_decide_false].
Qed.
