(* ===== verification/Config.v ===== *)
(** The adapter's configuration (src/config.ts): every environment variable it
    reads, validated at startup. *)
From S2P Require Import Prelude JsString Regex JsNumber Encoding Json Io Types Auth.

(** ** The configuration *)

Inductive Exposure :=
| nodeport
| ingress (tls : bool) (certName : option string) (annotations : obj string).

Record ArmadaConfig := {
  config_url : string;
  expose : Exposure;
  queue : string;
  queueByUser : obj string;
  queueByProject : obj string;
  namespace : string;
  priorityClassName : option string;
  image : string;
  sandboxHostname : option string;
  port : Z;
  agentImage : string;
  agentPort : Z;
  agentTokenSecret : string;
  imagePullSecrets : list string;
  runAsUser : option Z;
  runAsGroup : option Z;
  fsGroup : option Z;
  surfacePorts : list Z;
  gpuNodeSelectors : obj (obj string);
  podLabels : obj string;
  podAnnotations : obj string;
  maxLifetimeSeconds : num;
  commandMaxSeconds : Z;
  auth : ArmadaAuth;
  lookoutUrl : option string
}.

(** [env[name]]: the environment holds no inherited names the code asks for. *)
Definition environment : Type := obj string.
Definition var (env : environment) (name : string) : option string := obj_get name env.

(** A string that is unset or empty, as [!value] has it. *)
Definition falsy (v : option string) : bool := bool_decide (default "" v = "").

(** ** Single variables *)

Definition MIN_TOKEN_SECRET_LENGTH : Z := 32.

Definition required (env : environment) (name : string) : result string :=
  match var env name with
  | Some value => if decide (value = "") then throw ("Missing required env var: " +:+ name) else Ok value
  | None => throw ("Missing required env var: " +:+ name)
  end.

Definition readTokenSecret (env : environment) : result string :=
  secret ← required env "ARMADA_AGENT_TOKEN_SECRET";
  if (utf16_length secret <? MIN_TOKEN_SECRET_LENGTH)%Z
  then throw ("ARMADA_AGENT_TOKEN_SECRET must be at least " +:+ string_of_Z MIN_TOKEN_SECRET_LENGTH
              +:+ " characters; generate one with `openssl rand -hex 32`")
  else Ok secret.

Definition http_protocol (p : option string) : bool :=
  match p with
  | Some protocol => (bool_decide (protocol = "http:") || bool_decide (protocol = "https:"))%bool
  | None => false
  end.

Definition requiredUrl `{Platform} (env : environment) (name : string) : result string :=
  value ← required env name;
  if http_protocol (url_protocol value) then Ok value
  else throw (name +:+ " must be an http(s) URL, got: " +:+ value).

Definition optionalUrl `{Platform} (env : environment) (name : string) : result (option string) :=
  match var env name with
  | None => Ok None
  | Some _ => Some <$> requiredUrl env name
  end.

Definition optionalPort (env : environment) (name : string) (fallback : Z) : result Z :=
  match var env name with
  | None => Ok fallback
  | Some raw =>
      let bad := throw (name +:+ " must be a port number between 1 and 65535, got: " +:+ raw) in
      match to_number raw with
      | Int value => if ((value <? 1) || (65535 <? value))%Z%bool then bad else Ok value
      | _ => bad
      end
  end.

Definition optionalSeconds (env : environment) (name : string) (fallback least : Z) : result Z :=
  match var env name with
  | None => Ok fallback
  | Some raw =>
      let bad := throw (name +:+ " must be a whole number of seconds, got: " +:+ raw) in
      match to_number raw with
      | Int value => if (value <? least)%Z then bad else Ok value
      | _ => bad
      end
  end.

Definition optionalId (env : environment) (name : string) : result (option Z) :=
  match var env name with
  | None => Ok None
  | Some raw =>
      let bad := throw (name +:+ " must be a whole number, got: " +:+ raw) in
      match (if blank raw then NaN else to_number raw) with
      | Int value => if (value <? 0)%Z then bad else Ok (Some value)
      | _ => bad
      end
  end.

Definition nonempty (s : string) : bool := negb (bool_decide (s = "")).

Definition readImagePullSecrets (env : environment) : result (list string) :=
  match var env "ARMADA_IMAGE_PULL_SECRETS" with
  | None => Ok []
  | Some raw =>
      let names := List.filter nonempty (map trim (split_on "," raw)) in
      if decide (names = []) then throw "ARMADA_IMAGE_PULL_SECRETS must name at least one secret"
      else Ok names
  end.

(** ** Authentication *)

(** [readFileSync(path, 'utf8')], [None] when it throws. *)
Definition file_reader : Type := string -> option string.

Definition readAuth (files : file_reader) (env : environment) : result ArmadaAuth :=
  let username := var env "ARMADA_AUTH_USERNAME" in
  let password := var env "ARMADA_AUTH_PASSWORD" in
  let token := var env "ARMADA_AUTH_TOKEN" in
  let tokenFile := var env "ARMADA_AUTH_TOKEN_FILE" in
  let configured := omap id
    [ match username, password with None, None => None | _, _ => Some "ARMADA_AUTH_USERNAME/PASSWORD" end;
      (fun _ => "ARMADA_AUTH_TOKEN") <$> token;
      (fun _ => "ARMADA_AUTH_TOKEN_FILE") <$> tokenFile ] in
  if (1 <? length configured)%nat
  then throw ("Configure one Armada auth mechanism, found: " +:+ join ", " configured)
  else
  match username, password with
  | None, None =>
      match token with
      | Some token =>
          if blank token then throw "ARMADA_AUTH_TOKEN is empty" else Ok (bearer (trim token))
      | None =>
          match tokenFile with
          | Some tokenFile =>
              match files tokenFile with
              | None => throw ("ARMADA_AUTH_TOKEN_FILE cannot be read: " +:+ tokenFile)
              | Some contents =>
                  if blank contents then throw ("ARMADA_AUTH_TOKEN_FILE is empty: " +:+ tokenFile)
                  else Ok (bearerFile tokenFile)
              end
          | None => Ok anonymous
          end
      end
  | _, _ =>
      if (falsy username || falsy password)%bool
      then throw "ARMADA_AUTH_USERNAME and ARMADA_AUTH_PASSWORD must be set together"
      else Ok (basic (default "" username) (default "" password))
  end.

(** ** Maps *)

(** The body of the loop over the entries. *)
Definition add_string (name : string) (allowEmpty : bool) (acc : obj string) (kv : string * json) : result (obj string) :=
  let bad := throw (name +:+ ": " +:+ fst kv +:+ " must be a "
                    +:+ (if allowEmpty then "" else "non-empty ") +:+ "string") in
  match snd kv with
  | JStr value =>
      if (negb allowEmpty && blank value)%bool then bad else Ok (obj_assign (fst kv) value acc)
  | _ => bad
  end.

Fixpoint fold_result {A B} (f : B -> A -> result B) (acc : B) (l : list A) : result B :=
  match l with
  | [] => Ok acc
  | x :: l' => acc' ← f acc x; fold_result f acc' l'
  end.

(** The JSON object in a variable, which must be one. *)
Definition json_object (name raw : string) : result (obj json) :=
  match json_parse raw with
  | Some (JObj o) => Ok o
  | _ => throw (name +:+ " must be a JSON object, got: " +:+ raw)
  end.

Definition readStringMap (env : environment) (name : string) (allowEmpty : bool) : result (obj string) :=
  match var env name with
  | None => Ok []
  | Some raw => o ← json_object name raw; fold_result (add_string name allowEmpty) [] o
  end.

Definition readExposure (env : environment) : result Exposure :=
  let kind := default "nodeport" (var env "ARMADA_EXPOSE") in
  let ingressVars := List.filter (fun name => negb (bool_decide (var env name = None)))
    ["ARMADA_INGRESS_TLS"; "ARMADA_INGRESS_CERT_NAME"; "ARMADA_INGRESS_ANNOTATIONS"] in
  if decide (kind = "nodeport") then
    if (0 <? length ingressVars)%nat
    then throw (join ", " ingressVars +:+ " only apply with ARMADA_EXPOSE=ingress, and ARMADA_EXPOSE is nodeport")
    else Ok nodeport
  else if decide (kind = "ingress") then
    let tlsRaw := default "true" (var env "ARMADA_INGRESS_TLS") in
    if (negb (bool_decide (tlsRaw = "true")) && negb (bool_decide (tlsRaw = "false")))%bool
    then throw ("ARMADA_INGRESS_TLS must be true or false, got: " +:+ tlsRaw)
    else
    let certName := var env "ARMADA_INGRESS_CERT_NAME" in
    if match certName with Some c => blank c | None => false end
    then throw "ARMADA_INGRESS_CERT_NAME is empty"
    else
    annotations ← readStringMap env "ARMADA_INGRESS_ANNOTATIONS" false;
    Ok (ingress (bool_decide (tlsRaw = "true")) certName annotations)
  else throw ("ARMADA_EXPOSE must be nodeport or ingress, got: " +:+ kind).

(** ** Surfaces *)

Record surface := { surface_id : string; variable : string; defaultPort : Z }.

Definition SURFACES : list surface :=
  [ {| surface_id := "vscode"; variable := "MARIMOHUB_SURFACE_VSCODE_PORT"; defaultPort := 8443 |};
    {| surface_id := "opencode"; variable := "MARIMOHUB_SURFACE_OPENCODE_PORT"; defaultPort := 4096 |} ].

Definition PRIMARY_SURFACE : string := "marimo".

Definition known_surface (id : string) : bool :=
  (bool_decide (id = PRIMARY_SURFACE)
   || existsb (fun s => bool_decide (surface_id s = id)) SURFACES)%bool.

Definition enabled_surfaces (env : environment) : list string :=
  js_set (List.filter nonempty
            (map trim (split_on "," (default PRIMARY_SURFACE (var env "MARIMOHUB_SURFACES"))))).

Definition readSurfacePorts (env : environment) : result (list Z) :=
  let enabled := enabled_surfaces env in
  match List.find (fun id => negb (known_surface id)) enabled with
  | Some id =>
      throw (q "MARIMOHUB_SURFACES names '" +:+ id +:+ q "', a surface this adapter does not know; it knows "
             +:+ join ", " (map surface_id SURFACES))
  | None =>
      map_result (fun s => optionalPort env (variable s) (defaultPort s))
        (List.filter (fun s => bool_decide (surface_id s ∈ enabled)) SURFACES)
  end.

(** ** GPU node selectors *)

Definition GPU_NODE_SELECTORS : string := "ARMADA_GPU_NODE_SELECTORS".

Definition invalid_selector (type : string) : string :=
  GPU_NODE_SELECTORS +:+ ": " +:+ type +:+ q " must be an object of node label to value, like {'nvidia.com/gpu.product': 'NVIDIA-A100-SXM4-80GB'}".

Definition add_label (type : string) (labels : obj string) (kv : string * json) : result (obj string) :=
  match snd kv with
  | JStr value =>
      if (blank (fst kv) || blank value)%bool then throw (invalid_selector type)
      else Ok (obj_assign (fst kv) value labels)
  | _ => throw (invalid_selector type)
  end.

Definition add_selector (selectors : obj (obj string)) (kv : string * json) : result (obj (obj string)) :=
  let type := fst kv in
  match snd kv with
  | JObj selector =>
      labels ← fold_result (add_label type) [] selector;
      if decide (obj_keys labels = []) then throw (invalid_selector type)
      else Ok (obj_define (to_upper type) labels selectors)
  | _ => throw (invalid_selector type)
  end.

Definition readGpuNodeSelectors (env : environment) : result (obj (obj string)) :=
  match var env GPU_NODE_SELECTORS with
  | None => Ok []
  | Some raw =>
      o ← json_object GPU_NODE_SELECTORS raw;
      selectors ← fold_result add_selector [] o;
      if decide (obj_keys selectors = [])
      then throw (GPU_NODE_SELECTORS +:+ " must map at least one GPU type")
      else Ok selectors
  end.

(** ** Labels and annotations *)

Definition char_in (extra : string) (c : ascii) : bool :=
  bool_decide (c ∈ String.list_ascii_of_string extra).
Definition name_char (c : ascii) : bool := (is_alnum c || char_in "-_." c)%bool.
Definition dns_edge (c : ascii) : bool := (is_lower c || is_digit c)%bool.
Definition dns_char (c : ascii) : bool := (dns_edge c || char_in "-" c)%bool.

(** [/^[A-Za-z0-9]([-A-Za-z0-9_.]{0,61}[A-Za-z0-9])?$/]. *)
Definition K8S_NAME : regex :=
  Seq (Class_ is_alnum) (Opt (Seq (UpTo 61 (Class_ name_char)) (Class_ is_alnum))).

(** [[a-z0-9]([-a-z0-9]*[a-z0-9])?], the label of the prefix. *)
Definition K8S_LABEL : regex :=
  Seq (Class_ dns_edge) (Opt (Seq (Star (Class_ dns_char)) (Class_ dns_edge))).

(** [/^label(\.label)*$/]. *)
Definition K8S_PREFIX : regex :=
  Seq K8S_LABEL (Star (Seq (Class_ (char_in ".")) K8S_LABEL)).

Definition isQualifiedName (key : string) : bool :=
  match last_index_of "/" key with
  | None => re_test K8S_NAME key
  | Some slash =>
      let prefix := str_take slash key in
      ((utf16_length prefix <=? 253)%Z && re_test K8S_PREFIX prefix
       && re_test K8S_NAME (str_drop (S slash) key))%bool
  end.

Definition isReservedKey (key : string) : bool :=
  (starts_with "armada_" key || starts_with "armadaproject.io/" key
   || bool_decide (key = SANDBOX_MARK))%bool.

Inductive metadata_kind := label | annotation.
Definition kind_name (k : metadata_kind) : string :=
  match k with label => "label" | annotation => "annotation" end.

(** The body of the loop over the map's entries. *)
Definition check_metadata (name : string) (kind : metadata_kind) (kv : string * string) : result unit :=
  let '(key, value) := kv in
  require (isQualifiedName key)
    (name +:+ ": " +:+ key +:+ " is not a valid " +:+ kind_name kind
     +:+ " key, which is an optional DNS subdomain prefix and a slash, then up to 63 letters, digits, '-', '_' or '.'");;
  require (negb (isReservedKey key))
    (name +:+ ": " +:+ key +:+ " is reserved for Armada or for the adapter itself");;
  require (match kind with
           | label => bool_decide (value = "") || re_test K8S_NAME value
           | annotation => true
           end)%bool
    (name +:+ ": the value of " +:+ key
     +:+ " is not a valid label value, which is empty or up to 63 letters, digits, '-', '_' or '.', starting and ending with a letter or digit").

Definition readPodMetadata (env : environment) (name : string) (kind : metadata_kind) : result (obj string) :=
  m ← readStringMap env name true;
  _ ← map_result (check_metadata name kind) m;
  Ok m.

(** ** Compute profiles *)

Definition PROFILE_VARIABLES : list string :=
  ["MARIMOHUB_COMPUTE_PROFILES"; "MARIMOHUB_COMPUTE_APP_PROFILES"].

Definition pair_gpu_type (pair : string) : option string :=
  let parts := split_on "=" pair in
  let key := default "" (parts !! 0%nat) in
  let value := default "" (parts !! 1%nat) in
  if decide (trim key = "gpu") then
    let type := to_upper (trim (default "" (split_on ":" value !! 0%nat))) in
    if decide (type = "") then None else Some type
  else None.

Definition profile_body (profile : string) : string :=
  match index_of ":" profile with Some n => str_drop (S n) profile | None => profile end.

Definition profileGpuTypes (profiles : option string) : list string :=
  mbind (fun profile => omap pair_gpu_type (split_on ";" (profile_body profile)))
    (split_on "," (default "" profiles)).

(** ** The whole configuration *)

Definition DEFAULT_MAX_LIFETIME_SECONDS : Z := 24 * 60 * 60.
Definition DEFAULT_COMMAND_MAX_SECONDS : Z := 6 * 60 * 60.
Definition DEFAULT_IMAGE : string := "ghcr.io/marimo-team/marimo-sandbox:latest".

(** [AdapterFactoryContext['compute']], as far as it is read. *)
Record compute_context := { sessionMaxLifetimeSeconds : option num }.

Definition read_image (env : environment) : result string :=
  let image := match var env "MARIMOHUB_COMPUTE_IMAGE" with
               | None => DEFAULT_IMAGE
               | Some v => trim (default "" (split_on "," v !! 0%nat))
               end in
  if decide (image = "") then throw "MARIMOHUB_COMPUTE_IMAGE must contain at least one image"
  else Ok image.

(** The object literal: its members in the order they are evaluated. *)
Definition read_fields `{Platform} (files : file_reader) (env : environment)
    (compute : option compute_context) (image : string) : result ArmadaConfig :=
  url ← requiredUrl env "ARMADA_URL";
  expose ← readExposure env;
  queue ← required env "ARMADA_QUEUE";
  queueByUser ← readStringMap env "ARMADA_QUEUE_BY_USER" false;
  queueByProject ← readStringMap env "ARMADA_QUEUE_BY_PROJECT" false;
  port ← optionalPort env "ARMADA_KERNEL_PORT" 2718;
  agentImage ← required env "ARMADA_AGENT_IMAGE";
  agentPort ← optionalPort env "ARMADA_AGENT_PORT" 8718;
  agentTokenSecret ← readTokenSecret env;
  imagePullSecrets ← readImagePullSecrets env;
  runAsUser ← optionalId env "ARMADA_RUN_AS_USER";
  runAsGroup ← optionalId env "ARMADA_RUN_AS_GROUP";
  fsGroup ← optionalId env "ARMADA_FS_GROUP";
  surfacePorts ← readSurfacePorts env;
  gpuNodeSelectors ← readGpuNodeSelectors env;
  podLabels ← readPodMetadata env "ARMADA_POD_LABELS" label;
  podAnnotations ← readPodMetadata env "ARMADA_POD_ANNOTATIONS" annotation;
  lookoutUrl ← optionalUrl env "ARMADA_LOOKOUT_URL";
  maxLifetimeSeconds ←
    match compute ≫= sessionMaxLifetimeSeconds with
    | Some n => Ok n
    | None => Int <$> optionalSeconds env "ARMADA_KERNEL_MAX_LIFETIME_SECONDS" DEFAULT_MAX_LIFETIME_SECONDS 1
    end;
  commandMaxSeconds ← optionalSeconds env "ARMADA_COMMAND_MAX_SECONDS" DEFAULT_COMMAND_MAX_SECONDS 0;
  auth ← readAuth files env;
  Ok {| config_url := url; expose := expose; queue := queue; queueByUser := queueByUser;
        queueByProject := queueByProject; namespace := default "default" (var env "ARMADA_NAMESPACE");
        priorityClassName := var env "ARMADA_PRIORITY_CLASS"; image := image;
        sandboxHostname := var env "MARIMOHUB_COMPUTE_SANDBOX_HOSTNAME"; port := port;
        agentImage := agentImage; agentPort := agentPort; agentTokenSecret := agentTokenSecret;
        imagePullSecrets := imagePullSecrets; runAsUser := runAsUser; runAsGroup := runAsGroup;
        fsGroup := fsGroup; surfacePorts := surfacePorts; gpuNodeSelectors := gpuNodeSelectors;
        podLabels := podLabels; podAnnotations := podAnnotations;
        maxLifetimeSeconds := maxLifetimeSeconds; commandMaxSeconds := commandMaxSeconds;
        auth := auth; lookoutUrl := lookoutUrl |}.

Definition check_surface_port (c : ArmadaConfig) (p : Z) : result unit :=
  require (negb ((p =? agentPort c) || (p =? port c))%Z%bool)
    ("A surface port (MARIMOHUB_SURFACE_*_PORT) is " +:+ string_of_Z p +:+ ", which is the "
     +:+ (if (p =? port c)%Z then "kernel" else "agent") +:+ " port; each needs its own").

Definition check_profiles (env : environment) (c : ArmadaConfig) (variable : string) : result unit :=
  let unmapped := List.filter (fun type => bool_decide (obj_get type (gpuNodeSelectors c) = None))
                    (profileGpuTypes (var env variable)) in
  require (bool_decide (unmapped = []))
    (variable +:+ " names GPU type " +:+ join ", " (js_set unmapped)
     +:+ ", which ARMADA_GPU_NODE_SELECTORS does not map; it maps "
     +:+ join ", " (obj_keys (gpuNodeSelectors c))).

Definition mapped_queues (c : ArmadaConfig) : list string :=
  List.filter (fun q => negb (bool_decide (q = queue c))) (obj_values (queueByUser c) ++ obj_values (queueByProject c)).

Definition readConfig `{Platform} (files : file_reader) (env : environment)
    (compute : option compute_context) : result ArmadaConfig :=
  image ← read_image env;
  config ← read_fields files env compute image;
  require (negb (agentPort config =? port config)%Z)
    ("ARMADA_AGENT_PORT and ARMADA_KERNEL_PORT are both " +:+ string_of_Z (port config)
     +:+ "; the agent and the kernel each need a port");;
  _ ← map_result (check_surface_port config) (surfacePorts config);
  _ ← (if (0 <? length (obj_keys (gpuNodeSelectors config)))%nat
       then map_result (check_profiles env config) PROFILE_VARIABLES else Ok []);
  require (negb ((0 <? length (mapped_queues config))%nat && bool_decide (lookoutUrl config = None)))
    "ARMADA_QUEUE_BY_USER / ARMADA_QUEUE_BY_PROJECT name queues other than ARMADA_QUEUE, which needs ARMADA_LOOKOUT_URL: a sandbox addressed by id alone can only be placed through Lookout";;
  Ok config.

(** ** The rules, stated without the expressions *)

Fixpoint ends_with (p : ascii -> bool) (s : string) : bool :=
  match s with
  | "" => false
  | String c "" => p c
  | String _ s' => ends_with p s'
  end.
Definition begins_with (p : ascii -> bool) (s : string) : bool :=
  match s with "" => false | String c _ => p c end.

(** 1 to 63 letters, digits, [-], [_] and [.], a letter or digit at both ends. *)
Definition name_rule (s : string) : Prop :=
  (String.length s <= 63)%nat /\ all_chars name_char s = true
  /\ begins_with is_alnum s = true /\ ends_with is_alnum s = true.

(** A DNS label: lower-case letters, digits and dashes, no dash at an end. *)
Definition dns_label (s : string) : Prop :=
  all_chars dns_char s = true /\ begins_with dns_edge s = true /\ ends_with dns_edge s = true.

Definition dns_subdomain (s : string) : Prop :=
  exists labels, labels <> [] /\ Forall dns_label labels /\ s = join "." labels.

(** An optional prefix and a slash, then a name. *)
Definition qualified_name (key : string) : Prop :=
  (no_char "/" key = true /\ name_rule key) \/
  exists prefix n, key = prefix +:+ "/" +:+ n /\ no_char "/" n = true
    /\ (utf16_length prefix <= 253)%Z /\ dns_subdomain prefix /\ name_rule n.

Lemma ends_with_app p m d : ends_with p (m +:+ String d "") = p d.
Proof.
  induction m as [|c m IH]; [done|]. cbn [String.append ends_with]. destruct m; [done | exact IH].
Qed.

Lemma string_snoc c s : exists m d, String c s = m +:+ String d "".
Proof.
  revert c; induction s as [|d s IH]; intros c; [by exists "", c|].
  destruct (IH d) as (m & e & ->). by exists (String c m), e.
Qed.

(** A regular expression with a class at both ends. *)
Lemma matches_edges e p n r s :
  (forall c, e c = true -> p c = true) ->
  (forall m, matches r m <-> all_chars p m = true /\ n (String.length m)) ->
  n O ->
  matches (Seq (Class_ e) (Opt (Seq r (Class_ e)))) s <->
  all_chars p s = true /\ n (String.length s - 2)%nat /\ begins_with e s = true /\ ends_with e s = true.
Proof.
  intros He Hr Hn. rewrite matches_seq. split.
  - intros (x & y & -> & (c & -> & Hc)%matches_class & [->|Hy]%matches_opt); simpl.
    + by rewrite Hc, He.
    + apply matches_seq in Hy as (m & z & -> & [Hm Hl]%Hr & (d & -> & Hd)%matches_class).
      pose proof (ends_with_app e (String c m) d) as E. simpl in E. rewrite E.
      rewrite He, Hc, all_chars_app, Hm by done. simpl. rewrite He, str_length_app by done. simpl.
      by replace (String.length m + 1 - 1)%nat with (String.length m) by lia.
  - intros (Hp & Hl & Hb & Hend). destruct s as [|c s]; [done|].
    exists (String c ""), s. split; [done|]. simpl in Hb. split; [by constructor|]. apply matches_opt.
    destruct s as [|d s]; [by left|right]. destruct (string_snoc d s) as (m & z & E). rewrite E in *.
    apply matches_seq. exists m, (String z ""). split; [done|].
    simpl in Hp. rewrite all_chars_app in Hp. simpl in Hp.
    pose proof (ends_with_app e (String c m) z) as Ez. simpl in Ez, Hend. rewrite Ez in Hend.
    split; [|by constructor]. apply Hr. simpl in Hl. rewrite str_length_app in Hl. simpl in Hl.
    replace (String.length m + 1 - 1)%nat with (String.length m) in Hl by lia.
    by apply andb_true_iff in Hp as [_ [Hm _]%andb_true_iff].
Qed.

Lemma alnum_name_char c : is_alnum c = true -> name_char c = true.
Proof. unfold name_char. by intros ->. Qed.

Lemma edge_dns_char c : dns_edge c = true -> dns_char c = true.
Proof. unfold dns_char. by intros ->. Qed.

Lemma k8s_name_iff s : re_test K8S_NAME s = true <-> name_rule s.
Proof.
  rewrite re_test_spec. unfold K8S_NAME.
  rewrite (matches_edges is_alnum name_char (fun n => n <= 61)%nat (UpTo 61 (Class_ name_char)));
    [|apply alnum_name_char|intros; apply matches_up_to|lia].
  unfold name_rule. split; intros H; repeat split; try apply H; destruct H; [lia|].
  destruct s as [|c s]; simpl; [lia|]. simpl in *. lia.
Qed.

Lemma k8s_label_iff s : matches K8S_LABEL s <-> dns_label s.
Proof.
  unfold K8S_LABEL.
  rewrite (matches_edges dns_edge dns_char (fun _ => True) (Star (Class_ dns_char)));
    [|apply edge_dns_char|intros; rewrite matches_star_class; naive_solver|done].
  unfold dns_label. naive_solver.
Qed.

Lemma dotted_tail s :
  matches (Star (Seq (Class_ (char_in ".")) K8S_LABEL)) s <->
  exists ls, Forall dns_label ls /\ s = join "" (map (String ".") ls).
Proof.
  split.
  - remember (Star _) as st eqn:Er.
    induction 1 as [| | | | | |r a b Ha _ Hb IH]; simplify_eq; [by exists []|].
    destruct IH as (ls & Hls & ->); [done|].
    apply matches_seq in Ha as (x & l & -> & (c & -> & Hc)%matches_class & Hl%k8s_label_iff).
    apply bool_decide_eq_true, list_elem_of_singleton in Hc as ->.
    exists (l :: ls). split; [by constructor|]. cbn [map]. by rewrite join_empty_cons.
  - intros (ls & Hls & ->). induction Hls as [|l ls Hl _ IH]; [constructor|].
    cbn [map]. rewrite join_empty_cons. constructor; [|done].
    apply matches_seq. exists ".", l. repeat split; [by constructor | by apply k8s_label_iff].
Qed.

Lemma join_dots l ls : join "." (l :: ls) = l +:+ join "" (map (String ".") ls).
Proof.
  revert l; induction ls as [|m ls IH]; intros l; [symmetry; apply string_app_nil_r|].
  cbn [map]. rewrite join_empty_cons. change (join "." (l :: m :: ls)) with (l +:+ "." +:+ join "." (m :: ls)).
  by rewrite IH.
Qed.

Lemma k8s_prefix_iff s : re_test K8S_PREFIX s = true <-> dns_subdomain s.
Proof.
  rewrite re_test_spec. unfold K8S_PREFIX. rewrite matches_seq. split.
  - intros (l & b & -> & Hl%k8s_label_iff & (ls & Hls & ->)%dotted_tail).
    exists (l :: ls). rewrite join_dots. split; [done|]. split; [by constructor | done].
  - intros ([|l ls] & Hne & Hls & ->); [done|]. inversion Hls; subst. rewrite join_dots.
    eexists l, _. split; [done|]. split; [by apply k8s_label_iff|]. apply dotted_tail. eauto.
Qed.

Lemma last_index_of_split c s :
  match last_index_of c s with
  | None => no_char c s = true
  | Some n => s = str_take n s +:+ String c (str_drop (S n) s) /\ no_char c (str_drop (S n) s) = true
  end.
Proof.
  unfold no_char. induction s as [|d s IH]; [done|]. cbn [last_index_of].
  destruct (last_index_of c s) as [n|].
  - destruct IH as [E Hn]. cbn [str_take str_drop] in *. split; [by rewrite E at 1 | done].
  - case_decide as Hd; [by subst|]. cbn [all_chars]. by rewrite bool_decide_false, IH.
Qed.

Lemma last_index_of_last c a b :
  no_char c b = true -> last_index_of c (a +:+ String c b) = Some (String.length a).
Proof.
  intros Hb. assert (last_index_of c b = None) as Hn.
  { clear a. unfold no_char in Hb. induction b as [|d b IH]; [done|]. simpl in *.
    apply andb_true_iff in Hb as [Hd%negb_true_iff%bool_decide_eq_false Hb].
    by rewrite IH, decide_False. }
  induction a as [|d a IH]; simpl; [by rewrite Hn, decide_True | by rewrite IH].
Qed.

(** The keys that pass for qualified names are exactly Kubernetes': an optional DNS subdomain of at most 253 characters and a
    slash, then a name of 1 to 63 characters. *)
Lemma qualified_name_iff key : isQualifiedName key = true <-> qualified_name key.
Proof.
  unfold isQualifiedName, qualified_name. pose proof (last_index_of_split "/" key) as Hs. split.
  - destruct (last_index_of "/" key) as [n|]; [|by intros H%k8s_name_iff; left].
    destruct Hs as [E Hn]. intros H. right. exists (str_take n key), (str_drop (S n) key).
    apply andb_true_iff in H as [[Hl%Z.leb_le Hp%k8s_prefix_iff]%andb_true_iff Hk%k8s_name_iff].
    repeat split; try done; apply Hk.
  - intros [[Hc Hk]|(p & n & -> & Hn & Hl & Hp & Hk)].
    + destruct (last_index_of "/" key) as [n|]; [|by apply k8s_name_iff].
      destruct Hs as [E _]. rewrite E in Hc. unfold no_char in Hc. rewrite all_chars_app in Hc.
      simpl in Hc. by rewrite andb_false_r in Hc.
    + change ("/" +:+ n) with (String "/" n). rewrite last_index_of_last by done.
      assert (forall a, str_drop (S (String.length a)) (a +:+ String "/" n) = n) as ->
        by (intros a; induction a as [|c a IH]; [done | exact IH]).
      rewrite str_take_app. apply andb_true_iff. split; [apply andb_true_iff; split|].
      * by apply Z.leb_le.
      * by apply k8s_prefix_iff.
      * by apply k8s_name_iff.
Qed.

(** ** What each reader guarantees *)

Lemma required_Ok env name v : required env name = Ok v <-> var env name = Some v /\ v <> "".
Proof.
  unfold required. destruct (var env name) as [w|]; [|naive_solver].
  case_decide; naive_solver.
Qed.

Lemma optionalPort_Ok env name fallback v :
  optionalPort env name fallback = Ok v -> (1 <= fallback <= 65535)%Z -> (1 <= v <= 65535)%Z.
Proof.
  unfold optionalPort. destruct (var env name) as [raw|]; [|naive_solver].
  destruct (to_number raw); try done. case_match eqn:E; [done|]. intros <-%Ok_inj. lia.
Qed.

Lemma optionalSeconds_Ok env name fallback least v :
  optionalSeconds env name fallback least = Ok v -> (least <= fallback)%Z -> (least <= v)%Z.
Proof.
  unfold optionalSeconds. destruct (var env name) as [raw|]; [|naive_solver].
  destruct (to_number raw); try done. case_match eqn:E; [done|]. intros <-%Ok_inj. lia.
Qed.

Lemma optionalId_Ok env name id :
  optionalId env name = Ok (Some id) -> (0 <= id)%Z.
Proof.
  unfold optionalId. destruct (var env name) as [raw|]; [|naive_solver].
  destruct (if blank raw then NaN else to_number raw); try done.
  case_match eqn:E; [done|]. intros [= <-]%Ok_inj. lia.
Qed.

Section urls.
Context `{Platform}.

Definition http_url (u : string) : Prop := http_protocol (url_protocol u) = true.

Lemma requiredUrl_Ok env name v : requiredUrl env name = Ok v -> var env name = Some v /\ http_url v.
Proof.
  unfold requiredUrl, http_url. intros (w & [Hw _]%required_Ok & Hv)%bind_Ok.
  destruct (http_protocol (url_protocol w)) eqn:E; [|done]. by apply Ok_inj in Hv as <-.
Qed.

Lemma optionalUrl_Ok env name v u : optionalUrl env name = Ok v -> v = Some u -> http_url u.
Proof.
  unfold optionalUrl. destruct (var env name); [|naive_solver].
  destruct (requiredUrl env name) as [w|] eqn:E; [|done]. simpl.
  intros <-%Ok_inj [= <-]. by eapply requiredUrl_Ok.
Qed.
End urls.

Lemma fold_result_inv {A B} (f : B -> A -> result B) (P : B -> Prop) l acc b :
  fold_result f acc l = Ok b -> P acc ->
  (forall b a b', f b a = Ok b' -> P b -> P b') -> P b.
Proof.
  revert acc; induction l as [|x l IH]; intros acc; simpl; [by intros <-%Ok_inj|].
  intros (acc' & Hx & Hl)%bind_Ok Hacc Hf. eauto.
Qed.

Lemma readStringMap_Ok env name allowEmpty m :
  readStringMap env name allowEmpty = Ok m ->
  wf_obj m /\ Forall (fun kv => allowEmpty = true \/ blank (snd kv) = false) m.
Proof.
  unfold readStringMap. destruct (var env name) as [raw|].
  - intros (o & _ & Hm)%bind_Ok.
    eapply (fold_result_inv _ (fun m => wf_obj m /\ _ m)); [exact Hm | split; constructor|].
    intros b [k v] b'. unfold add_string. destruct v as [| | |s| |]; try done. simpl.
    case_match eqn:E; [done|]. intros <-%Ok_inj [Hwf Hb]. split; [by apply wf_obj_assign|].
    apply obj_assign_Forall; [|done]. destruct allowEmpty; [by left|right]. exact E.
  - intros <-%Ok_inj. split; constructor.
Qed.

(** A selector is a non-empty map of non-blank labels to non-blank values. *)
Definition selector_ok (selector : obj string) : Prop :=
  selector <> [] /\ Forall (fun kv => blank (fst kv) = false /\ blank (snd kv) = false) selector.

Lemma upper_char_idem c : upper_char (upper_char c) = upper_char c.
Proof.
  unfold upper_char. destruct (is_lower c) eqn:E; [|by rewrite E].
  unfold is_lower, ascii_in in *. rewrite code_chr by (pose proof (code_lt c); lia).
  by replace (_ && _)%bool with false by lia.
Qed.

Lemma to_upper_idem s : to_upper (to_upper s) = to_upper s.
Proof. induction s as [|c s IH]; simpl; [done | by rewrite upper_char_idem, IH]. Qed.

Lemma readGpuNodeSelectors_Ok env m :
  readGpuNodeSelectors env = Ok m ->
  Forall (fun kv => to_upper (fst kv) = fst kv /\ selector_ok (snd kv)) m.
Proof.
  unfold readGpuNodeSelectors. destruct (var env GPU_NODE_SELECTORS) as [raw|].
  - intros (o & _ & (m' & Hm & Hne)%bind_Ok)%bind_Ok. case_decide; [done|]. apply Ok_inj in Hne as <-.
    eapply (fold_result_inv _ (fun m => Forall _ m)); [exact Hm | constructor|].
    intros b [t v] b'. unfold add_selector. destruct v as [| | | | |sel]; try done. cbn [fst snd].
    intros (labels & Hl & Hb)%bind_Ok Hacc. case_decide as Hne'; [done|]. apply Ok_inj in Hb as <-.
    apply obj_define_Forall; [|done]. simpl. split; [apply to_upper_idem|].
    split; [by destruct labels|].
    eapply (fold_result_inv _ (fun m => Forall _ m)); [exact Hl | constructor|].
    intros c [l w] c'. unfold add_label. destruct w as [| | |s| |]; try done. cbn [fst snd].
    destruct (blank l) eqn:E1, (blank s) eqn:E2; try done. simpl. intros <-%Ok_inj Hc.
    by apply obj_assign_Forall.
  - intros <-%Ok_inj. constructor.
Qed.

(** A label or annotation an operator may set. *)
Definition metadata_ok (kind : metadata_kind) (kv : string * string) : Prop :=
  qualified_name (fst kv) /\ isReservedKey (fst kv) = false /\
  (kind = label -> snd kv = "" \/ name_rule (snd kv)).

Lemma check_metadata_iff name kind kv : check_metadata name kind kv = Ok tt <-> metadata_ok kind kv.
Proof.
  destruct kv as [key value]. unfold check_metadata, metadata_ok. cbn [fst snd].
  assert (forall a c (p : result unit), (require a c;; p) = Ok tt <-> a = true /\ p = Ok tt) as Hthen
    by (intros [] c p; naive_solver).
  rewrite !Hthen, require_Ok, qualified_name_iff, negb_true_iff.
  assert ((match kind with label => bool_decide (value = "") || re_test K8S_NAME value | annotation => true end)%bool = true
          <-> (kind = label -> value = "" \/ name_rule value)) as ->; [|done].
  destruct kind; [|done]. rewrite orb_true_iff, bool_decide_eq_true, k8s_name_iff. naive_solver.
Qed.

Lemma check_all_metadata name kind m us :
  map_result (check_metadata name kind) m = Ok us -> Forall (metadata_ok kind) m.
Proof.
  intros Hm%map_result_Ok. induction Hm as [|kv [] m us Hkv _ IH]; constructor; [by eapply check_metadata_iff | done].
Qed.

Lemma readPodMetadata_Ok env name kind m :
  readPodMetadata env name kind = Ok m -> wf_obj m /\ Forall (metadata_ok kind) m.
Proof.
  unfold readPodMetadata. intros (m' & [Hwf _]%readStringMap_Ok & (us & Hus & <-%Ok_inj)%bind_Ok)%bind_Ok.
  eauto using check_all_metadata.
Qed.

(** The labels and annotations an operator may set are exactly these: the
    variable reads as a map, every key is one of Kubernetes' qualified names
    (an optional DNS subdomain of at most 253 characters and a slash, then a
    name of 1 to 63 characters) that neither Armada nor the adapter reserves,
    and a label's value is empty or such a name; the map is taken as it is. *)
Theorem readPodMetadata_iff env name kind m :
  readPodMetadata env name kind = Ok m <->
  readStringMap env name true = Ok m /\ Forall (metadata_ok kind) m.
Proof.
  unfold readPodMetadata. rewrite bind_Ok. split.
  - intros (m' & Hm & (us & Hus & <-%Ok_inj)%bind_Ok). eauto using check_all_metadata.
  - intros [Hm Hok]. exists m. split; [done|]. apply bind_Ok. exists (map (fun _ => tt) m). split; [|done].
    apply map_result_Ok. clear Hm. induction Hok as [|kv m Hkv _ IH]; simpl; constructor; [by apply check_metadata_iff | done].
Qed.

(** The environment configures exactly one mechanism, or none. *)
Inductive configures (files : file_reader) (env : environment) : ArmadaAuth -> Prop :=
| conf_anonymous :
    (forall name, name ∈ ["ARMADA_AUTH_USERNAME"; "ARMADA_AUTH_PASSWORD"; "ARMADA_AUTH_TOKEN"; "ARMADA_AUTH_TOKEN_FILE"] ->
     var env name = None) ->
    configures files env anonymous
| conf_basic u p :
    var env "ARMADA_AUTH_USERNAME" = Some u -> var env "ARMADA_AUTH_PASSWORD" = Some p ->
    var env "ARMADA_AUTH_TOKEN" = None -> var env "ARMADA_AUTH_TOKEN_FILE" = None ->
    u <> "" -> p <> "" ->
    configures files env (basic u p)
| conf_bearer t :
    var env "ARMADA_AUTH_USERNAME" = None -> var env "ARMADA_AUTH_PASSWORD" = None ->
    var env "ARMADA_AUTH_TOKEN" = Some t -> var env "ARMADA_AUTH_TOKEN_FILE" = None ->
    blank t = false ->
    configures files env (bearer (trim t))
| conf_file path contents :
    var env "ARMADA_AUTH_USERNAME" = None -> var env "ARMADA_AUTH_PASSWORD" = None ->
    var env "ARMADA_AUTH_TOKEN" = None -> var env "ARMADA_AUTH_TOKEN_FILE" = Some path ->
    files path = Some contents -> blank contents = false ->
    configures files env (bearerFile path).

(** C38  Authentication is accepted exactly when one mechanism, complete, or
    none is configured, and is then that one. *)
Theorem readAuth_iff files env a : readAuth files env = Ok a <-> configures files env a.
Proof.
  unfold readAuth. split.
  - destruct (var env "ARMADA_AUTH_USERNAME") as [u|] eqn:Eu,
      (var env "ARMADA_AUTH_PASSWORD") as [p|] eqn:Ep,
      (var env "ARMADA_AUTH_TOKEN") as [t|] eqn:Et,
      (var env "ARMADA_AUTH_TOKEN_FILE") as [f|] eqn:Ef; try discriminate; cbn [omap list_omap id fmap option_fmap option_map length Nat.ltb Nat.leb].
    + unfold falsy. simpl. destruct (decide (u = "")) as [->|Hu]; [done|].
      destruct (decide (p = "")) as [->|Hp]; [by rewrite orb_true_r|].
      rewrite !bool_decide_false by done. intros <-%Ok_inj. by apply conf_basic.
    + unfold falsy. simpl. by rewrite orb_true_r.
    + by destruct (blank t) eqn:Eb; [|intros <-%Ok_inj; apply conf_bearer].
    + destruct (files f) as [contents|] eqn:Ec; [|done].
      by destruct (blank contents) eqn:Eb; [|intros <-%Ok_inj; eapply conf_file].
    + intros <-%Ok_inj. apply conf_anonymous. intros name. rewrite !elem_of_cons, elem_of_nil. naive_solver.
  - destruct 1 as [Hnone|u p -> -> -> -> Hu Hp|t -> -> -> -> Ht|path contents -> -> -> -> Hc Hb]; simpl.
    + by rewrite !Hnone by set_solver.
    + unfold falsy. simpl. by rewrite !bool_decide_false.
    + by rewrite Ht.
    + by rewrite Hc, Hb.
Qed.

Lemma readSurfacePorts_Ok env ps :
  readSurfacePorts env = Ok ps -> Forall (fun p => 1 <= p <= 65535)%Z ps.
Proof.
  unfold readSurfacePorts. case_match; [done|]. intros Hp%map_result_Ok.
  assert (Forall (fun s => 1 <= defaultPort s <= 65535)%Z SURFACES) as Hd by (repeat constructor; simpl; lia).
  apply list.Forall_forall. intros p Hin. apply list_elem_of_lookup in Hin as (i & Hi).
  eapply Forall2_lookup_r in Hp as (s & Hs & Hp); [|done]. eapply optionalPort_Ok; [done|].
  eapply list.Forall_forall in Hd; [done|]. apply list_elem_of_lookup_2 in Hs.
  apply list_elem_of_In, filter_In in Hs as [Hs _]. by apply list_elem_of_In.
Qed.

Section validity.
Context `{Platform}.

Definition port_range (p : Z) : Prop := (1 <= p <= 65535)%Z.
Definition given (s : string) : Prop := s <> "".

(** What every configuration the adapter starts with satisfies. *)
Record valid_config (c : ArmadaConfig) : Prop := {
  v_url : http_url (config_url c);
  v_lookout : forall u, lookoutUrl c = Some u -> http_url u;
  v_required : given (queue c) /\ given (image c) /\ given (agentImage c);
  v_queues : Forall (fun v => blank v = false) (obj_values (queueByUser c) ++ obj_values (queueByProject c));
  v_queue_map : lookoutUrl c = None ->
    Forall (fun v => v = queue c) (obj_values (queueByUser c) ++ obj_values (queueByProject c));
  v_ports : Forall port_range (port c :: agentPort c :: surfacePorts c);
  v_ports_apart : agentPort c <> port c /\ (port c ∉ surfacePorts c) /\ (agentPort c ∉ surfacePorts c);
  v_secret : (MIN_TOKEN_SECRET_LENGTH <= utf16_length (agentTokenSecret c))%Z;
  v_pull_secrets : Forall given (imagePullSecrets c);
  v_ids : forall id, Some id ∈ [runAsUser c; runAsGroup c; fsGroup c] -> (0 <= id)%Z;
  v_selectors : Forall (fun kv => to_upper (fst kv) = fst kv /\ selector_ok (snd kv)) (gpuNodeSelectors c);
  v_labels : wf_obj (podLabels c) /\ Forall (metadata_ok label) (podLabels c);
  v_annotations : wf_obj (podAnnotations c) /\ Forall (metadata_ok annotation) (podAnnotations c);
  v_command_max : (0 <= commandMaxSeconds c)%Z
}.

Lemma blank_values (m : obj string) :
  Forall (fun kv => false = true \/ blank (snd kv) = false) m ->
  Forall (fun v => blank v = false) (obj_values m).
Proof. intros Hm. apply Forall_map. eapply list.Forall_impl; [exact Hm|]. naive_solver. Qed.

Lemma map_result_each {A B} (f : A -> result B) l l' :
  map_result f l = Ok l' -> Forall (fun x => exists y, f x = Ok y) l.
Proof. intros Hl%map_result_Ok. induction Hl; eauto. Qed.

Lemma check_surface_ports_Ok c ps us :
  map_result (check_surface_port c) ps = Ok us -> (port c ∉ ps) /\ (agentPort c ∉ ps).
Proof.
  intros Hps%map_result_each.
  split; intros Hin; eapply list.Forall_forall in Hps as (y & Hy%require_Ok); try done; lia.
Qed.

Lemma mapped_queues_none c :
  length (mapped_queues c) = O ->
  Forall (fun v => v = queue c) (obj_values (queueByUser c) ++ obj_values (queueByProject c)).
Proof.
  unfold mapped_queues. intros Hl%length_zero_iff_nil.
  induction (_ ++ _) as [|v l IH]; [constructor|]. simpl in Hl.
  destruct (bool_decide (v = queue c)) eqn:E; [|done]. apply bool_decide_eq_true in E. constructor; auto.
Qed.

Lemma readImagePullSecrets_Ok env l : readImagePullSecrets env = Ok l -> Forall given l.
Proof.
  unfold readImagePullSecrets. case_match; [|intros <-%Ok_inj; constructor].
  case_decide; [done|]. intros <-%Ok_inj. apply list.Forall_forall. intros x Hx.
  apply list_elem_of_In, filter_In in Hx as [_ Hx]. apply negb_true_iff, bool_decide_eq_false in Hx. exact Hx.
Qed.

Lemma read_image_Ok env i : read_image env = Ok i -> given i.
Proof. unfold read_image. case_decide as Hi; [done|]. by intros <-%Ok_inj. Qed.

Lemma readTokenSecret_Ok env v :
  readTokenSecret env = Ok v -> (MIN_TOKEN_SECRET_LENGTH <= utf16_length v)%Z.
Proof.
  unfold readTokenSecret. intros (w & _ & Hv)%bind_Ok. case_match eqn:E; [done|].
  apply Ok_inj in Hv as <-. lia.
Qed.

(** C26  Every configuration [readConfig] accepts is well formed: the URLs are
    http, the kernel, agent and surface ports are port numbers and the kernel's
    and agent's are nobody else's, queues other than the default come with a
    Lookout, labels and annotations are ones Kubernetes takes and Armada does
    not own, and the secret is long enough. *)
Theorem readConfig_valid files env compute c :
  readConfig files env compute = Ok c -> valid_config c.
Proof.
  unfold readConfig, read_fields. intros H0. inv_ok. simpl in *.
  repeat match goal with
  | E : requiredUrl _ _ = Ok _ |- _ => apply requiredUrl_Ok in E as [_ E]
  | E : required _ _ = Ok _ |- _ => apply required_Ok in E as [_ E]
  | E : readStringMap _ _ false = Ok _ |- _ => apply readStringMap_Ok in E as [_ E%blank_values]
  | E : optionalPort _ _ _ = Ok _ |- _ => apply optionalPort_Ok in E; [|lia]
  | E : optionalSeconds _ _ _ 0 = Ok _ |- _ => apply optionalSeconds_Ok in E; [|done]
  | E : readTokenSecret _ = Ok _ |- _ => apply readTokenSecret_Ok in E
  | E : readPodMetadata _ _ _ = Ok _ |- _ => apply readPodMetadata_Ok in E
  | E : map_result (check_surface_port _) _ = Ok _ |- _ => apply check_surface_ports_Ok in E; simpl in E
  end.
  constructor; simpl; eauto using readImagePullSecrets_Ok, readGpuNodeSelectors_Ok.
  - intros u ->. by eapply optionalUrl_Ok.
  - split; [done|]. split; [by eapply read_image_Ok | done].
  - by apply list.Forall_app.
  - intros ->. match goal with E : context [mapped_queues ?c] |- _ =>
      apply (mapped_queues_none c); revert E; generalize (mapped_queues c) end.
    by intros [|x l].
  - constructor; [done|]. constructor; [done|]. by eapply readSurfacePorts_Ok.
  - split; [lia|]. by destruct E2.
  - intros id. rewrite !elem_of_cons, elem_of_nil. intros [<-|[<-|[<-|[]]]]; by eapply optionalId_Ok.
Qed.

(** Queues besides the default need a Lookout to be found in. *)
Lemma readConfig_lookout files env compute c :
  readConfig files env compute = Ok c -> mapped_queues c <> [] -> lookoutUrl c <> None.
Proof.
  unfold readConfig. intros Hc Hm. inv_ok.
  match goal with E : context [mapped_queues _] |- _ => apply negb_true_iff, andb_false_iff in E as [Em|Em] end.
  - by destruct (mapped_queues _).
  - by apply bool_decide_eq_false in Em.
Qed.

Lemma check_profiles_Ok env c variable u :
  check_profiles env c variable = Ok u ->
  Forall (fun t => is_Some (obj_get t (gpuNodeSelectors c))) (profileGpuTypes (var env variable)).
Proof.
  unfold check_profiles. intros Hn%require_Ok%bool_decide_eq_true. apply list.Forall_forall. intros t Ht.
  destruct (obj_get t (gpuNodeSelectors c)) eqn:E; [by eexists|].
  assert (t ∈ List.filter (fun type => bool_decide (obj_get type (gpuNodeSelectors c) = None))
                 (profileGpuTypes (var env variable))) as Hin.
  { apply list_elem_of_In, filter_In. split; [by apply list_elem_of_In | by rewrite bool_decide_true]. }
  rewrite Hn in Hin. set_solver.
Qed.

(** With GPU profiles on, no profile can name a type without a node
    selector: every GPU type of the editing list and of the app list is in the
    map, so no session fails for want of one. *)
Theorem readConfig_gpu_profiles files env compute c variable t :
  readConfig files env compute = Ok c -> gpuNodeSelectors c <> [] ->
  variable ∈ PROFILE_VARIABLES -> t ∈ profileGpuTypes (var env variable) ->
  is_Some (obj_get t (gpuNodeSelectors c)).
Proof.
  unfold readConfig. intros H0 Hne Hv Ht. inv_ok.
  match goal with E : (if _ then _ else _) = Ok _ |- _ => rename E into Eg end.
  destruct (0 <? length (obj_keys (gpuNodeSelectors c)))%nat eqn:El.
  - apply map_result_each in Eg. eapply list.Forall_forall in Eg as (y & Hy%check_profiles_Ok); [|done].
    by eapply list.Forall_forall in Hy.
  - destruct (gpuNodeSelectors c); done.
Qed.
End validity.

(** ** Witnesses *)

Definition example_env : environment :=
  [("ARMADA_URL", "https://armada.example"); ("ARMADA_QUEUE", "hub");
   ("ARMADA_QUEUE_BY_USER", q "{'ann': 'gold'}"); ("ARMADA_LOOKOUT_URL", "http://lookout:8080");
   ("ARMADA_AGENT_IMAGE", "agent:1"); ("ARMADA_AGENT_TOKEN_SECRET", "0123456789abcdef0123456789abcdef");
   ("ARMADA_GPU_NODE_SELECTORS", q "{'a100': {'gpu': 'A100'}}"); ("MARIMOHUB_COMPUTE_PROFILES", "big:cpu=4;gpu=a100:2");
   ("ARMADA_POD_LABELS", q "{'acme.org/team': 'ml'}"); ("MARIMOHUB_SURFACES", "marimo, vscode");
   ("ARMADA_EXPOSE", "ingress"); ("ARMADA_RUN_AS_USER", "1000"); ("ARMADA_AUTH_TOKEN", " tok ")].

Definition example_config : ArmadaConfig :=
  {| config_url := "https://armada.example"; expose := ingress true None []; queue := "hub";
     queueByUser := [("ann", "gold")]; queueByProject := []; namespace := "default";
     priorityClassName := None; image := DEFAULT_IMAGE; sandboxHostname := None; port := 2718;
     agentImage := "agent:1"; agentPort := 8718; agentTokenSecret := "0123456789abcdef0123456789abcdef";
     imagePullSecrets := []; runAsUser := Some 1000%Z; runAsGroup := None; fsGroup := None;
     surfacePorts := [8443%Z]; gpuNodeSelectors := [("A100", [("gpu", "A100")])];
     podLabels := [("acme.org/team", "ml")]; podAnnotations := []; maxLifetimeSeconds := Int 86400;
     commandMaxSeconds := 21600; auth := bearer "tok"; lookoutUrl := Some "http://lookout:8080" |}.

Lemma example_config_read : readConfig (H := example_platform) (fun _ => None) example_env None = Ok example_config.
Proof. vm_compute. reflexivity. Qed.

Lemma readConfig_valid_witness : valid_config (H := example_platform) example_config.
Proof. apply (readConfig_valid (H := example_platform) (fun _ => None) example_env None). apply example_config_read. Defined.

Lemma readConfig_gpu_profiles_witness : is_Some (obj_get "A100" (gpuNodeSelectors example_config)).
Proof.
  apply (readConfig_gpu_profiles (H := example_platform) (fun _ => None) example_env None example_config
           "MARIMOHUB_COMPUTE_PROFILES").
  - apply example_config_read.
  - discriminate.
  - by left.
  - vm_compute. by left.
Defined.
