(* ===== verification/PodSpec.v ===== *)
(** The podspec submitted for one kernel session (src/podspec.ts). *)
From S2P Require Import Prelude JsString JsNumber Json Types Auth Config.

Definition KERNEL_CONTAINER : string := "kernel".
Definition AGENT_DIR : string := "/mh-agent".
Definition AGENT_PATH : string := AGENT_DIR +:+ "/agent".
Definition AGENT_VOLUME : string := "mh-agent".
Definition AGENT_TOKEN_HASH_ENV : string := "MH_AGENT_TOKEN_SHA256".

Record AgentSpec := { tokenSha256 : string }.

Definition DEFAULT_CPU : string := "1".
Definition DEFAULT_MEMORY : string := "2Gi".
Definition TERMINATION_GRACE_SECONDS : Z := 30.
Definition AGENT_INSTALL_RESOURCES : obj string := [("cpu", "100m"); ("memory", "64Mi")].
Definition MI : Z := 1024 ^ 2.
Definition GI : Z := 1024 ^ 3.

(** ** The members of [V1PodSpec] the adapter sets *)

Record ContainerPort := { containerPort : Z; protocol : string }.
Record VolumeMount := { mount_name : string; mountPath : string }.
Record Resources := { requests : obj string; limits : obj string }.
Record EnvVar := { env_name : string; env_value : string }.

Record Container := {
  container_name : string;
  container_image : string;
  container_command : list string;
  container_env : option (list EnvVar);
  container_ports : option (list ContainerPort);
  resources : Resources;
  volumeMounts : list VolumeMount
}.

Record PodSecurityContext := { sc_runAsUser : option Z; sc_runAsGroup : option Z; sc_fsGroup : option Z }.

Record V1PodSpec := {
  restartPolicy : string;
  terminationGracePeriodSeconds : Z;
  activeDeadlineSeconds : num;
  pod_priorityClassName : option string;
  nodeSelector : option (obj string);
  pod_imagePullSecrets : option (list string);
  pod_securityContext : option PodSecurityContext;
  volumes : list string;
  initContainers : list Container;
  containers : list Container
}.

(** ** Building it *)

Definition memoryQuantity (bytes : num) : string :=
  if divisible bytes GI then num_to_string (num_div bytes GI) +:+ "Gi"
  else if divisible bytes MI then num_to_string (num_div bytes MI) +:+ "Mi"
  else num_to_string (ceil bytes).

(** The type, upper-cased, and the count. *)
Definition parseGpu (gpu : string) : string * string :=
  let parts := split_on ":" gpu in
  (to_upper (default "" (parts !! 0%nat)), default "1" (parts !! 1%nat)).

(** [resources?.gpu], [None] also when empty. *)
Definition asked_gpu (resources : option ComputeResources) : option string :=
  g ← resources ≫= gpu; if decide (g = "") then None else Some g.

Definition quantities (resources : option ComputeResources) : obj string :=
  let requested :=
    [("cpu", match resources ≫= cpu with None => DEFAULT_CPU | Some n => num_to_string n end);
     ("memory", match resources ≫= memoryBytes with None => DEFAULT_MEMORY | Some n => memoryQuantity n end)] in
  match asked_gpu resources with
  | Some g => obj_define "nvidia.com/gpu" (snd (parseGpu g)) requested
  | None => requested
  end.

Definition gpuNodeSelector (config : ArmadaConfig) (resources : option ComputeResources) : result (option (obj string)) :=
  match asked_gpu resources with
  | None => Ok None
  | Some g =>
      let type := fst (parseGpu g) in
      match obj_get type (gpuNodeSelectors config) with
      | None => throw ("GPU type " +:+ type +:+ " has no node selector in ARMADA_GPU_NODE_SELECTORS, so a pod cannot be placed on it")
      | Some selector => Ok (Some selector)
      end
  end.

Definition securityContext (config : ArmadaConfig) : option PodSecurityContext :=
  match runAsUser config, runAsGroup config, fsGroup config with
  | None, None, None => None
  | u, g, f => Some {| sc_runAsUser := u; sc_runAsGroup := g; sc_fsGroup := f |}
  end.

Definition tcp_port (p : Z) : ContainerPort := {| containerPort := p; protocol := "TCP" |}.
Definition agent_mount : VolumeMount := {| mount_name := AGENT_VOLUME; mountPath := AGENT_DIR |}.

Definition buildPodSpec (config : ArmadaConfig) (agent : AgentSpec) (options : option CreateSandboxOptions) : result V1PodSpec :=
  let asked := options ≫= opt_resources in
  let res := quantities asked in
  nodeSelector ← gpuNodeSelector config asked;
  let context := securityContext config in
  Ok {| restartPolicy := "Never";
        terminationGracePeriodSeconds := TERMINATION_GRACE_SECONDS;
        activeDeadlineSeconds := maxLifetimeSeconds config;
        pod_priorityClassName := priorityClassName config;
        nodeSelector := nodeSelector;
        pod_imagePullSecrets := if decide (imagePullSecrets config = []) then None else Some (imagePullSecrets config);
        pod_securityContext := context;
        volumes := [AGENT_VOLUME];
        initContainers :=
          [ {| container_name := "agent-install";
               container_image := agentImage config;
               container_command := ["/agent"; "install"; AGENT_PATH];
               container_env := None;
               container_ports := None;
               resources := {| requests := AGENT_INSTALL_RESOURCES; limits := AGENT_INSTALL_RESOURCES |};
               volumeMounts := [agent_mount] |} ];
        containers :=
          [ {| container_name := KERNEL_CONTAINER;
               container_image := default (image config) (options ≫= opt_image);
               container_command := [AGENT_PATH; "--port"; string_of_Z (agentPort config)];
               container_env := Some [{| env_name := AGENT_TOKEN_HASH_ENV; env_value := tokenSha256 agent |}];
               container_ports := Some (map tcp_port (port config :: agentPort config :: surfacePorts config));
               resources := {| requests := res; limits := res |};
               volumeMounts := [agent_mount] |} ] |}.

Definition exposedPorts (spec : V1PodSpec) : list Z :=
  mbind (fun c => map containerPort (default [] (container_ports c))) (containers spec).

(** ** As JSON, the members in the order they are written *)

Definition json_map (o : obj string) : json := JObj (map (fun kv => (fst kv, JStr (snd kv))) o).
Definition member {A} (k : string) (f : A -> json) (v : option A) : list (string * json) :=
  match v with Some a => [(k, f a)] | None => [] end.

Definition container_json (c : Container) : json :=
  JObj ([("name", JStr (container_name c)); ("image", JStr (container_image c));
         ("command", JArr (map JStr (container_command c)))]
        ++ member "env" (fun l => JArr (map (fun e => JObj [("name", JStr (env_name e)); ("value", JStr (env_value e))]) l)) (container_env c)
        ++ member "ports" (fun l => JArr (map (fun p => JObj [("containerPort", JNum (Int (containerPort p))); ("protocol", JStr (protocol p))]) l)) (container_ports c)
        ++ [("resources", JObj [("requests", json_map (requests (resources c))); ("limits", json_map (limits (resources c)))]);
            ("volumeMounts", JArr (map (fun m => JObj [("name", JStr (mount_name m)); ("mountPath", JStr (mountPath m))]) (volumeMounts c)))]).

Definition pod_json (s : V1PodSpec) : json :=
  let id k v := member k (fun n => JNum (Int n)) v in
  JObj ([("restartPolicy", JStr (restartPolicy s));
         ("terminationGracePeriodSeconds", JNum (Int (terminationGracePeriodSeconds s)));
         ("activeDeadlineSeconds", JNum (activeDeadlineSeconds s))]
        ++ member "priorityClassName" JStr (pod_priorityClassName s)
        ++ member "nodeSelector" json_map (nodeSelector s)
        ++ member "imagePullSecrets" (fun l => JArr (map (fun n => JObj [("name", JStr n)]) l)) (pod_imagePullSecrets s)
        ++ member "securityContext" (fun c => JObj (id "runAsUser" (sc_runAsUser c) ++ id "runAsGroup" (sc_runAsGroup c) ++ id "fsGroup" (sc_fsGroup c))) (pod_securityContext s)
        ++ [("volumes", JArr (map (fun v => JObj [("name", JStr v); ("emptyDir", JObj [])]) (volumes s)));
            ("initContainers", JArr (map container_json (initContainers s)));
            ("containers", JArr (map container_json (containers s)))]).

(** ** Properties *)

(** What Kubernetes makes of a memory quantity with these suffixes. *)
Definition quantity_bytes (s : string) : option Z :=
  match span_digits s with
  | ("", _) => None
  | (ds, "") => Some (digits_value ds)
  | (ds, "Mi") => Some (digits_value ds * MI)%Z
  | (ds, "Gi") => Some (digits_value ds * GI)%Z
  | _ => None
  end.

Lemma small_to_string n : (0 <= n <= MAX_SAFE_INTEGER)%Z -> num_to_string (Int n) = string_of_Z n.
Proof.
  intros Hn. unfold num_to_string. replace (Z.abs n <? 10 ^ 21)%Z with true; [done|].
  unfold MAX_SAFE_INTEGER in Hn. symmetry. apply Z.ltb_lt. lia.
Qed.

Lemma span_number n suffix :
  (0 <= n)%Z -> match suffix with String c _ => is_digit c = false | "" => True end ->
  span_digits (string_of_Z n +:+ suffix) = (string_of_Z n, suffix).
Proof. intros Hn Hs. apply span_digits_app; [by apply string_of_Z_digits | done]. Qed.

Lemma whole_units n j :
  (0 <= n <= MAX_SAFE_INTEGER)%Z -> (0 <= j)%Z -> (n mod 2 ^ j = 0)%Z ->
  num_to_string (num_div (Int n) (2 ^ j)) = string_of_Z (n / 2 ^ j) /\ (0 <= n / 2 ^ j)%Z /\ (n / 2 ^ j * 2 ^ j = n)%Z.
Proof.
  intros Hn Hj Hm. assert (0 < 2 ^ j)%Z by (apply Z.pow_pos_nonneg; lia).
  assert (n / 2 ^ j * 2 ^ j = n)%Z as Hdiv by (pose proof (Z.div_mod n (2 ^ j)); lia).
  assert (0 <= n / 2 ^ j <= n)%Z by (split; [apply Z.div_pos; lia | apply Z.div_le_upper_bound; nia]).
  split; [|split; [lia|done]]. unfold num_div, ratio. replace (n <? 0)%Z with false by lia.
  rewrite Z.mul_1_l. rewrite <- Hdiv at 1. rewrite round_ratio_exact; [|unfold MAX_SAFE_INTEGER in *; lia|done].
  apply small_to_string. lia.
Qed.

(** A quantity of whole units reads back as that many. *)
Lemma quantity_units n suffix unit :
  (0 <= n)%Z -> (suffix, unit) ∈ [("", 1%Z); ("Mi", MI); ("Gi", GI)] ->
  quantity_bytes (string_of_Z n +:+ suffix) = Some (n * unit)%Z.
Proof.
  intros Hn Hs. unfold quantity_bytes.
  assert (match suffix with String c _ => is_digit c = false | "" => True end) as Hd
    by (rewrite !elem_of_cons, elem_of_nil in Hs; naive_solver).
  rewrite span_number by done. destruct (string_of_Z n) as [|c ds] eqn:Es; [by apply string_of_Z_nonempty in Es|].
  rewrite <- Es, (proj1 (string_of_Z_digits n Hn)).
  rewrite !elem_of_cons, elem_of_nil in Hs. destruct Hs as [[= -> ->]|[[= -> ->]|[[= -> ->]|[]]]]; [|done|done].
  by rewrite Z.mul_1_r.
Qed.

(** The memory the pod asks for is the memory marimohub asked for: the
    quantity, in whatever unit it is written, is the number of bytes, a
    fraction rounded up. *)
Theorem memoryQuantity_exact x n :
  ceil x = Int n -> (0 <= n <= MAX_SAFE_INTEGER)%Z -> quantity_bytes (memoryQuantity x) = Some n.
Proof.
  intros Hc Hn. unfold memoryQuantity.
  destruct (divisible x GI) eqn:Hg; [|destruct (divisible x MI) eqn:Hm].
  - destruct x as [| |m|]; try done. injection Hc as ->.
    destruct (whole_units n 30) as (E & Hp & Hb); [done|lia|by apply Z.eqb_eq|].
    change GI with (2 ^ 30)%Z. rewrite E, (quantity_units _ _ GI) by (done || set_solver). f_equal. exact Hb.
  - destruct x as [| |m|]; try done. injection Hc as ->.
    destruct (whole_units n 20) as (E & Hp & Hb); [done|lia|by apply Z.eqb_eq|].
    change MI with (2 ^ 20)%Z. rewrite E, (quantity_units _ _ MI) by (done || set_solver). f_equal. exact Hb.
  - rewrite Hc, small_to_string, <- (string_app_nil_r (string_of_Z n)) by done.
    rewrite (quantity_units _ _ 1%Z) by (lia || set_solver). by rewrite Z.mul_1_r.
Qed.

Lemma memoryQuantity_exact_witness : quantity_bytes (memoryQuantity (Int 1610612736)) = Some 1610612736%Z.
Proof. apply memoryQuantity_exact; [reflexivity | split; vm_compute; discriminate]. Defined.

(** ** The rules Armada holds a podspec to *)

Definition container_rules (c : Container) : Prop :=
  requests (resources c) = limits (resources c) /\
  is_Some (obj_get "cpu" (requests (resources c))) /\ is_Some (obj_get "memory" (requests (resources c))) /\
  volumeMounts c = [agent_mount].

(** A server may insist that an init container takes a fraction of a CPU. *)
Definition fraction_of_cpu (c : Container) : Prop :=
  exists n, obj_get "cpu" (requests (resources c)) = Some (string_of_Z n +:+ "m") /\ (0 < n < 1000)%Z.

(** What a GPU request, or none, does to the pod. *)
Definition gpu_placed (config : ArmadaConfig) (asked : option ComputeResources) (spec : V1PodSpec) : Prop :=
  match asked_gpu asked with
  | Some g =>
      (exists selector, nodeSelector spec = Some selector
                        /\ obj_get (fst (parseGpu g)) (gpuNodeSelectors config) = Some selector) /\
      Forall (fun c => obj_get "nvidia.com/gpu" (requests (resources c)) = Some (snd (parseGpu g))) (containers spec)
  | None => nodeSelector spec = None /\
      Forall (fun c => obj_get "nvidia.com/gpu" (requests (resources c)) = None) (containers spec)
  end.

Lemma quantities_get asked :
  is_Some (obj_get "cpu" (quantities asked)) /\ is_Some (obj_get "memory" (quantities asked)) /\
  obj_get "nvidia.com/gpu" (quantities asked) = snd ∘ parseGpu <$> asked_gpu asked.
Proof. unfold quantities. by destruct (asked_gpu asked); rewrite ?obj_get_define; repeat split; eexists. Qed.

Lemma tcp_ports l : map containerPort (map tcp_port l) = l.
Proof. induction l as [|p l IH]; simpl; [done | by rewrite IH]. Qed.

(** C25  A pod is built unless a GPU is asked for whose type has no node
    selector, and then obeys the rules Armada submits by: requests equal
    limits and are stated for every container, init containers included, whose
    CPU is a fraction of one; the deadline is the configured lifetime; the ports are the kernel's, the
    agent's and the surfaces'; a GPU lands only on nodes of its type; and the
    pod carries the hash it is given as the agent's only variable. *)
Theorem buildPodSpec_rules config agent options :
  let asked := options ≫= opt_resources in
  match buildPodSpec config agent options with
  | Ok spec =>
      Forall container_rules (initContainers spec ++ containers spec) /\
      Forall fraction_of_cpu (initContainers spec) /\
      activeDeadlineSeconds spec = maxLifetimeSeconds config /\
      (1 <= terminationGracePeriodSeconds spec <= 300)%Z /\
      exposedPorts spec = port config :: agentPort config :: surfacePorts config /\
      gpu_placed config asked spec /\
      map container_env (containers spec)
      = [Some [{| env_name := AGENT_TOKEN_HASH_ENV; env_value := tokenSha256 agent |}]] /\
      map container_image (containers spec) = [default (image config) (options ≫= opt_image)]
  | Err _ => exists g, asked_gpu asked = Some g
                       /\ obj_get (fst (parseGpu g)) (gpuNodeSelectors config) = None
  end.
Proof.
  cbn zeta. set (asked := options ≫= opt_resources). unfold buildPodSpec. fold asked.
  pose proof (quantities_get asked) as (Hc & Hm & Hg).
  unfold gpuNodeSelector, gpu_placed. destruct (asked_gpu asked) as [g|] eqn:Ea.
  - destruct (obj_get (fst (parseGpu g)) (gpuNodeSelectors config)) as [selector|] eqn:Es; simpl; [|by exists g].
    split; [repeat constructor; simpl; eauto|].
    split; [repeat constructor; by exists 100%Z|]. split; [done|]. split; [unfold TERMINATION_GRACE_SECONDS; lia|].
    split; [unfold exposedPorts; simpl; by rewrite app_nil_r, tcp_ports|]. split; [|done].
    split; [by exists selector | by repeat constructor].
  - simpl. split; [repeat constructor; simpl; eauto|].
    split; [repeat constructor; by exists 100%Z|]. split; [done|]. split; [unfold TERMINATION_GRACE_SECONDS; lia|].
    split; [unfold exposedPorts; simpl; by rewrite app_nil_r, tcp_ports|]. split; [|done]. split; [done | by repeat constructor].
Qed.
