(* ===== verification/Queues.v ===== *)
(** Which Armada queue a sandbox belongs to (src/queues.ts). *)
From S2P Require Import Prelude JsString Encoding JsNumber Json Io Types Auth Config.

(** ** Queue names *)

(** A queue as the code holds it: a name, or what reading a map by an owner id
    that is a member of [Object.prototype] gives. *)
Inductive qname := Named (s : string) | Inherited (member : string).

#[export] Instance qname_eq_dec : EqDecision qname.
Proof. solve_decision. Defined.

(** [map[key]] of a plain object. *)
Definition js_read (key : string) (m : obj string) : option qname :=
  match obj_get key m with
  | Some v => Some (Named v)
  | None => if decide (key ∈ object_prototype_keys) then Some (Inherited key) else None
  end.

(** What [JSON.stringify] writes for it: nothing for a function, and
    [Object.prototype] itself for [__proto__]. *)
Definition queue_json (q : qname) : option json :=
  match q with
  | Named s => Some (JStr s)
  | Inherited m => if decide (m = "__proto__") then Some (JObj []) else None
  end.

(** What [String] makes of it. *)
Definition queue_text (q : qname) : string :=
  match q with
  | Named s => s
  | Inherited m =>
      if decide (m = "__proto__") then "[object Object]"
      else "function " +:+ (if decide (m = "constructor") then "Object" else m) +:+ "() { [native code] }"
  end.

(** ** The directory *)

(** The queues this process has seen, in a larger state: what the directory
    asks of the provider that shares it between its sandboxes. *)
Class Directory (S : Type) := {
  remembered : S -> gmap SandboxId qname;
  update_remembered : (gmap SandboxId qname -> gmap SandboxId qname) -> S -> S;
  remembered_update f s : remembered (update_remembered f s) = f (remembered s)
}.

#[export] Instance directory_alone : Directory (gmap SandboxId qname) :=
  {| remembered := fun m => m; update_remembered := fun f m => f m; remembered_update := fun _ _ => eq_refl |}.

Section directory.
Context {S : Type} `{Directory S} (config : ArmadaConfig).
Context (lookup : option (SandboxId -> M S (option string))).

Definition all_queues : list string :=
  js_set (queue config :: obj_values (queueByUser config) ++ obj_values (queueByProject config)).

Definition mapped : bool := (1 <? length all_queues)%nat.

Definition forOwner (owner : SandboxOwner) : qname :=
  match (u ← userId owner; js_read u (queueByUser config)) with
  | Some byUser => byUser
  | None => default (Named (queue config)) (js_read (projectId owner) (queueByProject config))
  end.

Definition remember (id : SandboxId) (q : qname) : M S unit :=
  modify (update_remembered <[id := q]>).

Definition forget (id : SandboxId) : M S unit :=
  modify (update_remembered (delete id)).

Definition queue_unknown (id : SandboxId) (cause : err) : err :=
  {| kind := QueueUnknownError;
     message := "cannot tell which queue sandbox " +:+ id +:+ " is in: Lookout did not answer (" +:+ message cause +:+ ")" |}.

Definition resolve (id : SandboxId) (owner : option SandboxOwner) : M S qname :=
  known ← gets (fun s => remembered s !! id);
  match known with
  | Some q => mret q
  | None =>
      if negb mapped then mret (Named (queue config))
      else
        found ← match lookup with
                | None => mret None
                | Some ask => try_catch (ask id) (fun cause => lift (Err (queue_unknown id cause)))
                end;
        match found with
        | Some q => remember id (Named q);; mret (Named q)
        | None =>
            let q := match owner with None => Named (queue config) | Some o => forOwner o end in
            remember id q;; mret q
        end
  end.

(** ** Properties *)

(** The ids no own property can shadow and every object answers to. *)
Definition plain_owner (o : SandboxOwner) : Prop :=
  (projectId o ∉ object_prototype_keys) /\ forall u, userId o = Some u -> u ∉ object_prototype_keys.

Lemma js_read_plain key m : key ∉ object_prototype_keys -> js_read key m = Named <$> obj_get key m.
Proof. intros Hk. unfold js_read. destruct (obj_get key m); [done|]. by rewrite decide_False. Qed.

Lemma obj_get_value {V} k (o : obj V) v : obj_get k o = Some v -> v ∈ obj_values o.
Proof. intros Hv%obj_get_In. by apply (list_elem_of_fmap_2 snd) in Hv. Qed.

(** The user's entry, else the project's, else the default. *)
Definition owner_queue (o : SandboxOwner) : string :=
  match (u ← userId o; obj_get u (queueByUser config)) with
  | Some q => q
  | None => default (queue config) (obj_get (projectId o) (queueByProject config))
  end.

Lemma owner_queue_known (o : SandboxOwner) : owner_queue o ∈ all_queues.
Proof.
  unfold owner_queue, all_queues. rewrite elem_of_js_set, elem_of_cons, elem_of_app.
  destruct (userId o ≫= fun u => obj_get u (queueByUser config)) as [x|] eqn:E.
  - apply bind_Some in E as (u & _ & E%obj_get_value). by right; left.
  - destruct (obj_get (projectId o) (queueByProject config)) eqn:E'; simpl; [|by left].
    apply obj_get_value in E'. by right; right.
Qed.

Lemma unmapped_queue q : mapped = false -> q ∈ all_queues -> q = queue config.
Proof.
  intros Hm Hin. assert (queue config ∈ all_queues) as Hq by (unfold all_queues; rewrite elem_of_js_set; left).
  revert Hm Hin Hq. unfold mapped. destruct all_queues as [|x [|y l]]; [|intros _|done].
  - by intros _ Hin%not_elem_of_nil.
  - intros ->%list_elem_of_singleton ->%list_elem_of_singleton. done.
Qed.

(** C39  An owner goes to the user's queue, else the project's, else the
    default, always one of the deployment's queues, so to the default when
    nothing is mapped.  The exception is an owner whose user id is a member of
    [Object.prototype] and not mapped: it gets the inherited member. *)
Theorem forOwner_spec (o : SandboxOwner) :
  (plain_owner o ->
   forOwner o = Named (owner_queue o) /\ owner_queue o ∈ all_queues /\
   (mapped = false -> owner_queue o = queue config)) /\
  (forall u, userId o = Some u -> u ∈ object_prototype_keys -> obj_get u (queueByUser config) = None ->
   forOwner o = Inherited u).
Proof.
  split.
  - intros [Hp Hu]. split; [|split; [apply owner_queue_known | intros Hm; by apply unmapped_queue, owner_queue_known]].
    unfold forOwner, owner_queue. rewrite js_read_plain by done.
    destruct (userId o) as [u|]; simpl; [rewrite js_read_plain by auto; destruct (obj_get u _); simpl; [done|]|];
      by destruct (obj_get (projectId o) _).
  - intros u Ho Hu Hg. unfold forOwner. rewrite Ho. simpl. unfold js_read. by rewrite Hg, decide_True.
Qed.

(** What [resolve] decides from what is remembered and what Lookout says. *)
Definition decided (known : option qname) (found : result (option string)) (id : SandboxId) (owner : option SandboxOwner) : result qname :=
  match known with
  | Some q => Ok q
  | None =>
      if negb mapped then Ok (Named (queue config))
      else match found with
           | Err e => Err (queue_unknown id e)
           | Ok (Some q) => Ok (Named q)
           | Ok None => Ok (match owner with None => Named (queue config) | Some o => forOwner o end)
           end
  end.

(** C23  The queue of a sandbox is what this process remembers, else the
    default when nothing is mapped, else what Lookout answers, else its
    owner's; Lookout is asked only in the third case, a failure to answer is
    a [QueueUnknownError] and remembers nothing, and what is decided from
    Lookout or the owner is remembered. *)
Theorem resolve_spec {W} (h : handler W) id owner s w :
  (forall ask, lookup = Some ask -> final (run h (ask id) s w) = s) ->
  let asked := run h (match lookup with None => mret None | Some ask => ask id end : M S (option string)) s w in
  let o := run h (resolve id owner) s w in
  value o = decided (remembered s !! id) (value asked) id owner /\
  (trace o <> [] -> remembered s !! id = None /\ mapped = true /\ trace o = trace asked) /\
  remembered (final o) =
    match remembered s !! id, mapped, value o with
    | None, true, Ok q => <[id := q]> (remembered s)
    | _, _, _ => remembered s
    end.
Proof.
  intros Hask. unfold resolve. rewrite run_bind. cbn [gets run value]. unfold decided.
  destruct (remembered s !! id) as [q|] eqn:Hk; [done|].
  destruct mapped eqn:Hm; [|done]. cbn [negb]. rewrite run_bind.
  destruct lookup as [ask|].
  - specialize (Hask ask eq_refl). rewrite run_try. cbn [final world trace app]. revert Hask.
    generalize (run h (ask id) s w). intros [v s' w' t]. cbn [value final world trace]. intros ->.
    destruct v as [[q|]|e]; simpl; rewrite ?remembered_update, ?app_nil_r; done.
  - simpl. rewrite remembered_update. done.
Qed.

End directory.

(** ** Witnesses *)

Definition ann : SandboxOwner := {| projectId := "p1"; userId := Some "ann" |}.

Lemma forOwner_spec_witness :
  forOwner example_config ann = Named (owner_queue example_config ann) /\
  forOwner example_config {| projectId := "p1"; userId := Some "constructor" |} = Inherited "constructor".
Proof.
  split.
  - apply (proj1 (forOwner_spec example_config ann)). split; [|intros u [= <-]]; apply (bool_decide_unpack _); vm_compute; exact I.
  - apply (proj2 (forOwner_spec example_config {| projectId := "p1"; userId := Some "constructor" |})); [reflexivity| |reflexivity].
    apply (bool_decide_unpack _); vm_compute; exact I.
Defined.

(** A Lookout that knows one sandbox. *)
Definition example_lookup (id : SandboxId) : M (gmap SandboxId qname) (option string) :=
  mret (if decide (id = "s1") then Some "gold" else None).
Lemma resolve_spec_witness :
  let asked := run offline (example_lookup "s1") ∅ tt in
  let o := run offline (resolve example_config (Some example_lookup) "s1" (Some ann)) ∅ tt in
  value o = decided example_config (remembered (∅ : gmap SandboxId qname) !! "s1") (value asked) "s1" (Some ann) /\
  (trace o <> [] -> remembered (∅ : gmap SandboxId qname) !! "s1" = None /\ mapped example_config = true /\ trace o = trace asked) /\
  remembered (final o) =
    match remembered (∅ : gmap SandboxId qname) !! "s1", mapped example_config, value o with
    | None, true, Ok q => <["s1" := q]> (remembered (∅ : gmap SandboxId qname))
    | _, _, _ => remembered (∅ : gmap SandboxId qname)
    end.
Proof. apply (resolve_spec example_config (Some example_lookup) offline "s1" (Some ann)). by intros ask [= <-]. Defined.

(** Resolving a queue sends no more than asking Lookout does. *)
Lemma guarded_resolve {S} `{Directory S} (I : S -> Prop) P config lookup id owner :
  (forall f s, I s -> I (update_remembered f s)) ->
  (forall ask, lookup = Some ask -> guarded I P (returns (fun _ => True)) (ask id)) ->
  guarded I P (returns (fun _ => True)) (resolve config lookup id owner).
Proof.
  intros HI Hask. unfold resolve.
  assert (forall q, guarded I P (returns (fun _ => True)) (remember id q;; mret q)) as Hrem.
  { intros q. eapply (guarded_bind _ _ (fun _ => True)); [apply guarded_modify; auto | by intros]. }
  eapply (guarded_bind _ _ (fun _ => True)); [by apply guarded_gets|]. intros [q|] _; [done|].
  destruct (negb _); [done|]. eapply (guarded_bind _ _ (fun _ => True)).
  - destruct lookup as [ask|]; [|done]. apply guarded_try; [auto|done].
  - intros [q|] _; apply Hrem.
Qed.
