(* ===== verification/Armada.v ===== *)
(** Placement (src/armada.ts): submit a job, follow its event stream, and ask
    the server and Lookout about jobs. *)
From S2P Require Import Prelude JsString Encoding JsNumber Json Io Ndjson Types Auth Config PodSpec Queues.

(** ** Reading what Armada answers

    The types of src/armada-types.ts, every field optional: a field of another
    type than they declare is read as absent. *)

Definition str_field (k : string) (v : json) : option string := as_string (prop k v).
Definition obj_field (k : string) (v : json) : option json :=
  match prop k v with Some (JObj o) => Some (JObj o) | _ => None end.
Definition list_field (k : string) (v : json) : option (list json) :=
  match prop k v with Some (JArr l) => Some l | _ => None end.
Definition bool_field (k : string) (v : json) : option bool :=
  match prop k v with Some (JBool b) => Some b | _ => None end.

Definition asObject (value : json) (what : string) : result json :=
  if is_object value then Ok value
  else throw ("Armada returned " +:+ what +:+ " that is not a JSON object: " +:+ json_stringify value).

Definition DEFAULT_RUNNING_TIMEOUT_MS : Z := 5 * 60 * 1000.
Definition DEFAULT_INGRESS_TIMEOUT_MS : Z := 60 * 1000.
Definition ACTIVE_JOB_STATES : list string := ["QUEUED"; "LEASED"; "PENDING"; "RUNNING"].
Definition FINISHED_JOB_STATES : list Z :=
  map JOB_STATE [SUCCEEDED; FAILED; PREEMPTED; CANCELLED; REJECTED].
Definition LIST_ACTIVE_PAGE : nat := 500.

(** A job as submitted: every later call is addressed by queue and job set. *)
Record SubmittedJob := { jobId : string; jobSetId : string; job_queue : qname }.

#[export] Instance submitted_job_eq_dec : EqDecision SubmittedJob.
Proof. solve_decision. Defined.

(** [base.replace(/\/$/, '')]. *)
Fixpoint strip_slash (base : string) : string :=
  match base with
  | "" => ""
  | String c "" => if decide (c = "/"%char) then "" else base
  | String c s => String c (strip_slash s)
  end.

(** ** Requests *)

Definition map_json (o : obj string) : json := json_map o.
Definition some_map (k : string) (o : obj string) : list (string * json) :=
  if decide (obj_keys o = []) then [] else [(k, map_json o)].

(** What exposes the ports: a NodePort service, or an Ingress. *)
Definition exposure_members (e : Exposure) (ports : list Z) : list (string * json) :=
  let ports := JArr (map (fun p => JNum (Int p)) ports) in
  match e with
  | ingress tls certName annotations =>
      [("ingress", JArr [JObj ([("ports", ports); ("tlsEnabled", JBool tls)]
          ++ member "certName" JStr certName
          ++ [("useClusterIP", JBool true)]
          ++ some_map "annotations" annotations)])]
  | nodeport => [("services", JArr [JObj [("type", JStr "NodePort"); ("ports", ports)]])]
  end.

Definition job_annotations (config : ArmadaConfig) : obj string :=
  obj_define SANDBOX_MARK (queue config)
    (obj_define "armadaproject.io/failFast" "true" (obj_spread [] (podAnnotations config))).

Definition job_request_item (config : ArmadaConfig) (sandboxId : SandboxId) (podSpec : V1PodSpec) : json :=
  JObj ([("clientId", JStr sandboxId); ("externalJobUri", JStr sandboxId);
         ("namespace", JStr (namespace config)); ("podSpec", pod_json podSpec)]
        ++ some_map "labels" (podLabels config)
        ++ [("annotations", map_json (job_annotations config))]
        ++ exposure_members (expose config) (exposedPorts podSpec)).

Definition submit_request (config : ArmadaConfig) (sandboxId : SandboxId) (podSpec : V1PodSpec) (q : qname) : json :=
  JObj (member "queue" id (queue_json q)
        ++ [("jobSetId", JStr sandboxId);
            ("jobRequestItems", JArr [job_request_item config sandboxId podSpec])]).

Definition watch_request (job : SubmittedJob) : json :=
  JObj (member "queue" id (queue_json (job_queue job))
        ++ [("id", JStr (jobSetId job)); ("watch", JBool true); ("errorIfMissing", JBool false)]).

Definition job_set_path (job : SubmittedJob) : string :=
  "/v1/job-set/" +:+ encode_uri_component (queue_text (job_queue job)) +:+ "/" +:+ encode_uri_component (jobSetId job).

Definition lookout_request (config : ArmadaConfig) (filters : list json) (field direction : string) (skip take : Z) : json :=
  JObj [("filters", JArr (filters ++
           [JObj [("field", JStr SANDBOX_MARK); ("value", JStr (queue config)); ("match", JStr "exact"); ("isAnnotation", JBool true)]]));
        ("order", JObj [("field", JStr field); ("direction", JStr direction)]);
        ("skip", JNum (Int skip)); ("take", JNum (Int take))].

(** ** Following an event stream *)

(** What one line means to a consumer waiting for [A]: nothing yet, an answer,
    or an error. *)
Fixpoint follow {A} (look : json -> result (option A)) (ended : err) (lines : list json) (last : option err) : result A :=
  match lines with
  | [] => Err (default ended last)
  | value :: rest =>
      r ← look value;
      match r with Some a => Ok a | None => follow look ended rest last end
  end.

(** The message of a line, after its error is raised. *)
Definition line_message (value : json) : result (option json) :=
  line ← asObject value "an event stream line";
  match obj_field "error" line with
  | Some e => throw ("Armada event stream failed: " +:+ default "unknown error" (str_field "message" e))
  | None => Ok (r ← obj_field "result" line; obj_field "message" r)
  end.

(** An event of the message, when it is about this job. *)
Definition job_event (job : SubmittedJob) (kind : string) (msg : json) : option json :=
  e ← obj_field kind msg;
  if decide (str_field "jobId" e = Some (jobId job)) then Some e else None.

(** The job's end: a failure that is not retried, or a cancellation. *)
Definition check_ended (job : SubmittedJob) (cancelled : string) (msg : json) : result unit :=
  match job_event job "failed" msg with
  | Some f =>
      if decide (bool_field "retryable" f = Some true) then Ok tt
      else throw ("Armada job " +:+ jobId job +:+ " failed: " +:+ default "no reason given" (str_field "reason" f))
  | None => Ok tt
  end;;
  match job_event job "cancelled" msg with
  | Some _ => throw ("Armada job " +:+ jobId job +:+ cancelled)
  | None => Ok tt
  end.

Definition location_of (config : ArmadaConfig) (running : json) : PodLocation :=
  {| clusterId := default "" (str_field "clusterId" running);
     podName := default "" (str_field "podName" running);
     podNamespace := default (namespace config) (str_field "podNamespace" running);
     nodeName := str_field "nodeName" running |}.

Definition look_running (config : ArmadaConfig) (job : SubmittedJob) (value : json) : result (option PodLocation) :=
  m ← line_message value;
  match m with
  | None => Ok None
  | Some msg =>
      match job_event job "running" msg with
      | Some running => Ok (Some (location_of config running))
      | None => check_ended job " was cancelled before it started" msg;; Ok None
      end
  end.

Definition nonempty_string (s : option string) : option string :=
  v ← s; if decide (v = "") then None else Some v.

Definition look_address (job : SubmittedJob) (port : Z) (value : json) : result (option string) :=
  m ← line_message value;
  match m with
  | None => Ok None
  | Some msg =>
      match job_event job "ingressInfo" msg with
      | Some info =>
          let addresses := match obj_field "ingressAddresses" info with Some (JObj o) => o | _ => [] end in
          match nonempty_string (as_string (obj_get (string_of_Z port) addresses)) with
          | Some address => Ok (Some address)
          | None =>
              let known := join ", " (obj_keys addresses) in
              throw ("Armada reported no address for port " +:+ string_of_Z port +:+ " of job " +:+ jobId job
                     +:+ "; it exposes: " +:+ (if decide (known = "") then "nothing" else known))
          end
      | None => check_ended job " was cancelled" msg;; Ok None
      end
  end.

(** ** The client *)

Section client.
Context `{Platform} {S : Type} (config : ArmadaConfig).

Definition requestHeaders : M S (obj string) :=
  authorization ← authorizationHeader (auth config);
  mret (("content-type", "application/json")
        :: match authorization with Some a => [("authorization", a)] | None => [] end).

Definition postTo (base path : string) (body : json) (signal : option Z) : M S response :=
  headers ← requestHeaders;
  response ← fetch {| method := "POST"; url := strip_slash base +:+ path; headers := headers;
                      payload_of := Some (JsonPayload body); abort_ms := signal |};
  if ok_status response then mret response
  else
    text ← lift (text_of response);
    let detail := trim text in
    lift (throw ("Armada " +:+ path +:+ " failed (" +:+ string_of_Z (status response) +:+ "): "
                 +:+ (if decide (detail = "") then statusText response else detail))).

Definition post (path : string) (body : json) (signal : option Z) : M S response :=
  postTo (config_url config) path body signal.

Definition postJsonTo (base path : string) (body : json) : M S json :=
  response ← postTo base path body None;
  value ← lift (json_of response);
  lift (asObject value ("a response to " +:+ path)).

Definition postJson (path : string) (body : json) : M S json := postJsonTo (config_url config) path body.

(** The first item of the answer, as a job of the queue it was sent to. *)
Definition submitted_job (sandboxId : SandboxId) (q : qname) (response : json) : result SubmittedJob :=
  let item := list_field "jobResponseItems" response ≫= (fun l => l !! 0%nat) in
  match nonempty_string (item ≫= str_field "error") with
  | Some e => throw ("Armada rejected the job for sandbox " +:+ sandboxId +:+ ": " +:+ e)
  | None =>
      match nonempty_string (item ≫= str_field "jobId") with
      | None => throw ("Armada returned no job id for sandbox " +:+ sandboxId)
      | Some id => Ok {| jobId := id; jobSetId := sandboxId; job_queue := q |}
      end
  end.

Definition submit (sandboxId : SandboxId) (podSpec : V1PodSpec) (q : qname) : M S SubmittedJob :=
  response ← postJson "/v1/job/submit" (submit_request config sandboxId podSpec q);
  lift (submitted_job sandboxId q response).

(** The lines of the job set's event stream, and how it ended. *)
Definition watch (job : SubmittedJob) (timeoutMs : Z) : M S yields :=
  response ← post (job_set_path job) (watch_request job) (Some timeoutMs);
  match content response with
  | None => lift (throw ("Armada returned no event stream for " +:+ job_set_path job))
  | Some b => mret (readNdjson b)
  end.

Definition waitForRunning (job : SubmittedJob) (timeoutMs : Z) : M S PodLocation :=
  lines ← watch job timeoutMs;
  lift (follow (look_running config job)
          (error ("Armada event stream ended before job " +:+ jobId job +:+ " started"))
          (fst lines) (snd lines)).

Definition ingressAddress (job : SubmittedJob) (port : Z) (timeoutMs : Z) : M S string :=
  lines ← watch job timeoutMs;
  lift (follow (look_address job port)
          (error ("Armada event stream ended before job " +:+ jobId job +:+ " reported an ingress address"))
          (fst lines) (snd lines)).

Definition address_url (address : string) : string :=
  if includes "://" address then address
  else (match expose config with ingress true _ _ => "https" | _ => "http" end) +:+ "://" +:+ address.

Definition portUrl (job : SubmittedJob) (port : Z) : M S string :=
  address ← ingressAddress job port DEFAULT_INGRESS_TIMEOUT_MS;
  mret (address_url address).

Definition cancel (job : SubmittedJob) : M S unit :=
  _ ← post "/v1/job/cancel"
        (JObj (member "queue" id (queue_json (job_queue job))
               ++ [("jobSetId", JStr (jobSetId job)); ("jobId", JStr (jobId job))])) None;
  mret tt.

Definition cancelSet (jobSetId : string) (q : qname) : M S unit :=
  _ ← post "/v1/job/cancel" (JObj (member "queue" id (queue_json q) ++ [("jobSetId", JStr jobSetId)])) None;
  mret tt.

(** A state in [FINISHED_JOB_STATES]. *)
Definition finished (state : json) : bool :=
  match state with JNum (Int n) => bool_decide (n ∈ FINISHED_JOB_STATES) | _ => false end.

Definition job_states (response : json) : obj json :=
  match obj_field "jobStates" response with Some (JObj o) => o | _ => [] end.

Definition live_jobs (states : obj json) : list string :=
  map fst (List.filter (fun kv => negb (finished (snd kv))) states).

Definition findJob (sandboxId : SandboxId) (q : qname) : M S (option SubmittedJob) :=
  response ← postJson "/v1/job/statusUsingExternalJobUri"
    (JObj (member "queue" id (queue_json q) ++ [("jobset", JStr sandboxId); ("externalJobUri", JStr sandboxId)]));
  let live := to_sorted (live_jobs (job_states response)) in
  mret ((fun id => {| jobId := id; jobSetId := sandboxId; job_queue := q |}) <$> list.last live).

Definition lookoutJobs (lookout : string) (filters : list json) (field direction : string) (skip take : Z) : M S (list json) :=
  response ← postJsonTo lookout "/api/v1/jobs" (lookout_request config filters field direction skip take);
  mret (default [] (list_field "jobs" response)).

Definition findQueue (jobSetId : SandboxId) : M S (option string) :=
  match lookoutUrl config with
  | None => mret None
  | Some lookout =>
      jobs ← lookoutJobs lookout [JObj [("field", JStr "jobSet"); ("value", JStr jobSetId); ("match", JStr "exact")]]
               "submitted" "DESC" 0 1;
      mret (nonempty_string (jobs !! 0%nat ≫= str_field "queue"))
  end.

(** A job's entry of the map, nothing when it names no set or no queue. *)
Definition active_of (job : json) : option ActiveJob :=
  set ← nonempty_string (str_field "jobSet" job);
  q ← nonempty_string (str_field "queue" job);
  Some {| job_sandbox := {| active_id := set; createdAt := str_field "submitted" job |}; in_queue := q |}.

Definition add_active (sandboxes : list (string * ActiveJob)) (job : json) : list (string * ActiveJob) :=
  match active_of job with
  | Some a => map_set (active_id (job_sandbox a)) a sandboxes
  | None => sandboxes
  end.

Definition active_filter : json :=
  JObj [("field", JStr "state"); ("value", JArr (map JStr ACTIVE_JOB_STATES)); ("match", JStr "anyOf")].

(** The loop over the pages, at most [pages] of them. *)
Fixpoint list_pages (pages : nat) (lookout : string) (skip : nat) (sandboxes : list (string * ActiveJob)) : M S (list ActiveJob) :=
  match pages with
  | O => lift (throw "listActive: more pages than the model reads")
  | Datatypes.S pages' =>
      jobs ← lookoutJobs lookout [active_filter] "submitted" "ASC" (Z.of_nat skip) (Z.of_nat LIST_ACTIVE_PAGE);
      let sandboxes := foldl add_active sandboxes jobs in
      if (length jobs <? LIST_ACTIVE_PAGE)%nat then mret (map snd sandboxes)
      else list_pages pages' lookout (skip + LIST_ACTIVE_PAGE) sandboxes
  end.

Definition listActive (pages : nat) : M S (list ActiveJob) :=
  match lookoutUrl config with
  | None => lift (throw "listActive needs ARMADA_LOOKOUT_URL, which is not configured")
  | Some lookout => list_pages pages lookout 0 []
  end.
End client.

(** ** Following *)

Lemma follow_Ok {A} (look : json -> result (option A)) ended lines last a :
  follow look ended lines last = Ok a <->
  exists before v after, lines = before ++ v :: after /\
    Forall (fun x => look x = Ok None) before /\ look v = Ok (Some a).
Proof.
  induction lines as [|v lines IH]; cbn [follow].
  - split; [done|]. by intros ([|? ?] & ? & ? & ? & _).
  - rewrite bind_Ok. split.
    + intros ([b|] & Hv & Hr); [injection Hr as ->; by exists [], v, lines|].
      apply IH in Hr as (before & x & after & -> & Hb & Hx).
      exists (v :: before), x, after. repeat split; [by constructor | done].
    + intros ([|y before] & x & after & [= -> ->] & Hb & Hx).
      * by exists (Some a).
      * inversion Hb; subst. exists None. split; [done|]. apply IH. by exists before, x, after.
Qed.

Lemma follow_Err {A} (look : json -> result (option A)) ended lines last before v after e :
  lines = before ++ v :: after -> Forall (fun x => look x = Ok None) before -> look v = Err e ->
  follow look ended lines last = Err e.
Proof.
  intros -> Hb Hv. induction Hb as [|x before Hx _ IH]; simpl; [by rewrite Hv | by rewrite Hx].
Qed.

(** A line that says nothing decisive about the job: no line error, and no
    event of the kind waited for, no final failure and no cancellation of it. *)
Definition undecided (job : SubmittedJob) (kind : string) (v : json) : Prop :=
  is_object v = true /\ obj_field "error" v = None /\
  forall msg, (r ← obj_field "result" v; obj_field "message" r) = Some msg ->
    job_event job kind msg = None /\ job_event job "cancelled" msg = None /\
    forall f, job_event job "failed" msg = Some f -> bool_field "retryable" f = Some true.

(** A line that carries an event of the job. *)
Definition carries (job : SubmittedJob) (kind : string) (v e : json) : Prop :=
  is_object v = true /\ obj_field "error" v = None /\
  exists msg, (r ← obj_field "result" v; obj_field "message" r) = Some msg /\ job_event job kind msg = Some e.

Lemma line_message_Ok v m :
  line_message v = Ok m <->
  is_object v = true /\ obj_field "error" v = None /\ m = (r ← obj_field "result" v; obj_field "message" r).
Proof.
  unfold line_message, asObject. destruct (is_object v); simpl; [|naive_solver].
  destruct (obj_field "error" v); naive_solver.
Qed.

Lemma check_ended_Ok job how msg u :
  check_ended job how msg = Ok u <->
  job_event job "cancelled" msg = None /\
  forall f, job_event job "failed" msg = Some f -> bool_field "retryable" f = Some true.
Proof.
  unfold check_ended. destruct u.
  destruct (job_event job "failed" msg) as [f|]; [case_decide|];
    destruct (job_event job "cancelled" msg); simpl; naive_solver.
Qed.

Lemma look_running_None config job v :
  look_running config job v = Ok None <-> undecided job "running" v.
Proof.
  unfold look_running, undecided. rewrite bind_Ok. split.
  - intros (m & (Ho & He & ->)%line_message_Ok & Hm). repeat split; try done.
    all: rewrite H in Hm; destruct (job_event job "running" msg); [done|]; try done.
    all: apply bind_Ok in Hm as (u & [Hc Hf]%check_ended_Ok & _); auto.
  - intros (Ho & He & Hm). eexists. split; [by apply line_message_Ok|].
    destruct (r ← obj_field "result" v; obj_field "message" r) as [msg|]; [|done].
    destruct (Hm msg) as (Hr & Hc & Hf); [done|]. rewrite Hr. apply bind_Ok. exists tt.
    split; [by apply check_ended_Ok | done].
Qed.

Lemma look_running_Some config job v p :
  look_running config job v = Ok (Some p) <-> exists e, carries job "running" v e /\ p = location_of config e.
Proof.
  unfold look_running, carries. rewrite bind_Ok. split.
  - intros (m & (Ho & He & ->)%line_message_Ok & Hm).
    destruct (r ← obj_field "result" v; obj_field "message" r) as [msg|]; [|done].
    destruct (job_event job "running" msg) as [e|] eqn:E.
    + injection Hm as <-. by exists e; split_and!; [..|exists msg|].
    + apply bind_Ok in Hm as (u & _ & ?). done.
  - intros (e & (Ho & He & msg & Hm & Hr) & ->). exists (Some msg).
    split; [by apply line_message_Ok|]. by rewrite Hr.
Qed.

Section wire.
Context `{Platform} {S W : Type} (config : ArmadaConfig) (h : handler W).

Lemma run_lift {A} (r : result A) (s : S) (w : W) :
  run h (lift r) s w = {| value := r; final := s; world := w; trace := [] |}.
Proof. done. Qed.

Lemma value_bind_lift {A B} (p : M S A) (f : A -> result B) s w :
  value (run h (x ← p; lift (f x)) s w) = value (run h p s w) ≫= f.
Proof. rewrite run_bind. cbn zeta. by destruct (value (run h p s w)). Qed.

(** C24  Waiting for a job returns where it runs exactly when the event stream,
    before anything final about this job, announces its running: events of
    other jobs, retried failures, and how the stream is cut do not matter. *)
Theorem waitForRunning_iff job timeoutMs (s : S) (w : W) p :
  value (run h (waitForRunning config job timeoutMs) s w) = Ok p <->
  exists lines last before v after e,
    value (run h (watch config job timeoutMs) s w) = Ok (lines, last) /\
    lines = before ++ v :: after /\
    Forall (undecided job "running") before /\
    carries job "running" v e /\ p = location_of config e.
Proof.
  unfold waitForRunning. rewrite value_bind_lift, bind_Ok. split.
  - intros ([lines last] & Hw & (before & v & after & Hl & Hb & (e & He & ->)%look_running_Some)%follow_Ok).
    exists lines, last, before, v, after, e. repeat split; try done; try apply He.
    eapply list.Forall_impl; [exact Hb|]. intros x. by apply look_running_None.
  - intros (lines & last & before & v & after & e & Hw & Hl & Hb & He & ->).
    exists (lines, last). split; [done|]. apply follow_Ok. exists before, v, after. repeat split; [done| |].
    + eapply list.Forall_impl; [exact Hb|]. intros x. by apply look_running_None.
    + apply look_running_Some. by exists e.
Qed.

(** A failure that is not retried, or a cancellation, of the job before
    it runs ends the wait with that reason, not with a timeout. *)
Theorem waitForRunning_failed job timeoutMs (s : S) (w : W) lines last before v after msg :
  value (run h (watch config job timeoutMs) s w) = Ok (lines, last) ->
  lines = before ++ v :: after -> Forall (undecided job "running") before ->
  line_message v = Ok (Some msg) -> job_event job "running" msg = None ->
  (forall f, job_event job "failed" msg = Some f -> bool_field "retryable" f <> Some true ->
   value (run h (waitForRunning config job timeoutMs) s w)
   = throw ("Armada job " +:+ jobId job +:+ " failed: " +:+ default "no reason given" (str_field "reason" f))) /\
  (forall e, job_event job "cancelled" msg = Some e -> job_event job "failed" msg = None ->
   value (run h (waitForRunning config job timeoutMs) s w)
   = throw ("Armada job " +:+ jobId job +:+ " was cancelled before it started")).
Proof.
  intros Hw Hl Hb Hm Hr. unfold waitForRunning. rewrite value_bind_lift. unfold yields in *. rewrite Hw. cbn [mbind result_bind fst snd].
  assert (Forall (fun x => look_running config job x = Ok None) before) as Hb'
    by (eapply list.Forall_impl; [exact Hb|]; intros x; by apply look_running_None).
  split.
  - intros f Hf Hn. eapply follow_Err; [done..|]. unfold look_running. rewrite Hm. simpl. rewrite Hr.
    unfold check_ended. by rewrite Hf, decide_False.
  - intros e He Hf. eapply follow_Err; [done..|]. unfold look_running. rewrite Hm. simpl. rewrite Hr.
    unfold check_ended. by rewrite Hf, He.
Qed.

(** C30  The job found for a sandbox is the newest of those that have not
    finished: its id is in the answer with an unfinished state and no other
    such id is greater; nothing is found when there is none. *)
Theorem findJob_newest sandboxId q (s : S) (w : W) :
  let asked := run h (postJson config "/v1/job/statusUsingExternalJobUri"
    (JObj (member "queue" id (queue_json q) ++ [("jobset", JStr sandboxId); ("externalJobUri", JStr sandboxId)]))) s w in
  let unfinished response x := exists st, (x, st) ∈ job_states response /\ finished st = false in
  match value (run h (findJob config sandboxId q) s w) with
  | Err e => value asked = Err e
  | Ok None => exists response, value asked = Ok response /\ forall x, ~ unfinished response x
  | Ok (Some job) => jobSetId job = sandboxId /\ job_queue job = q /\
      exists response, value asked = Ok response /\ unfinished response (jobId job) /\
        forall x, unfinished response x -> str_ltb (jobId job) x = false
  end.
Proof.
  cbn zeta. unfold findJob. rewrite run_bind. cbn zeta.
  generalize (run h (postJson config "/v1/job/statusUsingExternalJobUri"
    (JObj (member "queue" id (queue_json q) ++ [("jobset", JStr sandboxId); ("externalJobUri", JStr sandboxId)]))) s w).
  intros [[response|e] s' w' t]; cbn [value final world trace run mret M_ret]; [|done].
  assert (forall x, x ∈ live_jobs (job_states response) <->
            exists st, (x, st) ∈ job_states response /\ finished st = false) as Hlive.
  { intros x. unfold live_jobs. rewrite list_elem_of_fmap. split.
    - intros ([y st] & -> & Hin). apply list_elem_of_In, filter_In in Hin as [Hin Hf].
      exists st. split; [by apply list_elem_of_In | by apply negb_true_iff].
    - intros (st & Hin & Hf). exists (x, st). split; [done|].
      apply list_elem_of_In, filter_In. split; [by apply list_elem_of_In | simpl; by rewrite Hf]. }
  destruct (list.last (to_sorted (live_jobs (job_states response)))) as [x|] eqn:E; cbn [fmap option_fmap option_map].
  - apply to_sorted_last in E as [Hx Hmax]. split; [done|]. split; [done|].
    exists response. split; [done|]. cbn [jobId]. split; [by apply Hlive|]. intros y Hy. by apply Hmax, Hlive.
  - apply to_sorted_nil in E. exists response. split; [done|]. intros x Hx%Hlive. rewrite E in Hx. set_solver.
Qed.

(** What a call to the gateway sends: the headers it resolved, then one POST. *)
Lemma postTo_run base path body signal (s : S) (w : W) :
  let hd := run h (requestHeaders config) s w in
  let o := run h (postTo config base path body signal) s w in
  match value hd with
  | Err e => value o = Err e /\ trace o = trace hd
  | Ok headers =>
      let r := {| method := "POST"; url := strip_slash base +:+ path; headers := headers;
                  payload_of := Some (JsonPayload body); abort_ms := signal |} in
      trace o = trace hd ++ [Fetch r] /\
      value o =
        (response ← fst (h (Fetch r) (world hd));
         if ok_status response then Ok response
         else text ← text_of response;
              throw ("Armada " +:+ path +:+ " failed (" +:+ string_of_Z (status response) +:+ "): "
                     +:+ (if blank text then statusText response else trim text)))
  end.
Proof.
  cbn zeta. unfold postTo. rewrite run_bind. cbn zeta.
  generalize (run h (requestHeaders config) s w). intros [[headers|e] s' w' t]; cbn [value final world trace]; [|done].
  rewrite run_bind. unfold fetch. cbn [run].
  destruct (h (Fetch _) w') as [[response|e] w''] eqn:E; cbn [value final world trace fst mbind result_bind].
  - destruct (ok_status response); simpl; [done|]. unfold blank.
    destruct (text_of response) as [text|e]; simpl; [|done].
    by case_decide; [rewrite bool_decide_true|rewrite bool_decide_false].
  - done.
Qed.

(** A submit is one POST to the gateway whose job is named by the sandbox
    id three times over and whose queue is the caller's, and a job that comes
    back has an id and is that sandbox's, in that queue; an answer that
    refuses the job, or names none, is an error. *)
Theorem submit_one_post sandboxId podSpec q (s : S) (w : W) :
  let hd := run h (requestHeaders config) s w in
  let o := run h (submit config sandboxId podSpec q) s w in
  let item := job_request_item config sandboxId podSpec in
  (forall k, k ∈ ["clientId"; "externalJobUri"] -> prop k item = Some (JStr sandboxId)) /\
  prop "podSpec" item = Some (pod_json podSpec) /\
  match value hd with
  | Err e => value o = Err e
  | Ok headers => trace o = trace hd ++
      [Fetch {| method := "POST"; url := strip_slash (config_url config) +:+ "/v1/job/submit"; headers := headers;
                payload_of := Some (JsonPayload (JObj (member "queue" id (queue_json q)
                  ++ [("jobSetId", JStr sandboxId); ("jobRequestItems", JArr [item])]))); abort_ms := None |}]
  end /\
  (forall job, value o = Ok job -> jobSetId job = sandboxId /\ job_queue job = q /\ jobId job <> "").
Proof.
  cbn zeta. split; [intros k; rewrite !elem_of_cons, elem_of_nil; by intros [->|[->|[]]]|]. split; [done|].
  unfold submit, postJson, postJsonTo. rewrite !run_bind. cbn zeta.
  pose proof (postTo_run (config_url config) "/v1/job/submit" (submit_request config sandboxId podSpec q) None s w) as Hp.
  cbn zeta in Hp. revert Hp. generalize (run h (postTo config (config_url config) "/v1/job/submit"
    (submit_request config sandboxId podSpec q) None) s w).
  intros [v s' w' t]. cbn [value trace final world]. intros Hp. split.
  - destruct (value (run h (requestHeaders config) s w)) as [headers|e].
    + destruct Hp as [-> _]. unfold submit_request. destruct v as [response|e]; simpl; [|done].
      destruct (json_of response) as [j|]; simpl; [|by rewrite ?app_nil_r].
      destruct (asObject j _); simpl; by rewrite ?app_nil_r.
    + by destruct Hp as [-> _].
  - intros job Hj. destruct v as [response|e]; simpl in Hj; [|done].
    destruct (json_of response) as [j|]; simpl in Hj; [|done].
    destruct (asObject j _) as [j'|]; simpl in Hj; [|done]. unfold submitted_job in Hj.
    destruct (nonempty_string (_ ≫= str_field "error")); [done|].
    destruct (nonempty_string (_ ≫= str_field "jobId")) as [x|] eqn:Ex; [|done].
    apply Ok_inj in Hj as <-. simpl. repeat split. unfold nonempty_string in Ex.
    apply bind_Some in Ex as (y & _ & Hy). case_decide; [done|]. by injection Hy as <-.
Qed.

End wire.

(** Whatever annotations the operator sets, every job is marked with the
    installation's name and told to fail rather than be retried, and keeps the
    operator's other annotations. *)
Theorem job_annotations_marked config k :
  NoDup (obj_keys (podAnnotations config)) ->
  obj_get k (job_annotations config) =
    if decide (k = SANDBOX_MARK) then Some (queue config)
    else if decide (k = "armadaproject.io/failFast") then Some "true"
    else obj_get k (podAnnotations config).
Proof.
  intros Hnd. unfold job_annotations. rewrite !obj_get_define, obj_get_spread by done.
  repeat case_decide; try done. simpl. by case_match.
Qed.

(** The URL of a port always has a scheme: the address's own, else https
    exactly for an Ingress with TLS, else http. *)
Theorem address_url_scheme config address :
  includes "://" (address_url config address) = true /\
  (includes "://" address = true -> address_url config address = address) /\
  (includes "://" address = false ->
   address_url config address = "https://" +:+ address /\ (exists c a, expose config = ingress true c a)
   \/ address_url config address = "http://" +:+ address /\ forall c a, expose config <> ingress true c a).
Proof.
  unfold address_url. destruct (includes "://" address) eqn:E; [naive_solver|].
  split; [|split; [done|]].
  - by destruct (expose config) as [|[]].
  - intros _. destruct (expose config) as [|[] c a]; [right; naive_solver| |right; naive_solver].
    left. split; [done|]. by exists c, a.
Qed.

(** ** Enumeration *)

Lemma add_active_get acc jobs k :
  NoDup (obj_keys acc) ->
  NoDup (obj_keys (foldl add_active acc jobs)) /\
  (k ∈ obj_keys (foldl add_active acc jobs) <->
   k ∈ obj_keys acc \/ exists j a, j ∈ jobs /\ active_of j = Some a /\ active_id (job_sandbox a) = k).
Proof.
  revert acc; induction jobs as [|j jobs IH]; intros acc Hnd; simpl; [set_solver|].
  unfold add_active at 2 4. destruct (active_of j) as [a|] eqn:E.
  - destruct (IH (map_set (active_id (job_sandbox a)) a acc)) as [H1 H2]; [by apply map_set_NoDup|].
    split; [done|]. rewrite H2, map_set_keys. set_solver.
  - destruct (IH acc Hnd) as [H1 H2]. split; [done|]. rewrite H2. set_solver.
Qed.

(** An entry under its own id, read from one of the jobs. *)
Definition entry_of (jobs : list json) (kv : string * ActiveJob) : Prop :=
  fst kv = active_id (job_sandbox (snd kv)) /\ exists j, j ∈ jobs /\ active_of j = Some (snd kv).

Lemma map_set_Forall {V} (P : string * V -> Prop) k v m : P (k, v) -> Forall P m -> Forall P (map_set k v m).
Proof.
  intros Hkv. induction 1 as [|[k' v'] m Hx Hm IH]; simpl; [by repeat constructor|].
  case_decide; by constructor.
Qed.

Lemma add_active_entries all jobs acc :
  Forall (entry_of all) acc -> jobs ⊆ all -> Forall (entry_of all) (foldl add_active acc jobs).
Proof.
  revert acc; induction jobs as [|j jobs IH]; intros acc Hacc Hsub; simpl; [done|].
  apply IH; [|set_solver]. unfold add_active. destruct (active_of j) as [a|] eqn:E; [|done].
  apply map_set_Forall; [|done]. split; [done|]. exists j. set_solver.
Qed.

Section enumeration.
Context `{Platform} {S W : Type} (config : ArmadaConfig) (h : handler W).

(** Lookout pages through a fixed list of jobs. *)
Definition pages_through (lookout : string) (jobs : list json) : Prop :=
  forall skip (s : S) (w : W),
    value (run h (lookoutJobs config lookout [active_filter] "submitted" "ASC" (Z.of_nat skip) (Z.of_nat LIST_ACTIVE_PAGE)) s w)
    = Ok (take LIST_ACTIVE_PAGE (drop skip jobs)).

Lemma list_pages_run lookout jobs pages skip acc (s : S) (w : W) :
  pages_through lookout jobs -> (length jobs - skip < pages * LIST_ACTIVE_PAGE)%nat ->
  value (run h (list_pages config pages lookout skip acc) s w)
  = Ok (map snd (foldl add_active acc (drop skip jobs))).
Proof.
  intros Hp. revert skip acc s w; induction pages as [|pages IH]; intros skip acc s w Hlen; [lia|].
  cbn [list_pages]. rewrite run_bind. cbn zeta. specialize (Hp skip s w). revert Hp.
  match goal with |- context [run h ?p s w] => generalize (run h p s w) end.
  intros [v s' w' t]. cbn [value final world]. intros ->.
  set (page := take LIST_ACTIVE_PAGE (drop skip jobs)).
  assert (length page = Nat.min LIST_ACTIVE_PAGE (length jobs - skip)) as Hpage
    by (unfold page; rewrite length_take, length_drop; done).
  assert (drop skip jobs = page ++ drop LIST_ACTIVE_PAGE (drop skip jobs)) as Hdrop by (symmetry; apply take_drop).
  rewrite Hdrop, foldl_app, drop_drop. cbn [value].
  destruct (length page <? LIST_ACTIVE_PAGE)%nat eqn:E.
  - rewrite (drop_ge jobs) by lia. done.
  - rewrite IH by lia. done.
Qed.

(** C31  Listing returns every sandbox Lookout holds a usable live job of,
    once each, with a queue one of its jobs is in, however many pages that
    takes; a job without a set or a queue is skipped. *)
Theorem listActive_complete lookout jobs pages (s : S) (w : W) :
  lookoutUrl config = Some lookout -> pages_through lookout jobs ->
  (length jobs < pages * LIST_ACTIVE_PAGE)%nat ->
  exists found, value (run h (listActive config pages) s w) = Ok found /\
    NoDup (map (fun a => active_id (job_sandbox a)) found) /\
    (forall a, a ∈ found -> exists j, j ∈ jobs /\ active_of j = Some a) /\
    (forall j a, j ∈ jobs -> active_of j = Some a ->
      active_id (job_sandbox a) ∈ map (fun b => active_id (job_sandbox b)) found).
Proof.
  intros Hl Hp Hlen. unfold listActive. rewrite Hl.
  rewrite (list_pages_run _ jobs) by (done || lia). rewrite drop_0. eexists. split; [done|].
  assert (Forall (entry_of jobs) (foldl add_active [] jobs)) as Hent
    by (by apply add_active_entries; [constructor|]).
  assert (map (fun a => active_id (job_sandbox a)) (map snd (foldl add_active [] jobs))
          = obj_keys (foldl add_active [] jobs)) as ->.
  { unfold obj_keys. rewrite map_map. clear -Hent. induction Hent as [|kv l [Hk _] _ IH]; simpl; [done|].
    by rewrite IH, Hk. }
  split; [|split].
  - apply (add_active_get [] jobs ""). constructor.
  - intros a Ha. apply list_elem_of_fmap in Ha as (kv & -> & Hkv).
    by eapply list.Forall_forall in Hent as [_ Hj].
  - intros j a Hj Ha. apply (add_active_get [] jobs); [constructor|]. right. by exists j, a.
Qed.
End enumeration.

(** ** What each call may send *)

Section guarding.
Context `{Platform} {S : Type} (I : S -> Prop) (config : ArmadaConfig).

Lemma guarded_headers P :
  (forall f, P (ReadTextFile f)) -> guarded I P (returns (fun _ => True)) (requestHeaders config).
Proof.
  intros HP. unfold requestHeaders. eapply (guarded_bind _ _ (fun _ => True)); [|by intros].
  destruct (auth config); simpl; try done. split; [done|]. intros [text|e]; [|done]. simpl. by case_decide.
Qed.

Lemma guarded_postTo P base path body signal :
  (forall f, P (ReadTextFile f)) ->
  (forall hs, P (Fetch {| method := "POST"; url := strip_slash base +:+ path; headers := hs;
                          payload_of := Some (JsonPayload body); abort_ms := signal |})) ->
  guarded I P (returns (fun _ => True)) (postTo config base path body signal).
Proof.
  intros Hf HP. unfold postTo. eapply guarded_bind; [by apply guarded_headers|]. intros headers _.
  eapply guarded_bind; [by apply guarded_fetch|]. intros r _. destruct (ok_status r); [done|].
  eapply (guarded_bind _ _ (fun _ => True)); [by destruct (text_of r)|]. by intros.
Qed.

Lemma guarded_postJsonTo P base path body :
  (forall f, P (ReadTextFile f)) ->
  (forall hs, P (Fetch {| method := "POST"; url := strip_slash base +:+ path; headers := hs;
                          payload_of := Some (JsonPayload body); abort_ms := None |})) ->
  guarded I P (returns (fun _ => True)) (postJsonTo config base path body).
Proof.
  intros Hf HP. unfold postJsonTo. eapply guarded_bind; [by apply guarded_postTo|]. intros r _.
  eapply (guarded_bind _ _ (fun _ => True)); [by destruct (json_of r)|]. intros v _. by destruct (asObject v _).
Qed.

Lemma queue_member q rest :
  prop "jobRequestItems" (JObj (member "queue" id (queue_json q) ++ rest)) = obj_get "jobRequestItems" rest.
Proof. by destruct (queue_json q). Qed.

Ltac sends_none :=
  intros; unfold starts_nothing, submits, submits_job, watch_request, lookout_request; cbn [payload_of];
  rewrite ?queue_member; reflexivity.

Lemma guarded_watch job t : guarded I starts_nothing (returns (fun _ => True)) (watch config job t).
Proof.
  unfold watch. eapply guarded_bind; [apply guarded_postTo; sends_none|]. intros r _. by destruct (content r).
Qed.

Lemma guarded_waitForRunning job t : guarded I starts_nothing (returns (fun _ => True)) (waitForRunning config job t).
Proof.
  unfold waitForRunning. eapply guarded_bind; [apply guarded_watch|]. intros l _. by destruct (follow _ _ _ _).
Qed.

Lemma guarded_portUrl job port : guarded I starts_nothing (returns (fun _ => True)) (portUrl config job port).
Proof.
  unfold portUrl, ingressAddress. eapply (guarded_bind _ _ (fun _ => True)); [|by intros].
  eapply guarded_bind; [apply guarded_watch|]. intros l _. by destruct (follow _ _ _ _).
Qed.

Lemma guarded_cancel job : guarded I starts_nothing (returns (fun _ => True)) (cancel config job).
Proof. unfold cancel. eapply (guarded_bind _ _ (fun _ => True)); [apply guarded_postTo; sends_none | by intros]. Qed.

Lemma guarded_cancelSet id q : guarded I starts_nothing (returns (fun _ => True)) (cancelSet config id q).
Proof. unfold cancelSet. eapply (guarded_bind _ _ (fun _ => True)); [apply guarded_postTo; sends_none | by intros]. Qed.

(** The job found is of the sandbox and the queue asked about. *)
Definition job_of (id : SandboxId) (q : qname) (j : option SubmittedJob) : Prop :=
  forall job, j = Some job -> jobSetId job = id /\ job_queue job = q.

Lemma guarded_findJob id q : guarded I starts_nothing (returns (job_of id q)) (findJob config id q).
Proof.
  unfold findJob, postJson. eapply guarded_bind; [apply guarded_postJsonTo; sends_none|].
  intros r _ job. by destruct (list.last _) as [x|]; intros [= <-].
Qed.

Lemma guarded_findQueue id : guarded I starts_nothing (returns (fun _ => True)) (findQueue config id).
Proof.
  unfold findQueue. destruct (lookoutUrl config); [|done].
  eapply (guarded_bind _ _ (fun _ => True)); [|by intros].
  eapply (guarded_bind _ _ (fun _ => True)); [apply guarded_postJsonTo; sends_none | by intros].
Qed.

Lemma guarded_listActive pages : guarded I starts_nothing (returns (fun _ => True)) (listActive config pages).
Proof.
  unfold listActive. destruct (lookoutUrl config) as [lookout|]; [|done].
  generalize 0%nat, (@nil (string * ActiveJob)). induction pages as [|pages IH]; intros skip acc; [done|].
  cbn [list_pages]. eapply (guarded_bind _ _ (fun _ => True)).
  - eapply (guarded_bind _ _ (fun _ => True)); [apply guarded_postJsonTo; sends_none | by intros].
  - intros jobs _. by case_match.
Qed.

(** What [submit] returns is a job of the sandbox and the queue. *)
Lemma guarded_submit P id pod q :
  (forall c, P c) -> guarded I P (returns (fun j => job_of id q (Some j))) (submit config id pod q).
Proof.
  intros HP. unfold submit, postJson. eapply guarded_bind; [by apply guarded_postJsonTo|].
  intros r _. unfold submitted_job. destruct (nonempty_string _); [done|]. destruct (nonempty_string _); [|done].
  by intros job [= <-].
Qed.
End guarding.

#[export] Hint Resolve guarded_waitForRunning guarded_portUrl guarded_cancel guarded_cancelSet guarded_findJob guarded_findQueue : hub.

(** ** Witnesses *)

Definition example_job : SubmittedJob := {| jobId := "01h"; jobSetId := "s1"; job_queue := Named "hub" |}.

(** An event stream: another job's event, a retried failure, then the end. *)
Definition failing_stream : string :=
  join (String newline "") (map q
    ["{'result': {'message': {'running': {'jobId': 'other'}}}}";
     "{'result': {'message': {'failed': {'jobId': '01h', 'retryable': true}}}}";
     "{'result': {'message': {'failed': {'jobId': '01h', 'reason': 'no image'}}}}"]).

Definition event (text : string) : json := default JNull (json_parse (q text)).

Lemma waitForRunning_failed_witness :
  value (run (answering (fun _ => Ok (http_ok failing_stream)))
           (waitForRunning (H := example_platform) example_config example_job 1000) tt tt)
  = throw "Armada job 01h failed: no image".
Proof.
  destruct (waitForRunning_failed (H := example_platform) example_config
              (answering (fun _ => Ok (http_ok failing_stream))) example_job 1000 tt tt
              (map event ["{'result': {'message': {'running': {'jobId': 'other'}}}}";
                          "{'result': {'message': {'failed': {'jobId': '01h', 'retryable': true}}}}";
                          "{'result': {'message': {'failed': {'jobId': '01h', 'reason': 'no image'}}}}"]) None
              (map event ["{'result': {'message': {'running': {'jobId': 'other'}}}}";
                          "{'result': {'message': {'failed': {'jobId': '01h', 'retryable': true}}}}"])
              (event "{'result': {'message': {'failed': {'jobId': '01h', 'reason': 'no image'}}}}") []
              (event "{'failed': {'jobId': '01h', 'reason': 'no image'}}")) as [Hf _];
    [vm_compute; reflexivity|reflexivity| |vm_compute; reflexivity|vm_compute; reflexivity|].
  - constructor; [|constructor; [|constructor]]; apply (look_running_None example_config); vm_compute; reflexivity.
  - apply (Hf (event "{'jobId': '01h', 'reason': 'no image'}")); [vm_compute; reflexivity | vm_compute; discriminate].
Defined.

Lemma job_annotations_marked_witness :
  obj_get SANDBOX_MARK (job_annotations example_config)
  = if decide (SANDBOX_MARK = SANDBOX_MARK) then Some (queue example_config)
    else if decide (SANDBOX_MARK = "armadaproject.io/failFast") then Some "true"
    else obj_get SANDBOX_MARK (podAnnotations example_config).
Proof. apply (job_annotations_marked example_config SANDBOX_MARK). constructor. Defined.

(** A Lookout with one job, on its first page. *)
Definition one_job : json := event "{'jobSet': 's1', 'queue': 'gold', 'submitted': '2026-01-01'}".
Definition lookout_world : handler unit := answering (fun r =>
  match payload_of r with
  | Some (JsonPayload j) =>
      match prop "skip" j with
      | Some (JNum (Int z)) =>
          Ok (http_ok (if (z =? 0)%Z then json_stringify (JObj [("jobs", JArr [one_job])]) else "{}"))
      | _ => throw "bad request"
      end
  | _ => throw "bad request"
  end).

Lemma listActive_complete_witness :
  exists found, value (run lookout_world (listActive (H := example_platform) example_config 1) tt tt) = Ok found /\
    NoDup (map (fun a => active_id (job_sandbox a)) found) /\
    (forall a, a ∈ found -> exists j, j ∈ [one_job] /\ active_of j = Some a) /\
    (forall j a, j ∈ [one_job] -> active_of j = Some a ->
      active_id (job_sandbox a) ∈ map (fun b => active_id (job_sandbox b)) found).
Proof.
  apply (listActive_complete (H := example_platform) example_config lookout_world "http://lookout:8080" [one_job] 1 tt tt).
  - reflexivity.
  - intros [|[|skip]] [] []; vm_compute; reflexivity.
  - unfold LIST_ACTIVE_PAGE. simpl. lia.
Defined.
