(* ===== verification/Wire.v ===== *)
(** The wire types of Armada's API (src/armada-types.ts), as data: the fields
    of each interface, whether they may be left out, and their types; and when
    a JSON value is of such a type. *)
From S2P Require Import Prelude JsString JsNumber Json Encoding Io Types.

(** ** Types *)

(** What the interfaces are made of.  [t_any] is a type the file takes from
    elsewhere; [t_literal] a union of string literals. *)
Inductive wire :=
| t_string | t_number | t_boolean | t_any
| t_literal (values : list string)
| t_union (ts : list wire)
| t_array (t : wire)
| t_record (t : wire)
| t_object (fields : list (string * (bool * wire))).

(** [name: t] and [name?: t]. *)
Definition field (name : string) (t : wire) : string * (bool * wire) := (name, (false, t)).
Definition field_opt (name : string) (t : wire) : string * (bool * wire) := (name, (true, t)).

Definition interface : Type := list (string * (bool * wire)).

(** A value of a type: an object has every field it must, none the type does
    not name, and each of its own type. *)
Fixpoint has_type (t : wire) (v : json) {struct t} : bool :=
  match t, v with
  | t_any, _ => true
  | t_union ts, _ => existsb (fun t => has_type t v) ts
  | t_string, JStr _ => true
  | t_number, JNum _ => true
  | t_boolean, JBool _ => true
  | t_literal values, JStr s => bool_decide (s ∈ values)
  | t_array t, JArr l => forallb (has_type t) l
  | t_record t, JObj o => forallb (fun kv => has_type t (snd kv)) o
  | t_object fields, JObj o =>
      (forallb (fun f => match obj_get (fst f) o with
                         | None => fst (snd f)
                         | Some v => has_type (snd (snd f)) v
                         end) fields
       && forallb (fun kv => bool_decide (fst kv ∈ map fst fields)) o)%bool
  | _, _ => false
  end.

(** ** The interfaces *)

Definition IngressConfig : interface :=
  [ field_opt "type" (t_literal ["Ingress"]);
    field "ports" (t_array t_number);
    field_opt "tlsEnabled" t_boolean;
    field_opt "certName" t_string;
    field_opt "useClusterIP" t_boolean;
    field_opt "annotations" (t_record t_string) ].

Definition ServiceConfig : interface :=
  [ field_opt "name" t_string;
    field_opt "type" (t_literal ["NodePort"; "Headless"]);
    field "ports" (t_array t_number) ].

Definition JobSubmitRequestItem : interface :=
  [ field "clientId" t_string;
    field "namespace" t_string;
    field "podSpec" t_any;
    field_opt "externalJobUri" t_string;
    field_opt "ingress" (t_array (t_object IngressConfig));
    field_opt "services" (t_array (t_object ServiceConfig));
    field_opt "labels" (t_record t_string);
    field_opt "annotations" (t_record t_string);
    field_opt "priority" t_number ].

Definition JobSubmitRequest : interface :=
  [ field "queue" t_string;
    field "jobSetId" t_string;
    field "jobRequestItems" (t_array (t_object JobSubmitRequestItem)) ].

Definition JobSubmitResponseItem : interface :=
  [ field_opt "jobId" t_string; field_opt "error" t_string ].

Definition JobSubmitResponse : interface :=
  [ field_opt "jobResponseItems" (t_array (t_object JobSubmitResponseItem)) ].

Definition JobSetRequest : interface :=
  [ field "queue" t_string;
    field "id" t_string;
    field "watch" t_boolean;
    field_opt "fromMessageId" t_string;
    field_opt "errorIfMissing" t_boolean ].

Definition StreamError : interface :=
  [ field_opt "message" t_string; field_opt "grpcCode" t_number;
    field_opt "httpCode" t_number; field_opt "httpStatus" t_string ].

(** [extends JobEventBase]: its fields first. *)
Definition JobEventBase : interface :=
  [ field_opt "jobId" t_string; field_opt "jobSetId" t_string;
    field_opt "queue" t_string; field_opt "created" t_string ].

Definition JobLifecycleEvent : interface := JobEventBase.

Definition JobRunningEvent : interface := JobEventBase ++
  [ field_opt "clusterId" t_string;
    field_opt "podName" t_string;
    field_opt "podNamespace" t_string;
    field_opt "nodeName" t_string;
    field_opt "podNumber" t_number ].

Definition JobIngressInfoEvent : interface := JobEventBase ++
  [ field_opt "clusterId" t_string;
    field_opt "podName" t_string;
    field_opt "podNamespace" t_string;
    field_opt "ingressAddresses" (t_record t_string) ].

Definition JobFailedEvent : interface := JobEventBase ++
  [ field_opt "reason" t_string;
    field_opt "cause" t_string;
    field_opt "failureCategory" t_string;
    field_opt "failureSubcategory" t_string;
    field_opt "retryable" t_boolean;
    field_opt "exitCodes" (t_record t_number) ].

Definition EventMessage : interface :=
  [ field_opt "running" (t_object JobRunningEvent);
    field_opt "ingressInfo" (t_object JobIngressInfoEvent);
    field_opt "failed" (t_object JobFailedEvent);
    field_opt "cancelled" (t_object JobLifecycleEvent);
    field_opt "succeeded" (t_object JobLifecycleEvent) ].

Definition EventStreamMessage : interface :=
  [ field_opt "id" t_string; field_opt "message" (t_object EventMessage) ].

Definition EventStreamLine : interface :=
  [ field_opt "result" (t_object EventStreamMessage); field_opt "error" (t_object StreamError) ].

Definition JobCancelRequest : interface :=
  [ field "queue" t_string;
    field "jobSetId" t_string;
    field_opt "jobId" t_string;
    field_opt "jobIds" (t_array t_string);
    field_opt "reason" t_string ].

Definition CancellationResult : interface := [ field_opt "cancelledIds" (t_array t_string) ].

Definition JobStatusUsingExternalJobUriRequest : interface :=
  [ field "queue" t_string; field "jobset" t_string; field "externalJobUri" t_string ].

Definition JobStatusResponse : interface := [ field_opt "jobStates" (t_record t_number) ].

Definition LookoutFilter : interface :=
  [ field "field" t_string;
    field "value" (t_union [t_string; t_number; t_array t_string]);
    field "match" (t_literal ["exact"; "anyOf"; "startsWith"; "contains"; "greaterThan"; "lessThan";
                              "greaterThanOrEqualTo"; "lessThanOrEqualTo"; "exists"]);
    field_opt "isAnnotation" t_boolean ].

Definition LookoutOrder : interface :=
  [ field "field" t_string; field "direction" (t_literal ["ASC"; "DESC"]) ].

Definition LookoutGetJobsRequest : interface :=
  [ field "filters" (t_array (t_object LookoutFilter));
    field "order" (t_object LookoutOrder);
    field "skip" t_number;
    field "take" t_number ].

Definition LookoutJob : interface :=
  [ field_opt "jobId" t_string;
    field_opt "queue" t_string;
    field_opt "jobSet" t_string;
    field_opt "state" t_string;
    field_opt "submitted" t_string ].

Definition LookoutGetJobsResponse : interface := [ field_opt "jobs" (t_array (t_object LookoutJob)) ].

(** ** Laws *)

Lemma has_type_object fields o :
  has_type (t_object fields) (JObj o) = true <->
  (forall name opt t, (name, (opt, t)) ∈ fields ->
     match obj_get name o with None => opt = true | Some v => has_type t v = true end) /\
  (forall k v, (k, v) ∈ o -> k ∈ map fst fields).
Proof.
  cbn [has_type]. rewrite andb_true_iff, !forallb_forall. split; intros [H1 H2]; split.
  - intros name opt t Hin. specialize (H1 (name, (opt, t)) ltac:(by apply list_elem_of_In)). cbn in H1. by destruct (obj_get name o).
  - intros k v Hin. specialize (H2 (k, v) ltac:(by apply list_elem_of_In)). by apply bool_decide_eq_true in H2.
  - intros (name & opt & t) Hin%list_elem_of_In. specialize (H1 name opt t Hin). cbn. by destruct (obj_get name o).
  - intros [k v] Hin%list_elem_of_In. apply bool_decide_eq_true. eauto.
Qed.

Lemma has_type_array t v : has_type (t_array t) v = true <-> exists l, v = JArr l /\ Forall (fun x => has_type t x = true) l.
Proof.
  destruct v; cbn [has_type]; try (split; [done|]; by intros (? & [=] & _)).
  rewrite forallb_forall. split.
  - intros Hl. exists l. split; [done|]. apply list.Forall_forall. intros x Hx. by apply Hl, list_elem_of_In.
  - intros (l' & [= <-] & Hl) x Hx%list_elem_of_In. by eapply list.Forall_forall in Hl.
Qed.

(** ** Values built member by member *)

Definition member_ok (fields : interface) (kv : string * json) : Prop :=
  exists opt t, obj_get (fst kv) fields = Some (opt, t) /\ has_type t (snd kv) = true.

Lemma in_obj_get {V} k (v : V) o : NoDup (map fst o) -> (k, v) ∈ o -> obj_get k o = Some v.
Proof.
  induction o as [|[k' v'] o IH]; cbn; intros Hn Hin; [by apply not_elem_of_nil in Hin|].
  apply list.NoDup_cons in Hn as [Hk Hn]. apply elem_of_cons in Hin as [[= -> ->]|Hin]; [by rewrite decide_True|].
  rewrite decide_False; [auto|]. intros ->. apply Hk. by apply (list_elem_of_fmap_2 fst) in Hin.
Qed.

Lemma obj_get_key {V} k (o : obj V) : k ∈ map fst o -> obj_get k o <> None.
Proof.
  induction o as [|[k' v'] o IH]; cbn; [by intros ?%not_elem_of_nil|]. case_decide; [done|].
  intros [->|Hk]%elem_of_cons; [done|auto].
Qed.

Definition needed (fields : interface) : list string := map fst (List.filter (fun f => negb (fst (snd f))) fields).

Lemma object_typed fields o :
  NoDup (map fst fields) -> Forall (member_ok fields) o -> needed fields ⊆ map fst o ->
  has_type (t_object fields) (JObj o) = true.
Proof.
  intros Hn Ho Hreq. apply has_type_object. rewrite list.Forall_forall in Ho. split.
  - intros name opt t Hin. destruct (obj_get name o) as [v|] eqn:Ev.
    + destruct (Ho _ (obj_get_In _ _ _ Ev)) as (opt' & t' & Hf & Ht). cbn [fst snd] in *.
      rewrite (in_obj_get _ _ _ Hn Hin) in Hf. by injection Hf as <- <-.
    + destruct opt; [done|]. exfalso. apply (obj_get_key name o); [|done]. apply Hreq. unfold needed.
      apply (list_elem_of_fmap_2 fst _ (name, (false, t))), list_elem_of_In, filter_In. split; [by apply list_elem_of_In|done].
  - intros k v Hin. destruct (Ho _ Hin) as (opt & t & Hf & _). apply obj_get_In in Hf. by apply (list_elem_of_fmap_2 fst) in Hf.
Qed.
