(* ===== verification/ApiCheck.v ===== *)
(** The drift check (scripts/check-armada-api.ts): the tables of what the
    adapter depends on, the comparison with the API description of a release
    of Armada, and what an accepted release means for the requests the client
    (src/armada.ts) sends. *)
From S2P Require Import Prelude JsString Encoding JsNumber Json Io Ndjson Types Auth Config PodSpec Queues Armada Wire.

(** ** The tables *)

Inductive FieldType := ft_string | ft_boolean | ft_integer | ft_number | ft_object | ft_array | ft_ref.

Definition type_name (t : FieldType) : string :=
  match t with
  | ft_string => "string" | ft_boolean => "boolean" | ft_integer => "integer" | ft_number => "number"
  | ft_object => "object" | ft_array => "array" | ft_ref => "ref"
  end.

Definition ENDPOINTS : list (string * string) :=
  [ ("/v1/job/submit", "post"); ("/v1/job-set/{queue}/{id}", "post"); ("/v1/job/cancel", "post");
    ("/v1/job/statusUsingExternalJobUri", "post") ].

Definition CONTRACT : list (string * list (string * FieldType)) :=
  [ ("apiJobSubmitRequest", [("queue", ft_string); ("jobSetId", ft_string); ("jobRequestItems", ft_array)]);
    ("apiJobSubmitRequestItem",
      [ ("clientId", ft_string); ("namespace", ft_string); ("podSpec", ft_ref); ("externalJobUri", ft_string);
        ("ingress", ft_array); ("services", ft_array); ("labels", ft_object); ("annotations", ft_object);
        ("priority", ft_number) ]);
    ("apiIngressConfig",
      [ ("type", ft_ref); ("ports", ft_array); ("tlsEnabled", ft_boolean); ("certName", ft_string);
        ("useClusterIP", ft_boolean); ("annotations", ft_object) ]);
    ("apiServiceConfig", [("name", ft_string); ("type", ft_ref); ("ports", ft_array)]);
    ("apiJobSubmitResponse", [("jobResponseItems", ft_array)]);
    ("apiJobSubmitResponseItem", [("jobId", ft_string); ("error", ft_string)]);
    ("apiJobSetRequest",
      [ ("queue", ft_string); ("id", ft_string); ("watch", ft_boolean); ("fromMessageId", ft_string);
        ("errorIfMissing", ft_boolean) ]);
    ("apiEventStreamMessage", [("id", ft_string); ("message", ft_ref)]);
    ("apiEventMessage",
      [ ("running", ft_ref); ("ingressInfo", ft_ref); ("failed", ft_ref); ("cancelled", ft_ref); ("succeeded", ft_ref) ]);
    ("apiJobRunningEvent",
      [ ("jobId", ft_string); ("jobSetId", ft_string); ("queue", ft_string); ("created", ft_string);
        ("clusterId", ft_string); ("podName", ft_string); ("podNamespace", ft_string); ("nodeName", ft_string);
        ("podNumber", ft_integer) ]);
    ("apiJobIngressInfoEvent",
      [ ("jobId", ft_string); ("clusterId", ft_string); ("podName", ft_string); ("podNamespace", ft_string);
        ("ingressAddresses", ft_object) ]);
    ("apiJobFailedEvent",
      [ ("jobId", ft_string); ("reason", ft_string); ("cause", ft_ref); ("failureCategory", ft_string);
        ("failureSubcategory", ft_string); ("retryable", ft_boolean); ("exitCodes", ft_object) ]);
    ("apiJobCancelRequest",
      [ ("queue", ft_string); ("jobSetId", ft_string); ("jobId", ft_string); ("jobIds", ft_array); ("reason", ft_string) ]);
    ("apiCancellationResult", [("cancelledIds", ft_array)]);
    ("apiJobStatusUsingExternalJobUriRequest", [("queue", ft_string); ("jobset", ft_string); ("externalJobUri", ft_string)]);
    ("apiJobStatusResponse", [("jobStates", ft_object)]);
    ("runtimeStreamError",
      [ ("message", ft_string); ("grpcCode", ft_integer); ("httpCode", ft_integer); ("httpStatus", ft_string) ]) ].

Definition ENUMS : list (string * list string) :=
  [ ("apiIngressType", ["Ingress"]); ("apiServiceType", ["NodePort"; "Headless"]) ].

(** [JOB_STATE], as the table it is. *)
Definition job_state_table : list (string * Z) :=
  [ ("QUEUED", JOB_STATE QUEUED); ("PENDING", JOB_STATE PENDING); ("RUNNING", JOB_STATE RUNNING);
    ("SUCCEEDED", JOB_STATE SUCCEEDED); ("FAILED", JOB_STATE FAILED); ("UNKNOWN", JOB_STATE UNKNOWN);
    ("SUBMITTED", JOB_STATE SUBMITTED); ("LEASED", JOB_STATE LEASED); ("PREEMPTED", JOB_STATE PREEMPTED);
    ("CANCELLED", JOB_STATE CANCELLED); ("REJECTED", JOB_STATE REJECTED) ].

Definition NUMBERED_ENUMS : list (string * list (string * Z)) := [ ("apiJobState", job_state_table) ].

Definition LOOKOUT_TOKENS : list string :=
  [ "/api/v1/jobs:"; "filters:"; "order:"; "skip:"; "take:"; "isAnnotation:"; "- exact"; "- anyOf";
    "jobSet:"; "queue:"; "submitted:"; "state:"; "jobs:" ].

(** ** Reading the description

    [SwaggerDoc] and [SwaggerSchema], every field optional, as
    src/armada.ts's answers are read: a field of another type than they declare
    is absent. *)

Definition definitions_of (doc : json) : json := default (JObj []) (obj_field "definitions" doc).
Definition definition (name : string) (doc : json) : option json := obj_field name (definitions_of doc).
Definition schema_property (name : string) (schema : json) : option json :=
  properties ← obj_field "properties" schema; obj_field name properties.

Definition enum_of (schema : json) : option (list string) :=
  l ← list_field "enum" schema;
  mapM (fun v => match v with JStr s => Some s | _ => None end) l.
Definition enum_values (name : string) (doc : json) : list string := default [] (definition name doc ≫= enum_of).

Definition actualType (schema : json) : string :=
  match prop "$ref" schema with
  | Some _ => "ref"
  | None => default "unknown" (str_field "type" schema)
  end.

(** ** The comparison *)

Definition quoted (s : string) : string := String dquote s +:+ String dquote "".

Definition endpoint_problems (doc : json) : list string :=
  omap (fun e => match (p ← obj_field "paths" doc; o ← obj_field (fst e) p; prop (snd e) o) with
                 | None => Some ("endpoint " +:+ to_upper (snd e) +:+ " " +:+ fst e +:+ " is gone")
                 | Some _ => None
                 end) ENDPOINTS.

Definition field_problem (name : string) (schema : json) (f : string * FieldType) : option string :=
  match schema_property (fst f) schema with
  | None => Some (name +:+ "." +:+ fst f +:+ " is gone")
  | Some property =>
      let actual := actualType property in
      if decide (actual = type_name (snd f)) then None
      else Some (name +:+ "." +:+ fst f +:+ " is " +:+ actual +:+ " now, we read it as " +:+ type_name (snd f))
  end.

Definition definition_problems (doc : json) (d : string * list (string * FieldType)) : list string :=
  match definition (fst d) doc with
  | None => ["definition " +:+ fst d +:+ " is gone"]
  | Some schema => omap (field_problem (fst d) schema) (snd d)
  end.

Definition enum_problems (doc : json) (e : string * list string) : list string :=
  let values := enum_values (fst e) doc in
  omap (fun m => if decide (m ∈ values) then None
                 else Some (fst e +:+ " no longer has the member " +:+ m +:+ " (has: " +:+ join ", " values +:+ ")")) (snd e).

Definition numbered_problems (doc : json) (e : string * list (string * Z)) : list string :=
  let values := enum_values (fst e) doc in
  omap (fun m => let at_ := values !! Z.to_nat (snd m) in
                 if decide (at_ = Some (fst m)) then None
                 else Some (fst e +:+ " has " +:+ default "nothing" at_ +:+ " at " +:+ string_of_Z (snd m)
                            +:+ ", we read that number as " +:+ fst m +:+ " (has: " +:+ join ", " values +:+ ")")) (snd e).

Definition lookout_problems (spec url : string) : list string :=
  omap (fun token => if includes token spec then None
                     else Some ("lookout swagger no longer contains " +:+ quoted token +:+ " (" +:+ url +:+ ")")) LOOKOUT_TOKENS.

(** All that is wrong with the server's description. *)
Definition doc_problems (doc : json) : list string :=
  endpoint_problems doc ++ mbind (definition_problems doc) CONTRACT ++ mbind (enum_problems doc) ENUMS
  ++ mbind (numbered_problems doc) NUMBERED_ENUMS.

(** ** The script *)

Section script.
Context `{Platform} {S : Type}.

Definition fetchSpec (url : string) : M S string :=
  response ← fetch {| method := "GET"; url := url; headers := []; payload_of := None; abort_ms := None |};
  if ok_status response then lift (text_of response)
  else lift (throw ("could not fetch the spec (" +:+ string_of_Z (status response) +:+ "): " +:+ url)).

Definition release (version : string) : string := "https://raw.githubusercontent.com/armadaproject/armada/" +:+ version.
Definition spec_url (version : string) : string := release version +:+ "/pkg/api/api.swagger.json".
Definition lookout_spec_url (version : string) : string := release version +:+ "/internal/lookout/swagger.yaml".

Definition field_count : nat := foldl (fun total d => total + length (snd d))%nat 0%nat CONTRACT.
Definition count (n : nat) : string := string_of_Z (Z.of_nat n).

(** [main]: the exit status of the process. [ARMADA_VERSION] is the
    environment's. *)
Definition main (ARMADA_VERSION : option string) : M S Z :=
  text ← match ARMADA_VERSION with Some v => mret v | None => read_text_file ".armada-version" end;
  let version := trim text in
  let url := spec_url version in
  say console_log ("checking src/armada-types.ts against armada " +:+ version);;
  spec ← fetchSpec url;
  parsed ← lift (parse_json spec);
  if negb (is_object parsed) then lift (throw ("the spec at " +:+ url +:+ " is not a JSON object"))
  else
    lookoutSpec ← fetchSpec (lookout_spec_url version);
    let problems := doc_problems parsed ++ lookout_problems lookoutSpec (lookout_spec_url version) in
    if (0 <? length problems)%nat then
      say console_error (String newline (count (length problems) +:+ " mismatch(es) against armada " +:+ version +:+ ":" +:+ String newline ""));;
      say_all console_error (map (fun p => "  " +:+ p) problems);;
      say console_error (String newline ("Fix src/armada-types.ts and the CONTRACT table in this script together." +:+ String newline ""
                         +:+ "The spec is at " +:+ url +:+ String newline ""));;
      mret 1%Z
    else
      say console_log ("ok: " +:+ count (length ENDPOINTS) +:+ " endpoints, " +:+ count (length CONTRACT) +:+ " definitions, "
                       +:+ count field_count +:+ " fields, " +:+ count (length LOOKOUT_TOKENS) +:+ " lookout tokens");;
      mret 0%Z.
End script.

(** ** What an accepted release is *)

(** The description has everything the tables name, as they name it. *)
Definition agrees (doc : json) (lookoutSpec : string) : Prop :=
  (forall path method, (path, method) ∈ ENDPOINTS ->
     exists paths operations, obj_field "paths" doc = Some paths /\ obj_field path paths = Some operations /\
       is_Some (prop method operations)) /\
  (forall name fields, (name, fields) ∈ CONTRACT -> exists schema, definition name doc = Some schema /\
     forall f t, (f, t) ∈ fields -> exists property, schema_property f schema = Some property /\ actualType property = type_name t) /\
  (forall name members m, (name, members) ∈ ENUMS -> m ∈ members -> m ∈ enum_values name doc) /\
  (forall name number, (name, number) ∈ job_state_table -> enum_values "apiJobState" doc !! Z.to_nat number = Some name) /\
  (forall token, token ∈ LOOKOUT_TOKENS -> includes token lookoutSpec = true).

Lemma omap_nil {A B} (f : A -> option B) l : omap f l = [] <-> Forall (fun x => f x = None) l.
Proof.
  induction l as [|x l IH]; cbn; [by split|]. destruct (f x) eqn:E.
  - split; [done|]. inversion 1; congruence.
  - rewrite IH. split; [by constructor|by inversion 1].
Qed.

Lemma mbind_nil {A B} (f : A -> list B) l : mbind f l = [] <-> Forall (fun x => f x = []) l.
Proof.
  induction l as [|x l IH]; cbn; [by split|]. rewrite app_nil, IH. split; [intros []; by constructor|by inversion 1].
Qed.

Lemma Forall_pairs {A B} (P : A -> B -> Prop) (l : list (A * B)) :
  Forall (fun x => P (fst x) (snd x)) l <-> forall a b, (a, b) ∈ l -> P a b.
Proof.
  rewrite list.Forall_forall. split; [intros Hl a b Hin; exact (Hl (a, b) Hin)|]. intros Hl [a b] Hin. by apply Hl.
Qed.

Lemma definition_problems_nil doc name fields :
  definition_problems doc (name, fields) = [] <->
  exists schema, definition name doc = Some schema /\
    forall f t, (f, t) ∈ fields -> exists property, schema_property f schema = Some property /\ actualType property = type_name t.
Proof.
  unfold definition_problems. cbn [fst snd]. destruct (definition name doc) as [schema|]; [|split; [done|by intros (? & [=] & _)]].
  rewrite omap_nil. rewrite list.Forall_forall. split.
  - intros Hf. exists schema. split; [done|]. intros f t Hin. specialize (Hf (f, t) Hin). unfold field_problem in Hf. cbn [fst snd] in Hf.
    destruct (schema_property f schema) as [property|]; [|done]. exists property. split; [done|]. by case_decide.
  - intros (schema' & [= <-] & Hf) [f t] Hin. destruct (Hf f t Hin) as (property & Hp & Ha). unfold field_problem. cbn [fst snd].
    rewrite Hp. by rewrite decide_True.
Qed.

Lemma endpoint_problems_nil doc :
  endpoint_problems doc = [] <->
  forall path method, (path, method) ∈ ENDPOINTS ->
    exists paths operations, obj_field "paths" doc = Some paths /\ obj_field path paths = Some operations /\ is_Some (prop method operations).
Proof.
  unfold endpoint_problems. rewrite omap_nil, list.Forall_forall. split.
  - intros Hl path method Hin. specialize (Hl (path, method) Hin). cbn [fst snd] in Hl.
    destruct (obj_field "paths" doc) as [p|]; cbn in Hl; [|done]. destruct (obj_field path p) as [o|] eqn:Eo; cbn in Hl; [|done].
    exists p, o. by destruct (prop method o).
  - intros Hl [path method] Hin. destruct (Hl path method Hin) as (p & o & Hp & Ho & [x Hx]). cbn [fst snd].
    rewrite Hp. cbn. rewrite Ho. cbn. by rewrite Hx.
Qed.

Lemma enum_problems_nil doc name members :
  enum_problems doc (name, members) = [] <-> forall m, m ∈ members -> m ∈ enum_values name doc.
Proof.
  unfold enum_problems. cbn [fst snd]. rewrite omap_nil, list.Forall_forall.
  split; intros Hl m Hin; specialize (Hl m Hin); by case_decide.
Qed.

Lemma numbered_problems_nil doc name numbering :
  numbered_problems doc (name, numbering) = [] <->
  forall m n, (m, n) ∈ numbering -> enum_values name doc !! Z.to_nat n = Some m.
Proof.
  unfold numbered_problems. cbn [fst snd]. rewrite omap_nil, list.Forall_forall. split.
  - intros Hl m n Hin. specialize (Hl (m, n) Hin). cbn [fst snd] in Hl. by case_decide.
  - intros Hl [m n] Hin. cbn [fst snd]. by rewrite decide_True by auto.
Qed.

Lemma lookout_problems_nil spec url :
  lookout_problems spec url = [] <-> forall token, token ∈ LOOKOUT_TOKENS -> includes token spec = true.
Proof.
  unfold lookout_problems. rewrite omap_nil, list.Forall_forall.
  split; intros Hl t Hin; specialize (Hl t Hin); by destruct (includes t spec).
Qed.

Lemma no_problems doc lookoutSpec url :
  doc_problems doc ++ lookout_problems lookoutSpec url = [] <-> agrees doc lookoutSpec.
Proof.
  unfold doc_problems, agrees. rewrite !app_nil, !mbind_nil, endpoint_problems_nil, lookout_problems_nil.
  rewrite !list.Forall_forall. split.
  - intros ((He & Hd & Hm & Hn) & Hl). split; [done|]. split; [|split; [|split; [|done]]].
    + intros name fields Hin. by apply definition_problems_nil, Hd.
    + intros name members m Hin. by apply enum_problems_nil, Hm.
    + intros name n Hin. apply (numbered_problems_nil doc "apiJobState" job_state_table); [|done]. apply Hn. by left.
  - intros (He & Hd & Hm & Hn & Hl). split; [|done]. split; [done|]. split; [|split].
    + intros [name fields] Hin. by apply definition_problems_nil, Hd.
    + intros [name members] Hin. apply enum_problems_nil. intros m. by apply Hm.
    + intros [name numbering] [= -> ->]%list_elem_of_singleton. apply numbered_problems_nil. apply Hn.
Qed.

(** ** What the script decides *)

Section decides.
Context `{Platform} {S W : Type} (h : handler W).

Lemma value_say {A} to line (k : M S A) s w :
  value (run h (say to line;; k) s w) = value (run h k s (snd (h (Console to line) w))).
Proof.
  unfold say, mbind, M_bind. cbn [pbind run]. by destruct (h (Console to line) w).
Qed.

Lemma value_say_all {A} to lines (k : M S A) s w :
  exists w', value (run h (say_all to lines;; k) s w) = value (run h k s w').
Proof.
  revert w; induction lines as [|l lines IH]; intros w.
  - exists w. rewrite run_bind. cbn. by destruct (run h k s w).
  - cbn [say_all]. destruct (IH (snd (h (Console to l) w))) as [w' Hw]. exists w'. rewrite <- Hw.
    unfold say, mbind, M_bind. cbn [pbind run]. by destruct (h (Console to l) w) as [[] w1].
Qed.

(** C32 The check decides what it is for: with both descriptions fetched and the
    server's an object, it ends, with status 0 exactly when the release has
    every endpoint, every field with its type, every enum member, every job
    state at its number and every Lookout token that the tables name, and with
    status 1 otherwise. *)
Theorem check_decides version spec lookoutSpec doc (s : S) w :
  (forall (s : S) w, value (run h (fetchSpec (spec_url (trim version))) s w) = Ok spec) ->
  (forall (s : S) w, value (run h (fetchSpec (lookout_spec_url (trim version))) s w) = Ok lookoutSpec) ->
  json_parse spec = Some doc -> is_object doc = true ->
  exists status, value (run h (main (Some version)) s w) = Ok status /\ (status = 0%Z \/ status = 1%Z) /\
    (status = 0%Z <-> agrees doc lookoutSpec).
Proof.
  intros Hs Hl Hd Ho. unfold main. rewrite run_bind. cbn [run mret M_ret value final world]. cbn zeta.
  rewrite value_say. rewrite run_bind. cbn zeta. rewrite Hs. cbn [value].
  rewrite run_bind, run_lift. unfold parse_json. rewrite Hd. cbn [value final world]. rewrite Ho. cbn [negb].
  rewrite run_bind. cbn zeta. rewrite Hl. cbn [value].
  set (problems := doc_problems doc ++ lookout_problems lookoutSpec (lookout_spec_url (trim version))).
  destruct (0 <? length problems)%nat eqn:E.
  - exists 1%Z. split.
    + rewrite value_say. match goal with |- context [say_all ?to ?ls;; ?k] =>
        match goal with |- context [run h _ ?s0 ?w0] => destruct (value_say_all to ls k s0 w0) as [w' ->] end end.
      rewrite value_say. done.
    + split; [by right|]. split; [done|]. intros Ha%(no_problems doc lookoutSpec (lookout_spec_url (trim version))).
      fold problems in Ha. by rewrite Ha in E.
  - exists 0%Z. split; [rewrite value_say; done|]. split; [by left|]. split; [|done]. intros _.
    apply (no_problems _ _ (lookout_spec_url (trim version))). fold problems. by destruct problems.
Qed.
End decides.

(** ** What that means for the requests *)

(** A value as a field of that type is read. *)
Definition of_kind (t : FieldType) (v : json) : bool :=
  match t, v with
  | ft_string, JStr _ | ft_boolean, JBool _ | ft_integer, JNum _ | ft_number, JNum _
  | ft_object, JObj _ | ft_array, JArr _ | ft_ref, _ => true
  | _, _ => false
  end.

(** The arrays whose items have a definition of their own. *)
Definition nested : list (string * string * string) :=
  [ ("apiJobSubmitRequest", "jobRequestItems", "apiJobSubmitRequestItem");
    ("apiJobSubmitRequestItem", "ingress", "apiIngressConfig");
    ("apiJobSubmitRequestItem", "services", "apiServiceConfig") ].

(** The value has only fields the definition has, each of the type it has
    there, and so have the items in it. *)
Inductive described (doc : json) : string -> json -> Prop :=
| described_by name schema v :
    definition name doc = Some schema ->
    (forall k x, prop k v = Some x -> exists property t,
       schema_property k schema = Some property /\ actualType property = type_name t /\ of_kind t x = true) ->
    (forall k inner l, (name, k, inner) ∈ nested -> prop k v = Some (JArr l) -> Forall (described doc inner) l) ->
    described doc name v.

(** A type of the adapter read as a type of the table. *)
Definition reads_as (t : wire) (ft : FieldType) : bool :=
  match t, ft with
  | _, ft_ref => true
  | t_string, ft_string | t_literal _, ft_string | t_number, ft_number | t_number, ft_integer | t_boolean, ft_boolean
  | t_array _, ft_array | t_record _, ft_object | t_object _, ft_object => true
  | _, _ => false
  end.

Lemma reads_as_kind t ft v : reads_as t ft = true -> has_type t v = true -> of_kind ft v = true.
Proof. by destruct t, ft; try done; destruct v. Qed.

(** The interfaces of the requests, and the definitions they stand for. *)
Definition REQUESTS : list (interface * string) :=
  [ (JobSubmitRequest, "apiJobSubmitRequest"); (JobSubmitRequestItem, "apiJobSubmitRequestItem");
    (IngressConfig, "apiIngressConfig"); (ServiceConfig, "apiServiceConfig"); (JobSetRequest, "apiJobSetRequest");
    (JobCancelRequest, "apiJobCancelRequest");
    (JobStatusUsingExternalJobUriRequest, "apiJobStatusUsingExternalJobUriRequest") ].

(** Every field of the interface is in the table, as a type it is read as. *)
Definition in_table (T : interface) (name : string) : bool :=
  match obj_get name CONTRACT with
  | None => false
  | Some fields => forallb (fun f => match obj_get (fst f) fields with Some ft => reads_as (snd (snd f)) ft | None => false end) T
  end.

Lemma requests_in_table : Forall (fun r => in_table (fst r) (snd r) = true) REQUESTS.
Proof. repeat constructor. Qed.

(** A request of its type is described by a release that passes. *)
Lemma typed_described doc lookoutSpec T name v :
  agrees doc lookoutSpec -> (T, name) ∈ REQUESTS -> has_type (t_object T) v = true ->
  (forall k inner l, (name, k, inner) ∈ nested -> prop k v = Some (JArr l) -> Forall (described doc inner) l) ->
  described doc name v.
Proof.
  intros (_ & Hd & _) Hin Hv Hn. pose proof requests_in_table as Ht. rewrite list.Forall_forall in Ht. specialize (Ht _ Hin).
  unfold in_table in Ht. cbn [fst snd] in Ht. destruct (obj_get name CONTRACT) as [fields|] eqn:Ef; [|done].
  destruct (Hd name fields (obj_get_In _ _ _ Ef)) as (schema & Hs & Hf). apply (described_by _ _ schema); [done| |done].
  intros k x Hx. destruct v as [| | | | |o]; try done. cbn [prop] in Hx.
  apply has_type_object in Hv as [Ht1 Ht2]. pose proof (Ht2 k x (obj_get_In _ _ _ Hx)) as Hk.
  apply list_elem_of_fmap in Hk as ([k' [opt t]] & -> & Hk). cbn [fst] in *.
  specialize (Ht1 _ _ _ Hk). rewrite Hx in Ht1.
  rewrite forallb_forall in Ht. specialize (Ht _ (proj1 (list_elem_of_In _ _) Hk)). cbn [fst snd] in Ht.
  destruct (obj_get k' fields) as [ft|] eqn:Eft; [|done]. destruct (Hf k' ft (obj_get_In _ _ _ Eft)) as (property & Hp & Ha).
  exists property, ft. split; [done|]. split; [done|]. by eapply reads_as_kind.
Qed.

(** ** The client sends what its types say *)

Lemma record_typed o : has_type (t_record t_string) (map_json o) = true.
Proof. unfold map_json, json_map. cbn [has_type]. rewrite forallb_forall. intros kv (x & <- & _)%in_map_iff. done. Qed.

Lemma numbers_typed l : has_type (t_array t_number) (JArr (map (fun p => JNum (Int p)) l)) = true.
Proof. cbn [has_type]. rewrite forallb_forall. intros v (x & <- & _)%in_map_iff. done. Qed.

Lemma some_map_typed fields k opt o :
  obj_get k fields = Some (opt, t_record t_string) -> Forall (member_ok fields) (some_map k o).
Proof.
  intros Hk. unfold some_map. case_decide; constructor; [|constructor]. exists opt, (t_record t_string).
  split; [done|apply record_typed].
Qed.

Lemma member_typed {A} fields k (f : A -> json) v opt t :
  obj_get k fields = Some (opt, t) -> (forall a, has_type t (f a) = true) -> Forall (member_ok fields) (member k f v).
Proof. intros Hk Hf. destruct v; constructor; [|constructor]. exists opt, t. split; [done|apply Hf]. Qed.

(** The members of an object, one after another. *)
Ltac typed_members :=
  repeat first [ apply Forall_nil_2 | apply Forall_cons_2 | apply Forall_app_2
               | eapply some_map_typed; reflexivity
               | eapply member_typed; [reflexivity|done] ];
  try (eexists _, _; split; [reflexivity|]; first [apply record_typed | apply numbers_typed | reflexivity | idtac]).
Ltac typed_object :=
  apply object_typed; [apply (bool_decide_unpack _); vm_compute; exact I | typed_members | rewrite ?map_app; cbn [map fst needed]; set_solver].

Lemma ingress_typed tls cert annotations ports :
  has_type (t_object IngressConfig)
    (JObj ([("ports", JArr (map (fun p => JNum (Int p)) ports)); ("tlsEnabled", JBool tls)]
           ++ member "certName" JStr cert ++ [("useClusterIP", JBool true)] ++ some_map "annotations" annotations)) = true.
Proof. typed_object. Qed.

Lemma service_typed ports :
  has_type (t_object ServiceConfig) (JObj [("type", JStr "NodePort"); ("ports", JArr (map (fun p => JNum (Int p)) ports))]) = true.
Proof. typed_object. Qed.

Lemma exposure_typed e ports : Forall (member_ok JobSubmitRequestItem) (exposure_members e ports).
Proof.
  destruct e; (constructor; [|constructor]); (eexists _, _; split; [reflexivity|]; apply has_type_array; eexists; split; [reflexivity|];
    constructor; [|constructor]); [apply service_typed | apply ingress_typed].
Qed.

Lemma item_typed config id spec : has_type (t_object JobSubmitRequestItem) (job_request_item config id spec) = true.
Proof. unfold job_request_item. typed_object. apply exposure_typed. Qed.

Lemma submit_typed config id spec q : has_type (t_object JobSubmitRequest) (submit_request config id spec (Named q)) = true.
Proof.
  unfold submit_request. cbn [queue_json member]. typed_object.
  apply has_type_array. eexists. split; [reflexivity|]. constructor; [apply item_typed|constructor].
Qed.

Lemma watch_typed job q : job_queue job = Named q -> has_type (t_object JobSetRequest) (watch_request job) = true.
Proof. intros Hq. unfold watch_request. rewrite Hq. done. Qed.

Definition cancel_request (job : SubmittedJob) : json :=
  JObj (member "queue" id (queue_json (job_queue job)) ++ [("jobSetId", JStr (jobSetId job)); ("jobId", JStr (jobId job))]).
Definition cancel_set_request (set : string) (q : qname) : json :=
  JObj (member "queue" id (queue_json q) ++ [("jobSetId", JStr set)]).
Definition status_request (sandbox : SandboxId) (q : qname) : json :=
  JObj (member "queue" id (queue_json q) ++ [("jobset", JStr sandbox); ("externalJobUri", JStr sandbox)]).

(** They are what src/armada.ts sends. *)
Lemma bodies_sent `{Platform} {S : Type} config job set q :
  cancel (S := S) config job = (_ ← post config "/v1/job/cancel" (cancel_request job) None; mret tt) /\
  cancelSet (S := S) config set q = (_ ← post config "/v1/job/cancel" (cancel_set_request set q) None; mret tt) /\
  findJob (S := S) config set q =
    (response ← postJson config "/v1/job/statusUsingExternalJobUri" (status_request set q);
     mret ((fun id => {| jobId := id; jobSetId := set; job_queue := q |})
           <$> list.last (to_sorted (live_jobs (job_states response))))).
Proof. done. Qed.

(** The filter of one job set. *)
Definition set_filter (set : SandboxId) : json :=
  JObj [("field", JStr "jobSet"); ("value", JStr set); ("match", JStr "exact")].

(** C33 Every body the client sends is of the type src/armada-types.ts gives it,
    for every configuration, pod and queue name: all fields it must have,
    none it does not know, each of its type down to the items. *)
Theorem client_requests_typed config sandbox spec q id skip take :
  let job := {| jobId := id; jobSetId := sandbox; job_queue := Named q |} in
  has_type (t_object JobSubmitRequest) (submit_request config sandbox spec (Named q)) = true /\
  has_type (t_object JobSetRequest) (watch_request job) = true /\
  has_type (t_object JobCancelRequest) (cancel_request job) = true /\
  has_type (t_object JobCancelRequest) (cancel_set_request sandbox (Named q)) = true /\
  has_type (t_object JobStatusUsingExternalJobUriRequest) (status_request sandbox (Named q)) = true /\
  has_type (t_object LookoutGetJobsRequest) (lookout_request config [set_filter sandbox] "submitted" "DESC" skip take) = true /\
  has_type (t_object LookoutGetJobsRequest) (lookout_request config [active_filter] "submitted" "ASC" skip take) = true.
Proof. cbn zeta. split; [apply submit_typed|]. repeat split. Qed.

(** ** What the client sends to a release that passes *)

(** An interface of a request, or a definition without items of its own. *)
Ltac requested := first [unfold REQUESTS; set_solver | cbn [map nested fst]; set_solver].

Section gateway.
Context `{Platform} {S : Type} (I : S -> Prop) (config : ArmadaConfig) (doc : json) (lookoutSpec : string).
Hypothesis passes : agrees doc lookoutSpec.

Lemma definition_request T name v :
  (T, name) ∈ REQUESTS -> name ∉ map (fun n => fst (fst n)) nested -> has_type (t_object T) v = true -> described doc name v.
Proof.
  intros Hin Hn Hv. eapply typed_described; [exact passes|exact Hin|exact Hv|]. intros k inner l Hk.
  destruct Hn. by apply (list_elem_of_fmap_2 (fun n => fst (fst n))) in Hk.
Qed.

Lemma items_described T name t k opt l v :
  (forall x, has_type (t_object T) x = true -> described doc name x) ->
  has_type (t_object t) v = true -> obj_get k t = Some (opt, t_array (t_object T)) ->
  prop k v = Some (JArr l) -> Forall (described doc name) l.
Proof.
  intros HT Hv Hk Hl. destruct v as [| | | | |o]; try done. apply has_type_object in Hv as [Hv _].
  specialize (Hv _ _ _ (obj_get_In _ _ _ Hk)). cbn [prop] in Hl. rewrite Hl in Hv.
  apply has_type_array in Hv as (l' & [= <-] & Ht). by eapply list.Forall_impl.
Qed.


Lemma ingress_described v : has_type (t_object IngressConfig) v = true -> described doc "apiIngressConfig" v.
Proof. apply definition_request; requested. Qed.

Lemma service_described v : has_type (t_object ServiceConfig) v = true -> described doc "apiServiceConfig" v.
Proof. apply definition_request; requested. Qed.

Lemma item_described v : has_type (t_object JobSubmitRequestItem) v = true -> described doc "apiJobSubmitRequestItem" v.
Proof.
  intros Hv. apply (typed_described doc lookoutSpec JobSubmitRequestItem); [exact passes|requested|exact Hv|]. intros k inner l Hk Hl.
  repeat (apply elem_of_cons in Hk as [Hk|Hk]; [try done|]); [..|by apply not_elem_of_nil in Hk]; injection Hk as -> ->.
  - exact (items_described IngressConfig _ _ "ingress" _ l v ingress_described Hv eq_refl Hl).
  - exact (items_described ServiceConfig _ _ "services" _ l v service_described Hv eq_refl Hl).
Qed.

Lemma submit_described v : has_type (t_object JobSubmitRequest) v = true -> described doc "apiJobSubmitRequest" v.
Proof.
  intros Hv. apply (typed_described doc lookoutSpec JobSubmitRequest); [exact passes|requested|exact Hv|]. intros k inner l Hk Hl.
  repeat (apply elem_of_cons in Hk as [Hk|Hk]; [try done|]); [..|by apply not_elem_of_nil in Hk]; injection Hk as -> ->.
  exact (items_described JobSubmitRequestItem _ _ "jobRequestItems" _ l v item_described Hv eq_refl Hl).
Qed.

(** A path the client posts to, the endpoint it is of, and the definition of
    what goes there. *)
Inductive addressed : string -> string -> string -> Prop :=
| to_submit : addressed "/v1/job/submit" "/v1/job/submit" "apiJobSubmitRequest"
| to_job_set job : addressed (job_set_path job) "/v1/job-set/{queue}/{id}" "apiJobSetRequest"
| to_cancel : addressed "/v1/job/cancel" "/v1/job/cancel" "apiJobCancelRequest"
| to_status : addressed "/v1/job/statusUsingExternalJobUri" "/v1/job/statusUsingExternalJobUri" "apiJobStatusUsingExternalJobUriRequest".

(** The description has the operation. *)
Definition offers (method template : string) : Prop :=
  exists paths operations, obj_field "paths" doc = Some paths /\ obj_field template paths = Some operations /\ is_Some (prop method operations).

(** A call as the release has it: a POST the description has, to the gateway,
    of a body it describes. *)
Definition fits (c : io) : Prop :=
  match c with
  | Fetch r => exists path template name v, addressed path template name /\ offers "post" template /\
      method r = "POST" /\ url r = strip_slash (config_url config) +:+ path /\
      payload_of r = Some (JsonPayload v) /\ described doc name v
  | ReadTextFile _ => True
  | _ => False
  end.

Lemma addressed_offered path template name : addressed path template name -> offers "post" template.
Proof. destruct passes as (He & _). destruct 1; apply He; unfold ENDPOINTS; set_solver. Qed.

Lemma guarded_fits path template name body signal :
  addressed path template name -> described doc name body ->
  guarded I fits (returns (fun _ => True)) (post (S := S) config path body signal).
Proof.
  intros Ha Hd. apply guarded_postTo; [done|]. intros hs. exists path, template, name, body. split; [done|].
  split; [by eapply addressed_offered|]. done.
Qed.

(** [guarded_bind] after a request that fits. *)
Ltac then_fits := eapply guarded_bind; [eapply guarded_fits; [constructor|] | intros ?r _].

Lemma fits_watch job q t : job_queue job = Named q -> guarded I fits (returns (fun _ => True)) (watch (S := S) config job t).
Proof.
  intros Hq. unfold watch. then_fits; [|by destruct (content r)].
  apply (definition_request JobSetRequest); [requested|requested|by eapply watch_typed].
Qed.

Lemma fits_postJson path template name body :
  addressed path template name -> described doc name body ->
  guarded I fits (returns (fun _ => True)) (postJson (S := S) config path body).
Proof.
  intros Ha Hd. unfold postJson, postJsonTo. eapply guarded_bind; [by eapply guarded_fits|]. intros r _.
  eapply (guarded_bind _ _ (fun _ => True)); [by destruct (json_of r)|]. intros v _. by destruct (asObject v _).
Qed.
End gateway.

(** C14 Against a release of Armada whose description passes the check, every
    call to the gateway that submits, follows, cancels or looks for a job, or
    cancels a job set, is a POST the description has, of a body with only
    fields it defines, each of the type it gives them, down to the items of
    the job and their ingress and services; whatever is answered. *)
Theorem requests_fit_release `{Platform} {S : Type} (I : S -> Prop) config doc lookoutSpec job q set spec t port :
  agrees doc lookoutSpec -> job_queue job = Named q ->
  guarded I (fits config doc) (fun _ => True) (submit config set spec (Named q)) /\
  guarded I (fits config doc) (fun _ => True) (waitForRunning config job t) /\
  guarded I (fits config doc) (fun _ => True) (portUrl config job port) /\
  guarded I (fits config doc) (fun _ => True) (cancel config job) /\
  guarded I (fits config doc) (fun _ => True) (cancelSet config set (Named q)) /\
  guarded I (fits config doc) (fun _ => True) (findJob config set (Named q)).
Proof.
  intros Hp Hq. split_and!; (eapply guarded_weaken with (Q := returns (fun _ => True)); [done|done|]).
  - unfold submit. eapply guarded_bind; [|by intros r _; destruct (submitted_job _ _ r)].
    eapply fits_postJson; [exact Hp|constructor|]. apply (submit_described _ _ Hp), submit_typed.
  - unfold waitForRunning. eapply guarded_bind; [by eapply fits_watch|]. intros l _. by destruct (follow _ _ _ _).
  - unfold portUrl, ingressAddress. eapply (guarded_bind _ _ (fun _ => True)); [|by intros].
    eapply guarded_bind; [by eapply fits_watch|]. intros l _. by destruct (follow _ _ _ _).
  - unfold cancel. eapply guarded_bind; [|by intros]. eapply guarded_fits; [exact Hp|constructor|].
    apply (definition_request _ _ Hp JobCancelRequest); [requested|requested|by rewrite Hq].
  - unfold cancelSet. eapply guarded_bind; [|by intros]. eapply guarded_fits; [exact Hp|constructor|].
    apply (definition_request _ _ Hp JobCancelRequest); [requested|requested|done].
  - unfold findJob. eapply guarded_bind; [|by intros]. eapply fits_postJson; [exact Hp|constructor|].
    apply (definition_request _ _ Hp JobStatusUsingExternalJobUriRequest); [requested|requested|done].
Qed.

(** ** What the tables leave out *)

(** The interfaces of the answers, and the definitions they stand for; the
    table has none for the events [JobLifecycleEvent] stands for. *)
Definition ANSWERS : list (interface * string) :=
  [ (JobSubmitResponse, "apiJobSubmitResponse"); (JobSubmitResponseItem, "apiJobSubmitResponseItem");
    (EventStreamMessage, "apiEventStreamMessage"); (EventMessage, "apiEventMessage");
    (JobRunningEvent, "apiJobRunningEvent"); (JobIngressInfoEvent, "apiJobIngressInfoEvent");
    (JobFailedEvent, "apiJobFailedEvent"); (CancellationResult, "apiCancellationResult");
    (JobStatusResponse, "apiJobStatusResponse"); (StreamError, "runtimeStreamError") ].

(** The fields of an interface that the table does not name. *)
Definition unnamed (r : interface * string) : list string :=
  List.filter (fun f => match obj_get (snd r) CONTRACT with
                        | Some fields => match obj_get f fields with Some _ => false | None => true end
                        | None => true
                        end) (map fst (fst r)).

(** Every field of a request is in the table, but not every one of an answer:
    two events lack fields every event has. *)
Lemma unnamed_fields :
  Forall (fun r => unnamed r = []) REQUESTS /\
  omap (fun r => match unnamed r with [] => None | l => Some (snd r, l) end) ANSWERS =
    [("apiJobIngressInfoEvent", ["jobSetId"; "queue"; "created"]); ("apiJobFailedEvent", ["jobSetId"; "queue"; "created"])].
Proof. split; [repeat constructor | reflexivity]. Qed.

(** ** Witnesses *)

#[local] Existing Instance example_platform.

(** A description with what the tables name, and no more. *)
Definition property_of (t : FieldType) : json :=
  match t with ft_ref => JObj [("$ref", JStr "#/definitions/x")] | t => JObj [("type", JStr (type_name t))] end.
Definition minimal_doc : json :=
  JObj [("paths", JObj (map (fun e => (fst e, JObj [(snd e, JObj [])])) ENDPOINTS));
        ("definitions", JObj
          (map (fun d => (fst d, JObj [("properties", JObj (map (fun f => (fst f, property_of (snd f))) (snd d)))])) CONTRACT
           ++ map (fun e => (fst e, JObj [("enum", JArr (map JStr (snd e)))])) ENUMS
           ++ map (fun e => (fst e, JObj [("enum", JArr (map (fun m => JStr (fst m)) (snd e)))])) NUMBERED_ENUMS))].
Definition minimal_lookout : string := join " " LOOKOUT_TOKENS.

Lemma minimal_agrees : agrees minimal_doc minimal_lookout.
Proof. apply (proj1 (no_problems minimal_doc minimal_lookout "")). vm_compute. reflexivity. Qed.

(** A release that describes it, but for one field of the wrong type. *)
Definition moved_doc : json :=
  match minimal_doc with
  | JObj [p; (_, JObj ds)] => JObj [p; ("definitions", JObj (obj_define "apiJobStatusResponse"
      (JObj [("properties", JObj [("jobStates", property_of ft_array)])]) ds))]
  | v => v
  end.
Definition releases (doc : json) : handler unit := answering (fun r =>
  Ok (http_ok (if includes "api.swagger.json" (url r) then json_stringify doc else minimal_lookout))).

Lemma check_decides_witness :
  value (run (releases minimal_doc) (main (Some "v1")) tt tt) = Ok 0%Z /\
  value (run (releases moved_doc) (main (Some "v1")) tt tt) = Ok 1%Z.
Proof.
  split.
  - destruct (check_decides (releases minimal_doc) "v1" (json_stringify minimal_doc) minimal_lookout minimal_doc tt tt)
      as (status & -> & _ & Hs); [intros [] []; vm_compute; reflexivity|intros [] []; vm_compute; reflexivity
                                 |vm_compute; reflexivity|reflexivity|].
    f_equal. apply Hs, minimal_agrees.
  - destruct (check_decides (releases moved_doc) "v1" (json_stringify moved_doc) minimal_lookout moved_doc tt tt)
      as (status & -> & [->| ->] & Hs); [intros [] []; vm_compute; reflexivity|intros [] []; vm_compute; reflexivity
                                 |vm_compute; reflexivity|reflexivity| |done].
    exfalso. pose proof (proj1 Hs eq_refl) as Ha. apply (proj2 (no_problems moved_doc minimal_lookout "")) in Ha.
    vm_compute in Ha. discriminate Ha.
Defined.

Definition bare_pod : V1PodSpec :=
  {| restartPolicy := "Never"; terminationGracePeriodSeconds := 0; activeDeadlineSeconds := Int 60;
     pod_priorityClassName := None; nodeSelector := None; pod_imagePullSecrets := None; pod_securityContext := None;
     volumes := []; initContainers := []; containers := [] |}.

Lemma requests_fit_release_witness :
  guarded (fun _ : unit => True) (fits example_config minimal_doc) (fun _ => True) (cancel example_config example_job).
Proof.
  destruct (requests_fit_release (fun _ : unit => True) example_config minimal_doc minimal_lookout example_job "hub" "s1"
              bare_pod 0 0 minimal_agrees eq_refl) as (_ & _ & _ & Hc & _). exact Hc.
Defined.
