(* ===== verification/Channel.v ===== *)
(** The control channel (src/channel.ts): the agent inside the kernel
    container, as HTTP requests to the address Armada reported for it. *)
From S2P Require Import Prelude JsString Encoding JsNumber Json Io Ndjson Types.

(** ** What a sandbox needs of its pod *)

Record CommandResult := { stdout : string; stderr : string; exitCode : num }.

(** Timeouts are whole milliseconds. *)
Record RunOptions := { stdin : option file_content; timeoutMs : option Z }.

Record ProcessStatus := { running : bool; status_exitCode : option num }.
Record PortWait := { open : bool; exited : bool; wait_exitCode : option num }.
Record AgentFileEntry := { entry_path : string; entry_type : file_type; size : num }.

Inductive ReadFileOutcome :=
| read_ok (bytes : list ascii) | read_not_found | read_failed (message : string).
Inductive ListFilesOutcome :=
| list_ok (entries : list AgentFileEntry) | list_not_a_directory | list_failed (message : string).

(** Whole numbers: the sandbox validates marimohub's budget first. *)
Record ReadBudget := { budget_bytes : Z; budget_ms : Z }.

(** The stream of a command's stdout as it is handed out: the events it will
    be pulled from and how they end, what its failures are called, and when
    its timer fires. *)
Record byte_stream := {
  stream_what : string;
  events : list json;
  events_end : option err;
  timer : option Z
}.

Record AgentEndpoint := { endpoint_url : string; token : string; pod : PodLocation }.

(** [ControlChannel]: operations over a connection [C], in a process whose
    state is [S]. *)
Class ControlChannel (S C : Type) := {
  ready : C -> Z -> M S unit;
  run_command : C -> list string -> RunOptions -> M S CommandResult;
  stream : C -> list string -> option Z -> M S byte_stream;
  (** A [writeFile] of each, all started at once: how each ended, and the
      order in which they settled. *)
  writeAll : C -> list (string * file_content) -> prog S (list (result unit) * list nat);
  readFile : C -> string -> M S ReadFileOutcome;
  readFileBounded : C -> string -> ReadBudget -> M S ReadFileOutcome;
  listFiles : C -> string -> bool -> M S ListFilesOutcome;
  startProcess : C -> list string -> option string -> M S num;
  processStatus : C -> num -> M S ProcessStatus;
  signalProcess : C -> num -> string -> M S unit;
  processLogs : C -> num -> M S string;
  waitForPort : C -> Z -> Z -> option num -> option PortProbe -> M S PortWait
}.

(** ** Constants *)

Definition READY_POLL_MS : Z := 250.
Definition TIMEOUT_SLACK_MS : Z := 10000.
Definition BOUNDED_READ_SLACK_MS : Z := 1000.
Definition MAX_TIMER_MS : Z := 2 ^ 31 - 1.

Definition boundedReadGiveUpMs (timeoutMs : Z) : Z :=
  Z.min (timeoutMs + BOUNDED_READ_SLACK_MS) MAX_TIMER_MS.

(** ** Reading what the agent answers *)

Definition num_field (k : string) (v : json) : option num :=
  match prop k v with Some (JNum n) => Some n | _ => None end.
Definition text_field (k : string) (v : json) : option string := as_string (prop k v).
Definition is_true (k : string) (v : json) : bool :=
  match prop k v with Some (JBool b) => b | _ => false end.

Definition asEvent (value : json) : result json :=
  if is_object value then Ok value
  else throw ("the agent sent something that is not an event: " +:+ json_stringify value).

Record AgentRefusal := { code : option string; refusal_message : string }.

Definition refusalOf (r : response) : result AgentRefusal :=
  text ← text_of r;
  let parsed := default JNull (json_parse text) in
  Ok {| code := text_field "code" parsed;
        refusal_message := "HTTP " +:+ string_of_Z (status r) +:+ ": "
                           +:+ default (trim text) (text_field "error" parsed) |}.

Definition pidOf (value : json) : option num := num_field "pid" value.

Definition statusOf (value : json) : option ProcessStatus :=
  match prop "running" value with
  | Some (JBool b) => Some {| running := b; status_exitCode := num_field "exitCode" value |}
  | _ => None
  end.

Definition portWaitOf (value : json) : option PortWait :=
  match prop "open" value with
  | Some (JBool b) =>
      Some {| open := b; exited := is_true "exited" value; wait_exitCode := num_field "exitCode" value |}
  | _ => None
  end.

Definition file_type_of (s : string) : option file_type :=
  if decide (s = "file") then Some file else if decide (s = "directory") then Some directory
  else if decide (s = "symlink") then Some symlink else if decide (s = "other") then Some other else None.

Definition entryOf (value : json) : option AgentFileEntry :=
  p ← text_field "path" value;
  Some {| entry_path := p;
          entry_type := default other (text_field "type" value ≫= file_type_of);
          size := default (Int 0) (num_field "size" value) |}.

Definition entriesOf (value : json) : option (list AgentFileEntry) :=
  match prop "entries" value with Some (JArr l) => mapM entryOf l | _ => None end.

(** ** The events of a command *)

Record collected := { out : list ascii; err_out : list ascii; exit : option json }.

(** The loop of [run] over the events. *)
Fixpoint collect (acc : collected) (lines : list json) (last : option err) : result collected :=
  match lines with
  | [] => match last with Some e => Err e | None => Ok acc end
  | value :: rest =>
      event ← asEvent value;
      let bytes k := base64_decode (default "" (text_field k event)) in
      match text_field "error" event with
      | Some e => throw e
      | None =>
          collect {| out := out acc ++ bytes "stdout";
                     err_out := err_out acc ++ bytes "stderr";
                     exit := match num_field "exit" event with Some _ => Some event | None => exit acc end |}
            rest last
      end
  end.

(** The whole body, [None] as soon as it runs past [maxBytes]. *)
Fixpoint readAtMost (maxBytes total : Z) (acc : list ascii) (cs : list (list ascii)) (last : option err) : result (option (list ascii)) :=
  match cs with
  | [] => match last with Some e => Err e | None => Ok (Some acc) end
  | value :: cs' =>
      let total := (total + Z.of_nat (length value))%Z in
      if (maxBytes <? total)%Z then Ok None else readAtMost maxBytes total (acc ++ value) cs' last
  end.

(** A command as messages name it: the program, never its arguments. *)
Definition programOf (command : list string) : string := json_quote (default "" (command !! 0%nat)).
Definition runWhat (command : list string) : string := "run " +:+ programOf command.

Definition filePath (endpoint path : string) : string := endpoint +:+ "?path=" +:+ encode_uri_component path.

Definition bodyOf (r : response) : result body :=
  match content r with None => throw "the response had no body" | Some b => Ok b end.

Definition content_bytes (c : file_content) : list ascii :=
  match c with Text s => utf8_encode s | Bytes b => b end.

(** ** [AgentChannel] *)

Section agent.
Context `{Platform} {S : Type} (endpoint : AgentEndpoint).

Definition base : string := endpoint_url endpoint.
Definition where_ : string := podNamespace (pod endpoint) +:+ "/" +:+ podName (pod endpoint).

Definition failure (what : string) (cause : err) : err :=
  error ("The agent in " +:+ where_ +:+ " could not " +:+ what +:+ ": " +:+ message cause).

(** [catch (cause) { throw this.failure(what, cause); }]. *)
Definition failing {A} (what : string) (p : M S A) : M S A :=
  try_catch p (fun cause => lift (Err (failure what cause))).

Definition agent_headers (json : bool) : obj string :=
  ("authorization", "Bearer " +:+ token endpoint)
  :: (if json then [("content-type", "application/json")] else []).

Definition agent_request (meth path : string) (body : option payload) (signal : option Z) : request :=
  {| method := meth; url := base +:+ path;
     headers := agent_headers (match body with Some (JsonPayload _) => true | _ => false end);
     payload_of := body; abort_ms := signal |}.

Definition request_ (what meth path : string) (body : option payload) (signal : option Z) : M S response :=
  failing what (fetch (agent_request meth path body signal)).

(** [if (!response.ok) throw this.failure(what, ...)]. *)
Definition refused (what : string) (r : response) : result unit :=
  if ok_status r then Ok tt
  else refusal ← refusalOf r; Err (failure what (error (refusal_message refusal))).

(** The health polls, at most [polls] of them. *)
Fixpoint poll (polls : nat) (deadline timeoutMs : Z) : M S unit :=
  match polls with
  | O => lift (throw "ready: more polls than the model makes")
  | Datatypes.S polls' =>
      last ← try_catch
        (response ← fetch {| method := "GET"; url := base +:+ "/healthz"; headers := [];
                             payload_of := None; abort_ms := Some (READY_POLL_MS * 4)%Z |};
         mret (if ok_status response then None else Some ("HTTP " +:+ string_of_Z (status response))))
        (fun cause => mret (Some (message cause)));
      match last with
      | None => mret tt
      | Some last =>
          t ← now;
          if (deadline <=? t)%Z
          then lift (throw ("The agent in " +:+ where_ +:+ " at " +:+ base +:+ " did not answer within "
                            +:+ string_of_Z timeoutMs +:+ "ms: " +:+ last))
          else sleep READY_POLL_MS;; poll polls' deadline timeoutMs
      end
  end.

(** As many polls as fit before the deadline when each is followed by a sleep
    of [READY_POLL_MS], and the two at the ends. *)
Definition ready_polls (timeoutMs : Z) : nat := Z.to_nat (timeoutMs / READY_POLL_MS + 2).

Definition agent_ready (timeoutMs : Z) : M S unit :=
  t ← now;
  poll (ready_polls timeoutMs) (t + timeoutMs)%Z timeoutMs.

(** [POST /exec]. *)
Definition exec_request (body : json) (signal : option Z) : request :=
  {| method := "POST"; url := base +:+ "/exec";
     headers := [("content-type", "application/json"); ("authorization", "Bearer " +:+ token endpoint)];
     payload_of := Some (JsonPayload body); abort_ms := signal |}.

Definition exec (body : json) (signal : option Z) : M S response :=
  response ← fetch (exec_request body signal);
  if ok_status response then mret response
  else refusal ← lift (refusalOf response); lift (throw (refusal_message refusal)).

Definition exec_body (command : list string) (stdin : option file_content) (timeoutMs : option Z) : json :=
  JObj ([("cmd", JArr (map JStr command))]
        ++ match stdin with Some c => [("stdin", JStr (base64_encode (content_bytes c)))] | None => [] end
        ++ match timeoutMs with Some t => [("timeoutMs", JNum (Int t))] | None => [] end).

(** What the events of a finished command amount to. *)
Definition command_result (command : list string) (timeoutMs : option Z) (c : collected) : result CommandResult :=
  match exit c with
  | None => Err (failure (runWhat command) (error "the response ended without an exit status"))
  | Some e =>
      if is_true "timedOut" e
      then Err {| kind := CommandTimeoutError;
                  message := "Command timed out after "
                    +:+ (match timeoutMs with Some t => string_of_Z t | None => "undefined" end)
                    +:+ "ms in " +:+ where_ +:+ ": " +:+ programOf command |}
      else Ok {| stdout := buffer_text (out c); stderr := buffer_text (err_out c);
                 exitCode := default NaN (num_field "exit" e) |}
  end.

Definition agent_run (command : list string) (options : RunOptions) : M S CommandResult :=
  c ← failing (runWhat command)
    (response ← exec (exec_body command (stdin options) (timeoutMs options))
                     ((fun t => t + TIMEOUT_SLACK_MS)%Z <$> timeoutMs options);
     b ← lift (bodyOf response);
     let '(lines, last) := readNdjson b in
     lift (collect {| out := []; err_out := []; exit := None |} lines last));
  lift (command_result command (timeoutMs options) c).

(** What [writeFile] makes of its response. *)
Definition write_outcome (path : string) (r : result response) : result unit :=
  match r with
  | Err cause => Err (failure ("write " +:+ path) cause)
  | Ok response => refused ("write " +:+ path) response
  end.

Definition write_request (path : string) (content : file_content) : request :=
  agent_request "PUT" (filePath "/files" path) (Some (RawPayload (content_bytes content))) None.

Definition writeFile (path : string) (content : file_content) : M S unit :=
  pbind (fetch (write_request path content)) (fun r => lift (write_outcome path r)).

Definition agent_writeAll (files : list (string * file_content)) : prog S (list (result unit) * list nat) :=
  Call (FetchAll (map (fun f => write_request (fst f) (snd f)) files))
    (fun a => Done (zip_with (fun f r => write_outcome (fst f) r) files (fst a), snd a)).

(** A refused read: the pod's answer, or a failure to ask. *)
Definition readRefused (what : string) (r : response) : result ReadFileOutcome :=
  refusal ← refusalOf r;
  if decide (code refusal = Some "not_found") then Ok read_not_found
  else if decide (code refusal = Some "read_failed") then Ok (read_failed (refusal_message refusal))
  else Err (failure what (error (refusal_message refusal))).

Definition agent_readFile (path : string) : M S ReadFileOutcome :=
  let what := "read " +:+ path in
  response ← request_ what "GET" (filePath "/files" path) None None;
  if ok_status response then lift (read_ok <$> array_buffer response)
  else lift (readRefused what response).

Definition agent_readFileBounded (path : string) (budget : ReadBudget) : M S ReadFileOutcome :=
  let what := "read " +:+ path in
  response ← request_ what "GET"
    (filePath "/files/bounded" path +:+ "&maxBytes=" +:+ string_of_Z (budget_bytes budget)
     +:+ "&timeoutMs=" +:+ string_of_Z (budget_ms budget))
    None (Some (boundedReadGiveUpMs (budget_ms budget)));
  if negb (ok_status response) then lift (readRefused what response)
  else
    bytes ← failing what
      (b ← lift (bodyOf response); lift (readAtMost (budget_bytes budget) 0 [] (chunks b) (ending b)));
    mret (match bytes with
          | None => read_failed ("the agent sent more than the budget of " +:+ string_of_Z (budget_bytes budget) +:+ " bytes")
          | Some bytes => read_ok bytes
          end).

Definition agent_listFiles (path : string) (recursive : bool) : M S ListFilesOutcome :=
  let what := "list " +:+ path in
  response ← request_ what "GET" (filePath "/files/list" path +:+ (if recursive then "&recursive=true" else "")) None None;
  lift (
    if ok_status response then
      value ← json_of response;
      match entriesOf value with
      | None => Err (failure what (error "the agent sent a listing with no entries"))
      | Some entries => Ok (list_ok entries)
      end
    else
      refusal ← refusalOf response;
      if decide (code refusal = Some "not_a_directory") then Ok list_not_a_directory
      else if decide (code refusal = Some "not_found" \/ code refusal = Some "list_failed")
      then Ok (list_failed (refusal_message refusal))
      else Err (failure what (error (refusal_message refusal)))).

(** A request whose JSON answer must read as an [A]. *)
Definition ask {A} (what meth path : string) (body : option payload) (signal : option Z)
    (read : json -> option A) (missing : string) : M S A :=
  response ← request_ what meth path body signal;
  lift (refused what response;;
        value ← json_of response;
        match read value with Some a => Ok a | None => Err (failure what (error missing)) end).

Definition agent_startProcess (command : list string) (cwd : option string) : M S num :=
  ask ("start " +:+ programOf command) "POST" "/process/start"
    (Some (JsonPayload (JObj ([("cmd", JArr (map JStr command))]
                              ++ match cwd with Some d => [("cwd", JStr d)] | None => [] end))))
    None pidOf "the agent named no pid".

Definition agent_processStatus (pid : num) : M S ProcessStatus :=
  ask ("check process " +:+ num_to_string pid) "GET" ("/process/status?pid=" +:+ num_to_string pid)
    None None statusOf "the agent sent no status".

Definition agent_signalProcess (pid : num) (signal : string) : M S unit :=
  let what := "signal process " +:+ num_to_string pid in
  response ← request_ what "POST" "/process/signal"
    (Some (JsonPayload (JObj [("pid", JNum pid); ("signal", JStr signal)]))) None;
  lift (refused what response).

Definition agent_processLogs (pid : num) : M S string :=
  let what := "read the log of process " +:+ num_to_string pid in
  response ← request_ what "GET" ("/process/logs?pid=" +:+ num_to_string pid) None None;
  lift (refused what response;; text_of response).

Definition mode_name (m : probe_mode) : string := match m with tcp => "tcp" | http => "http" end.

Definition agent_waitForPort (port timeoutMs : Z) (pid : option num) (probe : option PortProbe) : M S PortWait :=
  ask ("wait for port " +:+ string_of_Z port) "POST" "/process/waitport"
    (Some (JsonPayload (JObj ([("port", JNum (Int port)); ("timeoutMs", JNum (Int timeoutMs))]
       ++ match pid with Some p => [("pid", JNum p)] | None => [] end
       ++ match probe ≫= mode with Some m => [("mode", JStr (mode_name m))] | None => [] end
       ++ match probe ≫= path with Some p => [("path", JStr p)] | None => [] end))))
    (Some (timeoutMs + TIMEOUT_SLACK_MS)%Z) portWaitOf "the agent sent no answer for the wait".
Definition agent_stream (command : list string) (timeoutMs : option Z) : M S byte_stream :=
  response ← failing (runWhat command) (exec (JObj [("cmd", JArr (map JStr command))]) None);
  b ← lift (bodyOf response);
  let '(lines, last) := readNdjson b in
  mret {| stream_what := runWhat command; events := lines; events_end := last; timer := timeoutMs |}.
End agent.

#[export] Instance AgentChannel `{Platform} S : ControlChannel S AgentEndpoint := {
  ready := agent_ready;
  run_command := agent_run;
  stream := agent_stream;
  writeAll := agent_writeAll;
  readFile := agent_readFile;
  readFileBounded := agent_readFileBounded;
  listFiles := agent_listFiles;
  startProcess := agent_startProcess;
  processStatus := agent_processStatus;
  signalProcess := agent_signalProcess;
  processLogs := agent_processLogs;
  waitForPort := agent_waitForPort
}.

(** ** The stream, as its consumer drives it *)

Section streaming.
Context (endpoint : AgentEndpoint) (source : byte_stream).

Inductive stream_end := Closed | Errored (e : err).

(** [remaining] events will still be yielded and then [remaining_end]; the
    request may have been aborted; [enqueued] is what the consumer has been
    handed; a stream that ended is not pulled again. *)
Record streaming := {
  remaining : list json;
  remaining_end : option err;
  aborted : bool;
  enqueued : list (list ascii);
  ended : option stream_end
}.

Definition stream_start : streaming :=
  {| remaining := events source; remaining_end := events_end source; aborted := false;
     enqueued := []; ended := None |}.

(** One [pull]: lines without stdout are skipped, up to a chunk or the end. *)
Fixpoint pull_from (abort : bool) (lines : list json) (last : option err) : (list ascii + stream_end) * list json :=
  match lines with
  | [] =>
      (inr (match last with
            | Some cause => if abort then Closed else Errored (failure endpoint (stream_what source) cause)
            | None => Closed
            end), [])
  | value :: rest =>
      match asEvent value with
      | Err e => (inr (Errored e), rest)
      | Ok event =>
          match text_field "error" event with
          | Some e => (inr (Errored (failure endpoint (stream_what source) (error e))), rest)
          | None =>
              match text_field "stdout" event with
              | Some s => (inl (base64_decode s), rest)
              | None => pull_from abort rest last
              end
          end
      end
  end.

Definition pull (s : streaming) : streaming :=
  let '(r, rest) := pull_from (aborted s) (remaining s) (remaining_end s) in
  {| remaining := rest; remaining_end := remaining_end s; aborted := aborted s;
     enqueued := match r with inl chunk => enqueued s ++ [chunk] | inr _ => enqueued s end;
     ended := match r with inl _ => None | inr e => Some e end |}.

(** The timer aborts the request; so does a consumer that cancels, which also
    ends the stream for it. An aborted response stops wherever it was. *)
Inductive stream_step : streaming -> streaming -> Prop :=
| s_pull s : ended s = None -> stream_step s (pull s)
| s_timer s t : timer source = Some t -> ended s = None ->
    stream_step s {| remaining := remaining s; remaining_end := remaining_end s; aborted := true;
                     enqueued := enqueued s; ended := None |}
| s_cancel s : ended s = None ->
    stream_step s {| remaining := remaining s; remaining_end := remaining_end s; aborted := true;
                     enqueued := enqueued s; ended := Some Closed |}
| s_cut s kept lost e : aborted s = true -> remaining s = kept ++ lost ->
    stream_step s {| remaining := kept; remaining_end := Some e; aborted := true;
                     enqueued := enqueued s; ended := ended s |}.

(** The chunks of stdout among events. *)
Definition stdout_chunks (lines : list json) : list (list ascii) :=
  omap (fun v => base64_decode <$> text_field "stdout" v) lines.

(** An event that is not one ends the stream, as one carrying an error does. *)
Definition sound_event (v : json) : Prop := is_object v = true /\ text_field "error" v = None.
End streaming.

(** ** Budgets and deadlines *)

(** The client gives a bounded read up at a delay a timer holds, never
    before the agent's own deadline, and past it by the slack wherever that
    fits. *)
Lemma boundedReadGiveUpMs_bounds t :
  (0 < t <= MAX_TIMER_MS)%Z ->
  (t <= boundedReadGiveUpMs t <= MAX_TIMER_MS)%Z /\
  (t + BOUNDED_READ_SLACK_MS <= MAX_TIMER_MS -> boundedReadGiveUpMs t = t + BOUNDED_READ_SLACK_MS)%Z.
Proof. unfold boundedReadGiveUpMs, BOUNDED_READ_SLACK_MS. lia. Qed.

Lemma readAtMost_from maxBytes total acc cs last :
  (Z.of_nat (length acc) = total -> total <= maxBytes ->
   readAtMost maxBytes total acc cs last =
     if maxBytes <? total + Z.of_nat (length (concat cs)) then Ok None
     else match last with Some e => Err e | None => Ok (Some (acc ++ concat cs)) end)%Z.
Proof.
  revert total acc; induction cs as [|c cs IH]; intros total acc Ht Hle; cbn [readAtMost concat].
  - rewrite app_nil_r. cbn [length]. replace (maxBytes <? _)%Z with false by lia. done.
  - rewrite length_app, Nat2Z.inj_add. cbn zeta.
    destruct (maxBytes <? total + Z.of_nat (length c))%Z eqn:E.
    + by replace (maxBytes <? _)%Z with true by lia.
    + rewrite IH by (rewrite ?length_app; lia). by rewrite Z.add_assoc, app_assoc.
Qed.

Lemma readAtMost_whole maxBytes (b : body) :
  (0 <= maxBytes)%Z ->
  readAtMost maxBytes 0 [] (chunks b) (ending b) =
    if (maxBytes <? Z.of_nat (length (body_bytes b)))%Z then Ok None
    else match ending b with Some e => Err e | None => Ok (Some (body_bytes b)) end.
Proof. intros Hm. by rewrite readAtMost_from. Qed.

Definition bounded_request (endpoint : AgentEndpoint) (path : string) (budget : ReadBudget) (abandon : Z) : request :=
  agent_request endpoint "GET"
    (filePath "/files/bounded" path +:+ "&maxBytes=" +:+ string_of_Z (budget_bytes budget)
     +:+ "&timeoutMs=" +:+ string_of_Z (budget_ms budget)) None (Some abandon).

(** C27  A bounded read is one request, given up at a delay a timer holds and
    no sooner than the agent's own deadline, and hands out the whole body or
    nothing: within the budget the body comes back byte for byte, one that
    breaks off is an error, and one past the budget is refused, however it is
    cut into chunks and even if it would break off later. *)
Theorem readFileBounded_outcome {S W} endpoint (h : handler W) path budget (s : S) w :
  (0 <= budget_bytes budget)%Z -> (0 < budget_ms budget <= MAX_TIMER_MS)%Z ->
  let o := run h (agent_readFileBounded endpoint path budget) s w in
  exists abandon, (budget_ms budget <= abandon <= MAX_TIMER_MS)%Z /\
    trace o = [Fetch (bounded_request endpoint path budget abandon)] /\ final o = s /\
    match fst (h (Fetch (bounded_request endpoint path budget abandon)) w) with
    | Err e => value o = Err (failure endpoint ("read " +:+ path) e)
    | Ok r =>
        if ok_status r then forall b, content r = Some b ->
          if (budget_bytes budget <? Z.of_nat (length (body_bytes b)))%Z then exists why, value o = Ok (read_failed why)
          else match ending b with
               | Some e => value o = Err (failure endpoint ("read " +:+ path) e)
               | None => value o = Ok (read_ok (body_bytes b))
               end
        else value o = readRefused endpoint ("read " +:+ path) r
    end.
Proof.
  intros Hb Ht. cbn zeta. exists (boundedReadGiveUpMs (budget_ms budget)).
  split; [by apply boundedReadGiveUpMs_bounds|]. unfold agent_readFileBounded. cbn zeta.
  unfold request_, failing, try_catch, mbind, M_bind, fetch, lift, mret, M_ret. cbn [run pbind].
  fold (bounded_request endpoint path budget (boundedReadGiveUpMs (budget_ms budget))).
  destruct (h (Fetch _) w) as [[r|e] w']; cbn [fst value final world trace run pbind]; [|done].
  destruct (ok_status r); cbn [negb pbind run]; [|done].
  unfold bodyOf. destruct (content r) as [b|]; cbn [pbind run value final world trace throw]; [|done].
  rewrite readAtMost_whole by done. split; [|split].
  all: destruct (_ <? _)%Z eqn:E; [|destruct (ending b) eqn:E']; cbn [pbind run value final world trace]; try done.
  all: intros b' [= <-]; rewrite E, ?E'; eauto.
Qed.

(** ** Commands *)

(** A chunk of output as the agent sends it. *)
Definition chunk_event (c : bool * list ascii) : json :=
  JObj [((if fst c then "stdout" else "stderr"), JStr (base64_encode (snd c)))].
Definition exit_event (status : num) (timedOut : bool) : json :=
  JObj [("exit", JNum status); ("timedOut", JBool timedOut)].
Definition pid_event (pid : num) : json := JObj [("pid", JNum pid)].

(** What went to one of the two streams. *)
Definition output_of (stdout : bool) (l : list (bool * list ascii)) : list ascii :=
  mbind (fun c => if bool_decide (fst c = stdout) then snd c else []) l.

#[local] Opaque base64_encode base64_decode.

Lemma collect_chunks acc l rest last :
  collect acc (map chunk_event l ++ rest) last =
  collect {| out := out acc ++ output_of true l; err_out := err_out acc ++ output_of false l; exit := exit acc |} rest last.
Proof.
  assert (base64_decode "" = []) as E0 by done.
  revert acc; induction l as [|[b bytes] l IH]; intros acc; simpl; [by rewrite !app_nil_r; destruct acc|].
  destruct b; simpl; unfold text_field, num_field; simpl; rewrite base64_roundtrip, IH; cbn [out err_out exit]; rewrite ?E0, ?app_nil_r, <- ?app_assoc; done.
Qed.

Section commands.
Context `{Platform} {S W : Type} (endpoint : AgentEndpoint) (h : handler W).

(** The response of [/exec], as the program gets it. *)
Definition exec_answer (command : list string) (options : RunOptions) (w : W) : result response :=
  fst (h (Fetch (exec_request endpoint (exec_body command (stdin options) (timeoutMs options))
                  ((fun t => t + TIMEOUT_SLACK_MS)%Z <$> timeoutMs options))) w).

(** What [run] makes of that response. *)
Definition run_answer (command : list string) (options : RunOptions) (r : result response) : result CommandResult :=
  let collected :=
    response ← r;
    if ok_status response then
      b ← bodyOf response;
      collect {| out := []; err_out := []; exit := None |} (fst (readNdjson b)) (snd (readNdjson b))
    else refusal ← refusalOf response; throw (refusal_message refusal) in
  match collected with
  | Ok c => command_result endpoint command (timeoutMs options) c
  | Err cause => Err (failure endpoint (runWhat command) cause)
  end.

Lemma agent_run_answer command options (s : S) w :
  value (run h (agent_run endpoint command options) s w) = run_answer command options (exec_answer command options w).
Proof.
  unfold agent_run, failing, exec, run_answer, exec_answer.
  generalize (exec_request endpoint (exec_body command (stdin options) (timeoutMs options))
                ((fun t => t + TIMEOUT_SLACK_MS)%Z <$> timeoutMs options)). intros req.
  rewrite run_bind, run_try, !run_bind. unfold fetch. cbn [run].
  destruct (h (Fetch req) w) as [[r|e] w']; cbn [fst value final world trace mbind result_bind]; [|done].
  destruct (ok_status r); cbn [run mret M_ret value].
  - unfold bodyOf. destruct (content r) as [b|]; unfold mbind, M_bind; simpl; [|done].
    destruct (readNdjson b) as [lines last]. simpl. by destruct (collect _ lines last).
  - unfold mbind, M_bind; simpl. by destruct (refusalOf r).
Qed.

Lemma run_events command options (s : S) w r b pid l status timedOut :
  exec_answer command options w = Ok r -> ok_status r = true -> content r = Some b ->
  readNdjson b = (pid_event pid :: map chunk_event l ++ [exit_event status timedOut], None) ->
  let o := value (run h (agent_run endpoint command options) s w) in
  if timedOut then exists m, o = Err {| kind := CommandTimeoutError; message := m |}
  else o = Ok {| stdout := buffer_text (output_of true l); stderr := buffer_text (output_of false l); exitCode := status |}.
Proof.
  intros Hr Hok Hb Hl. cbn zeta. rewrite agent_run_answer, Hr. unfold run_answer. cbn [mbind result_bind].
  rewrite Hok. unfold bodyOf. rewrite Hb. cbn [mbind result_bind]. rewrite Hl. cbn [fst snd].
  cbn [collect asEvent pid_event is_object text_field num_field prop obj_get mbind result_bind].
  rewrite collect_chunks. cbn. destruct timedOut; cbn; rewrite ?app_nil_r; [by eexists | done].
Qed.

(** A command's output comes back whole: whatever the agent's chunks hold
    and however the response is cut into chunks, stdout and stderr are their
    concatenations, in order, and the exit status is the one reported; when
    the agent killed the command at its deadline, a [CommandTimeoutError]. *)
Theorem run_output command options (s : S) w r b pid l status timedOut :
  exec_answer command options w = Ok r -> ok_status r = true -> content r = Some b ->
  readNdjson b = (pid_event pid :: map chunk_event l ++ [exit_event status timedOut], None) ->
  let o := value (run h (agent_run endpoint command options) s w) in
  if timedOut then exists m, o = Err {| kind := CommandTimeoutError; message := m |}
  else o = Ok {| stdout := buffer_text (output_of true l); stderr := buffer_text (output_of false l); exitCode := status |}.
Proof. apply run_events. Qed.

(** An error of [run] names the program and never the command's arguments,
    which carry the session's credentials: it is what the response says, under
    a message made of the program's name alone, or a timeout under the same
    name. *)
Theorem run_error_program command options (s : S) w e :
  value (run h (agent_run endpoint command options) s w) = Err e ->
  (exists cause, e = failure endpoint (runWhat [default "" (command !! 0%nat)]) cause) \/
  e = {| kind := CommandTimeoutError;
         message := "Command timed out after "
           +:+ (match timeoutMs options with Some t => string_of_Z t | None => "undefined" end)
           +:+ "ms in " +:+ where_ endpoint +:+ ": " +:+ programOf [default "" (command !! 0%nat)] |}.
Proof.
  rewrite agent_run_answer. unfold run_answer.
  set (c := mbind _ _). clearbody c.
  assert (programOf [default "" (command !! 0%nat)] = programOf command) as Hp by done.
  unfold runWhat. rewrite Hp. destruct c as [c|cause]; [|intros [= <-]; left; by exists cause].
  unfold command_result. destruct (exit c) as [x|]; [|intros [= <-]; left; by eexists].
  destruct (is_true "timedOut" x); [|done]. intros Hx. injection Hx as <-. by right.
Qed.
End commands.

(** ** Waiting for the agent *)

(** A world whose clock never goes back and which a sleep moves on. *)
Record clocked {W} (h : handler W) (clock : W -> Z) : Prop := {
  clock_now w : fst (h Now w) = clock (snd (h Now w));
  clock_forward c w : (clock w <= clock (snd (h c w)))%Z;
  clock_sleep ms w : (clock w + ms <= clock (snd (h (Sleep ms) w)))%Z
}.

Section waiting.
Context `{Platform} {S W : Type} (endpoint : AgentEndpoint) (h : handler W) (clock : W -> Z).
Context (Hclock : clocked h clock).

Definition health_request : request :=
  {| method := "GET"; url := base endpoint +:+ "/healthz"; headers := [];
     payload_of := None; abort_ms := Some (READY_POLL_MS * 4)%Z |}.

Definition no_answer (timeoutMs : Z) (last : string) : err :=
  error ("The agent in " +:+ where_ endpoint +:+ " at " +:+ base endpoint +:+ " did not answer within "
         +:+ string_of_Z timeoutMs +:+ "ms: " +:+ last).

Lemma poll_ends polls deadline timeoutMs (s : S) w :
  (0 < polls)%nat -> (deadline - clock w <= READY_POLL_MS * (Z.of_nat polls - 1))%Z ->
  let o := run h (poll endpoint polls deadline timeoutMs) s w in
  (exists w' r, fst (h (Fetch health_request) w') = Ok r /\ ok_status r = true /\ value o = Ok tt) \/
  (exists last, value o = Err (no_answer timeoutMs last) /\ (deadline <= clock (world o))%Z).
Proof.
  revert w; induction polls as [|polls IH]; intros w Hp Hd; [lia|]. cbn zeta. cbn [poll].
  fold health_request. unfold fetch, now, sleep, try_catch, mbind, M_bind. cbn [pbind run].
  pose proof (clock_forward _ _ Hclock (Fetch health_request) w) as Hf.
  destruct (h (Fetch health_request) w) as [[r|cause] w1] eqn:E; cbn [pbind run mret M_ret snd] in *.
  - destruct (ok_status r) eqn:Er; cbn [pbind run value].
    + left. exists w, r. by rewrite E.
    + pose proof (clock_now _ _ Hclock w1) as Hn. pose proof (clock_forward _ _ Hclock Now w1) as Hf1.
      destruct (h Now w1) as [t w2]; cbn [fst snd pbind run] in *. destruct (deadline <=? t)%Z eqn:Et.
      * right. eexists. split; [done|]. cbn. lia.
      * cbn [pbind run]. pose proof (clock_sleep _ _ Hclock READY_POLL_MS w2) as Hs.
        destruct (h (Sleep READY_POLL_MS) w2) as [u w3]; cbn [fst snd value world] in *.
        unfold READY_POLL_MS in *. apply IH; lia.
  - pose proof (clock_now _ _ Hclock w1) as Hn. pose proof (clock_forward _ _ Hclock Now w1) as Hf1.
    destruct (h Now w1) as [t w2]; cbn [fst snd pbind run] in *. destruct (deadline <=? t)%Z eqn:Et.
    + right. eexists. split; [done|]. cbn. lia.
    + cbn [pbind run]. pose proof (clock_sleep _ _ Hclock READY_POLL_MS w2) as Hs.
      destruct (h (Sleep READY_POLL_MS) w2) as [u w3]; cbn [fst snd value world] in *.
      unfold READY_POLL_MS in *. apply IH; lia.
Qed.

(** C28  Waiting for the agent ends: with a health answer, or with an error
    that carries the last reason, and then not before the time is up. *)
Theorem ready_ends timeoutMs (s : S) w :
  (0 <= timeoutMs)%Z ->
  let o := run h (agent_ready endpoint timeoutMs) s w in
  (exists w' r, fst (h (Fetch health_request) w') = Ok r /\ ok_status r = true /\ value o = Ok tt) \/
  (exists last, value o = Err (no_answer timeoutMs last) /\ (clock w + timeoutMs <= clock (world o))%Z).
Proof.
  intros Ht. cbn zeta. unfold agent_ready, now, mbind, M_bind. cbn [pbind run].
  pose proof (clock_now _ _ Hclock w) as Hn. pose proof (clock_forward _ _ Hclock Now w) as Hf.
  destruct (h Now w) as [t w1]; cbn [fst snd] in *. subst t. cbn [value world].
  assert (0 < ready_polls timeoutMs)%nat by (unfold ready_polls, READY_POLL_MS; dlia).
  destruct (poll_ends (ready_polls timeoutMs) (clock w1 + timeoutMs) timeoutMs s w1) as [Hok|(last & Hv & Hc)].
  - done.
  - unfold ready_polls, READY_POLL_MS. rewrite Z2Nat.id by dlia. dlia.
  - by left.
  - right. exists last. split; [done|]. cbn in Hc. cbn. lia.
Qed.
End waiting.

(** A clock that only sleeps move, and nobody answers. *)
Definition dead_pod : handler Z := fun c t =>
  match c return answer c * Z with
  | Now => (t, t)
  | Sleep ms => (tt, t + Z.max 0 ms)%Z
  | c => (fst (offline c tt), t)
  end.

Definition example_endpoint : AgentEndpoint :=
  {| endpoint_url := "http://10.0.0.1:30123"; token := "secret";
     pod := {| clusterId := "c1"; podName := "pod-1"; podNamespace := "hub"; nodeName := None |} |}.

Lemma ready_ends_witness :
  let o := run dead_pod (agent_ready example_endpoint 1000) tt 0%Z in
  (exists w' r, fst (dead_pod (Fetch (health_request example_endpoint)) w') = Ok r /\ ok_status r = true /\ value o = Ok tt) \/
  (exists last, value o = Err (no_answer example_endpoint 1000 last) /\ (0 + 1000 <= world o)%Z).
Proof.
  apply (ready_ends example_endpoint dead_pod (fun t => t)); [|lia].
  split; [done|intros [] t; simpl; lia|intros ms t; simpl; lia].
Defined.

(** ** What a stream hands out *)

Section stream_invariant.
Context (endpoint : AgentEndpoint) (source : byte_stream).

Lemma sound_event_Ok v : sound_event v -> asEvent v = Ok v /\ text_field "error" v = None.
Proof. intros [Ho He]. unfold asEvent. by rewrite Ho. Qed.

Lemma unsound_event v :
  (exists e, asEvent v = Err e) \/ is_Some (text_field "error" v) -> ~ sound_event v.
Proof. intros H Hs%sound_event_Ok. destruct Hs, H as [[]|[]]; congruence. Qed.

(** A pull consumes sound events without stdout, then one with it, or comes
    to the end. *)
Definition pulled (abort : bool) (lines : list json) (last : option err) (r : list ascii + stream_end) (rest : list json) : Prop :=
  exists done rest', lines = done ++ rest' /\ Forall sound_event done /\
  match r with
  | inl chunk => rest' = rest /\ stdout_chunks done = [chunk]
  | inr Closed => rest' = [] /\ stdout_chunks done = [] /\ (last = None \/ abort = true)
  | inr (Errored e) => stdout_chunks done = [] /\
      ((exists v tail, rest' = v :: tail /\ ~ sound_event v) \/ (rest' = [] /\ abort = false /\ is_Some last))
  end.

Lemma pull_from_pulled abort lines last :
  let '(r, rest) := pull_from endpoint source abort lines last in pulled abort lines last r rest.
Proof.
  induction lines as [|v lines IH]; cbn [pull_from].
  - destruct last as [cause|]; [destruct abort|]; exists [], []; (split; [done|]); (split; [constructor|]); eauto 10.
  - unfold asEvent. destruct (is_object v) eqn:Eo.
    2:{ exists [], (v :: lines). split; [done|]. split; [constructor|]. split; [done|].
        left. exists v, lines. split; [done|]. intros [? _]. congruence. }
    destruct (text_field "error" v) as [e|] eqn:Ee.
    { exists [], (v :: lines). split; [done|]. split; [constructor|]. split; [done|].
      left. exists v, lines. split; [done|]. intros [_ ?]. congruence. }
    assert (sound_event v) as Hv by done.
    destruct (text_field "stdout" v) as [t|] eqn:Et.
    + exists [v], lines. split; [done|]. split; [by repeat constructor|]. split; [done|].
      unfold stdout_chunks. simpl. by rewrite Et.
    + destruct (pull_from endpoint source abort lines last) as [r rest].
      destruct IH as (done & rest' & -> & Hd & Hr). exists (v :: done), rest'.
      split; [done|]. split; [by constructor|].
      assert (stdout_chunks (v :: done) = stdout_chunks done) as -> by (unfold stdout_chunks; simpl; by rewrite Et).
      done.
Qed.

Lemma stdout_chunks_app l l' : stdout_chunks (l ++ l') = stdout_chunks l ++ stdout_chunks l'.
Proof. apply omap_app. Qed.

(** What holds of a stream however it was driven. *)
Definition stream_inv (s : streaming) : Prop :=
  exists done lost, Forall sound_event done /\ enqueued s = stdout_chunks done /\
    (aborted s = false -> lost = [] /\ remaining_end s = events_end source) /\
    match ended s with
    | None => events source = done ++ remaining s ++ lost
    | Some Closed =>
        exists rest, events source = done ++ rest /\
        (aborted s = false -> rest = [] /\ events_end source = None)
    | Some (Errored e) =>
        exists rest, events source = done ++ rest /\
        ((exists v tail, rest = v :: tail /\ ~ sound_event v)
         \/ (aborted s = false /\ rest = [] /\ is_Some (events_end source)))
    end.

Lemma stream_inv_start : stream_inv (stream_start source).
Proof. exists [], []. repeat split; [constructor|]. simpl. by rewrite app_nil_r. Qed.

Lemma stream_inv_pull s : ended s = None -> stream_inv s -> stream_inv (pull endpoint source s).
Proof.
  intros He (done & lost & Hd & Hq & Ha & Hev). rewrite He in Hev. unfold pull.
  pose proof (pull_from_pulled (aborted s) (remaining s) (remaining_end s)) as Hp.
  destruct (pull_from endpoint source (aborted s) (remaining s) (remaining_end s)) as [r rest].
  destruct Hp as (more & rest' & Hr & Hm & Hres).
  exists (done ++ more), lost. cbn [enqueued aborted remaining_end ended remaining].
  split; [by apply list.Forall_app|]. rewrite stdout_chunks_app, Hq.
  destruct r as [chunk|[|e]].
  - destruct Hres as [-> ->]. split; [done|]. split; [done|]. by rewrite Hev, Hr, <- !app_assoc.
  - destruct Hres as (-> & -> & Hl). rewrite app_nil_r in *. subst more. split; [done|]. split; [done|].
    exists lost. split; [by rewrite Hev, <- app_assoc|]. intros Hf. destruct (Ha Hf) as [-> Hend].
    split; [done|]. destruct Hl; congruence.
  - destruct Hres as (-> & Hl). rewrite app_nil_r. split; [done|]. split; [done|].
    exists (rest' ++ lost). split; [by rewrite Hev, Hr, <- !app_assoc|].
    destruct Hl as [(v & tail & -> & Hv)|(-> & Hf & Hs)].
    + left. by exists v, (tail ++ lost).
    + right. destruct (Ha Hf) as [-> Hend]. by rewrite <- Hend.
Qed.

Lemma stream_inv_step s s' : stream_step endpoint source s s' -> stream_inv s -> stream_inv s'.
Proof.
  destruct 1 as [s He|s t Ht He|s He|s kept lost' e Hab Hr].
  - by apply stream_inv_pull.
  - intros (done & lost & Hd & Hq & _ & Hev). rewrite He in Hev. by exists done, lost.
  - intros (done & lost & Hd & Hq & _ & Hev). rewrite He in Hev. exists done, lost. repeat split; try done.
    by exists (remaining s ++ lost).
  - intros (done & lost & Hd & Hq & _ & Hev). exists done, (lost' ++ lost). repeat split; try done.
    cbn [ended remaining aborted]. destruct (ended s) as [[|e']|].
    + destruct Hev as (rest & Hev & _). by exists rest.
    + destruct Hev as (rest & Hev & [Hl|[Hf _]]); [exists rest; by split; [|left] | congruence].
    + by rewrite Hev, Hr, <- !app_assoc.
Qed.

(** C22  However a stream is pulled, timed out, cancelled or cut, its consumer
    is handed the command's stdout and nothing else, in order, from the start;
    a stream that closes without having been aborted handed out all of it; and
    a stream that was aborted is truncated, and fails only when it comes, with
    all the stdout before it handed out, to an event that reports an error or
    is none. *)
Theorem stream_hands_out s :
  rtc (stream_step endpoint source) (stream_start source) s ->
  (exists done rest, events source = done ++ rest /\ Forall sound_event done /\ enqueued s = stdout_chunks done) /\
  (ended s = Some Closed -> aborted s = false ->
     events_end source = None /\ enqueued s = stdout_chunks (events source)) /\
  (aborted s = true -> forall e, ended s = Some (Errored e) ->
     exists done v rest, events source = done ++ v :: rest /\ Forall sound_event done /\ ~ sound_event v /\
       enqueued s = stdout_chunks done).
Proof.
  intros Hs. assert (stream_inv s) as (done & lost & Hd & Hq & Ha & Hev).
  { revert Hs. generalize stream_inv_start. generalize (stream_start source). intros s0 H0 Hs.
    induction Hs as [|x y z Hxy _ IH]; [done|]. apply IH. by eapply stream_inv_step. }
  split; [|split].
  - destruct (ended s) as [[|e]|].
    + destruct Hev as (rest & Hev & _). by exists done, rest.
    + destruct Hev as (rest & Hev & _). by exists done, rest.
    + by exists done, (remaining s ++ lost).
  - intros He Hf. rewrite He in Hev. destruct Hev as (rest & Hev & Hr). destruct (Hr Hf) as [-> ?].
    by rewrite Hev, app_nil_r.
  - intros Hab e He. rewrite He in Hev. destruct Hev as (rest & Hev & [(v & tail & -> & Hv)|[Hf _]]); [|congruence].
    by exists done, v, tail.
Qed.
End stream_invariant.

Definition example_source : byte_stream :=
  {| stream_what := "run"; events := [pid_event (Int 1); chunk_event (true, ["a"%char])]; events_end := None; timer := None |}.

Lemma stream_hands_out_witness :
  let s := pull example_endpoint example_source (pull example_endpoint example_source (stream_start example_source)) in
  ended s = Some Closed /\ enqueued s = stdout_chunks (events example_source).
Proof.
  cbn zeta. split; [vm_compute; reflexivity|].
  apply (stream_hands_out example_endpoint example_source); [|vm_compute; reflexivity|vm_compute; reflexivity].
  eapply rtc_l; [apply s_pull; reflexivity|]. eapply rtc_l; [apply s_pull; vm_compute; reflexivity|]. apply rtc_refl.
Defined.

(** ** What the channel may send *)

(** A channel that never starts a job: what a sandbox that only attaches
    relies on, whatever the channel is. *)
Class QuietChannel (S C : Type) `{ControlChannel S C} := {
  quiet_ready I c t : guarded I starts_nothing (returns (fun _ => True)) (ready c t);
  quiet_run I c cmd o : guarded I starts_nothing (returns (fun _ => True)) (run_command c cmd o);
  quiet_stream I c cmd t : guarded I starts_nothing (returns (fun _ => True)) (stream c cmd t);
  quiet_writeAll I c files : guarded I starts_nothing (fun _ => True) (writeAll c files);
  quiet_readFile I c p : guarded I starts_nothing (returns (fun _ => True)) (readFile c p);
  quiet_readFileBounded I c p b : guarded I starts_nothing (returns (fun _ => True)) (readFileBounded c p b);
  quiet_listFiles I c p r : guarded I starts_nothing (returns (fun _ => True)) (listFiles c p r);
  quiet_startProcess I c cmd d : guarded I starts_nothing (returns (fun _ => True)) (startProcess c cmd d);
  quiet_processStatus I c p : guarded I starts_nothing (returns (fun _ => True)) (processStatus c p);
  quiet_signalProcess I c p sg : guarded I starts_nothing (returns (fun _ => True)) (signalProcess c p sg);
  quiet_processLogs I c p : guarded I starts_nothing (returns (fun _ => True)) (processLogs c p);
  quiet_waitForPort I c p t pid probe : guarded I starts_nothing (returns (fun _ => True)) (waitForPort c p t pid probe)
}.

Section quiet.
Context `{Platform} {S : Type} (I : S -> Prop) (endpoint : AgentEndpoint).

Lemma guarded_failing {A} what (p : M S A) :
  guarded I starts_nothing (returns (fun _ => True)) p ->
  guarded I starts_nothing (returns (fun _ => True)) (failing endpoint what p).
Proof. intros Hp. by apply guarded_try. Qed.

Lemma guarded_lift_any {A} (r : result A) : guarded I starts_nothing (returns (fun _ => True)) (@lift S A r).
Proof. by destruct r. Qed.

Lemma guarded_request_ what meth path body signal :
  submits_job (agent_request endpoint meth path body signal) = false ->
  guarded I starts_nothing (returns (fun _ => True)) (request_ endpoint what meth path body signal).
Proof. intros Hb. apply guarded_failing. by apply guarded_fetch. Qed.

Lemma guarded_ask {A} what meth path body signal (read : json -> option A) missing :
  submits_job (agent_request endpoint meth path body signal) = false ->
  guarded I starts_nothing (returns (fun _ => True)) (ask endpoint what meth path body signal read missing).
Proof.
  intros Hb. unfold ask. eapply guarded_bind; [by apply guarded_request_|]. intros r _. apply guarded_lift_any.
Qed.

Lemma guarded_exec body signal :
  prop "jobRequestItems" body = None ->
  guarded I starts_nothing (returns (fun _ => True)) (exec endpoint body signal).
Proof.
  intros Hb. unfold exec. eapply guarded_bind.
  - apply guarded_fetch. unfold starts_nothing, submits, submits_job. simpl. by rewrite Hb.
  - intros r _. destruct (ok_status r); [done|]. eapply guarded_bind; [apply guarded_lift_any|]. by intros.
Qed.

Lemma guarded_poll polls deadline t : guarded I starts_nothing (returns (fun _ => True)) (poll endpoint polls deadline t).
Proof.
  induction polls as [|polls IH]; [done|]. cbn [poll].
  eapply (guarded_bind _ _ (fun _ => True)).
  - apply guarded_try; [|done]. eapply (guarded_bind _ _ (fun _ => True)); [by apply guarded_fetch | by intros].
  - intros [last|] _; [|done]. eapply (guarded_bind _ _ (fun _ => True)); [done|]. intros t' _.
    case_match; [done|]. eapply (guarded_bind _ _ (fun _ => True)); [done | by intros].
Qed.
End quiet.

#[export] Hint Resolve guarded_lift_any guarded_failing guarded_poll : hub.

#[export] Instance AgentChannel_quiet `{Platform} S : QuietChannel S AgentEndpoint.
Proof.
  constructor; intros I c *; cbn [ready run_command stream writeAll readFile readFileBounded listFiles
    startProcess processStatus signalProcess processLogs waitForPort AgentChannel].
  - eapply (guarded_bind _ _ (fun _ => True)); [done|]. auto with hub.
  - eapply (guarded_bind _ _ (fun _ => True)); [|auto with hub]. apply guarded_failing.
    eapply guarded_bind; [apply guarded_exec; by destruct (stdin o), (timeoutMs o)|]. intros r _.
    eapply guarded_bind; [auto with hub|]. intros b _. destruct (readNdjson b). auto with hub.
  - eapply (guarded_bind _ _ (fun _ => True)); [apply guarded_failing, guarded_exec; done|]. intros r _.
    eapply guarded_bind; [auto with hub|]. intros b _. by destruct (readNdjson b).
  - unfold agent_writeAll. cbn [guarded]. split; [|done].
    unfold starts_nothing, submits. induction files as [|f files IH]; [done | exact IH].
  - eapply guarded_bind; [by apply guarded_request_|]. intros r _. destruct (ok_status r); auto with hub.
  - eapply guarded_bind; [by apply guarded_request_|]. intros r _. destruct (negb (ok_status r)); [auto with hub|].
    eapply (guarded_bind _ _ (fun _ => True)); [|by intros]. apply guarded_failing.
    eapply guarded_bind; auto with hub.
  - eapply guarded_bind; [by apply guarded_request_|]. auto with hub.
  - by apply guarded_ask; destruct d.
  - by apply guarded_ask.
  - eapply guarded_bind; [by apply guarded_request_|]. auto with hub.
  - eapply guarded_bind; [by apply guarded_request_|]. auto with hub.
  - apply guarded_ask. by destruct pid, (probe ≫= mode), (probe ≫= path).
Qed.

(** ** Witnesses *)

Definition exec_world : handler unit := answering (fun _ => Ok (http_ok
  (join (String newline "") (map q ["{'pid':7}"; "{'stdout':'aGk='}"; "{'stderr':'IQ=='}"; "{'exit':3,'timedOut':false}"])))).

Lemma readFileBounded_outcome_witness :
  let o b := run (answering (fun _ => Ok (http_ok "hello"))) (agent_readFileBounded example_endpoint "/f" {| budget_bytes := b; budget_ms := 1000 |}) tt tt in
  value (o 5%Z) = Ok (read_ok (utf8_encode "hello")) /\ exists why, value (o 4%Z) = Ok (read_failed why).
Proof.
  cbn zeta. split.
  - destruct (readFileBounded_outcome example_endpoint (answering (fun _ => Ok (http_ok "hello"))) "/f"
                {| budget_bytes := 5; budget_ms := 1000 |} tt tt) as (t & _ & _ & _ & Hv);
      [done | split; [reflexivity | vm_compute; discriminate]|]. exact (Hv _ eq_refl).
  - destruct (readFileBounded_outcome example_endpoint (answering (fun _ => Ok (http_ok "hello"))) "/f"
                {| budget_bytes := 4; budget_ms := 1000 |} tt tt) as (t & _ & _ & _ & Hv);
      [done | split; [reflexivity | vm_compute; discriminate]|]. exact (Hv _ eq_refl).
Defined.

Lemma run_output_witness :
  value (run exec_world (agent_run (H := example_platform) example_endpoint ["sh"; "-c"; "x"] {| stdin := None; timeoutMs := None |}) tt tt)
  = Ok {| stdout := "hi"; stderr := "!"; exitCode := Int 3 |}.
Proof.
  refine (run_output (H := example_platform) example_endpoint exec_world ["sh"; "-c"; "x"] {| stdin := None; timeoutMs := None |}
            tt tt _ _ (Int 7) [(true, utf8_encode "hi"); (false, utf8_encode "!")] (Int 3) false eq_refl eq_refl eq_refl _).
  vm_compute. reflexivity.
Defined.

Lemma run_error_program_witness :
  (exists cause, error (q "The agent in hub/pod-1 could not run 'sh': fetch failed")
     = failure example_endpoint (runWhat [default "" (["sh"; "-c"; "export K='v'"] !! 0%nat)]) cause) \/
  error (q "The agent in hub/pod-1 could not run 'sh': fetch failed")
  = {| kind := CommandTimeoutError;
       message := "Command timed out after undefinedms in " +:+ where_ example_endpoint +:+ ": "
                  +:+ programOf [default "" (["sh"; "-c"; "export K='v'"] !! 0%nat)] |}.
Proof.
  apply (run_error_program (H := example_platform) example_endpoint offline ["sh"; "-c"; "export K='v'"]
           {| stdin := None; timeoutMs := None |} tt tt).
  vm_compute. reflexivity.
Defined.
