(* ===== verification/Sandbox.v ===== *)
(** One kernel session, backed by one Armada job (src/sandbox.ts): the sandbox
    objects of a process, what they share, and every operation on them. *)
From S2P Require Import Prelude JsString Encoding Sha256 JsNumber Json Io Shell Ndjson Types Auth Config PodSpec Queues Armada Channel.

(** ** Pure helpers *)

Definition decodeUtf8 (bytes : list ascii) : option string := decode_fatal bytes.

(** A control character: [[\u0000-\u001f\u007f]]. *)
Definition control (c : ascii) : bool := (N.ltb (JsString.code c) 32 || N.eqb (JsString.code c) 127)%bool.
Definition oneLine (text : string) : string :=
  map_chars (fun c => if control c then json_escape c else String c "") text.

Definition isValidBudget (o : BoundedReadOptions) : bool :=
  (is_safe_integer (maxBytes o) && num_le (Int 0) (maxBytes o)
   && is_safe_integer (num_mul 4 (ceil (num_div (maxBytes o) 3)))
   && is_finite (budget_timeoutMs o) && num_lt (Int 0) (budget_timeoutMs o)
   && num_le (budget_timeoutMs o) (Int (2 ^ 31 - 1)))%bool.

Definition agentToken (secret : string) (id : SandboxId) : string :=
  hex (hmac_sha256 (utf8_encode secret) (utf8_encode id)).

Definition WRITE_CONCURRENCY : nat := 8.
Definition AGENT_READY_TIMEOUT_MS : Z := 30000.
Definition PORT_READY_TIMEOUT_MS : Z := 0.

Definition toExecResult (r : CommandResult) : ExecResult :=
  if decide (exitCode r = Int 0) then ExecSuccess (stdout r) (stderr r)
  else ExecFailure (stdout r) (stderr r) COMMAND_FAILED.

Definition base_name (path : string) : string :=
  match last_index_of "/" path with Some n => str_drop (S n) path | None => path end.

(** [s.replace(/^\//, '')]. *)
Definition drop_slash (s : string) : string :=
  match s with String c s' => if decide (c = "/"%char) then s' else s | "" => "" end.

Definition toFileInfo (rootPath : string) (options : option ListFilesOptions) (entry : AgentFileEntry) : option FileInfo :=
  let name := base_name (entry_path entry) in
  if (negb (bool_decide ((options ≫= includeHidden) = Some true)) && starts_with "." name)%bool then None
  else Some {| name := name;
               absolutePath := entry_path entry;
               relativePath := if starts_with rootPath (entry_path entry)
                               then drop_slash (str_drop (String.length rootPath) (entry_path entry))
                               else entry_path entry;
               info_type := entry_type entry;
               info_size := size entry |}.

Definition toFileInfos (entries : list AgentFileEntry) (rootPath : string) (options : option ListFilesOptions) : list FileInfo :=
  omap (toFileInfo rootPath options) entries.

Definition probeOf (m : option probe_mode) (p : option string) : option PortProbe :=
  match m, p with None, None => None | _, _ => Some {| mode := m; path := p |} end.

(** ** State *)

(** Where a sandbox this process has reached lives. The pod is the one the
    instance that reached it held at that moment. *)
Record placement (C : Type) := { p_job : SubmittedJob; p_pod : option PodLocation; p_channel : C }.
Arguments p_job {C} _.
Arguments p_pod {C} _.
Arguments p_channel {C} _.

(** An [ArmadaSandbox] object: what it was constructed with, then its fields. *)
Record sandbox (C : Type) := {
  sid : SandboxId;
  options : option CreateSandboxOptions;
  attachOnly : bool;
  job : option SubmittedJob;
  sandbox_pod : option PodLocation;
  channel : option C;
  env : obj string;
  envDefaults : obj string
}.
Arguments sid {C} _.
Arguments options {C} _.
Arguments attachOnly {C} _.
Arguments job {C} _.
Arguments sandbox_pod {C} _.
Arguments channel {C} _.
Arguments env {C} _.
Arguments envDefaults {C} _.

Definition construct {C} (id : SandboxId) (o : option CreateSandboxOptions) (attach : bool) : sandbox C :=
  {| sid := id; options := o; attachOnly := attach; job := None; sandbox_pod := None; channel := None;
     env := []; envDefaults := [] |}.

(** The process: its sandbox objects, the two maps the provider shares
    between them, and what a callback that opens a channel keeps of it outside
    the sandbox (the variable [agent] of dev/smoke.ts; the provider's callback
    keeps nothing). *)
Record process (C : Type) := {
  objects : gmap nat (sandbox C);
  placements : gmap SandboxId (placement C);
  seen_queues : gmap SandboxId qname;
  kept : option C
}.
Arguments objects {C} _.
Arguments placements {C} _.
Arguments seen_queues {C} _.
Arguments kept {C} _.

#[export] Instance process_directory C : Directory (process C) := {
  remembered := seen_queues;
  update_remembered f s := {| objects := objects s; placements := placements s; seen_queues := f (seen_queues s); kept := kept s |};
  remembered_update _ _ := eq_refl
}.

Section fields.
Context {C : Type}.

Definition set_job (j : option SubmittedJob) (o : sandbox C) : sandbox C :=
  {| sid := sid o; options := options o; attachOnly := attachOnly o; job := j; sandbox_pod := sandbox_pod o;
     channel := channel o; env := env o; envDefaults := envDefaults o |}.
Definition set_pod (p : option PodLocation) (o : sandbox C) : sandbox C :=
  {| sid := sid o; options := options o; attachOnly := attachOnly o; job := job o; sandbox_pod := p;
     channel := channel o; env := env o; envDefaults := envDefaults o |}.
Definition set_channel (c : option C) (o : sandbox C) : sandbox C :=
  {| sid := sid o; options := options o; attachOnly := attachOnly o; job := job o; sandbox_pod := sandbox_pod o;
     channel := c; env := env o; envDefaults := envDefaults o |}.
Definition set_env (e d : obj string) (o : sandbox C) : sandbox C :=
  {| sid := sid o; options := options o; attachOnly := attachOnly o; job := job o; sandbox_pod := sandbox_pod o;
     channel := channel o; env := e; envDefaults := d |}.

Definition on_objects (f : gmap nat (sandbox C) -> gmap nat (sandbox C)) (s : process C) : process C :=
  {| objects := f (objects s); placements := placements s; seen_queues := seen_queues s; kept := kept s |}.
Definition on_placements (f : gmap SandboxId (placement C) -> gmap SandboxId (placement C)) (s : process C) : process C :=
  {| objects := objects s; placements := f (placements s); seen_queues := seen_queues s; kept := kept s |}.
Definition on_kept (f : option C -> option C) (s : process C) : process C :=
  {| objects := objects s; placements := placements s; seen_queues := seen_queues s; kept := f (kept s) |}.

(** A callback that only opens the channel. *)
Definition plain (open : AgentEndpoint -> C) (endpoint : AgentEndpoint) : M (process C) C := mret (open endpoint).
End fields.

(** A read of an object that is not there: nothing the language allows. *)
Definition no_object : err := error "no such object".

(** A property read of [undefined]. *)
Definition undefined_read (what : string) : err := error ("Cannot read properties of undefined (reading '" +:+ what +:+ "')").

(** ** Operations *)

Section operations.
Context `{Platform} {C : Type} `{ControlChannel (process C) C}.
Context (config : ArmadaConfig) (openChannel : AgentEndpoint -> M (process C) C).

(** [this.field], and an assignment to one. *)
Definition self {A} (this : nat) (f : sandbox C -> A) : M (process C) A :=
  o ← gets (fun s => objects s !! this);
  match o with Some o => mret (f o) | None => lift (Err no_object) end.

Definition assign (this : nat) (f : sandbox C -> sandbox C) : M (process C) unit :=
  modify (on_objects (alter f this)).

(** A field that must be set where it is used. *)
Definition defined {A} (what : string) (v : option A) : M (process C) A :=
  match v with Some a => mret a | None => lift (Err (undefined_read what)) end.

Definition queue_of (this : nat) : M (process C) qname :=
  j ← self this job;
  match j with
  | Some j => mret (job_queue j)
  | None =>
      id ← self this sid;
      o ← self this options;
      resolve config (Some (findQueue config)) id (o ≫= opt_owner)
  end.

Definition token_of (id : SandboxId) : string := agentToken (agentTokenSecret config) id.

(** [submit]: the podspec is built before the queue is asked for. *)
Definition submit_job (this : nat) : M (process C) SubmittedJob :=
  id ← self this sid;
  o ← self this options;
  let tokenSha256 := hex (sha256 (utf8_encode (token_of id))) in
  podSpec ← lift (buildPodSpec config {| tokenSha256 := tokenSha256 |} o);
  q ← queue_of this;
  submit config id podSpec q.

Definition existingJob (this : nat) : M (process C) SubmittedJob :=
  id ← self this sid;
  q ← queue_of this;
  found ← findJob config id q;
  match found with
  | Some j => mret j
  | None =>
      lift (throw ("Sandbox " +:+ id +:+ " has no unfinished job in queue " +:+ String dquote "" +:+ queue_text q
                   +:+ String dquote "" +:+ " to attach to, and attaching never submits one"))
  end.

(** The placement another instance left, after one look at its agent. *)
Definition adopt (this : nat) : M (process C) bool :=
  id ← self this sid;
  known ← gets (fun s => placements s !! id);
  match known with
  | None => mret false
  | Some known =>
      try_catch
        (ready (p_channel known) 0;;
         assign this (set_job (Some (p_job known)));;
         assign this (set_pod (p_pod known));;
         assign this (set_channel (Some (p_channel known)));;
         mret true)
        (fun _ => modify (on_placements (delete id));; mret false)
  end.

(** [this.job ??= ...]. *)
Definition ensure_job (this : nat) : M (process C) unit :=
  j ← self this job;
  match j with
  | Some _ => mret tt
  | None =>
      attach ← self this attachOnly;
      j ← (if (attach : bool) then existingJob this else submit_job this);
      assign this (set_job (Some j))
  end.

(** From the job to the agent's channel. *)
Definition reach (this : nat) : M (process C) unit :=
  id ← self this sid;
  j ← self this job ≫= defined "queue";
  pod ← waitForRunning config j DEFAULT_RUNNING_TIMEOUT_MS;
  assign this (set_pod (Some pod));;
  j ← self this job ≫= defined "queue";
  url ← portUrl config j (agentPort config);
  pod ← self this sandbox_pod ≫= defined "podNamespace";
  channel ← openChannel {| endpoint_url := url; token := token_of id; pod := pod |};
  ready channel AGENT_READY_TIMEOUT_MS;;
  assign this (set_channel (Some channel));;
  j ← self this job ≫= defined "queue";
  pod ← self this sandbox_pod;
  modify (on_placements <[id := {| p_job := j; p_pod := pod; p_channel := channel |}]>).

Definition ready_sandbox (this : nat) : M (process C) unit :=
  c ← self this channel;
  match c with
  | Some _ => mret tt
  | None =>
      adopted ← adopt this;
      if (adopted : bool) then mret tt
      else ensure_job this;; reach this
  end.

Definition open_channel (this : nat) : M (process C) C :=
  c ← self this channel;
  (match c with None => ready_sandbox this | Some _ => mret tt end);;
  c ← self this channel;
  id ← self this sid;
  match c with
  | Some c => mret c
  | None => lift (throw ("Sandbox " +:+ id +:+ " has no agent after ready()"))
  end.

Definition isPortReady (this : nat) (port : Z) (m : option probe_mode) (p : option string) : M (process C) bool :=
  c ← self this channel;
  id ← self this sid;
  known ← gets (fun s => placements s !! id);
  match (match c with Some c => Some c | None => p_channel <$> known end) with
  | None => mret false
  | Some c =>
      try_catch
        (wait ← waitForPort c port PORT_READY_TIMEOUT_MS None (probeOf (Some (default http m)) p);
         mret (open wait))
        (fun _ => mret false)
  end.

(** The deadline sent with a command: the caller's, else the backstop. *)
Definition backstopMs (timeout : option Z) : option Z :=
  match timeout with
  | None => if (0 <? commandMaxSeconds config)%Z then Some (commandMaxSeconds config * 1000)%Z else None
  | Some _ => None
  end.

Definition command_deadline (timeout : option Z) : option Z :=
  match timeout with Some t => Some t | None => backstopMs timeout end.

(** What a failed [exec] puts in stderr. *)
Definition exec_reason (cmd : string) (timeout : option Z) (e : err) : string :=
  if (bool_decide (kind e = CommandTimeoutError) && negb (bool_decide (backstopMs timeout = None)))%bool
  then "Command ran past ARMADA_COMMAND_MAX_SECONDS (" +:+ string_of_Z (commandMaxSeconds config) +:+ "s) and was killed: " +:+ cmd
  else message e.

Definition login_shell (command : string) : list string := ["sh"; "-lc"; command].

Definition exec_sandbox (this : nat) (cmd : string) (timeout : option Z) : M (process C) ExecResult :=
  e ← self this env;
  d ← self this envDefaults;
  command ← lift (withEnvPrefix cmd e d);
  try_catch
    (c ← open_channel this;
     r ← run_command c (login_shell command) {| stdin := None; timeoutMs := command_deadline timeout |};
     mret (toExecResult r))
    (fun error => mret (ExecFailure "" (exec_reason cmd timeout error) BACKEND_ERROR)).

Definition execStream (this : nat) (cmd : string) (timeout : option Z) : M (process C) byte_stream :=
  c ← open_channel this;
  e ← self this env;
  d ← self this envDefaults;
  command ← lift (withEnvPrefix cmd e d);
  stream c (login_shell command) timeout.

Definition error_name (e : read_error) : string :=
  match e with NOT_FOUND => "NOT_FOUND" | READ_FAILED => "READ_FAILED" | READ_BACKEND_ERROR => "BACKEND_ERROR" end.

(** The line [readFailed] writes. *)
Definition failure_line (id : SandboxId) (path : string) (code : read_error) (why : string) : string :=
  replace_all (token_of id) "<token>"
    ("marimohub-compute-armada: sandbox " +:+ id +:+ " could not read " +:+ oneLine path
     +:+ " (" +:+ error_name code +:+ "): " +:+ oneLine why).

Definition readFailed (this : nat) (path : string) (code : read_error) (why : string) : M (process C) ReadFileResult :=
  id ← self this sid;
  warn (failure_line id path code why);;
  mret (ReadFileFailure code).

Definition readThrough (this : nat) (path : string) (read : C -> M (process C) ReadFileOutcome)
    (encode : list ascii -> ReadFileResult) : M (process C) ReadFileResult :=
  outcome ← try_catch (c ← open_channel this; o ← read c; mret (inl o)) (fun e => mret (inr (message e)));
  match outcome with
  | inr why => readFailed this path READ_BACKEND_ERROR why
  | inl read_not_found => mret (ReadFileFailure NOT_FOUND)
  | inl (read_failed why) => readFailed this path READ_FAILED why
  | inl (read_ok bytes) => mret (encode bytes)
  end.

(** Text when the bytes are UTF-8, else base64. *)
Definition encode_guess (bytes : list ascii) : ReadFileResult :=
  match decodeUtf8 bytes with
  | None => ReadFileSuccess (base64_encode bytes) base64
  | Some text => ReadFileSuccess text utf_8
  end.
Definition encode_base64 (bytes : list ascii) : ReadFileResult := ReadFileSuccess (base64_encode bytes) base64.

Definition read_sandbox (this : nat) (path : string) : M (process C) ReadFileResult :=
  readThrough this path (fun c => readFile c path) encode_guess.

(** A whole number of a valid budget. *)
Definition whole (x : num) : Z := match x with Int n => n | _ => 0%Z end.
Definition budget_of (o : BoundedReadOptions) : ReadBudget :=
  {| budget_bytes := whole (maxBytes o); budget_ms := whole (ceil (budget_timeoutMs o)) |}.

Definition read_bounded (this : nat) (path : string) (o : BoundedReadOptions) : M (process C) ReadFileResult :=
  if negb (isValidBudget o) then
    readFailed this path READ_FAILED
      ("maxBytes " +:+ num_to_string (maxBytes o) +:+ " and timeoutMs " +:+ num_to_string (budget_timeoutMs o)
       +:+ " are not a valid budget")
  else readThrough this path (fun c => readFileBounded c path (budget_of o)) encode_base64.

Definition list_sandbox (this : nat) (path : string) (o : option ListFilesOptions) : M (process C) ListFilesResult :=
  listed ← try_catch
    (c ← open_channel this;
     l ← listFiles c path (bool_decide ((o ≫= recursive) = Some true));
     mret (Some l))
    (fun _ => mret None);
  mret (match listed with
        | None => ListFilesFailure LIST_BACKEND_ERROR
        | Some list_not_a_directory => ListFilesFailure NOT_A_DIRECTORY
        | Some (list_failed _) => ListFilesFailure LIST_FAILED
        | Some (list_ok entries) => ListFilesSuccess (toFileInfos entries path o)
        end).

(** How a write that failed is reported. *)
Definition named_write (f : SandboxFileWrite) (r : result unit) : result unit :=
  match r with
  | Ok u => Ok u
  | Err e => throw ("Writing " +:+ write_path f +:+ " failed: " +:+ message e)
  end.

Definition write_batch (c : C) (batch : list SandboxFileWrite) : M (process C) unit :=
  pbind (writeAll c (map (fun f => (write_path f, write_content f)) batch))
    (fun a => lift (first_failure (zip_with named_write batch (fst a)) (snd a))).

(** The loop over the batches; as each takes a file, a
    round per file is enough. *)
Fixpoint write_from (rounds : nat) (c : C) (files : list SandboxFileWrite) : M (process C) unit :=
  match rounds, files with
  | S r, _ :: _ => write_batch c (take WRITE_CONCURRENCY files);; write_from r c (drop WRITE_CONCURRENCY files)
  | _, _ => mret tt
  end.

Definition writeFiles (this : nat) (files : list SandboxFileWrite) : M (process C) unit :=
  if decide (files = []) then mret tt
  else c ← open_channel this; write_from (length files) c files.

Definition gitCheckout (this : nat) (repo : string) (o : option GitCheckoutOptions) : M (process C) unit :=
  r ← exec_sandbox this (gitCloneCommand repo o) None;
  match r with
  | ExecSuccess _ _ => mret tt
  | ExecFailure _ stderr _ => lift (throw ("git checkout failed: " +:+ stderr))
  end.

Definition setEnvVars (this : nat) (vars : obj string) (onlyIfUnset : bool) : M (process C) unit :=
  _ ← lift (map_result assertEnvName (obj_keys vars));
  assign this (fun o =>
    if onlyIfUnset then set_env (env o) (obj_spread (envDefaults o) vars) o
    else set_env (obj_spread (env o) vars) (envDefaults o) o).

Definition mountBucket : M (process C) unit :=
  lift (throw "mountBucket is not supported on the armada backend; using file copy fallback").
Definition unmountBucket : M (process C) unit := mret tt.

(** ** Processes *)

Record ArmadaProcess := {
  process_id : string; process_command : string; process_channel : C; process_where : string; process_pid : num
}.

Definition process_env_of (o : option StartProcessOptions) : obj string :=
  foldl (fun acc kv => match snd kv with Some v => obj_assign (fst kv) v acc | None => acc end) []
    (default [] (o ≫= process_env)).

Definition startProcess_sandbox (this : nat) (cmd : string) (o : option StartProcessOptions) : M (process C) ArmadaProcess :=
  c ← open_channel this;
  e ← self this env;
  d ← self this envDefaults;
  inner ← lift (withEnvPrefix cmd (process_env_of o) []);
  command ← lift (withEnvPrefix inner e d);
  pid ← try_catch (startProcess c (login_shell command) (o ≫= cwd))
          (fun error => lift (throw ("Starting " +:+ String dquote cmd +:+ String dquote " failed: " +:+ message error)));
  id ← self this sid;
  pod ← self this sandbox_pod;
  mret {| process_id := default ("armada-proc-" +:+ num_to_string pid) (o ≫= processId);
          process_command := cmd; process_channel := c;
          process_where := match pod with
                           | None => id
                           | Some p => podNamespace p +:+ "/" +:+ podName p
                           end;
          process_pid := pid |}.

Definition kill (p : ArmadaProcess) (signal : option string) : M (process C) unit :=
  try_catch (signalProcess (process_channel p) (process_pid p) (default "TERM" signal)) (fun _ => mret tt).

Definition logsQuietly (p : ArmadaProcess) : M (process C) string :=
  try_catch (processLogs (process_channel p) (process_pid p)) (fun _ => mret "").

Definition waitForPort_process (p : ArmadaProcess) (port : Z) (m : option probe_mode) (path : option string)
    (timeout : option Z) : M (process C) unit :=
  let timeout := default 30000%Z timeout in
  wait ← waitForPort (process_channel p) port timeout (Some (process_pid p)) (probeOf m path);
  if open wait then mret tt
  else
    log ← logsQuietly p;
    if exited wait
    then lift (throw (trim ("process exited before port " +:+ string_of_Z port +:+ " opened." +:+ String newline log)))
    else lift (throw ("timed out waiting for port " +:+ string_of_Z port +:+ " in " +:+ process_where p +:+ " after "
                      +:+ string_of_Z timeout +:+ "ms." +:+ String newline log)).

Definition getLogs (p : ArmadaProcess) : M (process C) (string * string) :=
  out ← processLogs (process_channel p) (process_pid p); mret (out, "").

Definition exposePort (this : nat) (port : Z) : M (process C) string :=
  ready_sandbox this;;
  j ← self this job;
  id ← self this sid;
  match j with
  | None => lift (throw ("Sandbox " +:+ id +:+ " has no job after ready()"))
  | Some j => portUrl config j port
  end.

Definition destroy (this : nat) : M (process C) unit :=
  j ← self this job;
  id ← self this sid;
  (match j with
   | None => q ← queue_of this; cancelSet config id q
   | Some j => cancel config j
   end);;
  forget id;;
  modify (on_placements (delete id));;
  assign this (set_pod None);;
  assign this (set_channel None).
End operations.

Lemma plain_bind {C A} (open : AgentEndpoint -> C) endpoint (k : C -> M (process C) A) :
  plain open endpoint ≫= k = k (open endpoint).
Proof. done. Qed.
