(* ===== verification/SandboxInv.v ===== *)
(** What every sandbox operation keeps (src/sandbox.ts), whatever else the
    process does meanwhile: each object and each shared placement stays with
    its own job set and its own agent, and an instance that only attaches
    sends nothing that starts a job. *)
From S2P Require Import Prelude JsString Regex Encoding Sha256 JsNumber Json Io Shell Ndjson Types Auth Config PodSpec Queues Armada Channel Sandbox.

(** ** The operations, as requests to one object *)

Section ops.
Context `{Platform} {C : Type} `{ControlChannel (process C) C}.
Context (config : ArmadaConfig) (openChannel : AgentEndpoint -> M (process C) C).

Inductive operation :=
| op_ready
| op_isPortReady (port : Z) (m : option probe_mode) (p : option string)
| op_exec (cmd : string) (timeout : option Z)
| op_execStream (cmd : string) (timeout : option Z)
| op_readFile (path : string)
| op_readFileBounded (path : string) (o : BoundedReadOptions)
| op_listFiles (path : string) (o : option ListFilesOptions)
| op_writeFiles (files : list SandboxFileWrite)
| op_gitCheckout (repo : string) (o : option GitCheckoutOptions)
| op_setEnvVars (vars : obj string) (onlyIfUnset : bool)
| op_startProcess (cmd : string) (o : option StartProcessOptions)
| op_exposePort (port : Z)
| op_destroy
| op_kill (p : @ArmadaProcess C) (signal : option string)
| op_waitForPort (p : @ArmadaProcess C) (port : Z) (m : option probe_mode) (path : option string) (timeout : option Z)
| op_getLogs (p : @ArmadaProcess C).

Definition ignore {A} (p : M (process C) A) : M (process C) unit := _ ← p; mret tt.

Definition perform (this : nat) (op : operation) : M (process C) unit :=
  match op with
  | op_ready => ready_sandbox config openChannel this
  | op_isPortReady port m p => ignore (isPortReady this port m p)
  | op_exec cmd t => ignore (exec_sandbox config openChannel this cmd t)
  | op_execStream cmd t => ignore (execStream config openChannel this cmd t)
  | op_readFile path => ignore (read_sandbox config openChannel this path)
  | op_readFileBounded path o => ignore (read_bounded config openChannel this path o)
  | op_listFiles path o => ignore (list_sandbox config openChannel this path o)
  | op_writeFiles files => writeFiles config openChannel this files
  | op_gitCheckout repo o => gitCheckout config openChannel this repo o
  | op_setEnvVars vars b => setEnvVars this vars b
  | op_startProcess cmd o => ignore (startProcess_sandbox config openChannel this cmd o)
  | op_exposePort port => ignore (exposePort config openChannel this port)
  | op_destroy => destroy config this
  | op_kill p signal => kill p signal
  | op_waitForPort p port m path t => waitForPort_process p port m path t
  | op_getLogs p => ignore (getLogs p)
  end.
End ops.

(** ** The invariant *)

Section invariant.
Context `{Platform} {C : Type} `{QuietChannel (process C) C}.
Context (config : ArmadaConfig) (opened : AgentEndpoint -> C).

(** What each object was constructed with: its id and whether it only
    attaches, neither of which ever changes. *)
Context (birth : nat -> option (SandboxId * bool)).

(** A channel to an agent that is addressed with the sandbox's own token. *)
Definition own_channel (id : SandboxId) (c : C) : Prop :=
  exists url p, c = opened {| endpoint_url := url; token := token_of config id; pod := p |}.

Definition env_ok (e : obj string) : Prop :=
  wf_obj e /\ Forall (fun k => Shell.env_name k = true) (obj_keys e).

Definition object_ok (o : sandbox C) : Prop :=
  (forall j, job o = Some j -> jobSetId j = sid o) /\
  (forall c, channel o = Some c -> own_channel (sid o) c) /\
  env_ok (env o) /\ env_ok (envDefaults o).

Definition placement_ok (id : SandboxId) (p : placement C) : Prop :=
  jobSetId (p_job p) = id /\ own_channel id (p_channel p).

Definition process_ok (s : process C) : Prop :=
  (forall n o, objects s !! n = Some o -> birth n = Some (sid o, attachOnly o) /\ object_ok o) /\
  (forall id p, placements s !! id = Some p -> placement_ok id p).

(** The calls an instance may make. *)
Definition allowed (attach : bool) (c : io) : Prop := attach = true -> starts_nothing c.

Lemma quiet_allowed attach {A} (Q : A -> Prop) (p : prog (process C) A) :
  guarded process_ok starts_nothing Q p -> guarded process_ok (allowed attach) Q p.
Proof. apply guarded_weaken; [by intros c Hc _ | done]. Qed.

Lemma guarded_self {A} P (Q : A -> Prop) this id attach f :
  birth this = Some (id, attach) ->
  (forall o, sid o = id -> attachOnly o = attach -> object_ok o -> Q (f o)) ->
  guarded process_ok P (returns Q) (self this f).
Proof.
  intros Hb HQ s [Ho _]. simpl. destruct (objects s !! this) as [o|] eqn:E; simpl; [|done].
  destruct (Ho this o E) as [Hb' Hok]. rewrite Hb in Hb'. injection Hb' as -> ->. by apply HQ.
Qed.

Lemma guarded_assign P this f :
  (forall o, object_ok o -> sid (f o) = sid o /\ attachOnly (f o) = attachOnly o /\
             (birth this = Some (sid o, attachOnly o) -> object_ok (f o))) ->
  guarded process_ok P (returns (fun _ => True)) (assign this f).
Proof.
  intros Hf. simpl. split; [|done]. intros s [Ho Hp]. split; [|done].
  intros n o Hn. cbn [on_objects objects] in Hn. apply lookup_alter_Some in Hn as [(<- & o' & Hn & ->)|[_ Hn]]; [|eauto].
  destruct (Ho this o' Hn) as [Hb Hok]. destruct (Hf o' Hok) as (-> & -> & Hnew). auto.
Qed.

Lemma guarded_defined {A} P (Q : A -> Prop) what v :
  (forall a, v = Some a -> Q a) -> guarded process_ok P (returns Q) (defined (C := C) what v).
Proof. destruct v; simpl; auto. Qed.

Lemma remembered_ok f s : process_ok s -> process_ok (update_remembered f s).
Proof. done. Qed.

Lemma object_ok_job o j : object_ok o -> jobSetId j = sid o -> object_ok (set_job (Some j) o).
Proof. intros (Ho1 & Ho2) Hj. split; [by intros ? [= <-]|done]. Qed.

Lemma object_ok_channel o c : object_ok o -> (forall c', c = Some c' -> own_channel (sid o) c') -> object_ok (set_channel c o).
Proof. intros (Ho1 & Ho2 & Ho3) Hc. done. Qed.

Lemma guarded_set_job P this id attach j :
  birth this = Some (id, attach) -> jobSetId j = id ->
  guarded process_ok P (returns (fun _ => True)) (assign (C := C) this (set_job (Some j))).
Proof.
  intros Hb Hj. apply guarded_assign. intros o Ho. split; [done|]. split; [done|].
  intros Hb'. apply object_ok_job; [done|]. congruence.
Qed.

Lemma guarded_set_channel P this id attach c :
  birth this = Some (id, attach) -> (forall c', c = Some c' -> own_channel id c') ->
  guarded process_ok P (returns (fun _ => True)) (assign this (set_channel c)).
Proof.
  intros Hb Hc. apply guarded_assign. intros o Ho. split; [done|]. split; [done|].
  intros Hb'. apply object_ok_channel; [done|]. intros c' Hc'. rewrite Hb in Hb'. injection Hb' as <- _. auto.
Qed.

Lemma guarded_set_pod P this p : guarded process_ok P (returns (fun _ => True)) (assign (C := C) this (set_pod p)).
Proof. by apply guarded_assign. Qed.

(** [eapply guarded_bind], the intermediate value being anything. *)
Ltac then_any := eapply (guarded_bind _ _ (fun _ => True)).

Section instance.
Context (this : nat) (id : SandboxId) (attach : bool).
Context (Hbirth : birth this = Some (id, attach)).

Definition ours (j : SubmittedJob) : Prop := jobSetId j = id.

Lemma guarded_id P : guarded process_ok P (returns (fun x => x = id)) (self this sid).
Proof. by eapply guarded_self. Qed.

Lemma guarded_job P : guarded process_ok P (returns (fun j => forall j', j = Some j' -> ours j')) (self this job).
Proof. eapply guarded_self; [done|]. intros o Hi _ (Hj & _) j' E. unfold ours. rewrite <- Hi. auto. Qed.

Lemma guarded_channel P :
  guarded process_ok P (returns (fun c => forall c', c = Some c' -> own_channel id c')) (self this channel).
Proof. eapply guarded_self; [done|]. intros o <- _ (_ & Hc & _). auto. Qed.

Lemma guarded_field {A} P (f : sandbox C -> A) : guarded process_ok P (returns (fun _ => True)) (self this f).
Proof. by eapply guarded_self. Qed.

Lemma guarded_queue_of P :
  (forall c, starts_nothing c -> P c) ->
  guarded process_ok P (returns (fun _ => True)) (queue_of config this).
Proof.
  intros HP. unfold queue_of. then_any; [apply guarded_field|]. intros [j|] _; [done|].
  then_any; [apply guarded_field|]. intros i _. then_any; [apply guarded_field|]. intros o _.
  apply guarded_resolve; [exact remembered_ok|]. intros ask [= <-].
  eapply guarded_weaken; [exact HP|done|]. apply guarded_findQueue.
Qed.

Lemma guarded_submit_job :
  attach = false -> guarded process_ok (allowed attach) (returns ours) (submit_job config this).
Proof.
  intros Ha. assert (forall c, allowed attach c) as Hall by (intros c ?; congruence).
  unfold submit_job. eapply guarded_bind; [apply guarded_id|]. intros i ->.
  then_any; [apply guarded_field|]. intros o _. cbn zeta.
  then_any; [by destruct (buildPodSpec _ _ _)|]. intros pod _.
  then_any; [apply guarded_queue_of; auto|]. intros q _.
  eapply guarded_weaken; [done| |by apply guarded_submit].
  intros [j|e]; [|done]. intros Hj. by destruct (Hj j eq_refl).
Qed.

Lemma guarded_existingJob : guarded process_ok (allowed attach) (returns ours) (existingJob config this).
Proof.
  apply quiet_allowed. unfold existingJob. eapply guarded_bind; [apply guarded_id|]. intros i ->.
  then_any; [by apply guarded_queue_of|]. intros q _. eapply guarded_bind; [apply guarded_findJob|].
  intros [j|] Hj; [|done]. by destruct (Hj j eq_refl).
Qed.

Lemma guarded_adopt : guarded process_ok (allowed attach) (returns (fun _ => True)) (adopt this).
Proof.
  unfold adopt. eapply guarded_bind; [apply guarded_id|]. intros i ->.
  eapply (guarded_bind _ _ (fun k => forall p, k = Some p -> placement_ok id p)).
  { apply guarded_gets. intros s [_ Hp] p. apply Hp. }
  intros [p|] Hp; [|done]. destruct (Hp p eq_refl) as [Hj Hc]. apply guarded_try.
  - then_any; [apply quiet_allowed, quiet_ready|]. intros _ _.
    then_any; [by eapply guarded_set_job|]. intros _ _.
    then_any; [apply guarded_set_pod|]. intros _ _.
    then_any; [by eapply guarded_set_channel; [|intros c' [= <-]]|]. done.
  - intros e. then_any; [|done]. apply guarded_modify. intros s [Ho Hpl]. split; [done|].
    intros i q. simpl. intros [_ Hq]%lookup_delete_Some. auto.
Qed.

Lemma guarded_ensure_job : guarded process_ok (allowed attach) (returns (fun _ => True)) (ensure_job config this).
Proof.
  unfold ensure_job. then_any; [apply guarded_field|]. intros [j|] _; [done|].
  eapply (guarded_bind _ _ (fun a => a = attach)); [by eapply guarded_self|]. intros a ->.
  eapply (guarded_bind _ _ ours).
  - generalize guarded_existingJob guarded_submit_job. generalize attach. by intros [] He Hs; [|apply Hs].
  - intros j Hj. by eapply guarded_set_job.
Qed.

Lemma guarded_this_job P :
  guarded process_ok P (returns ours) (self this job ≫= defined "queue").
Proof.
  eapply guarded_bind; [apply guarded_job|]. intros j Hj. apply guarded_defined. auto.
Qed.

(** The callback opens the agent's channel, and leaves alone what the
    invariant is about. *)
Context (openChannel : AgentEndpoint -> M (process C) C).
Context (opens : forall endpoint,
  guarded process_ok (allowed attach) (returns (fun c => c = opened endpoint)) (openChannel endpoint)).

Lemma guarded_reach : guarded process_ok (allowed attach) (returns (fun _ => True)) (reach config openChannel this).
Proof.
  unfold reach. eapply guarded_bind; [apply guarded_id|]. intros i ->.
  eapply guarded_bind; [apply guarded_this_job|]. intros j Hj.
  then_any; [apply quiet_allowed, guarded_waitForRunning|]. intros pod _.
  then_any; [apply guarded_set_pod|]. intros _ _.
  eapply guarded_bind; [apply guarded_this_job|]. intros j' Hj'.
  then_any; [apply quiet_allowed, guarded_portUrl|]. intros url _.
  then_any; [then_any; [apply guarded_field|]; intros p _; by apply guarded_defined|]. intros p _. cbn zeta.
  eapply guarded_bind; [apply opens|]. intros c Hc. assert (own_channel id c) by (by exists url, p).
  then_any; [apply quiet_allowed, quiet_ready|]. intros _ _.
  then_any; [by eapply guarded_set_channel; [|intros c' [= <-]]|]. intros _ _.
  eapply guarded_bind; [apply guarded_this_job|]. intros j'' Hj''.
  then_any; [apply guarded_field|]. intros p' _. apply guarded_modify. intros s [Ho Hp]. split; [done|].
  intros i pl. simpl. intros [[<- <-]|[_ Hpl]]%lookup_insert_Some; [done|auto].
Qed.

Lemma guarded_ready : guarded process_ok (allowed attach) (returns (fun _ => True)) (ready_sandbox config openChannel this).
Proof.
  unfold ready_sandbox. then_any; [apply guarded_field|]. intros [c|] _; [done|].
  then_any; [apply guarded_adopt|]. intros [] _; [done|].
  then_any; [apply guarded_ensure_job|]. intros _ _. apply guarded_reach.
Qed.

Lemma guarded_open : guarded process_ok (allowed attach) (returns (own_channel id)) (open_channel config openChannel this).
Proof.
  unfold open_channel. then_any; [apply guarded_field|]. intros c _.
  then_any; [destruct c; [done|apply guarded_ready]|]. intros _ _.
  eapply guarded_bind; [apply guarded_channel|]. intros c' Hc. then_any; [apply guarded_field|].
  intros i _. destruct c'; [|done]. simpl. auto.
Qed.

Lemma guarded_ignore {A} P (Q : A -> Prop) (p : M (process C) A) :
  guarded process_ok P (returns Q) p -> guarded process_ok P (returns (fun _ => True)) (ignore p).
Proof. intros Hp. unfold ignore. eapply guarded_bind; [exact Hp | done]. Qed.

(** Whatever follows opening the channel, when it is quiet. *)
Lemma guarded_opened {A} (k : C -> M (process C) A) :
  (forall c, guarded process_ok (allowed attach) (returns (fun _ => True)) (k c)) ->
  guarded process_ok (allowed attach) (returns (fun _ => True)) (c ← open_channel config openChannel this; k c).
Proof. intros Hk. eapply guarded_bind; [apply guarded_open|]. intros c _. apply Hk. Qed.

Lemma guarded_prefixed {A} cmd (k : string -> M (process C) A) :
  (forall c, guarded process_ok (allowed attach) (returns (fun _ => True)) (k c)) ->
  guarded process_ok (allowed attach) (returns (fun _ => True))
    (e ← self this env; d ← self this envDefaults; command ← lift (withEnvPrefix cmd e d); k command).
Proof.
  intros Hk. then_any; [apply guarded_field|]. intros e _. then_any; [apply guarded_field|]. intros d _.
  then_any; [by destruct (withEnvPrefix cmd e d)|]. auto.
Qed.

Lemma guarded_exec_sandbox cmd t :
  guarded process_ok (allowed attach) (returns (fun _ => True)) (exec_sandbox config openChannel this cmd t).
Proof.
  unfold exec_sandbox. apply guarded_prefixed. intros command. apply guarded_try; [|done].
  apply guarded_opened. intros c. then_any; [apply quiet_allowed, quiet_run | done].
Qed.

Lemma guarded_readFailed path code why :
  guarded process_ok (allowed attach) (returns (fun _ => True)) (readFailed (C := C) config this path code why).
Proof.
  unfold readFailed. then_any; [apply guarded_field|]. intros i _. by then_any.
Qed.

Lemma guarded_readThrough path read encode :
  (forall c, guarded process_ok starts_nothing (returns (fun _ => True)) (read c)) ->
  guarded process_ok (allowed attach) (returns (fun _ => True)) (readThrough config openChannel this path read encode).
Proof.
  intros Hr. unfold readThrough. then_any.
  - apply guarded_try; [|done]. apply guarded_opened. intros c. then_any; [apply quiet_allowed, Hr | done].
  - intros [[bytes| |why]|why] _; try done; apply guarded_readFailed.
Qed.

Lemma guarded_write_from rounds c files :
  guarded process_ok (allowed attach) (returns (fun _ => True)) (write_from rounds c files).
Proof.
  revert files; induction rounds as [|r IH]; intros files; [by destruct files|].
  destruct files as [|f files]; [done|]. cbn [write_from]. then_any; [|intros _ _; apply IH].
  unfold write_batch. eapply guarded_pbind; [apply quiet_allowed, quiet_writeAll|].
  intros a _. by destruct (first_failure _ _).
Qed.

Lemma env_ok_spread e vars :
  env_ok e -> Forall (fun k => Shell.env_name k = true) (obj_keys vars) -> env_ok (obj_spread e vars).
Proof.
  intros [Hw He] Hv. split; [by apply wf_obj_spread|]. unfold obj_spread. revert e Hw He.
  induction vars as [|[k v] vars IH]; intros e Hw He; simpl; [done|]. inversion Hv; subst.
  apply IH; [done|by apply wf_obj_define|]. apply list.Forall_forall. intros x [->|Hx]%obj_define_keys; [done|].
  by eapply list.Forall_forall in He.
Qed.

Lemma guarded_setEnvVars vars b :
  guarded process_ok (allowed attach) (returns (fun _ => True)) (setEnvVars (C := C) this vars b).
Proof.
  unfold setEnvVars. eapply (guarded_bind _ _ (fun _ => Forall (fun k => Shell.env_name k = true) (obj_keys vars))).
  - simpl. destruct (map_result assertEnvName (obj_keys vars)) as [l|] eqn:E; [|done]. simpl.
    apply map_result_Ok in E. clear -E. induction E as [|k n ks ns Hk _ IH]; constructor; [|done].
    by apply assertEnvName_Ok in Hk as [Hk _].
  - intros l Hv. apply guarded_assign. intros o (Ho1 & Ho2 & He & Hd).
    destruct b; (split; [done|]; split; [done|]; intros _; split; [done|]; split; [done|]).
    + split; [done|]. by apply env_ok_spread.
    + split; [|done]. by apply env_ok_spread.
Qed.

Lemma guarded_destroy : guarded process_ok (allowed attach) (returns (fun _ => True)) (destroy (C := C) config this).
Proof.
  unfold destroy. then_any; [apply guarded_field|]. intros j _. then_any; [apply guarded_field|]. intros i _.
  then_any.
  - apply quiet_allowed. destruct j as [j|]; [apply guarded_cancel|].
    then_any; [by apply guarded_queue_of|]. intros q _. apply guarded_cancelSet.
  - intros _ _. then_any; [by apply guarded_modify|]. intros _ _.
    then_any; [apply guarded_modify|].
    { intros s [Ho Hp]. split; [done|]. intros k p. simpl. intros [_ Hk]%lookup_delete_Some. auto. }
    intros _ _. then_any; [apply guarded_set_pod|]. intros _ _. by eapply guarded_set_channel.
Qed.

(** Every operation keeps the invariant and makes only the calls it may. *)
Lemma guarded_perform op :
  guarded process_ok (allowed attach) (returns (fun _ => True)) (perform config openChannel this op).
Proof.
  destruct op; cbn [perform]; try apply (guarded_ignore _ (fun _ => True)).
  - apply guarded_ready.
  - unfold isPortReady. then_any; [apply guarded_field|]. intros c _. then_any; [apply guarded_field|]. intros i _.
    then_any; [by apply guarded_gets|]. intros known _.
    destruct (match c with Some c => Some c | None => p_channel <$> known end) as [ch|]; [|done].
    apply guarded_try; [|done]. then_any; [apply quiet_allowed, quiet_waitForPort | done].
  - apply guarded_exec_sandbox.
  - unfold execStream. apply guarded_opened. intros c. apply guarded_prefixed. intros command.
    apply quiet_allowed, quiet_stream.
  - apply guarded_readThrough. intros c. apply quiet_readFile.
  - unfold read_bounded. destruct (negb (isValidBudget o)); [apply guarded_readFailed|].
    apply guarded_readThrough. intros c. apply quiet_readFileBounded.
  - unfold list_sandbox. then_any; [|done]. apply guarded_try; [|done]. apply guarded_opened. intros c.
    then_any; [apply quiet_allowed, quiet_listFiles | done].
  - unfold writeFiles. case_decide; [done|]. apply guarded_opened. intros c. apply guarded_write_from.
  - unfold gitCheckout. then_any; [apply guarded_exec_sandbox|]. by intros [] _.
  - apply guarded_setEnvVars.
  - unfold startProcess_sandbox. apply guarded_opened. intros c.
    then_any; [apply guarded_field|]. intros e _. then_any; [apply guarded_field|]. intros d _.
    then_any; [by destruct (withEnvPrefix cmd _ _)|]. intros inner _.
    then_any; [by destruct (withEnvPrefix inner _ _)|]. intros command _.
    then_any; [apply guarded_try; [apply quiet_allowed, quiet_startProcess | done]|]. intros pid _.
    then_any; [apply guarded_field|]. intros i _. then_any; [apply guarded_field|]. done.
  - unfold exposePort. then_any; [apply guarded_ready|]. intros _ _. then_any; [apply guarded_field|]. intros j _.
    then_any; [apply guarded_field|]. intros i _. destruct j; [|done]. apply quiet_allowed, guarded_portUrl.
  - apply guarded_destroy.
  - unfold kill. apply guarded_try; [apply quiet_allowed, quiet_signalProcess | done].
  - unfold waitForPort_process. then_any; [apply quiet_allowed, quiet_waitForPort|]. intros wait _.
    destruct (open wait); [done|]. then_any.
    + unfold logsQuietly. apply guarded_try; [apply quiet_allowed, quiet_processLogs | done].
    + intros log _. by destruct (exited wait).
  - unfold getLogs. then_any; [apply quiet_allowed, quiet_processLogs | done].
Qed.
End instance.

End invariant.
