(* ===== verification/SandboxSpec.v ===== *)
(** What each operation of a sandbox does (src/sandbox.ts). *)
From S2P Require Import Prelude JsString Regex Encoding Sha256 JsNumber Json Io Shell Ndjson Types Auth Config PodSpec Queues Armada Channel Sandbox SandboxInv.

(** ** The log line of a failed read *)

Definition hexish (s : string) : bool := all_chars is_hex s.

(** After masking, no occurrence of a needle of hexadecimal digits starts
    where none started before. *)
Lemma masked_starts t p s :
  hexish p = true -> starts_with p (replace_from t "<token>" 0 s) = true -> starts_with p s = true.
Proof.
  revert s; induction p as [|a p IH]; intros s Hp; [done|].
  unfold hexish in Hp. cbn [all_chars] in Hp. apply andb_true_iff in Hp as [Ha Hp].
  destruct s as [|c s]; [done|]. cbn [replace_from]. destruct (starts_with t (String c s)) eqn:E.
  - cbn [String.append starts_with]. case_decide as Hc; [by subst a|done].
  - cbn [starts_with]. case_decide as Hc; [by apply IH|done].
Qed.

Lemma masked_includes t s :
  hexish t = true -> (2 <= String.length t)%nat ->
  forall skip, includes t (replace_from t "<token>" skip s) = false.
Proof.
  intros Ht Hl. destruct t as [|a [|b t]]; cbn [String.length] in Hl; [lia|lia|]. clear Hl.
  set (n := String a (String b t)) in *.
  assert (is_hex a = true /\ is_hex b = true) as [Ha Hb].
  { unfold hexish, n in Ht. cbn [all_chars] in Ht. apply andb_true_iff in Ht as [? [? _]%andb_true_iff]. done. }
  assert (forall c X, is_hex c = false -> starts_with n (String c X) = false) as Hno1.
  { intros c X Hc. unfold n. cbn [starts_with]. case_decide; [congruence|done]. }
  assert (forall d c X, is_hex c = false -> starts_with n (String d (String c X)) = false) as Hno2.
  { intros d c X Hc. unfold n. cbn [starts_with]. repeat case_decide; congruence || done. }
  induction s as [|c s IH]; intros skip; [done|]. cbn [replace_from]. destruct skip as [|skip]; [|apply IH].
  destruct (starts_with n (String c s)) eqn:E.
  - set (X := replace_from n "<token>" _ s). cbn [String.append includes].
    rewrite (Hno1 "<"%char), (Hno1 "t"%char), (Hno1 "o"%char), (Hno1 "k"%char), (Hno2 "e"%char "n"%char),
      (Hno1 "n"%char), (Hno1 ">"%char) by done. apply IH.
  - cbn [includes]. destruct (starts_with n (String c (replace_from n "<token>" 0 s))) eqn:E'; [|apply IH].
    assert (starts_with n (replace_from n "<token>" 0 (String c s)) = true) as Hs
      by (cbn [replace_from]; by rewrite E).
    apply masked_starts in Hs; [congruence|done].
Qed.

Definition spaced (c : ascii) : bool := negb (N.ltb (JsString.code c) 32).

Lemma one_char_spaced c : all_chars spaced (if control c then json_escape c else String c "") = true.
Proof. by destruct c as [[] [] [] [] [] [] [] []]. Qed.

Lemma one_char_kept c : spaced c = true -> (if control c then json_escape c else String c "") = String c "".
Proof. by destruct c as [[] [] [] [] [] [] [] []]. Qed.

(** A value put in the line cannot break it: no control character below space
    is left, and text without one is unchanged, DEL included. *)
Lemma oneLine_spec s :
  all_chars spaced (oneLine s) = true /\ (all_chars spaced s = true -> oneLine s = s).
Proof.
  unfold oneLine. induction s as [|c s [IH1 IH2]]; [done|]. cbn [map_chars all_chars]. split.
  - by rewrite all_chars_app, one_char_spaced, IH1.
  - intros [Hc Hs]%andb_true_iff. by rewrite one_char_kept, IH2.
Qed.

Lemma replace_from_spaced t r skip s :
  all_chars spaced r = true -> all_chars spaced s = true -> all_chars spaced (replace_from t r skip s) = true.
Proof.
  intros Hr. revert skip; induction s as [|c s IH]; intros skip; [done|]. cbn [all_chars].
  intros [Hc Hs]%andb_true_iff. destruct skip as [|skip]; cbn [replace_from]; [|by apply IH].
  destruct (starts_with t (String c s)); [rewrite all_chars_app, Hr; by apply IH|].
  cbn [all_chars]. rewrite Hc. by apply IH.
Qed.

(** Masking a text that breaks no line hides no break of another. *)
Lemma replace_from_breaks t r skip s :
  all_chars spaced t = true -> t <> "" -> all_chars spaced (str_take skip s) = true ->
  all_chars spaced (replace_from t r skip s) = true -> all_chars spaced s = true.
Proof.
  intros Ht Hne. revert skip; induction s as [|c s IH]; intros skip; [done|]. destruct skip as [|skip]; cbn [replace_from str_take all_chars].
  - intros _. destruct (starts_with t (String c s)) eqn:E.
    + apply starts_with_inv in E as [rest E]. destruct t as [|c' t]; [done|]. injection E as <- ->.
      cbn [all_chars] in Ht. apply andb_true_iff in Ht as [-> Ht].
      rewrite all_chars_app. intros [_ Hs]%andb_true_iff.
      replace (String.length (String c t) - 1)%nat with (String.length t) in Hs by (cbn [String.length]; lia).
      pose proof (IH (String.length t)) as Hi. rewrite str_take_app in Hi. exact (Hi Ht Hs).
    + cbn [all_chars]. intros [-> Hs]%andb_true_iff. by apply (IH O).
  - intros [-> Hk]%andb_true_iff. by apply IH.
Qed.

(** C19 The line a failed read writes never holds the sandbox's bearer token,
    whatever the path, the error or the id contains; and neither path nor
    error can break it: it has a control character below space exactly when
    the sandbox's id, which is put in it as it is, has one. *)
Theorem log_line_masked config id path code why :
  includes (token_of config id) (failure_line config id path code why) = false /\
  all_chars spaced (failure_line config id path code why) = all_chars spaced id.
Proof.
  assert (hexish (token_of config id) = true) as Hhex by apply hex_is_hex.
  assert (2 <= String.length (token_of config id))%nat as Hlen.
  { unfold token_of, agentToken. rewrite hex_length. unfold hmac_sha256. rewrite sha256_length. lia. }
  unfold failure_line, replace_all. split; [by apply masked_includes|].
  set (line := "marimohub-compute-armada: sandbox " +:+ _).
  assert (all_chars spaced line = all_chars spaced id) as <-.
  { assert (all_chars spaced (error_name code) = true) as Hc by (by destruct code).
    unfold line. rewrite !all_chars_app, Hc, !(proj1 (oneLine_spec _)). by rewrite andb_true_r. }
  apply eq_true_iff_eq. split; [|by apply replace_from_spaced]. apply replace_from_breaks; [|by intros E; rewrite E in Hlen; simpl in Hlen; lia|done].
  eapply all_chars_impl; [|exact Hhex]. intros c. by destruct c as [[] [] [] [] [] [] [] []].
Qed.

(** ** Budgets *)

(** A number as the language has it: a fraction is one. *)
Definition wf_num (x : num) : Prop := match x with Frac m k => (0 < k)%Z | _ => True end.

Lemma ceil_between x n :
  wf_num x -> num_lt (Int 0) x = true -> num_le x (Int n) = true -> is_finite x = true ->
  exists z, ceil x = Int z /\ (1 <= z <= n)%Z /\ num_le x (Int z) = true.
Proof.
  destruct x as [| |z|m k]; try done; unfold num_le, num_lt, ratio, ceil; intros Hk H0 Hn _.
  - exists z. split; [done|]. split; lia.
  - simpl in Hk. assert (0 < 2 ^ k)%Z by (apply Z.pow_pos_nonneg; lia).
    exists (- (- m / 2 ^ k))%Z. split; [done|].
    pose proof (Z.div_mod (- m) (2 ^ k)). pose proof (Z.mod_pos_bound (- m) (2 ^ k)). nia.
Qed.

(** The base64 size of [n] octets. *)
Definition base64_size (n : Z) : Z := (4 * ((n + 2) / 3))%Z.

(** The size the code computes in floating point is the exact one. *)
Lemma size_check n :
  (0 <= n <= MAX_SAFE_INTEGER)%Z ->
  is_safe_integer (num_mul 4 (ceil (num_div (Int n) 3))) = true <-> (base64_size n <= MAX_SAFE_INTEGER)%Z.
Proof.
  intros Hn. unfold MAX_SAFE_INTEGER in *. unfold num_div. cbn [ratio].
  replace (n <? 0)%Z with false by lia. rewrite Z.mul_1_l, ceil_third by lia.
  unfold num_mul. cbn [ratio]. assert (0 <= (n + 2) / 3)%Z by (apply Z.div_pos; lia).
  assert ((n + 2) / 3 < 2 ^ 53)%Z by (apply Z.div_lt_upper_bound; lia).
  replace ((n + 2) / 3 <? 0)%Z with false by lia. rewrite Z.mul_comm, round_quadruple by lia.
  unfold is_safe_integer, base64_size, MAX_SAFE_INTEGER. rewrite Z.leb_le. lia.
Qed.

(** C40  A budget is accepted exactly when the agent and a timer can hold it:
    the bytes are an integer, not negative, whose exact base64 size is a safe
    integer, and the deadline is positive and no later than a timer goes; and
    then the deadline that is sent, in whole milliseconds, is positive, within
    the timer too, and no earlier than what was asked. *)
Theorem isValidBudget_iff o :
  wf_num (budget_timeoutMs o) ->
  (isValidBudget o = true <->
     (exists n, maxBytes o = Int n /\ 0 <= n /\ base64_size n <= MAX_SAFE_INTEGER)%Z /\
     is_finite (budget_timeoutMs o) = true /\ num_lt (Int 0) (budget_timeoutMs o) = true /\
     num_le (budget_timeoutMs o) (Int MAX_TIMER_MS) = true) /\
  (isValidBudget o = true ->
     maxBytes o = Int (budget_bytes (budget_of o)) /\
     (0 < budget_ms (budget_of o) <= MAX_TIMER_MS)%Z /\
     num_le (budget_timeoutMs o) (Int (budget_ms (budget_of o))) = true).
Proof.
  intros Hwf. assert (isValidBudget o = true <->
     (exists n, maxBytes o = Int n /\ 0 <= n /\ base64_size n <= MAX_SAFE_INTEGER)%Z /\
     is_finite (budget_timeoutMs o) = true /\ num_lt (Int 0) (budget_timeoutMs o) = true /\
     num_le (budget_timeoutMs o) (Int MAX_TIMER_MS) = true) as Hiff.
  { unfold isValidBudget. rewrite !andb_true_iff. change (Int (2 ^ 31 - 1)) with (Int MAX_TIMER_MS). split.
    - intros [[[[[Hs H0] Hb] Hf] Ht0] Ht]. split; [|done]. destruct (maxBytes o) as [| |n|]; try done.
      exists n. split; [done|]. unfold num_le, num_lt, ratio, is_safe_integer in Hs, H0.
      split; [lia|]. apply size_check; [lia|done].
    - intros [(n & -> & H0 & Hn) (Hf & Ht0 & Ht)]. assert (n <= MAX_SAFE_INTEGER)%Z as Hs.
      { unfold base64_size in Hn. pose proof (Z.div_mod (n + 2) 3). pose proof (Z.mod_pos_bound (n + 2) 3). lia. }
      repeat split; try done; try (apply size_check; lia); unfold is_safe_integer, num_le, num_lt, ratio; lia. }
  split; [done|]. intros [(n & Hn & _) (Hf & Ht0 & Ht)]%Hiff.
  destruct (ceil_between (budget_timeoutMs o) MAX_TIMER_MS) as (z & Hz & Hr & Hle); [done..|].
  unfold budget_of. cbn [budget_bytes budget_ms]. rewrite Hz, Hn. cbn [whole]. repeat split; done || lia.
Qed.

Lemma isValidBudget_iff_witness :
  isValidBudget {| maxBytes := Int 6755399441055741; budget_timeoutMs := Frac 3 1 |} = true /\
  isValidBudget {| maxBytes := Int 6755399441055742; budget_timeoutMs := Frac 3 1 |} = false.
Proof.
  split.
  - apply (proj2 (proj1 (isValidBudget_iff {| maxBytes := Int 6755399441055741; budget_timeoutMs := Frac 3 1 |} eq_refl))).
    split; [exists 6755399441055741%Z; repeat split; vm_compute; discriminate | repeat split; reflexivity].
  - apply not_true_iff_false.
    rewrite (proj1 (isValidBudget_iff {| maxBytes := Int 6755399441055742; budget_timeoutMs := Frac 3 1 |} eq_refl)).
    intros [(n & [= <-] & _ & Hn) _]. vm_compute in Hn. by apply Hn.
Defined.

(** ** Reading *)

(** The bytes a consumer decodes out of a result. *)
Definition result_bytes (r : ReadFileResult) : option (list ascii) :=
  match r with
  | ReadFileSuccess content utf_8 => Some (utf8_encode content)
  | ReadFileSuccess content base64 => Some (base64_decode content)
  | ReadFileFailure _ => None
  end.

Lemma encoded_bytes bytes : result_bytes (encode_guess bytes) = Some bytes.
Proof.
  unfold encode_guess, decodeUtf8. destruct (decode_fatal bytes) as [text|] eqn:E; simpl.
  - by rewrite (decode_fatal_inv _ _ E).
  - by rewrite base64_roundtrip.
Qed.

(** A file that is read comes back byte for byte, in either encoding: as
    text exactly when it is valid UTF-8, a byte order mark included, and as
    base64 otherwise; the bounded read always answers in base64. *)
Theorem read_encoding bytes :
  result_bytes (encode_guess bytes) = Some bytes /\
  result_bytes (encode_base64 bytes) = Some bytes /\
  (forall text, decode_fatal bytes = Some text -> encode_guess bytes = ReadFileSuccess text utf_8) /\
  (decode_fatal bytes = None -> encode_guess bytes = encode_base64 bytes).
Proof.
  split; [apply encoded_bytes|]. unfold encode_guess, encode_base64, decodeUtf8. split; [|split].
  - simpl. by rewrite base64_roundtrip.
  - by intros text ->.
  - by intros ->.
Qed.

(** ** Listing *)

(** The last component of a path. *)
Lemma base_name_spec p :
  no_char "/" (base_name p) = true /\ (p = base_name p \/ exists dir, p = dir +:+ "/" +:+ base_name p).
Proof.
  unfold base_name. pose proof (last_index_of_split "/" p) as Hs.
  destruct (last_index_of "/" p) as [n|]; [|by split; [|left]].
  destruct Hs as [E Hn]. split; [done|]. right. by exists (str_take n p).
Qed.

(** A listing hides exactly the entries whose own name starts with a dot,
    unless they are asked for, whatever directory they are in; and an entry
    below the root carries its path from there. *)
Theorem toFileInfo_spec root o e :
  let hidden := negb (bool_decide ((o ≫= includeHidden) = Some true)) && starts_with "." (base_name (entry_path e)) in
  match toFileInfo root o e with
  | None => hidden = true
  | Some f => hidden = false /\ name f = base_name (entry_path e) /\ absolutePath f = entry_path e
      /\ info_type f = entry_type e /\ info_size f = size e
      /\ (forall rel, entry_path e = root +:+ "/" +:+ rel -> relativePath f = rel)
      /\ (starts_with root (entry_path e) = false -> relativePath f = entry_path e)
  end%bool.
Proof.
  cbn zeta. unfold toFileInfo. destruct (negb _ && _)%bool eqn:E; [done|]. cbn.
  repeat split; try done.
  - intros rel Hrel. rewrite Hrel, starts_with_app, str_drop_app. reflexivity.
  - by intros ->.
Qed.

(** ** Operations run alone *)

(** A program that changes no state, whatever it is answered, ends in the
    state it started in. *)
Lemma unchanged {S W A} (h : handler W) (p : M S A) s w :
  (forall I, guarded I starts_nothing (returns (fun _ => True)) p) -> final (run h p s w) = s.
Proof. intros Hp. by destruct (guarded_run (fun s' => s' = s) _ _ h p s w (Hp _) eq_refl) as (_ & ? & _). Qed.

Section alone.
Context `{Platform} {C W : Type} `{QuietChannel (process C) C}.
Context (config : ArmadaConfig) (openChannel : AgentEndpoint -> C) (h : handler W).

Implicit Types (s : process C) (o : sandbox C) (this : nat).

Lemma run_self {A} this (f : sandbox C -> A) s w o :
  objects s !! this = Some o ->
  run h (self this f) s w = {| value := Ok (f o); final := s; world := w; trace := [] |}.
Proof. intros Ho. unfold self, mbind, M_bind. simpl. by rewrite Ho. Qed.

Lemma run_open this s w o c :
  objects s !! this = Some o -> channel o = Some c ->
  run h (open_channel config (plain openChannel) this) s w = {| value := Ok c; final := s; world := w; trace := [] |}.
Proof.
  intros Ho Hc. unfold open_channel. rewrite run_bind, (run_self _ _ _ _ o) by done. cbn [value final world trace].
  rewrite run_bind, Hc. cbn [run mret M_ret value final world trace].
  rewrite run_bind, (run_self _ _ _ _ o) by done. cbn [value final world trace].
  rewrite run_bind, (run_self _ _ _ _ o) by done. cbn [value final world trace]. by rewrite Hc.
Qed.

Lemma run_self_bind {A B} this (f : sandbox C -> A) (k : A -> M (process C) B) s w o :
  objects s !! this = Some o -> run h (x ← self this f; k x) s w = run h (k (f o)) s w.
Proof.
  intros Ho. rewrite run_bind, (run_self _ _ _ _ o) by done. cbn [value final world trace app].
  by destruct (run h (k (f o)) s w).
Qed.

(** The environment of an object, as the commands see it. *)
Lemma run_prefixed {A} this cmd (k : string -> M (process C) A) s w o :
  objects s !! this = Some o ->
  run h (e ← self this env; d ← self this envDefaults; command ← lift (withEnvPrefix cmd e d); k command) s w =
  match withEnvPrefix cmd (env o) (envDefaults o) with
  | Ok command => run h (k command) s w
  | Err e => {| value := Err e; final := s; world := w; trace := [] |}
  end.
Proof.
  intros Ho. rewrite run_bind, (run_self _ _ _ _ o) by done. cbn [value final world trace app].
  rewrite run_bind, (run_self _ _ _ _ o) by done. cbn [value final world trace app].
  rewrite run_bind, run_lift. cbn [value final world trace app].
  destruct (withEnvPrefix cmd (env o) (envDefaults o)) as [command|e]; [|done].
  by destruct (run h (k command) s w).
Qed.

Lemma withEnvPrefix_named cmd e d : env_ok e -> env_ok d -> exists text, withEnvPrefix cmd e d = Ok text.
Proof.
  intros [_ He] [_ Hd]. unfold withEnvPrefix.
  assert (forall (f : string * string -> result string) l,
            (forall kv, (exists p, f kv = Ok p) <-> Shell.env_name (fst kv) = true) ->
            Forall (fun k => Shell.env_name k = true) (obj_keys l) -> exists ps, map_result f l = Ok ps) as Hall.
  { intros f l Hf Hl. apply map_result_total. unfold obj_keys in Hl. induction l as [|kv l IH]; [constructor|].
    inversion Hl; subst. constructor; [by apply Hf | auto]. }
  destruct (Hall forced_export e forced_Ok He) as (ps & ->). simpl.
  destruct (Hall guarded_export d guarded_Ok Hd) as (gs & ->). simpl. by eexists.
Qed.

(** C10  A command that runs is a result, never an exception: with the agent
    reached, [exec] sends the prefixed command to a login shell under the
    caller's deadline or else the backstop, and answers success exactly for
    exit status 0, [COMMAND_FAILED] for another, and [BACKEND_ERROR] with the
    reason when the channel fails. *)
Theorem exec_outcome this s w o c cmd timeout command :
  objects s !! this = Some o -> channel o = Some c ->
  withEnvPrefix cmd (env o) (envDefaults o) = Ok command ->
  let ran := run h (run_command c ["sh"; "-lc"; command]
                     {| stdin := None;
                        timeoutMs := match timeout with
                                     | Some t => Some t
                                     | None => if (0 <? commandMaxSeconds config)%Z
                                               then Some (commandMaxSeconds config * 1000)%Z else None
                                     end |}) s w in
  let r := run h (exec_sandbox config (plain openChannel) this cmd timeout) s w in
  trace r = trace ran /\ final r = s /\
  value r = Ok (match value ran with
                | Ok x => if decide (exitCode x = Int 0) then ExecSuccess (stdout x) (stderr x)
                          else ExecFailure (stdout x) (stderr x) COMMAND_FAILED
                | Err e => ExecFailure "" (exec_reason config cmd timeout e) BACKEND_ERROR
                end).
Proof.
  intros Ho Hc Hp. cbn zeta. unfold exec_sandbox. rewrite (run_prefixed _ _ _ _ _ o), Hp by done.
  rewrite run_try, run_bind, (run_open _ _ _ o c) by done. cbn [value final world trace app].
  rewrite run_bind. unfold login_shell.
  assert (command_deadline config timeout =
    match timeout with
    | Some t => Some t
    | None => if (0 <? commandMaxSeconds config)%Z then Some (commandMaxSeconds config * 1000)%Z else None
    end) as <- by (unfold command_deadline, backstopMs; by destruct timeout).
  match goal with |- context [run_command c ?l ?op] => set (sent := run_command c l op) in * end.
  assert (final (run h sent s w) = s) as Hf by (apply unchanged; intros I; apply quiet_run).
  revert Hf. generalize (run h sent s w). intros [v s' w' t]. cbn [value final world trace]. intros ->.
  destruct v as [x|e]; cbn; rewrite ?app_nil_r; [|done]. unfold toExecResult. by case_decide.
Qed.

(** [exec] does not throw, even when the sandbox cannot be reached: with the
    well-named environment every sandbox keeps, it always returns a result. *)
Lemma exec_never_throws this s w o cmd timeout :
  objects s !! this = Some o -> env_ok (env o) -> env_ok (envDefaults o) ->
  exists r, value (run h (exec_sandbox config (plain openChannel) this cmd timeout) s w) = Ok r.
Proof.
  intros Ho He Hd. destruct (withEnvPrefix_named cmd (env o) (envDefaults o)) as (text & Ht); [done..|].
  unfold exec_sandbox. rewrite (run_prefixed _ _ _ _ _ o), Ht by done. rewrite run_try. cbn zeta.
  match goal with |- context [value (run h ?p s w)] => destruct (value (run h p s w)) end; by eexists.
Qed.

(** ** Starting a process *)

Lemma process_env_ok (o : option StartProcessOptions) : wf_obj (process_env_of o).
Proof.
  unfold process_env_of. assert (wf_obj ([] : obj string)) as Hnil by constructor. revert Hnil.
  generalize ([] : obj string). induction (default [] (o ≫= process_env)) as [|[k [v|]] l IH]; intros acc Hacc; simpl; auto.
  by apply IH, wf_obj_assign.
Qed.

(** C15  A process is started by a login shell with the command after a prefix
    that gives it its environment: its own variables over the sandbox's, and
    those over the defaults.  What comes back is that process, on the channel
    and under the pid the agent gave it; a failure names the command it was
    to start. *)
Theorem startProcess_outcome this s w o c cmd options :
  objects s !! this = Some o -> channel o = Some c -> env_ok (env o) -> env_ok (envDefaults o) ->
  Forall (fun k => Shell.env_name k = true) (obj_keys (process_env_of options)) ->
  exists prefix,
    (forall rho, exists rho', sh rho prefix = Some rho' /\ forall k, rho' !! k =
       match obj_get k (process_env_of options) with Some v => Some v | None => effective rho (env o) (envDefaults o) k end) /\
    let ran := run h (startProcess c ["sh"; "-lc"; prefix +:+ cmd] (options ≫= cwd)) s w in
    let r := run h (startProcess_sandbox config (plain openChannel) this cmd options) s w in
    trace r = trace ran /\ final r = s /\
    match value ran with
    | Err e => value r = throw ("Starting " +:+ String dquote cmd +:+ String dquote " failed: " +:+ message e)
    | Ok pid => exists p, value r = Ok p /\ process_command p = cmd /\ process_channel p = c /\ process_pid p = pid /\
        process_id p = default ("armada-proc-" +:+ num_to_string pid) (options ≫= processId)
    end.
Proof.
  intros Ho Hc He Hd Hp. pose proof (process_env_ok options) as Hwf.
  destruct (withEnvPrefix_named cmd (process_env_of options) []) as (inner & Hi); [done|by split; constructor|].
  destruct (withEnvPrefix_named inner (env o) (envDefaults o)) as (text & Ht); [done..|].
  destruct (nested_prefix cmd (process_env_of options) (env o) (envDefaults o) inner text) as (prefix & -> & Hrho);
    [exact (wf_obj_NoDup _ Hwf)|exact (wf_obj_NoDup _ (proj1 He))|exact (wf_obj_NoDup _ (proj1 Hd))|done|done|].
  exists prefix. split; [done|]. cbn zeta. unfold startProcess_sandbox.
  rewrite run_bind, (run_open _ _ _ o c) by done. cbn [value final world trace app].
  rewrite !(run_self_bind _ _ _ _ _ o) by done. rewrite Hi. rewrite run_bind, run_lift. cbn [value final world trace app].
  rewrite Ht. rewrite run_bind, run_lift. cbn [value final world trace app].
  pose proof (unchanged h (startProcess c ["sh"; "-lc"; prefix +:+ cmd] (options ≫= cwd)) s w ltac:(intros I; apply quiet_startProcess)) as Hs.
  unfold login_shell. rewrite run_bind, run_try. cbn zeta. revert Hs.
  generalize (run h (startProcess c ["sh"; "-lc"; prefix +:+ cmd] (options ≫= cwd)) s w).
  intros [[pid|e] s' w' t]; cbn [value final world trace run lift]; intros ->; [|by rewrite app_nil_r].
  rewrite !(run_self_bind _ _ _ _ _ o) by done. cbn [value final world trace run mret M_ret]. rewrite app_nil_r.
  split; [done|]. split; [done|]. by eexists.
Qed.

(** ** Writing *)

Definition requests_of (l : list io) : list request :=
  mbind (fun c => match c with FetchAll rs => rs | _ => [] end) l.

(** ** Destroying *)

(** The one request a [destroy] makes, after the queue is known. *)
Definition cancelling this : M (process C) unit :=
  j ← self this job;
  id ← self this sid;
  match j with
  | None => q ← queue_of config this; cancelSet config id q
  | Some j => cancel config j
  end.

(** What is forgotten once the cancel has succeeded. *)
Definition forgotten this id (s : process C) : process C :=
  {| objects := alter (fun o => set_channel None (set_pod None o)) this (objects s);
     placements := delete id (placements s); seen_queues := delete id (seen_queues s); kept := kept s |}.

Lemma run_destroy this s w o :
  objects s !! this = Some o ->
  let c := run h (cancelling this) s w in
  run h (destroy config this) s w =
  {| value := value c; final := match value c with Ok _ => forgotten this (sid o) (final c) | Err _ => final c end;
     world := world c; trace := trace c |}.
Proof.
  intros Ho. cbn zeta. unfold destroy, cancelling. rewrite !(run_self_bind _ _ _ _ _ o) by done.
  set (first := match job o with Some j => cancel config j | None => _ end).
  rewrite run_bind. cbn zeta. generalize (run h first s w).
  intros [[[]|e] s' w' t]; cbn [value final world trace]; [|done].
  simpl. rewrite app_nil_r. unfold forgotten, on_objects. simpl. do 2 f_equal. apply (alter_alter_eq (set_channel None) (set_pod None)).
Qed.

(** C8  Destroying cancels first, and forgets only once that succeeded: the
    shared placement, the remembered queue, and the object's pod and channel.
    When the cancel fails, the error comes back and nothing is forgotten. *)
Theorem destroy_outcome this s w o :
  objects s !! this = Some o ->
  let c := run h (cancelling this) s w in
  let r := run h (destroy config this) s w in
  value r = value c /\ trace r = trace c /\
  match value c with
  | Err _ => final r = final c
  | Ok _ =>
      objects (final r) = alter (fun o => set_channel None (set_pod None o)) this (objects (final c)) /\
      placements (final r) = delete (sid o) (placements (final c)) /\
      seen_queues (final r) = delete (sid o) (seen_queues (final c))
  end.
Proof.
  intros Ho. cbn zeta. rewrite (run_destroy _ _ _ o) by done. cbn [value final trace].
  by destruct (value (run h (cancelling this) s w)).
Qed.

(** ** Becoming ready *)

(** The object after its fields are set from a placement. *)
Definition placed (p : placement C) (o : sandbox C) : sandbox C :=
  set_channel (Some (p_channel p)) (set_pod (p_pod p) (set_job (Some (p_job p)) o)).

(** A ready sandbox asks nothing of anyone. *)
Lemma ready_again this s w o c :
  objects s !! this = Some o -> channel o = Some c ->
  run h (ready_sandbox config (plain openChannel) this) s w = {| value := Ok tt; final := s; world := w; trace := [] |}.
Proof.
  intros Ho Hc. unfold ready_sandbox. rewrite (run_self_bind _ _ _ _ _ o), Hc by done. done.
Qed.

(** What adopting does: nothing, or all the fields, or the stale placement
    dropped. *)
Lemma run_adopt this s w o :
  objects s !! this = Some o ->
  let r := run h (adopt this) s w in
  match placements s !! sid o with
  | None => value r = Ok false /\ final r = s /\ trace r = []
  | Some p =>
      let look := run h (ready (p_channel p) 0) s w in
      trace r = trace look /\
      match value look with
      | Ok _ => value r = Ok true /\ final r = on_objects (alter (placed p) this) s
      | Err _ => value r = Ok false /\ final r = on_placements (delete (sid o)) s
      end
  end.
Proof.
  intros Ho. cbn zeta. unfold adopt. rewrite (run_self_bind _ _ _ _ _ o), run_bind by done.
  cbn [gets run value final world trace app]. destruct (placements s !! sid o) as [p|]; [|done].
  rewrite run_try, run_bind. cbn zeta.
  assert (final (run h (ready (p_channel p) 0) s w) = s) as Hf by (apply unchanged; intros I; apply quiet_ready).
  revert Hf. generalize (run h (ready (p_channel p) 0) s w).
  intros [[[]|e] s' w' t]; cbn [value final world trace]; intros ->; simpl; rewrite ?app_nil_r; [|done].
  split; [done|]. split; [done|]. unfold on_objects. simpl. f_equal.
  by rewrite !alter_alter_eq.
Qed.

(** With nothing shared there is nothing to adopt. *)
Lemma run_unshared {A} this s w o (k : bool -> M (process C) A) :
  objects s !! this = Some o -> placements s !! sid o = None ->
  run h (b ← adopt this; k b) s w = run h (k false) s w.
Proof.
  intros Ho Hp. rewrite run_bind. cbn zeta. unfold adopt. rewrite (run_self_bind _ _ _ _ _ o), run_bind by done.
  cbn [gets run value final world trace app]. rewrite Hp. cbn [run mret M_ret value final world trace app].
  by destruct (run h (k false) s w).
Qed.

(** A sandbox another instance reached is taken over after exactly one
    look at its agent's health: no job is submitted or searched for, and the
    object gets that placement's job, pod and channel. *)
Theorem ready_adopts this s w o p :
  objects s !! this = Some o -> channel o = None -> placements s !! sid o = Some p ->
  value (run h (ready (p_channel p) 0) s w) = Ok tt ->
  let r := run h (ready_sandbox config (plain openChannel) this) s w in
  value r = Ok tt /\ trace r = trace (run h (ready (p_channel p) 0) s w) /\
  final r = on_objects (alter (placed p) this) s.
Proof.
  intros Ho Hc Hp Hr. cbn zeta. unfold ready_sandbox. rewrite (run_self_bind _ _ _ _ _ o), Hc by done.
  rewrite run_bind. cbn zeta. pose proof (run_adopt this s w o Ho) as Ha. cbn zeta in Ha. rewrite Hp, Hr in Ha.
  revert Ha. generalize (run h (adopt this) s w). intros [v s' w' t]. cbn [value final world trace].
  intros (-> & -> & ->). simpl. by rewrite app_nil_r.
Qed.

(** One step of a program that changes no state. *)
Lemma run_quiet_bind {A B} (p : M (process C) A) (k : A -> M (process C) B) s w :
  (forall I, guarded I starts_nothing (returns (fun _ => True)) p) ->
  let q := run h p s w in
  match value q with
  | Ok a => value (run h (p ≫= k) s w) = value (run h (k a) s (world q)) /\
            final (run h (p ≫= k) s w) = final (run h (k a) s (world q))
  | Err e => value (run h (p ≫= k) s w) = Err e /\ final (run h (p ≫= k) s w) = s
  end.
Proof.
  intros Hp. cbn zeta. pose proof (unchanged h p s w Hp) as Hf. rewrite run_bind. cbn zeta.
  revert Hf. generalize (run h p s w). intros [[a|e] s' w' t]; cbn [value final world]; by intros ->.
Qed.

Lemma run_assign_bind {B} this f (k : M (process C) B) s w :
  run h (assign this f;; k) s w = run h k (on_objects (alter f this) s) w.
Proof. rewrite run_bind. cbn. by destruct (run h k (on_objects (alter f this) s) w). Qed.

Lemma run_defined_bind {A B} this (f : sandbox C -> option A) what a (k : A -> M (process C) B) s w o :
  objects s !! this = Some o -> f o = Some a ->
  run h (x ← self this f ≫= defined what; k x) s w = run h (k a) s w.
Proof.
  intros Ho Hf. rewrite run_bind, run_bind, (run_self _ _ _ _ o), Hf by done. cbn.
  by destruct (run h (k a) s w).
Qed.

(** The object and the shared placement agree: what [reach] leaves. *)
Definition reached this id s : Prop :=
  exists o p, objects s !! this = Some o /\ sid o = id /\ placements s !! id = Some p /\
    channel o = Some (p_channel p) /\ job o = Some (p_job p) /\ sandbox_pod o = p_pod p.

(** No channel is left, in the object or shared. *)
Definition unreached this id s : Prop :=
  exists o, objects s !! this = Some o /\ sid o = id /\ channel o = None /\ placements s !! id = None.

Lemma run_reach this s w o j :
  objects s !! this = Some o -> job o = Some j -> channel o = None -> placements s !! sid o = None ->
  let r := run h (reach config (plain openChannel) this) s w in
  match value r with
  | Ok _ => reached this (sid o) (final r)
  | Err _ => unreached this (sid o) (final r)
  end.
Proof.
  intros Ho Hj Hc Hp. cbn zeta. unfold reach.
  rewrite (run_self_bind _ _ _ _ _ o), (run_defined_bind _ _ _ j _ _ _ o) by done.
  match goal with |- context [run h (waitForRunning config j ?t ≫= ?k) s w] =>
    pose proof (run_quiet_bind (waitForRunning config j t) k s w
                  ltac:(intros I; apply guarded_waitForRunning)) as Hw end.
  cbn zeta in Hw. destruct (value (run h (waitForRunning config j _) s w)) as [pod|e].
  2:{ destruct Hw as [-> ->]. by exists o. }
  destruct Hw as [-> ->]. rewrite run_assign_bind.
  set (s1 := on_objects (alter (set_pod (Some pod)) this) s).
  assert (objects s1 !! this = Some (set_pod (Some pod) o)) as Ho1 by (simpl; by rewrite lookup_alter_eq, Ho).
  rewrite (run_defined_bind _ _ _ j _ _ _ (set_pod (Some pod) o)) by done.
  generalize (world (run h (waitForRunning config j DEFAULT_RUNNING_TIMEOUT_MS) s w)). intros w1.
  match goal with |- context [run h (portUrl config j ?t ≫= ?k) s1 w1] =>
    pose proof (run_quiet_bind (portUrl config j t) k s1 w1 ltac:(intros I; apply guarded_portUrl)) as Hw end.
  cbn zeta in Hw. destruct (value (run h (portUrl config j _) s1 w1)) as [url|e].
  2:{ destruct Hw as [-> ->]. by exists (set_pod (Some pod) o). }
  destruct Hw as [-> ->].
  rewrite (run_defined_bind _ _ _ pod _ _ _ (set_pod (Some pod) o)) by done.
  rewrite plain_bind. set (c := openChannel _). generalize (world (run h (portUrl config j (agentPort config)) s1 w1)). intros w2.
  cbn zeta. match goal with |- context [run h (ready c ?t ≫= ?k) s1 w2] =>
    pose proof (run_quiet_bind (ready c t) k s1 w2 ltac:(intros I; apply quiet_ready)) as Hw end.
  cbn zeta in Hw. destruct (value (run h (ready c _) s1 w2)) as [u|e].
  2:{ destruct Hw as [-> ->]. by exists (set_pod (Some pod) o). }
  destruct Hw as [-> ->]. rewrite run_assign_bind.
  set (s2 := on_objects (alter (set_channel (Some c)) this) s1).
  assert (objects s2 !! this = Some (set_channel (Some c) (set_pod (Some pod) o))) as Ho2
    by (change (objects s2) with (alter (set_channel (Some c)) this (objects s1)); by rewrite lookup_alter_eq, Ho1).
  rewrite (run_defined_bind _ _ _ j _ _ _ _ Ho2) by done. rewrite (run_self_bind _ _ _ _ _ _ Ho2).
  cbn. eexists _, _. split; [exact Ho2|]. split; [done|]. split; [apply lookup_insert_eq|]. done.
Qed.

(** Objects and placements as they were: only a queue may be remembered. *)
Definition same_objects s s' : Prop := objects s' = objects s /\ placements s' = placements s.

Lemma guarded_self_any {A} I P this (f : sandbox C -> A) : guarded I P (returns (fun _ => True)) (self this f).
Proof. intros s _. by destruct (objects s !! this). Qed.

Lemma guarded_queue_same this s : guarded (same_objects s) (fun _ => True) (returns (fun _ => True)) (queue_of config this).
Proof.
  unfold queue_of. eapply guarded_bind; [apply guarded_self_any|]. intros [j|] _; [done|].
  eapply guarded_bind; [apply guarded_self_any|]. intros id _.
  eapply guarded_bind; [apply guarded_self_any|]. intros o _.
  apply guarded_resolve; [done|]. intros ask [= <-].
  eapply guarded_weaken; [| |apply guarded_findQueue]; done.
Qed.

Lemma guarded_job_same this s attach :
  guarded (same_objects s) (fun _ => True) (returns (fun _ => True))
    (if (attach : bool) then existingJob config this else submit_job config this).
Proof.
  destruct attach.
  - unfold existingJob. eapply guarded_bind; [apply guarded_self_any|]. intros id _.
    eapply guarded_bind; [apply guarded_queue_same|]. intros q _. eapply (guarded_bind _ _ (fun _ => True)).
    + eapply guarded_weaken; [| |apply guarded_findJob]; [done|by intros []].
    + by intros [j|] _.
  - unfold submit_job. eapply guarded_bind; [apply guarded_self_any|]. intros id _.
    eapply guarded_bind; [apply guarded_self_any|]. intros o _. cbn zeta.
    eapply (guarded_bind _ _ (fun _ => True)); [by destruct (buildPodSpec _ _ _)|]. intros pod _.
    eapply guarded_bind; [apply guarded_queue_same|]. intros q _.
    eapply guarded_weaken; [| |by apply (guarded_submit _ _ (fun _ => True))]; [done|by intros []].
Qed.

(** A job, once there is one, and nothing shared meanwhile. *)
Lemma run_ensure_job this s w o :
  objects s !! this = Some o ->
  let r := run h (ensure_job config this) s w in
  placements (final r) = placements s /\
  match value r with
  | Ok _ => exists j, objects (final r) !! this = Some (set_job (Some j) o)
  | Err _ => objects (final r) = objects s
  end.
Proof.
  intros Ho. cbn zeta. unfold ensure_job. rewrite (run_self_bind _ _ _ _ _ o) by done. destruct (job o) as [j|] eqn:Ej.
  - split; [done|]. exists j. cbn [run mret M_ret final]. rewrite Ho. destruct o; cbn in *. by subst.
  - rewrite (run_self_bind _ _ _ _ _ o), run_bind by done. cbn zeta.
    match goal with |- context [run h ?pr s w] =>
      pose proof (guarded_run _ _ _ h pr s w (guarded_job_same this s (attachOnly o)) (conj eq_refl eq_refl)) as (_ & [Hso Hsp] & _);
      revert Hso Hsp; generalize (run h pr s w) end.
    intros [[j|e] s1 w1 t1]; cbn [value final world trace]; intros Hso Hsp; [|done].
    cbn [run assign modify value final]. split; [done|]. exists j.
    change (objects (on_objects ?f s1)) with (f (objects s1)). by rewrite lookup_alter_eq, Hso, Ho.
Qed.

(** What becoming ready leaves. *)
Lemma run_ready this s w o :
  objects s !! this = Some o -> channel o = None ->
  let r := run h (ready_sandbox config (plain openChannel) this) s w in
  match value r with
  | Ok _ => exists o' c, objects (final r) !! this = Some o' /\ sid o' = sid o /\ channel o' = Some c /\
      exists p, placements (final r) !! sid o = Some p /\ p_channel p = c /\ job o' = Some (p_job p) /\ sandbox_pod o' = p_pod p
  | Err _ => unreached this (sid o) (final r)
  end.
Proof.
  intros Ho Hc. cbn zeta. unfold ready_sandbox. rewrite (run_self_bind _ _ _ _ _ o), Hc by done.
  rewrite run_bind. cbn zeta. pose proof (run_adopt this s w o Ho) as Ha. cbn zeta in Ha. revert Ha.
  generalize (run h (adopt this) s w). intros [v s0 w0 t]. cbn [value final world trace]. intros Ha.
  assert ((v = Ok true /\ exists p, placements s !! sid o = Some p /\ s0 = on_objects (alter (placed p) this) s) \/
          (v = Ok false /\ objects s0 = objects s /\ placements s0 !! sid o = None)) as [(-> & p & Hp & ->)|(-> & Hos & Hps)].
  { destruct (placements s !! sid o) as [p|] eqn:Hp.
    - destruct Ha as [_ Ha]. destruct (value (run h (ready (p_channel p) 0) s w)); destruct Ha as [-> ->].
      + left. split; [done|]. by exists p.
      + right. split; [done|]. split; [done|]. apply lookup_delete_eq.
    - destruct Ha as (-> & -> & _). right. done. }
  - cbn. exists (placed p o), (p_channel p). rewrite lookup_alter_eq, Ho. repeat split. by exists p.
  - cbn [value]. assert (objects s0 !! this = Some o) as Ho0 by congruence.
    rewrite run_bind. cbn zeta. pose proof (run_ensure_job this s0 w0 o Ho0) as He. cbn zeta in He. revert He.
    generalize (run h (ensure_job config this) s0 w0). intros [[u|e] s1 w1 t1]; cbn [value final world trace]; intros [Hp1 Ho1].
    2:{ exists o. rewrite Ho1, Hp1. done. }
    destruct Ho1 as [j Ho1]. pose proof (run_reach this s1 w1 (set_job (Some j) o) j Ho1 eq_refl Hc) as Hr. cbn zeta in Hr.
    specialize (Hr ltac:(by rewrite Hp1)). destruct (value (run h (reach config (plain openChannel) this) s1 w1)); [|done].
    destruct Hr as (o' & p & H1' & H2' & H3' & H4' & H5' & H6'). exists o', (p_channel p). repeat split; try done. by exists p.
Qed.

(** C4  Becoming ready either reaches the agent or leaves no channel behind: on
    success the object's job, pod and channel are those of the
    placement it shares; on failure it has no channel, and neither has any
    stale placement been kept for the next instance to find. *)
Theorem ready_outcome this s w o :
  objects s !! this = Some o -> channel o = None ->
  let r := run h (ready_sandbox config (plain openChannel) this) s w in
  match value r with
  | Ok _ => exists o' c, objects (final r) !! this = Some o' /\ sid o' = sid o /\ channel o' = Some c /\
      exists p, placements (final r) !! sid o = Some p /\ p_channel p = c /\ job o' = Some (p_job p) /\ sandbox_pod o' = p_pod p
  | Err _ => unreached this (sid o) (final r)
  end.
Proof. exact (run_ready this s w o). Qed.
End alone.

(** ** Writing files through the agent *)

Section writing.
Context `{Platform} {W : Type} (endpoint : AgentEndpoint) (h : handler W).

Definition file_request (f : SandboxFileWrite) : request := write_request endpoint (write_path f) (write_content f).

Lemma write_from_trace rounds files (s : process AgentEndpoint) w :
  (length files <= rounds)%nat ->
  let r := run h (write_from rounds endpoint files) s w in
  Forall (fun c => exists rs, c = FetchAll rs /\ (length rs <= WRITE_CONCURRENCY)%nat) (trace r) /\
  (exists later, map file_request files = requests_of (trace r) ++ later /\ (value r = Ok tt -> later = [])) /\
  final r = s.
Proof.
  revert files w; induction rounds as [|rounds IH]; intros files w Hl; cbn zeta.
  - destruct files; [|simpl in Hl; lia]. cbn. repeat split; [constructor|]. by exists [].
  - destruct files as [|f files]; [cbn; repeat split; [constructor|]; by exists []|].
    set (all := f :: files) in *. change (write_from (S rounds) endpoint all)
      with (write_batch endpoint (take WRITE_CONCURRENCY all);; write_from rounds endpoint (drop WRITE_CONCURRENCY all)).
    rewrite run_bind. cbn zeta. unfold write_batch. rewrite run_pbind. cbn [writeAll AgentChannel agent_writeAll run].
    rewrite map_map. change (map (fun x => write_request endpoint _ _) (take WRITE_CONCURRENCY all))
      with (map file_request (take WRITE_CONCURRENCY all)).
    destruct (h (FetchAll (map file_request (take WRITE_CONCURRENCY all))) w) as [a w1].
    cbn [value final world trace lift run app]. 
    assert (length (drop WRITE_CONCURRENCY all) <= rounds)%nat as Hd
      by (rewrite length_drop; unfold WRITE_CONCURRENCY, all; simpl in *; lia).
    assert (length (map file_request (take WRITE_CONCURRENCY all)) <= WRITE_CONCURRENCY)%nat as H8
      by (rewrite length_map, length_take; lia).
    assert (map file_request all = map file_request (take WRITE_CONCURRENCY all) ++ map file_request (drop WRITE_CONCURRENCY all)) as Hall
      by (rewrite <- map_app; by rewrite take_drop).
    destruct (first_failure _ _) as [[]|e]; cbn [value final world trace].
    + destruct (IH (drop WRITE_CONCURRENCY all) w1 Hd) as (IH1 & (later & IH2 & IH3) & IH4).
      split; [constructor; [by eexists|done]|]. split; [|done]. exists later. split; [|done].
      rewrite Hall, IH2. unfold requests_of. simpl. by rewrite app_assoc.
    + split; [constructor; [by eexists|constructor]|]. split; [|done].
      exists (map file_request (drop WRITE_CONCURRENCY all)). split; [|done].
      rewrite Hall. unfold requests_of. simpl. by rewrite app_nil_r.
Qed.
End writing.

(** C35  Writing files sends one request per file, in order, never more than
    eight at once: every call is a batch of at most [WRITE_CONCURRENCY]
    writes, what is sent is a prefix of the files' requests, and it is all of
    them when the call returns; each body is the file's bytes as they are. *)
Theorem writeFiles_batches `{Platform} {W} config openChannel (h : handler W) this (s : process AgentEndpoint) w o c files :
  objects s !! this = Some o -> channel o = Some c ->
  let r := run h (writeFiles config (plain openChannel) this files) s w in
  Forall (fun x => exists rs, x = FetchAll rs /\ (length rs <= WRITE_CONCURRENCY)%nat) (trace r) /\
  (exists later, map (file_request c) files = requests_of (trace r) ++ later /\ (value r = Ok tt -> later = [])) /\
  Forall (fun f => payload_of (file_request c f)
                   = Some (RawPayload (match write_content f with Text t => utf8_encode t | Bytes b => b end))) files.
Proof.
  intros Ho Hc. cbn zeta. unfold writeFiles.
  assert (Forall (fun f => payload_of (file_request c f)
            = Some (RawPayload (match write_content f with Text t => utf8_encode t | Bytes b => b end))) files) as Hp
    by (apply list.Forall_forall; intros f _; by destruct f as [p []]).
  case_decide as Hf; [subst; split; [constructor|]; split; [by exists []|done]|].
  rewrite run_bind, (run_open _ _ _ _ _ _ o c) by done. cbn [value final world trace app].
  destruct (write_from_trace c h (length files) files s w) as (H1 & H2 & _); [done|].
  split; [exact H1|]. split; [exact H2 | exact Hp].
Qed.

(** ** Witnesses *)

#[local] Existing Instance example_platform.

Definition open_object : sandbox AgentEndpoint :=
  set_channel (Some example_endpoint) (set_job (Some example_job) (construct "s1" None false)).
Definition fresh_object : sandbox AgentEndpoint := construct "s1" None false.
Definition shared_placement : placement AgentEndpoint :=
  {| p_job := example_job; p_pod := Some (pod example_endpoint); p_channel := example_endpoint |}.
Definition one_object (o : sandbox AgentEndpoint) : process AgentEndpoint :=
  {| objects := {[ 0%nat := o ]}; placements := {[ "s1" := shared_placement ]}; seen_queues := ∅; kept := None |}.

Lemma exec_outcome_witness :
  value (run exec_world (exec_sandbox example_config (plain id) 0 "ls" None) (one_object open_object) tt)
  = Ok (ExecFailure "hi" "!" COMMAND_FAILED).
Proof.
  destruct (exec_outcome example_config id exec_world 0 (one_object open_object) tt open_object example_endpoint "ls" None "ls")
    as (_ & _ & Hv); [reflexivity|reflexivity|reflexivity|].
  etransitivity; [exact Hv|]. vm_compute. reflexivity.
Defined.

(** An agent that starts everything as process 7. *)
Definition starting_world : handler unit := answering (fun _ => Ok (http_ok (json_stringify (JObj [("pid", JNum (Int 7))])))).

Lemma startProcess_outcome_witness :
  exists p, value (run starting_world (startProcess_sandbox example_config (plain id) 0 "marimo edit" None) (one_object open_object) tt) = Ok p
    /\ process_id p = "armada-proc-7" /\ process_pid p = Int 7.
Proof.
  destruct (startProcess_outcome example_config id starting_world 0 (one_object open_object) tt open_object example_endpoint "marimo edit" None)
    as (prefix & _ & _ & _ & Hv); [reflexivity|reflexivity|split; constructor|split; constructor|constructor|].
  assert (value (run starting_world (startProcess example_endpoint ["sh"; "-lc"; prefix +:+ "marimo edit"]
            ((None : option StartProcessOptions) ≫= cwd)) (one_object open_object) tt) = Ok (Int 7)) as E by (vm_compute; reflexivity).
  rewrite E in Hv. destruct Hv as (p & Hp & _ & _ & Hpid & Hid). exists p.
  split; [exact Hp|]. split; [rewrite Hid; vm_compute; reflexivity | exact Hpid].
Defined.

Lemma destroy_outcome_witness :
  let c := run exec_world (cancelling example_config 0) (one_object open_object) tt in
  let r := run exec_world (destroy example_config 0) (one_object open_object) tt in
  value r = value c /\ trace r = trace c /\
  match value c with
  | Err _ => final r = final c
  | Ok _ =>
      objects (final r) = alter (fun o => set_channel None (set_pod None o)) 0%nat (objects (final c)) /\
      placements (final r) = delete (sid open_object) (placements (final c)) /\
      seen_queues (final r) = delete (sid open_object) (seen_queues (final c))
  end.
Proof. apply (destroy_outcome example_config exec_world 0 (one_object open_object) tt open_object). reflexivity. Defined.

Definition healthy : handler unit := answering (fun _ => Ok (http_ok "ok")).

Lemma ready_adopts_witness :
  let r := run healthy (ready_sandbox example_config (plain id) 0) (one_object fresh_object) tt in
  value r = Ok tt /\
  trace r = trace (run healthy (ready (p_channel shared_placement) 0) (one_object fresh_object) tt) /\
  final r = on_objects (alter (placed shared_placement) 0%nat) (one_object fresh_object).
Proof.
  apply (ready_adopts example_config id healthy 0 (one_object fresh_object) tt fresh_object shared_placement);
    [reflexivity|reflexivity|reflexivity|vm_compute; reflexivity].
Defined.

Lemma ready_outcome_witness :
  unreached 0 "s1" (final (run offline (ready_sandbox example_config (plain id) 0) (one_object fresh_object) tt)).
Proof.
  pose proof (ready_outcome example_config id offline 0 (one_object fresh_object) tt fresh_object eq_refl eq_refl) as Hr.
  cbn zeta in Hr.
  assert (exists e, value (run offline (ready_sandbox example_config (plain id) 0) (one_object fresh_object) tt) = Err e)
    as [e He] by (eexists; vm_compute; reflexivity).
  rewrite He in Hr. exact Hr.
Defined.

Lemma writeFiles_batches_witness :
  let r := run healthy (writeFiles example_config (plain id) 0 [{| write_path := "/a"; write_content := Text "x" |}]) (one_object open_object) tt in
  Forall (fun x => exists rs, x = FetchAll rs /\ (length rs <= WRITE_CONCURRENCY)%nat) (trace r) /\
  (exists later, map (file_request example_endpoint) [{| write_path := "/a"; write_content := Text "x" |}]
                 = requests_of (trace r) ++ later /\ (value r = Ok tt -> later = [])) /\
  Forall (fun f => payload_of (file_request example_endpoint f)
                   = Some (RawPayload (match write_content f with Text t => utf8_encode t | Bytes b => b end)))
         [{| write_path := "/a"; write_content := Text "x" |}].
Proof.
  apply (writeFiles_batches example_config id healthy 0 (one_object open_object) tt open_object example_endpoint); reflexivity.
Defined.
