(* ===== verification/ProcessSpec.v ===== *)
(** What the handle of a started process does, and how a port is exposed and
    probed (src/sandbox.ts). *)
From S2P Require Import Prelude JsString Regex Encoding Sha256 JsNumber Json Io Shell Ndjson Types Auth Config PodSpec Queues Armada Channel Sandbox SandboxInv SandboxSpec.

(** ** Processes *)

Section processes.
Context `{Platform} {C W : Type} `{QuietChannel (process C) C}.
Context (config : ArmadaConfig) (openChannel : AgentEndpoint -> C) (h : handler W).
Implicit Types (s : process C) (p : @ArmadaProcess C).

(** The log, for a message: what the agent has of it, or nothing. *)
Definition log_text (o : outcome (process C) W (result string)) : string :=
  match value o with Ok text => text | Err _ => "" end.

Lemma run_logsQuietly p s w :
  let log := run h (processLogs (process_channel p) (process_pid p)) s w in
  run h (logsQuietly p) s w = {| value := Ok (log_text log); final := s; world := world log; trace := trace log |}.
Proof.
  cbn zeta. unfold logsQuietly, log_text. rewrite run_try. cbn zeta.
  pose proof (unchanged h (processLogs (process_channel p) (process_pid p)) s w ltac:(intros I; apply quiet_processLogs)) as Hf.
  revert Hf. generalize (run h (processLogs (process_channel p) (process_pid p)) s w).
  intros [[t|e] s' w' l]; cbn [value final world trace]; intros ->; [done|]. cbn. by rewrite app_nil_r.
Qed.

(** C16 Waiting for a process's port is one question to the agent, about that
    process and for thirty seconds when the caller names no time, and it
    returns exactly when the port is open.  A process that died first and a
    port that stayed closed are told apart, by messages that hold the whole
    log; that the log cannot be had does not hide the failure. *)
Theorem waitForPort_process_outcome p port m path timeout s w :
  let ms := match timeout with Some t => t | None => 30000%Z end in
  let wait := run h (waitForPort (process_channel p) port ms (Some (process_pid p)) (probeOf m path)) s w in
  let log := run h (processLogs (process_channel p) (process_pid p)) s (world wait) in
  let r := run h (waitForPort_process p port m path timeout) s w in
  final r = s /\
  match value wait with
  | Err e => value r = Err e /\ trace r = trace wait
  | Ok seen =>
      (value r = Ok tt <-> open seen = true) /\
      trace r = trace wait ++ (if open seen then [] else trace log) /\
      (open seen = false -> exited seen = true ->
       value r = throw ("process exited before port " +:+ string_of_Z port +:+ " opened."
                        +:+ trim_end (String newline (log_text log)))) /\
      (open seen = false -> exited seen = false ->
       value r = throw ("timed out waiting for port " +:+ string_of_Z port +:+ " in " +:+ process_where p +:+ " after "
                        +:+ string_of_Z ms +:+ "ms." +:+ String newline (log_text log)))
  end.
Proof.
  cbn zeta. unfold waitForPort_process. change (default 30000%Z timeout) with (match timeout with Some t => t | None => 30000%Z end).
  set (ms := match timeout with Some t => t | None => 30000%Z end). cbn zeta.
  pose proof (unchanged h (waitForPort (process_channel p) port ms (Some (process_pid p)) (probeOf m path)) s w
                ltac:(intros I; apply quiet_waitForPort)) as Hf.
  rewrite run_bind. cbn zeta. revert Hf.
  generalize (run h (waitForPort (process_channel p) port ms (Some (process_pid p)) (probeOf m path)) s w).
  intros [[seen|e] s' w' t]; cbn [value final world trace]; intros ->; [|done].
  destruct (open seen); [cbn; by rewrite app_nil_r|].
  rewrite run_bind, run_logsQuietly. cbn zeta. cbn [value final world trace].
  generalize (run h (processLogs (process_channel p) (process_pid p)) s w'). intros log.
  destruct (exited seen); cbn [run lift value final world trace]; rewrite app_nil_r; split; try done; split; try done; split; try done.
  split; [|done]. intros _ _. f_equal. f_equal.
  pose proof (trim_under "p" ("rocess exited before port " +:+ string_of_Z port +:+ " opened") (String newline (log_text log)) eq_refl) as Ht.
  change (String "p" ("rocess exited before port " +:+ ?x)) with ("process exited before port " +:+ x) in Ht.
  rewrite !string_app_assoc in Ht. exact Ht.
Qed.

(** C34 Asking whether a port is ready never throws, never changes anything and
    never starts a sandbox: with neither a channel of its own nor a shared
    placement the answer is no, without a call; else it is one look at that
    agent, over HTTP unless another mode is named, that waits for nothing, and
    an agent that cannot be asked counts as no. *)
Theorem isPortReady_outcome this s w o port m path :
  objects s !! this = Some o ->
  let r := run h (isPortReady this port m path) s w in
  final r = s /\
  match (match channel o with Some c => Some c | None => p_channel <$> placements s !! sid o end) with
  | None => value r = Ok false /\ trace r = []
  | Some c =>
      let mode := match m with Some m => m | None => http end in
      let look := run h (waitForPort c port 0 None (Some {| mode := Some mode; path := path |})) s w in
      trace r = trace look /\
      value r = Ok (match value look with Ok seen => open seen | Err _ => false end)
  end.
Proof.
  intros Ho. cbn zeta. unfold isPortReady. rewrite !(run_self_bind _ _ _ _ _ _ o) by done.
  rewrite run_bind. cbn [gets run value final world trace app].
  destruct (match channel o with Some c => Some c | None => p_channel <$> placements s !! sid o end) as [c|]; [|done].
  change (probeOf (Some (default http m)) path) with (Some {| mode := Some (match m with Some m => m | None => http end); path := path |}).
  unfold PORT_READY_TIMEOUT_MS. rewrite run_try, run_bind. cbn zeta.
  match goal with |- context [waitForPort c port 0 None ?pr] =>
    pose proof (unchanged h (waitForPort c port 0 None pr) s w ltac:(intros I; apply quiet_waitForPort)) as Hf;
    revert Hf; generalize (run h (waitForPort c port 0 None pr) s w) end.
  intros [[seen|e] s' w' t]; cbn [value final world trace]; intros ->; cbn; by rewrite ?app_nil_r.
Qed.
End processes.

(** ** Witness *)

#[local] Existing Instance example_platform.

(** An agent that finds every port open. *)
Definition opening_world : handler unit := answering (fun _ => Ok (http_ok (json_stringify (JObj [("open", JBool true)])))).

Lemma isPortReady_outcome_witness :
  value (run opening_world (isPortReady (C := AgentEndpoint) 0 8123 None (Some "/")) (one_object fresh_object) tt) = Ok true.
Proof.
  destruct (isPortReady_outcome opening_world 0 (one_object fresh_object) tt fresh_object 8123 None (Some "/") eq_refl) as (_ & _ & Hv).
  etransitivity; [exact Hv|]. vm_compute. reflexivity.
Defined.

(** A process that died, and left a log. *)
Definition dead_process : @ArmadaProcess AgentEndpoint :=
  {| process_id := "p1"; process_command := "serve"; process_channel := example_endpoint;
     process_where := "the sandbox pod"; process_pid := Int 7 |}.

Definition exited_world : handler unit := answering (fun r =>
  Ok (http_ok (if includes "/process/logs" (url r) then "no such module"
               else json_stringify (JObj [("open", JBool false); ("exited", JBool true)])))).

Lemma waitForPort_process_outcome_witness :
  value (run exited_world (waitForPort_process dead_process 8123 None None None) (one_object fresh_object) tt) =
  throw ("process exited before port 8123 opened." +:+ String newline "no such module").
Proof.
  destruct (waitForPort_process_outcome exited_world dead_process 8123 None None None (one_object fresh_object) tt) as (_ & _ & _ & Hv & _).
  etransitivity; [apply Hv; vm_compute; reflexivity|]. vm_compute. reflexivity.
Defined.
