(* ===== verification/Provider.v ===== *)
(** The compute provider (src/provider.ts) and the adapter module that makes it
    (src/index.ts); and the process they run in: any number of sandboxes being
    created, operated on and swept at once. *)
From S2P Require Import Prelude JsString Regex Encoding Sha256 JsNumber Json Io Shell Ndjson Types Auth Config PodSpec Queues Armada Channel Sandbox SandboxInv SandboxSpec.

(** ** The provider *)

(** An [AgentChannel] is the endpoint it was made for. *)
Definition new_AgentChannel (endpoint : AgentEndpoint) : AgentEndpoint := endpoint.

Definition openAgent : AgentEndpoint -> M (process AgentEndpoint) AgentEndpoint := plain new_AgentChannel.

(** A provider object: what it declares and, as an optional member, the
    enumeration it can do.  Its client, its directory and the placements are
    the functions of [config] and the process state they stand for. *)
Record ArmadaCompute := {
  compute_config : ArmadaConfig;
  declared : capabilities;
  list_active : option (nat -> M (process AgentEndpoint) (list ActiveSandbox))
}.

Section provider.
Context `{Platform}.

(** [for (const job of jobs) this.queues.remember(job.id, job.queue)]. *)
Fixpoint remember_found (jobs : list ActiveJob) : M (process AgentEndpoint) unit :=
  match jobs with
  | [] => mret tt
  | j :: jobs => remember (active_id (job_sandbox j)) (Named (in_queue j));; remember_found jobs
  end.

Definition sweep (config : ArmadaConfig) (pages : nat) : M (process AgentEndpoint) (list ActiveSandbox) :=
  jobs ← listActive config pages;
  remember_found jobs;;
  mret (map job_sandbox jobs).

Definition new_ArmadaCompute (config : ArmadaConfig) : ArmadaCompute :=
  {| compute_config := config;
     declared := {| multiPort := (0 <? length (surfacePorts config))%nat;
                    computeProfiles := true;
                    gpuProfiles := (0 <? length (obj_keys (gpuNodeSelectors config)))%nat |};
     list_active := match lookoutUrl config with None => None | Some _ => Some (sweep config) end |}.

(** [AdapterFactoryContext], and what the module makes of it. *)
Record AdapterFactoryContext := { ctx_env : environment; ctx_compute : option compute_context }.

Definition create_adapter (files : file_reader) (context : AdapterFactoryContext) : result ArmadaCompute :=
  config ← readConfig files (ctx_env context) (ctx_compute context);
  Ok (new_ArmadaCompute config).

(** What marimohub loads: the version of the interface it is of, what it
    provides, and how one is made. *)
Record ComputeAdapterModule := {
  apiVersion : Z;
  module_kind : string;
  module_create : file_reader -> AdapterFactoryContext -> result ArmadaCompute
}.

Definition manifest : ComputeAdapterModule :=
  {| apiVersion := 1; module_kind := "compute"; module_create := create_adapter |}.
End provider.

(** [new ArmadaSandbox(...)] at the address [at_] the allocator gives. *)
Definition new_sandbox {C} (at_ : nat) (id : SandboxId) (o : option CreateSandboxOptions) (attach : bool) (s : process C) : process C :=
  on_objects <[at_ := construct id o attach]> s.

Definition create {C} (at_ : nat) (id : SandboxId) (o : option CreateSandboxOptions) : process C -> process C :=
  new_sandbox at_ id o false.
Definition connectExisting {C} (at_ : nat) (id : SandboxId) (o : option CreateSandboxOptions) : process C -> process C :=
  new_sandbox at_ id o true.

Definition proxy (r : request) : option response := None.

(** ** The process marimohub runs it in *)

(** The programs running, the state they share and the calls made so far, with
    what each sandbox object was constructed as, by address. *)
Record service := {
  running : pool (process AgentEndpoint) (result unit);
  births : list (SandboxId * bool)
}.

Definition started : service :=
  {| running := {| threads := []; shared := {| objects := ∅; placements := ∅; seen_queues := ∅; kept := None |}; calls := [] |};
     births := [] |}.

Definition with_thread (t : prog (process AgentEndpoint) (result unit)) (p : pool (process AgentEndpoint) (result unit)) :=
  {| threads := threads p ++ [t]; shared := shared p; calls := calls p |}.
Definition with_shared (s : process AgentEndpoint) (p : pool (process AgentEndpoint) (result unit)) :=
  {| threads := threads p; shared := s; calls := calls p |}.

(** One move of the process: of a program running, or of marimohub, which
    makes a sandbox, uses one it made, or sweeps. [kind] says which sandboxes
    it makes: by [create] ([false]), by [connectExisting] ([true]), or both. *)
Inductive service_step `{Platform} (config : ArmadaConfig) (kind : bool -> Prop) : service -> service -> Prop :=
| svc_move p p' bs :
    pool_step p p' ->
    service_step config kind {| running := p; births := bs |} {| running := p'; births := bs |}
| svc_create p bs id o :
    kind false ->
    service_step config kind {| running := p; births := bs |}
      {| running := with_shared (create (length bs) id o (shared p)) p; births := bs ++ [(id, false)] |}
| svc_connect p bs id o :
    kind true ->
    service_step config kind {| running := p; births := bs |}
      {| running := with_shared (connectExisting (length bs) id o (shared p)) p; births := bs ++ [(id, true)] |}
| svc_use p bs n op :
    (n < length bs)%nat ->
    service_step config kind {| running := p; births := bs |}
      {| running := with_thread (perform config openAgent n op) p; births := bs |}
| svc_sweep p bs pages list :
    list_active (new_ArmadaCompute config) = Some list ->
    service_step config kind {| running := p; births := bs |}
      {| running := with_thread (ignore (list pages)) p; births := bs |}.

(** ** What the provider offers *)

Section offers.
Context `{Platform}.

Lemma mapped_queues_mapped config : mapped config = true -> mapped_queues config <> [].
Proof.
  intros Hm Hnone. apply (f_equal (@length _)), mapped_queues_none in Hnone.
  unfold mapped in Hm. apply Nat.ltb_lt in Hm. pose proof (js_set_NoDup (queue config :: obj_values (queueByUser config) ++ obj_values (queueByProject config))) as Hnd.
  change (js_set _) with (all_queues config) in Hnd.
  assert (forall q, q ∈ all_queues config -> q = queue config) as Hq.
  { intros q. unfold all_queues. rewrite elem_of_js_set. intros [->|Hin]%elem_of_cons; [done|].
    by eapply list.Forall_forall in Hnone. }
  destruct (all_queues config) as [|x [|y l]]; simpl in Hm; [lia|lia|].
  rewrite (Hq x), (Hq y) in Hnd by set_solver. apply list.NoDup_cons in Hnd as [Hn _]. set_solver.
Qed.

(** The adapter refuses to start on a configuration that does not read,
    and otherwise offers exactly what the configuration supports: several
    ports when a surface is enabled, GPU profiles when GPU types are mapped,
    enumeration when there is a Lookout; and there is one whenever owners are
    mapped to other queues than the default. *)
Theorem adapter_offers files context :
  match readConfig files (ctx_env context) (ctx_compute context) with
  | Err e => create_adapter files context = Err e
  | Ok config => exists p, create_adapter files context = Ok p /\ compute_config p = config /\
      (multiPort (declared p) = true <-> surfacePorts config <> []) /\
      (gpuProfiles (declared p) = true <-> gpuNodeSelectors config <> []) /\
      (is_Some (list_active p) <-> is_Some (lookoutUrl config)) /\
      (mapped config = true -> is_Some (list_active p))
  end.
Proof.
  unfold create_adapter. destruct (readConfig files _ _) as [config|e] eqn:E; [|done].
  exists (new_ArmadaCompute config). split; [done|]. split; [done|]. cbn [new_ArmadaCompute declared multiPort gpuProfiles list_active].
  split; [by destruct (surfacePorts config)|]. split; [by destruct (gpuNodeSelectors config)|].
  split; [by destruct (lookoutUrl config)|]. intros Hm.
  assert (lookoutUrl config <> None) as Hl; [|by destruct (lookoutUrl config)].
  eapply readConfig_lookout; [exact E|]. by apply mapped_queues_mapped.
Qed.
End offers.

(** ** Sweeping *)

Section sweeping.
Context `{Platform} {W : Type} (config : ArmadaConfig) (h : handler W).

Definition found_ids (found : list ActiveJob) : list SandboxId := map (fun a => active_id (job_sandbox a)) found.

Definition keyed (kv : string * ActiveJob) : Prop := fst kv = active_id (job_sandbox (snd kv)).

Lemma add_active_keyed jobs acc :
  NoDup (obj_keys acc) -> Forall keyed acc ->
  NoDup (obj_keys (foldl add_active acc jobs)) /\ Forall keyed (foldl add_active acc jobs).
Proof.
  revert acc; induction jobs as [|j jobs IH]; intros acc Hn Hk; simpl; [done|]. unfold add_active.
  destruct (active_of j); apply IH; try done; [by apply map_set_NoDup | by apply map_set_Forall].
Qed.

(** Whatever Lookout answers, the client's list names a sandbox once. *)
Lemma guarded_listActive_ids pages s :
  guarded (eq s) (fun _ => True) (returns (fun found => NoDup (found_ids found))) (listActive (S := process AgentEndpoint) config pages).
Proof.
  unfold listActive. destruct (lookoutUrl config) as [lookout|]; [|done].
  assert (NoDup (obj_keys (@nil (string * ActiveJob))) /\ Forall keyed []) as [Hn Hk] by (split; constructor).
  revert Hn Hk. generalize 0%nat, (@nil (string * ActiveJob)).
  induction pages as [|pages IH]; intros skip acc Hn Hk; [done|]. cbn [list_pages].
  eapply (guarded_bind _ _ (fun _ => True)).
  - eapply (guarded_bind _ _ (fun _ => True)); [by apply guarded_postJsonTo | by intros].
  - intros jobs _. destruct (add_active_keyed jobs acc Hn Hk) as [Hn' Hk'].
    case_match; [|by apply IH]. simpl. unfold found_ids. rewrite map_map.
    replace (map (fun x => active_id (job_sandbox (snd x))) (foldl add_active acc jobs))
      with (obj_keys (foldl add_active acc jobs)); [done|].
    apply map_ext_in. intros kv Hkv%list_elem_of_In. by eapply list.Forall_forall in Hk'.
Qed.

Lemma run_remember_found jobs s w :
  run h (remember_found jobs) s w =
  {| value := Ok tt;
     final := update_remembered (fun m => foldl (fun m j => <[active_id (job_sandbox j) := Named (in_queue j)]> m) m jobs) s;
     world := w; trace := [] |}.
Proof.
  revert s; induction jobs as [|j jobs IH]; intros s; [by destruct s|]. cbn [remember_found].
  rewrite run_bind. cbn [remember modify run value final world trace app]. by rewrite IH.
Qed.

Lemma remembered_found jobs j (m : gmap SandboxId qname) :
  NoDup (found_ids jobs) -> j ∈ jobs ->
  foldl (fun m j => <[active_id (job_sandbox j) := Named (in_queue j)]> m) m jobs !! active_id (job_sandbox j)
  = Some (Named (in_queue j)).
Proof.
  induction jobs as [|j' jobs IH] using rev_ind; intros Hn Hj; [by apply not_elem_of_nil in Hj|].
  unfold found_ids in Hn. rewrite map_app in Hn. apply list.NoDup_app in Hn as (Hn & Hd & _).
  rewrite foldl_app. simpl. apply elem_of_app in Hj as [Hj|Hj%list_elem_of_singleton].
  - rewrite lookup_insert_ne; [by apply IH|]. intros E.
    apply (Hd (active_id (job_sandbox j))); [by apply list_elem_of_fmap_2 with (f := fun a => active_id (job_sandbox a))|].
    rewrite <- E. by left.
  - subst j'. apply lookup_insert_eq.
Qed.

Lemma run_queue_known this s w o q :
  objects s !! this = Some o -> job o = None -> remembered s !! sid o = Some q ->
  run h (queue_of (C := AgentEndpoint) config this) s w = {| value := Ok q; final := s; world := w; trace := [] |}.
Proof.
  intros Ho Hj Hq. unfold queue_of. rewrite (run_self_bind _ _ _ _ _ _ o), Hj by done.
  rewrite !(run_self_bind _ _ _ _ _ _ o) by done. unfold resolve. rewrite run_bind. cbn [gets run value final world trace].
  by rewrite Hq.
Qed.

(** C9  What a sweep returns can be destroyed by its id alone: it is the list
    the client found, one entry per sandbox, and a new sandbox for any of them
    cancels in the queue its job was found in, asking Lookout nothing more. *)
Theorem sweep_then_destroy pages s w found :
  value (run h (sweep config pages) s w) = Ok found ->
  exists jobs, value (run h (listActive config pages) s w) = Ok jobs /\
    found = map job_sandbox jobs /\ NoDup (found_ids jobs) /\
    forall j at_ w', j ∈ jobs ->
      let id := active_id (job_sandbox j) in
      let s' := create at_ id None (final (run h (sweep config pages) s w)) in
      let d := run h (destroy config at_) s' w' in
      let c := run h (cancelSet config id (Named (in_queue j))) s' w' in
      value d = value c /\ trace d = trace c.
Proof.
  intros Hv. unfold sweep in *. rewrite run_bind in Hv |- *. cbn zeta in *.
  pose proof (guarded_run _ _ _ h _ s w (guarded_listActive_ids pages s) eq_refl) as (Hn & Hs & _).
  revert Hv Hn Hs. generalize (run h (listActive config pages) s w). intros [[jobs|e] s0 w0 t0]; cbn [value final world trace]; [|done].
  intros Hv Hn <-. rewrite run_bind, run_remember_found in Hv |- *. cbn [value final world trace app run mret M_ret] in *.
  exists jobs. split; [done|]. split; [congruence|]. split; [done|]. intros j at_ w' Hj. cbn zeta.
  set (id := active_id (job_sandbox j)).
  match goal with |- context [create at_ id None ?x] => set (s1 := create at_ id None x) end.
  assert (objects s1 !! at_ = Some (construct id None false)) as Ho by apply lookup_insert_eq.
  assert (remembered s1 !! id = Some (Named (in_queue j))) as Hr by (by apply remembered_found).
  clearbody s1. rewrite (run_destroy config h at_ s1 w' _ Ho). cbn [value trace]. unfold cancelling.
  rewrite !(run_self_bind _ _ _ _ _ _ _ Ho). cbn [job construct sid].
  rewrite run_bind, (run_queue_known _ _ _ _ _ Ho eq_refl Hr). cbn [value final world trace app].
  by destruct (run h (cancelSet config id _) s1 w').
Qed.
End sweeping.

(** ** The process, whatever happens in it *)

Section running.
Context `{Platform} (config : ArmadaConfig) (kind : bool -> Prop).

Definition born (bs : list (SandboxId * bool)) (n : nat) : option (SandboxId * bool) := bs !! n.

(** The calls the process may make: when it only attaches, none that starts a
    job. *)
Definition permitted (c : io) : Prop := (forall b, kind b -> b = true) -> starts_nothing c.

(** A program that is fine whatever else is made later. *)
Definition well_behaved (bs : list (SandboxId * bool)) (t : prog (process AgentEndpoint) (result unit)) : Prop :=
  forall later, guarded (process_ok config new_AgentChannel (born (bs ++ later))) permitted (fun _ => True) t.

Definition service_ok (x : service) : Prop :=
  Forall (fun b => kind (snd b)) (births x) /\
  Forall (well_behaved (births x)) (threads (running x)) /\
  process_ok config new_AgentChannel (born (births x)) (shared (running x)) /\
  Forall permitted (calls (running x)).

Lemma born_later bs later n b : born bs n = Some b -> born (bs ++ later) n = Some b.
Proof. apply lookup_app_l_Some. Qed.

Lemma process_ok_later bs later s :
  process_ok config new_AgentChannel (born bs) s -> process_ok config new_AgentChannel (born (bs ++ later)) s.
Proof.
  intros [Ho Hp]. split; [|done]. intros n o Hn. destruct (Ho n o Hn) as [Hb Hok].
  split; [by apply born_later | done].
Qed.

Lemma well_behaved_later bs later t : well_behaved bs t -> well_behaved (bs ++ later) t.
Proof. intros Ht more. rewrite <- (assoc_L (++)). apply Ht. Qed.

Lemma object_ok_construct id o attach : object_ok config new_AgentChannel (construct (C := AgentEndpoint) id o attach).
Proof. repeat split; try done; constructor. Qed.

Lemma process_ok_new bs s id o attach :
  process_ok config new_AgentChannel (born bs) s ->
  process_ok config new_AgentChannel (born (bs ++ [(id, attach)])) (new_sandbox (length bs) id o attach s).
Proof.
  intros Hok. pose proof (process_ok_later bs [(id, attach)] s Hok) as [Ho Hp]. split; [|done].
  intros n x. unfold new_sandbox. cbn [on_objects objects]. intros [[<- <-]|[_ Hn]]%lookup_insert_Some; [|by apply Ho].
  split; [unfold born; by apply list_lookup_middle | apply object_ok_construct].
Qed.

Lemma well_behaved_perform bs n op :
  Forall (fun b => kind (snd b)) bs -> (n < length bs)%nat -> well_behaved bs (perform config openAgent n op).
Proof.
  intros Hk [[id attach] Hn]%lookup_lt_is_Some_2 later.
  eapply guarded_weaken; [| |apply (guarded_perform config new_AgentChannel (born (bs ++ later)) n id attach); [by apply born_later|done]].
  - intros c Hc Hall. apply Hc. apply Hall. by eapply (Forall_lookup_1 _ _ _ _ Hk) in Hn.
  - done.
Qed.

Lemma guarded_remember_found I P jobs :
  (forall f s, I s -> I (update_remembered f s)) -> guarded I P (returns (fun _ => True)) (remember_found jobs).
Proof.
  intros HI. induction jobs as [|j jobs IH]; [done|]. cbn [remember_found].
  eapply (guarded_bind _ _ (fun _ => True)); [|done]. apply guarded_modify. auto.
Qed.

Lemma guarded_sweep I pages :
  (forall f s, I s -> I (update_remembered f s)) ->
  guarded I starts_nothing (returns (fun _ => True)) (sweep config pages).
Proof.
  intros HI. unfold sweep. eapply guarded_bind; [apply guarded_listActive|]. intros jobs _.
  eapply guarded_bind; [by apply guarded_remember_found | done].
Qed.

Lemma well_behaved_sweep bs pages list :
  list_active (new_ArmadaCompute config) = Some list -> well_behaved bs (ignore (list pages)).
Proof.
  cbn [new_ArmadaCompute list_active]. destruct (lookoutUrl config); [|done]. intros [= <-] later.
  eapply guarded_weaken; [by intros c Hc _ | done|]. eapply guarded_ignore, guarded_sweep.
  intros f s1. apply remembered_ok.
Qed.

Lemma service_ok_step x y : service_step config kind x y -> service_ok x -> service_ok y.
Proof.
  destruct 1 as [p p' bs Hm|p bs id o Hk|p bs id o Hk|p bs n op Hn|p bs pages list Hl];
    intros (Hbs & Hts & Hs & Hcs); cbn [running births threads shared calls with_thread with_shared] in *.
  - destruct Hm as [ts i t s cs l t' s' Hi Hstep]. cbn [threads shared calls] in *.
    assert (well_behaved bs t) as Ht by (by eapply Forall_lookup_1).
    assert (forall later, guarded (process_ok config new_AgentChannel (born (bs ++ later))) permitted (fun _ => True) t'
              /\ process_ok config new_AgentChannel (born (bs ++ later)) s' /\ Forall permitted (option_list l)) as Hgo
      by (intros later; eapply guarded_step; [done|apply Ht|by apply process_ok_later]).
    destruct (Hgo []) as (_ & Hs' & Hl). rewrite app_nil_r in Hs'.
    split; [done|]. split; [apply Forall_insert; [done|]; intros later; apply Hgo|]. split; [done|]. by apply Forall_app.
  - split; [apply Forall_app; split; [done|by constructor]|]. split; [|split; [by apply process_ok_new|done]].
    eapply list.Forall_impl; [exact Hts|]. intros t. apply well_behaved_later.
  - split; [apply Forall_app; split; [done|by constructor]|]. split; [|split; [by apply process_ok_new|done]].
    eapply list.Forall_impl; [exact Hts|]. intros t. apply well_behaved_later.
  - split; [done|]. split; [|done]. apply Forall_app. split; [done|]. constructor; [by apply well_behaved_perform|done].
  - split; [done|]. split; [|done]. apply Forall_app. split; [done|]. constructor; [by eapply well_behaved_sweep|done].
Qed.

Lemma service_ok_reached x : rtc (service_step config kind) started x -> service_ok x.
Proof.
  intros Hx. assert (service_ok started) as H0 by (repeat split; try constructor; done).
  clear -Hx H0. induction Hx as [|x y z Hxy _ IH]; [done|]. eauto using service_ok_step.
Qed.
End running.

(** C1  From a process just started, whatever sandboxes marimohub makes, uses
    and sweeps, however their operations interleave and whatever the outside
    answers: every object is the sandbox it was made as, its job and every
    shared placement's is of the job set that is its id, every channel
    addresses an agent with that id's own token, and the environment it
    exports has only shell names. *)
Theorem service_keeps_sandboxes_apart `{Platform} config x :
  rtc (service_step config (fun _ => True)) started x ->
  (forall n o, objects (shared (running x)) !! n = Some o ->
    births x !! n = Some (sid o, attachOnly o) /\
    (forall j, job o = Some j -> jobSetId j = sid o) /\
    (forall c, channel o = Some c -> token c = token_of config (sid o)) /\
    Forall (fun k => Shell.env_name k = true) (obj_keys (env o) ++ obj_keys (envDefaults o))) /\
  (forall id p, placements (shared (running x)) !! id = Some p ->
    jobSetId (p_job p) = id /\ token (p_channel p) = token_of config id).
Proof.
  intros (_ & _ & [Ho Hp] & _)%service_ok_reached. split.
  - intros n o Hn. destruct (Ho n o Hn) as (Hb & Hj & Hc & [_ He] & [_ Hd]). split; [done|]. split; [done|].
    split; [|by apply Forall_app]. intros c Hch. by destruct (Hc c Hch) as (url & pod & ->).
  - intros id p Hi. destruct (Hp id p Hi) as (Hj & url & pod & ->). done.
Qed.

(** C3  A process that makes sandboxes only by [connectExisting] never submits
    a job: whatever they are asked, however that interleaves and whatever is
    answered, no request that starts one is sent. *)
Theorem attaching_never_submits `{Platform} config x :
  rtc (service_step config (fun attach => attach = true)) started x ->
  Forall starts_nothing (calls (running x)).
Proof.
  intros (_ & _ & _ & Hc)%service_ok_reached. eapply list.Forall_impl; [exact Hc|]. intros c Hp. by apply Hp.
Qed.

(** A command is always answered: for every sandbox of a process, at any
    moment of its life and in whatever state its job, its agent and Armada are,
    [exec] comes back with a result and never throws. *)
Theorem exec_always_answers `{Platform} {W} config x (h : handler W) n o cmd timeout w :
  rtc (service_step config (fun _ => True)) started x ->
  objects (shared (running x)) !! n = Some o ->
  exists r, value (run h (exec_sandbox config openAgent n cmd timeout) (shared (running x)) w) = Ok r.
Proof.
  intros (_ & _ & [Ho _] & _)%service_ok_reached Hn. destruct (Ho n o Hn) as (_ & _ & _ & He & Hd).
  by eapply exec_never_throws.
Qed.

(** ** Witnesses *)

#[local] Existing Instance example_platform.

(** A process that attached to one sandbox, and swept: its first request. *)
Definition attached : service :=
  {| running := with_shared (connectExisting 0 "s1" None (shared (running started))) (running started);
     births := [("s1", true)] |}.
Definition sweeping_service : service :=
  {| running := with_thread (ignore (sweep example_config 3)) (running attached); births := births attached |}.

Lemma example_reached (kind : bool -> Prop) :
  kind true -> exists x, rtc (service_step example_config kind) started x /\ births x = [("s1", true)] /\ length (calls (running x)) = 1%nat.
Proof.
  intros Hk. eexists. split.
  - eapply rtc_l; [exact (svc_connect example_config kind (running started) [] "s1" None Hk)|].
    eapply rtc_l; [exact (svc_sweep example_config kind (running attached) (births attached) 3 _ eq_refl)|].
    apply rtc_once, svc_move. eapply (pool_move _ 0); [reflexivity|]. refine (step_call (Fetch _) _ (throw "fetch failed") _).
  - split; reflexivity.
Qed.

Lemma service_keeps_sandboxes_apart_witness :
  exists x, length (calls (running x)) = 1%nat /\
    forall n o, objects (shared (running x)) !! n = Some o -> births x !! n = Some (sid o, attachOnly o).
Proof.
  destruct (example_reached (fun _ => True) I) as (x & Hx & _ & Hc). exists x. split; [exact Hc|].
  intros n o Hn. by destruct (service_keeps_sandboxes_apart example_config x Hx) as [Ho _]; destruct (Ho n o Hn) as [Hb _].
Defined.

Lemma attaching_never_submits_witness :
  exists x, length (calls (running x)) = 1%nat /\ Forall starts_nothing (calls (running x)).
Proof.
  destruct (example_reached (fun attach => attach = true) eq_refl) as (x & Hx & _ & Hc). exists x. split; [exact Hc|].
  by apply (attaching_never_submits example_config x).
Defined.

Lemma exec_always_answers_witness :
  exists x r, births x = [("s1", true)] /\
    value (run offline (exec_sandbox example_config openAgent 0 "ls" None) (shared (running x)) tt) = Ok r.
Proof.
  assert (rtc (service_step example_config (fun _ => True)) started attached) as Hx
    by (apply rtc_once; exact (svc_connect example_config _ (running started) [] "s1" None I)).
  destruct (exec_always_answers example_config attached offline 0 (construct "s1" None true) "ls" None tt Hx) as [r Hr];
    [reflexivity|]. exists attached, r. split; [reflexivity | exact Hr].
Defined.

(** A Lookout that lists one job, in a queue no owner is mapped to now. *)
Definition one_job_lookout : handler unit :=
  answering (fun _ => Ok (http_ok (json_stringify (JObj [("jobs", JArr [JObj [("jobSet", JStr "s9"); ("queue", JStr "retired")]])])))).

Lemma sweep_then_destroy_witness :
  let swept := run one_job_lookout (sweep example_config 3) (shared (running started)) tt in
  value swept = Ok [{| active_id := "s9"; createdAt := None |}] /\
  trace (run one_job_lookout (destroy example_config 0) (create 0 "s9" None (final swept)) tt)
  = trace (run one_job_lookout (cancelSet example_config "s9" (Named "retired")) (create 0 "s9" None (final swept)) tt).
Proof.
  cbn zeta.
  assert (value (run one_job_lookout (sweep example_config 3) (shared (running started)) tt)
          = Ok [{| active_id := "s9"; createdAt := None |}]) as Hv by (vm_compute; reflexivity).
  assert (value (run one_job_lookout (listActive example_config 3) (shared (running started)) tt)
          = Ok [{| job_sandbox := {| active_id := "s9"; createdAt := None |}; in_queue := "retired" |}]) as Hl
    by (vm_compute; reflexivity).
  destruct (sweep_then_destroy example_config one_job_lookout 3 (shared (running started)) tt _ Hv) as (jobs & Hj & _ & _ & Hd).
  split; [exact Hv|]. rewrite Hl in Hj. injection Hj as <-.
  exact (proj2 (Hd _ 0%nat tt (list_elem_of_here _ _))).
Defined.
