(* ===== verification/Operations.v ===== *)
(** Every operation of a sandbox (src/sandbox.ts), for any rules the process
    keeps to: what touches the state of the process and what does not, and that
    a whole operation obeys the rules once making ready, setting variables and
    destroying do. *)
From S2P Require Import Prelude JsString Regex Encoding Sha256 JsNumber Json Io Rely Shell Ndjson Types Auth Config PodSpec Queues Armada Channel Sandbox SandboxInv SandboxSpec Provider.

(** ** What leaves the state of the process alone *)

Section client.
Context `{Platform} {S : Type} (config : ArmadaConfig).

Lemma calm_headers : calm (requestHeaders (S := S) config).
Proof. unfold requestHeaders, authorizationHeader. calm. Qed.
Hint Resolve calm_headers : calm.

Lemma calm_postTo base path body signal : calm (postTo (S := S) config base path body signal).
Proof. unfold postTo. calm. Qed.
Hint Resolve calm_postTo : calm.

Lemma calm_postJsonTo base path body : calm (postJsonTo (S := S) config base path body).
Proof. unfold postJsonTo. calm. Qed.
Hint Resolve calm_postJsonTo : calm.

Lemma calm_submit id pod q : calm (submit (S := S) config id pod q).
Proof. unfold submit, postJson. calm. Qed.

Lemma calm_watch job t : calm (watch (S := S) config job t).
Proof. unfold watch, post. calm. Qed.
Hint Resolve calm_watch : calm.

Lemma calm_waitForRunning job t : calm (waitForRunning (S := S) config job t).
Proof. unfold waitForRunning. calm. Qed.

Lemma calm_portUrl job port : calm (portUrl (S := S) config job port).
Proof. unfold portUrl, ingressAddress. calm. Qed.

Lemma calm_cancel job : calm (cancel (S := S) config job).
Proof. unfold cancel, post. calm. Qed.

Lemma calm_cancelSet id q : calm (cancelSet (S := S) config id q).
Proof. unfold cancelSet, post. calm. Qed.

Lemma calm_findJob id q : calm (findJob (S := S) config id q).
Proof. unfold findJob, postJson. calm. Qed.

Lemma calm_lookoutJobs l fs f d sk tk : calm (lookoutJobs (S := S) config l fs f d sk tk).
Proof. unfold lookoutJobs. calm. Qed.
Hint Resolve calm_lookoutJobs : calm.

Lemma calm_findQueue id : calm (findQueue (S := S) config id).
Proof. unfold findQueue. calm. Qed.

Lemma calm_listActive pages : calm (listActive (S := S) config pages).
Proof.
  unfold listActive. destruct (lookoutUrl config) as [lookout|]; [|done].
  generalize 0%nat, (@nil (string * ActiveJob)). induction pages as [|pages IH]; intros skip acc; [done|].
  cbn [list_pages]. calm.
Qed.
End client.

(** What the lifecycle asks of a channel: no operation of it touches the state
    of the process. *)
Class CalmChannel (S C : Type) `{ControlChannel S C} := {
  calm_ready c t : calm (ready (S := S) (C := C) c t);
  calm_run c cmd o : calm (run_command (S := S) (C := C) c cmd o);
  calm_stream c cmd t : calm (stream (S := S) (C := C) c cmd t);
  calm_writeAll c files : calm (writeAll (S := S) (C := C) c files);
  calm_readFile c p : calm (readFile (S := S) (C := C) c p);
  calm_readFileBounded c p b : calm (readFileBounded (S := S) (C := C) c p b);
  calm_listFiles c p r : calm (listFiles (S := S) (C := C) c p r);
  calm_startProcess c cmd d : calm (startProcess (S := S) (C := C) c cmd d);
  calm_signalProcess c p sg : calm (signalProcess (S := S) (C := C) c p sg);
  calm_processLogs c p : calm (processLogs (S := S) (C := C) c p);
  calm_waitForPort c p t pid probe : calm (waitForPort (S := S) (C := C) c p t pid probe)
}.

#[export] Hint Resolve calm_submit calm_waitForRunning calm_portUrl calm_cancel calm_cancelSet calm_findJob
  calm_findQueue calm_listActive calm_ready calm_run calm_stream calm_writeAll calm_readFile calm_readFileBounded
  calm_listFiles calm_startProcess calm_signalProcess calm_processLogs calm_waitForPort : calm.

Section agent.
Context {S : Type} (endpoint : AgentEndpoint).

Lemma calm_request_ what m path b sg : calm (request_ (S := S) endpoint what m path b sg).
Proof. unfold request_, failing. calm. Qed.
Hint Resolve calm_request_ : calm.

Lemma calm_poll polls deadline t : calm (poll (S := S) endpoint polls deadline t).
Proof. induction polls as [|polls IH]; cbn [poll]; [done|]. unfold now, sleep. calm; by intros. Qed.
Hint Resolve calm_poll : calm.
End agent.
#[export] Hint Resolve calm_request_ calm_poll : calm.

#[export] Instance AgentChannel_calm `{Platform} S : CalmChannel S AgentEndpoint.
Proof.
  constructor; intros; cbn [AgentChannel ready run_command stream writeAll readFile readFileBounded listFiles startProcess
    signalProcess processLogs waitForPort];
    unfold agent_ready, agent_run, agent_stream, agent_writeAll, agent_readFile, agent_readFileBounded, agent_listFiles,
      agent_startProcess, agent_signalProcess, agent_processLogs, agent_waitForPort, ask, exec, failing, now; calm; by intros.
Qed.

(** ** Programs on one object *)

Section calm_operations.
Context `{Platform} {C : Type} `{CalmChannel (process C) C}.
Context (config : ArmadaConfig).

Lemma calm_self {A} this (f : sandbox C -> A) : calm (self this f).
Proof. intros s. simpl. by destruct (objects s !! this). Qed.

Lemma calm_defined {A} what (v : option A) : calm (defined (C := C) what v).
Proof. by destruct v. Qed.
Hint Resolve calm_self calm_defined : calm.

Lemma calm_readFailed this path code why : calm (readFailed (C := C) config this path code why).
Proof. unfold readFailed. calm. Qed.

Lemma calm_write_from rounds c files : calm (write_from (C := C) rounds c files).
Proof.
  revert files; induction rounds as [|r IH]; intros [|f files]; cbn [write_from]; try done.
  apply calm_bind; [|intros []; apply IH]. unfold write_batch. calm.
Qed.

Lemma calm_waitForPort_process p port m path t : calm (waitForPort_process (C := C) p port m path t).
Proof. unfold waitForPort_process, logsQuietly. calm. Qed.
End calm_operations.

#[export] Hint Resolve calm_self calm_defined calm_readFailed calm_write_from calm_waitForPort_process : calm.

(** The object is there. *)
Definition there {C} (this : nat) (s : process C) : Prop := exists o, objects s !! this = Some o.

(** ** Every operation *)

Section operations.
Context `{Platform} {C : Type} `{CalmChannel (process C) C}.
Context (config : ArmadaConfig) (openChannel : AgentEndpoint -> C).
Context (R : rules (process C)) `{!Sound R}.

Lemma obeys_calm {A} (p : M (process C) A) s : calm p -> obeys R (gives anything) s p.
Proof. intros Hp. by apply calm_obeys_gives. Qed.

(** [eapply obeys_bind] with the sound rules, the value being anything. *)
Ltac then_any := eapply (obeys_bind R anything).
Ltac by_calm := apply obeys_calm; calm.

Lemma obeys_self {A} this (f : sandbox C -> A) s :
  obeys R (gives (fun t a => exists o, objects t !! this = Some o /\ a = f o)) s (self this f).
Proof. intros t _ _. simpl. destruct (objects t !! this) as [o|] eqn:Ho; simpl; eauto. Qed.

(** The object of an operation, wherever its first read found it. *)
Lemma obeys_found {A B} this (f : sandbox C -> A) (k : A -> M (process C) B) s :
  (forall t a, there this t -> obeys R (gives anything) t (k a)) ->
  obeys R (gives anything) s (x ← self this f; k x).
Proof.
  intros Hk. eapply (obeys_bind R); [apply obeys_self|]. intros t a _ (o & Ho & _). apply Hk. by exists o.
Qed.

Lemma obeys_ignore {A} (p : M (process C) A) s : obeys R (gives anything) s p -> obeys R (gives anything) s (ignore p).
Proof. intros Hp. unfold ignore. then_any; [exact Hp|done]. Qed.

(** Queues are remembered aside from the sandboxes. *)
Section queues.
Hypothesis remember_obeys : forall f s, obeys R (gives anything) s (modify (update_remembered f)).

Lemma obeys_queue_of this s : obeys R (gives anything) s (queue_of config this).
Proof.
  unfold queue_of. then_any; [by_calm|]. intros s1 [j|] _ _; [done|].
  then_any; [by_calm|]. intros s2 id _ _. then_any; [by_calm|]. intros s3 o _ _. unfold resolve.
  then_any; [done|]. intros s4 [q|] _ _; [done|]. destruct (negb _); [done|].
  then_any; [by_calm|]. intros s5 [q|] _ _; (then_any; [apply remember_obeys|done]).
Qed.
End queues.

(** What is particular to the rules. *)
Hypothesis ready_obeys : forall this s, there this s -> obeys R (gives anything) s (ready_sandbox config (plain openChannel) this).
Hypothesis setEnvVars_obeys : forall this vars b s, obeys R (gives anything) s (setEnvVars (C := C) this vars b).
Hypothesis destroy_obeys : forall this s, obeys R (gives anything) s (destroy (C := C) config this).

Lemma obeys_open this s : obeys R (gives anything) s (open_channel config (plain openChannel) this).
Proof.
  unfold open_channel. apply obeys_found. intros t [c|] Ht; (then_any; [|intros t1 _ _ _; by_calm]); [done|].
  by apply ready_obeys.
Qed.

(** Opening the channel, and then something calm. *)
Lemma obeys_opened {A} this (k : C -> M (process C) A) s :
  (forall c, calm (k c)) -> obeys R (gives anything) s (c ← open_channel config (plain openChannel) this; k c).
Proof. intros Hk. then_any; [apply obeys_open|]. intros t c _ _. by apply obeys_calm. Qed.

Lemma obeys_exec_sandbox this cmd t s : obeys R (gives anything) s (exec_sandbox config (plain openChannel) this cmd t).
Proof.
  unfold exec_sandbox. then_any; [by_calm|]. intros s1 e _ _. then_any; [by_calm|]. intros s2 d _ _.
  then_any; [by_calm|]. intros s3 command _ _. apply (obeys_try R); [|by intros].
  apply obeys_opened. intros c. calm.
Qed.

Lemma obeys_readThrough this path read encode s :
  (forall c, calm (read c)) -> obeys R (gives anything) s (readThrough config (plain openChannel) this path read encode).
Proof.
  intros Hr. unfold readThrough. then_any; [|intros t [[]|] _ _; by_calm].
  apply (obeys_try R); [|done]. apply obeys_opened. intros c. apply calm_bind; [apply Hr|done].
Qed.

Lemma obeys_startProcess this cmd o s : obeys R (gives anything) s (startProcess_sandbox config (plain openChannel) this cmd o).
Proof.
  unfold startProcess_sandbox. apply obeys_opened. intros c. calm.
Qed.

Lemma obeys_exposePort this port s : there this s -> obeys R (gives anything) s (exposePort config (plain openChannel) this port).
Proof.
  intros Hs. unfold exposePort. then_any; [by apply ready_obeys|]. intros t u _ _. by_calm.
Qed.

Lemma obeys_perform this op s : there this s -> obeys R (gives anything) s (perform config (plain openChannel) this op).
Proof.
  intros Hs. destruct op; cbn [perform]; try apply obeys_ignore.
  - by apply ready_obeys.
  - unfold isPortReady. by_calm.
  - apply obeys_exec_sandbox.
  - unfold execStream. apply obeys_opened. intros c. calm.
  - apply obeys_readThrough. intros c. calm.
  - unfold read_bounded. destruct (negb _); [by_calm|]. apply obeys_readThrough. intros c. calm.
  - unfold list_sandbox. then_any; [|done]. apply (obeys_try R); [|done]. apply obeys_opened. intros c. calm.
  - unfold writeFiles. case_decide; [done|]. apply obeys_opened. intros c. calm.
  - unfold gitCheckout. then_any; [apply obeys_exec_sandbox|]. by intros t [] _ _.
  - apply setEnvVars_obeys.
  - apply obeys_startProcess.
  - by apply obeys_exposePort.
  - apply destroy_obeys.
  - unfold kill. by_calm.
  - apply obeys_calm, calm_waitForPort_process.
  - unfold getLogs. by_calm.
Qed.
End operations.

(** ** Sweeping *)

Section sweeping.
Context `{Platform} (config : ArmadaConfig) (R : rules (process AgentEndpoint)) `{!Sound R}.
Hypothesis remember_obeys : forall f s, obeys R (gives anything) s (modify (update_remembered f)).

Lemma obeys_remember_found jobs s : obeys R (gives anything) s (remember_found jobs).
Proof.
  revert s; induction jobs as [|j jobs IH]; intros s; [done|]. cbn [remember_found].
  eapply (obeys_bind R anything); [apply remember_obeys|]. intros t [] _ _. apply IH.
Qed.

Lemma obeys_sweep pages s : obeys R (gives anything) s (ignore (sweep config pages)).
Proof.
  apply (obeys_ignore R). unfold sweep. eapply (obeys_bind R anything); [apply (obeys_calm R); calm|]. intros t jobs _ _.
  eapply (obeys_bind R anything); [apply obeys_remember_found|done].
Qed.
End sweeping.

(** A program of the process that may end in any way. *)
Lemma obeys_any {C} (R : rules (process C)) `{!Sound R} (t : prog (process C) (result unit)) s :
  obeys R (gives anything) s t -> obeys R anything s t.
Proof. by apply obeys_weaken. Qed.

Lemma anything_stable {S A} (R : rules S) : stable R (@anything S A).
Proof. done. Qed.

Lemma all_later {S} (R : rules S) `{!Sound R} (ts : list (prog S (result unit))) s t :
  evolves R s t -> Forall (obeys R anything s) ts -> Forall (obeys R anything t) ts.
Proof.
  intros Hst Hts. eapply list.Forall_impl; [exact Hts|]. intros p. by eapply obeys_later.
Qed.
