(* ===== verification/Liveness.v ===== *)
(** That the adapter gets there: when Armada and the agent in the pod answer,
    making a sandbox ready succeeds (src/sandbox.ts, src/armada.ts,
    src/channel.ts).  The other files say what each outcome means; this one
    that the good outcome comes. *)
From S2P Require Import Prelude JsString Regex Encoding Sha256 JsNumber Json Io Shell Ndjson Types Auth Config PodSpec Queues Armada Channel Sandbox SandboxInv SandboxSpec Provider.

(** ** The line that names an address *)

Definition address_in (port : Z) (info : json) : option string :=
  nonempty_string (as_string (obj_get (string_of_Z port)
    (match obj_field "ingressAddresses" info with Some (JObj o) => o | _ => [] end))).

Lemma look_address_None job port v : look_address job port v = Ok None <-> undecided job "ingressInfo" v.
Proof.
  unfold look_address, undecided. rewrite bind_Ok. split.
  - intros (m & (Ho & He & ->)%line_message_Ok & Hm). split; [done|]. split; [done|]. intros msg Hmsg. rewrite Hmsg in Hm.
    destruct (job_event job "ingressInfo" msg); [by destruct (nonempty_string _)|].
    apply bind_Ok in Hm as (u & [Hc Hf]%check_ended_Ok & _). auto.
  - intros (Ho & He & Hm). eexists. split; [by apply line_message_Ok|].
    destruct (r ← obj_field "result" v; obj_field "message" r) as [msg|]; [|done].
    destruct (Hm msg eq_refl) as (Hr & Hc & Hf). rewrite Hr. apply bind_Ok. exists tt. split; [by apply check_ended_Ok|done].
Qed.

Lemma look_address_Some job port v a :
  look_address job port v = Ok (Some a) <-> exists info, carries job "ingressInfo" v info /\ address_in port info = Some a.
Proof.
  unfold look_address, carries, address_in. rewrite bind_Ok. split.
  - intros (m & (Ho & He & ->)%line_message_Ok & Hm).
    destruct (r ← obj_field "result" v; obj_field "message" r) as [msg|]; [|done].
    destruct (job_event job "ingressInfo" msg) as [info|] eqn:E; [|by apply bind_Ok in Hm as (u & _ & ?)].
    exists info. split; [by split_and!; [..|exists msg]|]. by destruct (nonempty_string _); [injection Hm as ->|].
  - intros (info & (Ho & He & msg & Hm & Hr) & Ha). exists (Some msg). split; [by apply line_message_Ok|].
    by rewrite Hr, Ha.
Qed.

(** The lines carry, before anything final about the job, its event of the
    kind waited for. *)
Definition announced (job : SubmittedJob) (kind : string) (P : json -> Prop) (lines : list json) : Prop :=
  exists before v after e, lines = before ++ v :: after /\ Forall (undecided job kind) before /\ carries job kind v e /\ P e.

Lemma follow_announced {A} job kind (P : json -> Prop) (look : json -> result (option A)) a ended lines last :
  announced job kind P lines ->
  (forall v, undecided job kind v -> look v = Ok None) ->
  (forall v e, carries job kind v e -> P e -> look v = Ok (Some a)) ->
  follow look ended lines last = Ok a.
Proof.
  intros (before & v & after & e & -> & Hb & Hv & He) Hn Hs. apply follow_Ok. exists before, v, after.
  split; [done|]. split; [|by eapply Hs]. eapply list.Forall_impl; [exact Hb|done].
Qed.

(** ** A world that answers *)

Section answering.
Context `{Platform} {W : Type} (config : ArmadaConfig) (h : handler W).
Implicit Types (s : process AgentEndpoint) (w : W).

(** However often it is sent, the request is answered with success. *)
Definition answered (req : request) (P : response -> Prop) : Prop :=
  forall w, exists r, fst (h (Fetch req) w) = Ok r /\ ok_status r = true /\ P r.

(** A POST to Armada. *)
Definition posted (path : string) (body : json) (signal : option Z) (hs : obj string) : request :=
  {| method := "POST"; url := strip_slash (config_url config) +:+ path; headers := hs;
     payload_of := Some (JsonPayload body); abort_ms := signal |}.

(** The headers can always be made. *)
Definition authorised : Prop := forall s w, exists hs, value (run h (requestHeaders config) s w) = Ok hs.

(** A JSON object comes back. *)
Definition object_answer (v : json) (r : response) : Prop := json_of r = Ok v /\ is_object v = true.

(** The job set's event stream, however long it is followed. *)
Definition streams (job : SubmittedJob) (P : list json -> Prop) : Prop :=
  forall hs t, answered (posted (job_set_path job) (watch_request job) (Some t) hs)
    (fun r => exists b, content r = Some b /\ P (fst (readNdjson b))).

(** Where the job of a sandbox comes from: known already, found to attach to,
    or submitted. *)
Definition available (o : sandbox AgentEndpoint) (q : qname) (j : SubmittedJob) : Prop :=
  match job o with
  | Some j' => j' = j
  | None =>
      if attachOnly o then
        exists v, (forall hs, answered (posted "/v1/job/statusUsingExternalJobUri"
            (JObj (member "queue" id (queue_json q) ++ [("jobset", JStr (sid o)); ("externalJobUri", JStr (sid o))])) None hs)
            (object_answer v)) /\
          list.last (to_sorted (live_jobs (job_states v))) = Some (jobId j) /\ jobSetId j = sid o /\ job_queue j = q
      else
        exists spec v, buildPodSpec config {| tokenSha256 := hex (sha256 (utf8_encode (token_of config (sid o)))) |} (options o) = Ok spec /\
          (forall hs, answered (posted "/v1/job/submit" (submit_request config (sid o) spec q) None hs) (object_answer v)) /\
          submitted_job (sid o) q v = Ok j
  end.

Lemma post_value path body signal (P : response -> Prop) s w :
  authorised -> (forall hs, answered (posted path body signal hs) P) ->
  exists r, value (run h (post config path body signal) s w) = Ok r /\ ok_status r = true /\ P r.
Proof.
  intros Ha Hp. destruct (Ha s w) as [hs Hh]. pose proof (postTo_run config h (config_url config) path body signal s w) as Hr.
  cbn zeta in Hr. rewrite Hh in Hr. destruct Hr as [_ Hv].
  destruct (Hp hs (world (run h (requestHeaders config) s w))) as (r & Hf & Hok & HP). exists r. split; [|done].
  unfold post. rewrite Hv. unfold posted in Hf. rewrite Hf. cbn. by rewrite Hok.
Qed.

Lemma postJson_value path body v s w :
  authorised -> (forall hs, answered (posted path body None hs) (object_answer v)) ->
  value (run h (postJson config path body) s w) = Ok v.
Proof.
  intros Ha Hp. destruct (post_value path body None _ s w Ha Hp) as (r & Hv & _ & Hj & Ho). unfold postJson, postJsonTo.
  rewrite run_bind. cbn zeta. unfold post in Hv. rewrite Hv, run_bind. cbn [run lift value final world trace]. rewrite Hj.
  cbn [value]. unfold asObject. by rewrite Ho.
Qed.

Lemma watch_value job t P s w :
  authorised -> streams job P -> exists lines last, value (run h (watch config job t) s w) = Ok (lines, last) /\ P lines.
Proof.
  intros Ha Hs. destruct (post_value _ _ _ _ s w Ha (fun hs => Hs hs t)) as (r & Hv & _ & b & Hb & HP).
  exists (fst (readNdjson b)), (snd (readNdjson b)). split; [|done]. unfold watch. rewrite run_bind. cbn zeta. rewrite Hv, Hb.
  cbn. by destruct (readNdjson b) as [l e].
Qed.

Lemma waitForRunning_value job t pod s w :
  authorised -> streams job (announced job "running" (fun e => location_of config e = pod)) ->
  value (run h (waitForRunning config job t) s w) = Ok pod.
Proof.
  intros Ha Hs. destruct (watch_value job t _ s w Ha Hs) as (lines & last & Hv & Hl). unfold waitForRunning.
  rewrite value_bind_lift. unfold yields in *. rewrite Hv. cbn [mbind result_bind fst snd]. eapply follow_announced; [exact Hl| |].
  - intros v. apply look_running_None.
  - intros v e Hc <-. apply look_running_Some. by exists e.
Qed.

Lemma portUrl_value job port address s w :
  authorised -> streams job (announced job "ingressInfo" (fun e => address_in port e = Some address)) ->
  value (run h (portUrl config job port) s w) = Ok (address_url config address).
Proof.
  intros Ha Hs. unfold portUrl, ingressAddress. rewrite run_bind. cbn zeta.
  match goal with |- context [run h ?p s w] => assert (value (run h p s w) = Ok address) as Hv end.
  { destruct (watch_value job DEFAULT_INGRESS_TIMEOUT_MS _ s w Ha Hs) as (lines & last & Hv & Hl).
    rewrite value_bind_lift. unfold yields in *. rewrite Hv. cbn [mbind result_bind fst snd]. eapply follow_announced; [exact Hl| |].
    - intros v. apply look_address_None.
    - intros v e Hc He. apply look_address_Some. by exists e. }
  by rewrite Hv.
Qed.

(** One answered look at the agent's health is enough. *)
Lemma agent_ready_value endpoint t s w :
  (0 <= t)%Z -> answered (health_request endpoint) (fun _ => True) ->
  value (run h (agent_ready endpoint t) s w) = Ok tt.
Proof.
  intros Ht Hh. unfold agent_ready, now, mbind, M_bind. cbn [pbind run]. destruct (h Now w) as [t0 w1]. cbn [value].
  assert (exists n, ready_polls t = S n) as [n ->].
  { assert (0 < ready_polls t)%nat by (unfold ready_polls, READY_POLL_MS; Z.to_euclidean_division_equations; lia).
    exists (pred (ready_polls t)). lia. }
  cbn [poll]. fold (health_request endpoint). unfold fetch, try_catch, mbind, M_bind. cbn [pbind run].
  destruct (Hh w1) as (r & Hf & Hok & _). destruct (h (Fetch (health_request endpoint)) w1) as [a w2]. cbn [fst] in Hf. subst a.
  cbn [pbind run]. by rewrite Hok.
Qed.

(** ** Becoming ready *)

(** The job is obtained from the queue the sandbox is in. *)
Lemma obtained this o q j s w :
  objects s !! this = Some o -> job o = None -> authorised ->
  value (run h (queue_of config this) s w) = Ok q -> available o q j ->
  value (run h (if attachOnly o then existingJob config this else submit_job config this) s w) = Ok j.
Proof.
  intros Ho Hj Ha Hq. unfold available. rewrite Hj. destruct (attachOnly o).
  - intros (v & Hv & Hl & Hs & Hqj). unfold existingJob. rewrite (run_self_bind _ _ _ _ _ _ o) by done.
    rewrite run_bind. cbn zeta. rewrite Hq, run_bind. cbn [value].
    unfold findJob. rewrite run_bind. cbn zeta.
    rewrite (postJson_value _ _ v) by done. cbn [run mret M_ret value final world]. rewrite Hl. cbn. destruct j; simpl in *; congruence.
  - intros (spec & v & Hspec & Hv & Hsub). unfold submit_job. rewrite !(run_self_bind _ _ _ _ _ _ o) by done. cbn zeta.
    rewrite run_bind, run_lift, Hspec. cbn [value final world]. rewrite run_bind. cbn zeta. rewrite Hq. cbn [value].
    unfold submit. rewrite value_bind_lift, (postJson_value _ _ v) by done. done.
Qed.

Lemma ensured this o q j s w :
  objects s !! this = Some o -> authorised ->
  value (run h (queue_of config this) s w) = Ok q -> available o q j ->
  let r := run h (ensure_job config this) s w in
  value r = Ok tt /\ objects (final r) !! this = Some (set_job (Some j) o) /\ placements (final r) = placements s.
Proof.
  intros Ho Ha Hq Hj. cbn zeta. unfold ensure_job. rewrite (run_self_bind _ _ _ _ _ _ o) by done.
  destruct (job o) as [j'|] eqn:Ej.
  - unfold available in Hj. rewrite Ej in Hj. subst j'. cbn. split; [done|]. split; [|done]. rewrite Ho. f_equal.
    destruct o; unfold set_job; simpl in *; congruence.
  - rewrite (run_self_bind _ _ _ _ _ _ o), run_bind by done. cbn zeta.
    pose proof (obtained this o q j s w Ho Ej Ha Hq Hj) as Hv.
    match goal with |- context [run h ?pr s w] =>
      pose proof (guarded_run _ _ _ h pr s w (guarded_job_same config this s (attachOnly o)) (conj eq_refl eq_refl)) as (_ & [Hso Hsp] & _);
      change (value (run h pr s w) = Ok j) in Hv; revert Hv Hso Hsp; generalize (run h pr s w) end.
    intros [v s1 w1 t1]. cbn [value final world trace]. intros -> Hso Hsp. cbn. split; [done|].
    rewrite lookup_alter_eq, Hso, Ho. done.
Qed.

(** The agent reached at the address Armada reported, in the pod it runs in. *)
Definition agent_at (id : SandboxId) (address : string) (pod : PodLocation) : AgentEndpoint :=
  {| endpoint_url := address_url config address; token := token_of config id; pod := pod |}.

(** What the event stream of a job that comes up says. *)
Definition comes_up (j : SubmittedJob) (pod : PodLocation) (address : string) (lines : list json) : Prop :=
  announced j "running" (fun e => location_of config e = pod) lines /\
  announced j "ingressInfo" (fun e => address_in (agentPort config) e = Some address) lines.

Lemma streams_weaken j (P Q : list json -> Prop) : (forall l, P l -> Q l) -> streams j P -> streams j Q.
Proof.
  intros HPQ Hs hs t w. destruct (Hs hs t w) as (r & Hf & Hok & b & Hb & HP). exists r. split; [done|]. split; [done|]. exists b. auto.
Qed.

(** From the job to the agent's channel. *)
Lemma reaches this o j pod address s w :
  objects s !! this = Some o -> job o = Some j -> authorised ->
  streams j (comes_up j pod address) ->
  answered (health_request (agent_at (sid o) address pod)) (fun _ => True) ->
  let c := agent_at (sid o) address pod in
  let r := run h (reach config openAgent this) s w in
  value r = Ok tt /\
  objects (final r) !! this = Some (set_channel (Some c) (set_pod (Some pod) o)) /\
  placements (final r) !! sid o = Some {| p_job := j; p_pod := Some pod; p_channel := c |}.
Proof.
  intros Ho Hj Ha Hs Hh. cbn zeta. unfold reach.
  rewrite (run_self_bind _ _ _ _ _ _ o), (run_defined_bind _ _ _ _ j _ _ _ o) by done.
  match goal with |- context [run h (waitForRunning config j ?t ≫= ?k) s w] =>
    pose proof (run_quiet_bind h (waitForRunning config j t) k s w ltac:(intros I; apply guarded_waitForRunning)) as Hw;
    cbn zeta in Hw; rewrite (waitForRunning_value j t pod) in Hw by (done || by (eapply streams_weaken; [|exact Hs]; by intros l [])) end.
  destruct Hw as [-> ->]. rewrite run_assign_bind.
  set (s1 := on_objects (alter (set_pod (Some pod)) this) s). set (o1 := set_pod (Some pod) o).
  assert (objects s1 !! this = Some o1) as Ho1 by (simpl; by rewrite lookup_alter_eq, Ho).
  rewrite (run_defined_bind _ _ _ _ j _ _ _ o1) by done. generalize (world (run h (waitForRunning config j DEFAULT_RUNNING_TIMEOUT_MS) s w)). intros w1.
  match goal with |- context [run h (portUrl config j ?p ≫= ?k) s1 w1] =>
    pose proof (run_quiet_bind h (portUrl config j p) k s1 w1 ltac:(intros I; apply guarded_portUrl)) as Hw;
    cbn zeta in Hw; rewrite (portUrl_value j p address) in Hw by (done || by (eapply streams_weaken; [|exact Hs]; by intros l [])) end.
  destruct Hw as [-> ->]. rewrite (run_defined_bind _ _ _ _ pod _ _ _ o1) by done.
  generalize (world (run h (portUrl config j (agentPort config)) s1 w1)). intros w2. cbn zeta.
  unfold openAgent. rewrite plain_bind. change (new_AgentChannel _) with (agent_at (sid o) address pod). set (c := agent_at _ _ _) in *.
  match goal with |- context [run h (ready c ?t ≫= ?k) s1 w2] =>
    pose proof (run_quiet_bind h (ready c t) k s1 w2 ltac:(intros I; apply quiet_ready)) as Hw;
    cbn zeta in Hw; rewrite (agent_ready_value c t) in Hw by done end.
  destruct Hw as [-> ->]. rewrite run_assign_bind.
  set (s2 := on_objects (alter (set_channel (Some c)) this) s1).
  assert (objects s2 !! this = Some (set_channel (Some c) o1)) as Ho2
    by (change (objects s2) with (alter (set_channel (Some c)) this (objects s1)); by rewrite lookup_alter_eq, Ho1).
  rewrite (run_defined_bind _ _ _ _ j _ _ _ _ Ho2) by done. rewrite (run_self_bind _ _ _ _ _ _ _ Ho2).
  cbn. split; [done|]. split; [exact Ho2|apply lookup_insert_eq].
Qed.

(** The way there, whole. *)
Lemma gets_ready this o q j pod address s w :
  objects s !! this = Some o -> channel o = None -> placements s !! sid o = None ->
  value (run h (queue_of config this) s w) = Ok q ->
  authorised -> available o q j -> streams j (comes_up j pod address) ->
  answered (health_request (agent_at (sid o) address pod)) (fun _ => True) ->
  let c := agent_at (sid o) address pod in
  let r := run h (ready_sandbox config openAgent this) s w in
  value r = Ok tt /\
  objects (final r) !! this = Some (set_channel (Some c) (set_pod (Some pod) (set_job (Some j) o))) /\
  placements (final r) !! sid o = Some {| p_job := j; p_pod := Some pod; p_channel := c |}.
Proof.
  intros Ho Hc Hp Hq Ha Hj Hs Hh. cbn zeta. unfold ready_sandbox. rewrite (run_self_bind _ _ _ _ _ _ o), Hc by done.
  rewrite (run_unshared _ _ _ _ o) by done. rewrite run_bind. cbn zeta.
  pose proof (ensured this o q j s w Ho Ha Hq Hj) as He. cbn zeta in He. revert He.
  generalize (run h (ensure_job config this) s w). intros [v s1 w1 t1]. cbn [value final world trace]. intros (-> & Ho1 & Hp1).
  pose proof (reaches this _ j pod address s1 w1 Ho1 eq_refl Ha Hs Hh) as Hr. cbn zeta in Hr. exact Hr.
Qed.
(** C5 A sandbox becomes ready when it can: with its queue known and headers to
    be had, when Armada takes the job (or has it already, when the sandbox
    attaches), its event stream announces the pod and an address for the
    agent's port before anything final about that job, and the agent at that
    address answers, then [ready] succeeds; and the sandbox then holds that
    job, that pod and a channel to that agent with its own token, which it
    shares with the other instances. *)
Theorem ready_succeeds this o q j pod address s w :
  objects s !! this = Some o -> channel o = None -> placements s !! sid o = None ->
  value (run h (queue_of config this) s w) = Ok q ->
  authorised -> available o q j -> streams j (comes_up j pod address) ->
  answered (health_request (agent_at (sid o) address pod)) (fun _ => True) ->
  let c := agent_at (sid o) address pod in
  let r := run h (ready_sandbox config openAgent this) s w in
  value r = Ok tt /\
  objects (final r) !! this = Some (set_channel (Some c) (set_pod (Some pod) (set_job (Some j) o))) /\
  placements (final r) !! sid o = Some {| p_job := j; p_pod := Some pod; p_channel := c |}.
Proof. apply gets_ready. Qed.
End answering.

(** ** Witnesses *)

#[local] Existing Instance example_platform.

(** The events of the job: another's first, then a failure that is retried. *)
Definition coming_up : list string := map q
  ["{'result': {'message': {'running': {'jobId': 'other'}}}}";
   "{'result': {'message': {'failed': {'jobId': '01h', 'retryable': true}}}}";
   "{'result': {'message': {'running': {'jobId': '01h', 'clusterId': 'c1', 'podName': 'pod-1', 'podNamespace': 'hub'}}}}";
   "{'result': {'message': {'ingressInfo': {'jobId': '01h', 'ingressAddresses': {'2718': 'kernel.example', '8718': 'pod-1.example'}}}}}"].

(** An Armada that takes every job, a Lookout that knows none, an agent that
    is up. *)
Definition up_answer (r : request) : result response :=
  if includes "/v1/job/submit" (url r) then Ok (http_ok (q "{'jobResponseItems': [{'jobId': '01h'}]}"))
  else if includes "/v1/job-set/" (url r) then Ok (http_ok (join (String newline "") coming_up))
  else if includes "/api/v1/jobs" (url r) then Ok (http_ok "{}")
  else if includes "/v1/job/cancel" (url r) then Ok (http_ok "{}")
  else Ok (http_ok "ok").

Definition up_world : handler unit := answering up_answer.

Definition alone_object (o : sandbox AgentEndpoint) : process AgentEndpoint :=
  {| objects := {[ 0%nat := o ]}; placements := ∅; seen_queues := ∅; kept := None |}.

Definition up_pod : PodLocation := {| clusterId := "c1"; podName := "pod-1"; podNamespace := "hub"; nodeName := None |}.

Definition up_lines : list json :=
  fst (readNdjson {| chunks := [utf8_encode (join (String newline "") coming_up)]; ending := None |}).

Lemma up_lines_eq : up_lines = map (fun t => default JNull (json_parse t)) coming_up.
Proof. vm_compute. reflexivity. Qed.

Lemma up_address port address :
  address_in port (event "{'jobId': '01h', 'ingressAddresses': {'2718': 'kernel.example', '8718': 'pod-1.example'}}") = Some address ->
  announced example_job "ingressInfo" (fun e => address_in port e = Some address) up_lines.
Proof.
  intros Ha. rewrite up_lines_eq. eexists [_; _; _], _, [], _. split; [reflexivity|].
  split; [repeat apply Forall_cons_2; try apply Forall_nil_2; apply (look_address_None _ 1); vm_compute; reflexivity|].
  split; [|exact Ha]. split; [vm_compute; reflexivity|]. split; [vm_compute; reflexivity|].
  eexists. split; vm_compute; reflexivity.
Qed.

Lemma up_running : announced example_job "running" (fun e => location_of example_config e = up_pod) up_lines.
Proof.
  rewrite up_lines_eq. eexists [_; _], _, [_], (event "{'jobId': '01h', 'clusterId': 'c1', 'podName': 'pod-1', 'podNamespace': 'hub'}").
  split; [reflexivity|].
  split; [repeat apply Forall_cons_2; try apply Forall_nil_2; apply (look_running_None example_config); vm_compute; reflexivity|].
  split; [|vm_compute; reflexivity]. split; [vm_compute; reflexivity|]. split; [vm_compute; reflexivity|].
  eexists. split; vm_compute; reflexivity.
Qed.

Lemma up_comes_up : comes_up example_config example_job up_pod "pod-1.example" up_lines.
Proof. split; [apply up_running|apply up_address; vm_compute; reflexivity]. Qed.

Lemma up_streams : streams example_config up_world example_job (comes_up example_config example_job up_pod "pod-1.example").
Proof. intros hs t w. eexists. split; [reflexivity|]. split; [reflexivity|]. eexists. split; [reflexivity|apply up_comes_up]. Qed.

Lemma ready_succeeds_witness :
  value (run up_world (ready_sandbox example_config openAgent 0) (alone_object fresh_object) tt) = Ok tt.
Proof.
  refine (proj1 (ready_succeeds example_config up_world 0 fresh_object (Named "hub") example_job up_pod "pod-1.example"
           (alone_object fresh_object) tt eq_refl eq_refl eq_refl _ _ _ up_streams _)).
  - vm_compute. reflexivity.
  - intros s w. eexists. reflexivity.
  - eexists _, (event "{'jobResponseItems': [{'jobId': '01h'}]}"). split; [vm_compute; reflexivity|]. split; [|vm_compute; reflexivity].
    intros hs w. eexists. split; [reflexivity|]. split; [reflexivity|]. split; [vm_compute; reflexivity|reflexivity].
  - intros w. eexists. split; [reflexivity|]. by split.
Defined.
