(* ===== verification/Session.v ===== *)
(** A sandbox from its making to its end (src/sandbox.ts over src/armada.ts,
    src/channel.ts and src/ndjson.ts): what the layers promise one by one,
    together.  A command's output reaches the caller through the agent's
    events, and a kernel is started, waited for, exposed and destroyed. *)
From S2P Require Import Prelude JsString Regex Encoding Sha256 JsNumber Json Io Shell Ndjson RoundTrip Types Auth Config PodSpec Queues Armada Channel Sandbox SandboxInv SandboxSpec Provider Liveness.

(** ** What the agent sends of a command *)

(** The events of a command that ran: its process, its output chunk by chunk,
    and its exit status. *)
Definition command_events (pid : num) (chunks : list (bool * list ascii)) (status : num) : list json :=
  pid_event pid :: map chunk_event chunks ++ [exit_event status false].

(** A response that carries them, a line each, however it is cut. *)
Definition carries_events (events : list json) (r : response) : Prop :=
  exists b, content r = Some b /\ ending b = None /\ body_bytes b = utf8_encode (ndjson_text events).

Lemma command_events_sendable pid chunks status :
  is_safe_integer pid = true -> is_safe_integer status = true -> Forall sendable (command_events pid chunks status).
Proof.
  assert (unicode "pid" /\ unicode "stdout" /\ unicode "stderr" /\ unicode "exit" /\ unicode "timedOut") as (? & ? & ? & ? & ?)
    by (split_and!; by apply unicode_solid).
  intros Hp Hs. unfold command_events. constructor; [by repeat constructor|]. apply list.Forall_app. split.
  - apply Forall_fmap, list.Forall_forall. intros [b bs] _. cbn.
    split; [repeat constructor|]. split; [|done]. split; [by destruct b|]. apply unicode_solid, base64_solid.
  - by repeat constructor.
Qed.

(** ** What a session needs *)

Section session.
Context `{Platform} {W : Type} (config : ArmadaConfig) (h : handler W).
Implicit Types (s : process AgentEndpoint) (w : W) (o : sandbox AgentEndpoint).

(** Everything a sandbox no instance has reached needs to come up, in queue
    [q], as job [j], in [pod], with its agent at [address]; [more] is what else
    the job's event stream says. *)
Record provided this o q j pod address (more : list json -> Prop) s w : Prop := {
  provided_object : objects s !! this = Some o;
  provided_fresh : channel o = None;
  provided_alone : placements s !! sid o = None;
  provided_queue : value (run h (queue_of config this) s w) = Ok q;
  provided_headers : authorised config h;
  provided_job : available config h o q j;
  provided_events : streams config h j (fun lines => comes_up config j pod address lines /\ more lines);
  provided_agent : answered h (health_request (agent_at config (sid o) address pod)) (fun _ => True)
}.

(** The object once its agent is reached. *)
Definition up o j pod address : sandbox AgentEndpoint :=
  set_channel (Some (agent_at config (sid o) address pod)) (set_pod (Some pod) (set_job (Some j) o)).

Lemma opens this o q j pod address more s w :
  provided this o q j pod address more s w ->
  let c := agent_at config (sid o) address pod in
  let r := run h (open_channel config openAgent this) s w in
  value r = Ok c /\ objects (final r) !! this = Some (up o j pod address) /\
  placements (final r) !! sid o = Some {| p_job := j; p_pod := Some pod; p_channel := c |}.
Proof.
  intros []. cbn zeta. unfold open_channel. rewrite (run_self_bind _ _ _ _ _ _ o), provided_fresh0 by done.
  pose proof (gets_ready config h this o q j pod address s w) as Hr. cbn zeta in Hr. rewrite run_bind. cbn zeta.
  destruct Hr as (Hv & Ho & Hp); [done..| |done|].
  { eapply streams_weaken; [|done]. by intros l []. }
  revert Hv Ho Hp. generalize (run h (ready_sandbox config openAgent this) s w). intros [v s1 w1 t1].
  cbn [value final world trace]. intros -> Ho Hp. rewrite !(run_self_bind _ _ _ _ _ _ _ Ho). done.
Qed.

(** ** A command *)

(** C11  What a command writes is what its caller gets: a sandbox that can come
    up comes up for its first command, and when the agent runs that command in
    a login shell and streams back what it wrote, base64 chunk by chunk, then
    the text on stdout and stderr is returned exactly, with the exit status
    deciding between success and failure, however the command's output is cut
    into chunks (inside a character, too) and the response by the network. *)
Theorem exec_returns_output this o q j pod address more s w cmd timeout command pid chunks status out err_out :
  provided this o q j pod address more s w ->
  withEnvPrefix cmd (env o) (envDefaults o) = Ok command ->
  is_safe_integer pid = true -> is_safe_integer status = true -> unicode out -> unicode err_out ->
  output_of true chunks = utf8_encode out -> output_of false chunks = utf8_encode err_out ->
  answered h (exec_request (agent_at config (sid o) address pod)
                (exec_body ["sh"; "-lc"; command] None (command_deadline config timeout))
                ((fun t => t + TIMEOUT_SLACK_MS)%Z <$> command_deadline config timeout))
             (carries_events (command_events pid chunks status)) ->
  let r := run h (exec_sandbox config openAgent this cmd timeout) s w in
  value r = Ok (if decide (status = Int 0) then ExecSuccess out err_out else ExecFailure out err_out COMMAND_FAILED) /\
  objects (final r) !! this = Some (up o j pod address).
Proof.
  intros Hp Hc Hpid Hst Hou Heu Ho He Ha. cbn zeta. unfold exec_sandbox.
  rewrite (run_prefixed _ _ _ _ _ _ o), Hc by apply Hp. rewrite run_try, run_bind. cbn zeta.
  pose proof (opens _ _ _ _ _ _ _ _ _ Hp) as Hr. cbn zeta in Hr. destruct Hr as (Hv & Hob & _). revert Hv Hob.
  generalize (run h (open_channel config openAgent this) s w). intros [v s1 w1 t1]. cbn [value final world trace]. intros -> Hob.
  match goal with |- context [run h (run_command ?c ?l ?op ≫= ?k) s1 w1] =>
    pose proof (run_quiet_bind h (run_command c l op) k s1 w1 ltac:(intros I; apply quiet_run)) as Hq;
    cbn zeta in Hq; change (run_command c l op) with (agent_run (S := process AgentEndpoint) c l op) in * end.
  destruct (Ha w1) as (r & Hf & Hok & b & Hb & Hend & Hbytes).
  assert (readNdjson b = (command_events pid chunks status, None)) as Hl.
  { rewrite <- Hend. apply stream_lines; [by apply command_events_sendable|done]. }
  pose proof (run_events (S := process AgentEndpoint) (agent_at config (sid o) address pod) h ["sh"; "-lc"; command]
    {| stdin := None; timeoutMs := command_deadline config timeout |} s1 w1 r b pid chunks status false Hf Hok Hb Hl) as Hrun.
  cbn zeta in Hrun. unfold login_shell in *. rewrite Hrun, Ho, He, !buffer_text_unicode in Hq by done.
  cbn [run mret M_ret value final] in Hq. revert Hq. unfold toExecResult. cbn [exitCode stdout stderr].
  match goal with |- context [run h (agent_run ?c ?l ?op ≫= ?k) s1 w1] => generalize (run h (agent_run c l op ≫= k) s1 w1) end.
  intros [v2 s2 w2 t2]. cbn [value final]. intros [-> ->]. done.
Qed.

(** ** A kernel *)

(** A JSON answer that reads as [a]. *)
Definition replies {A} (read : json -> option A) (a : A) (r : response) : Prop :=
  exists v, json_of r = Ok v /\ read v = Some a.

Lemma ask_value {S A} c what meth path body signal (read : json -> option A) missing a (s : S) w :
  answered h (agent_request c meth path body signal) (replies read a) ->
  value (run h (ask c what meth path body signal read missing) s w) = Ok a.
Proof.
  intros Ha. destruct (Ha w) as (r & Hf & Hok & v & Hv & Hr). unfold ask, request_, failing, fetch.
  rewrite run_bind, run_try. cbn [run]. destruct (h (Fetch (agent_request c meth path body signal)) w) as [a' w'].
  cbn [fst] in Hf. subst a'. cbn [value final world trace run lift]. unfold refused. rewrite Hok. cbn. rewrite Hv. cbn. by rewrite Hr.
Qed.

(** Past a call that succeeds and changes no state. *)
Lemma past_quiet {A B} (p : M (process AgentEndpoint) A) (k : A -> M (process AgentEndpoint) B) a s w :
  (forall I, guarded I starts_nothing (returns (fun _ => True)) p) -> value (run h p s w) = Ok a ->
  exists w', value (run h (p ≫= k) s w) = value (run h (k a) s w') /\ final (run h (p ≫= k) s w) = final (run h (k a) s w').
Proof.
  intros Hp Hv. pose proof (run_quiet_bind h p k s w Hp) as Hq. cbn zeta in Hq. rewrite Hv in Hq. by eexists.
Qed.

(** Starting a command in the agent, and the wait for a port of it. *)
Definition start_request c (command : list string) (cwd : option string) : request :=
  agent_request c "POST" "/process/start"
    (Some (JsonPayload (JObj ([("cmd", JArr (map JStr command))]
                              ++ match cwd with Some d => [("cwd", JStr d)] | None => [] end)))) None.

Definition wait_request c (port : Z) (pid : num) : request :=
  agent_request c "POST" "/process/waitport"
    (Some (JsonPayload (JObj [("port", JNum (Int port)); ("timeoutMs", JNum (Int 30000)); ("pid", JNum pid)])))
    (Some (30000 + TIMEOUT_SLACK_MS)%Z).

Definition cancel_body (j : SubmittedJob) : json :=
  JObj (member "queue" id (queue_json (job_queue j)) ++ [("jobSetId", JStr (jobSetId j)); ("jobId", JStr (jobId j))]).

(** What is done with a sandbox to serve a kernel: start it, wait until its
    port opens, and have its address. *)
Definition serve_kernel this cmd options port : M (process AgentEndpoint) (@ArmadaProcess AgentEndpoint * string) :=
  p ← startProcess_sandbox config openAgent this cmd options;
  waitForPort_process p port None None None;;
  url ← exposePort config openAgent this port;
  mret (p, url).

Lemma starts this o q j pod address more s w cmd options inner command pid :
  provided this o q j pod address more s w ->
  withEnvPrefix cmd (process_env_of options) [] = Ok inner -> withEnvPrefix inner (env o) (envDefaults o) = Ok command ->
  let c := agent_at config (sid o) address pod in
  answered h (start_request c ["sh"; "-lc"; command] (options ≫= cwd)) (replies pidOf pid) ->
  let r := run h (startProcess_sandbox config openAgent this cmd options) s w in
  value r = Ok {| process_id := default ("armada-proc-" +:+ num_to_string pid) (options ≫= processId); process_command := cmd;
                  process_channel := c; process_where := podNamespace pod +:+ "/" +:+ podName pod; process_pid := pid |} /\
  objects (final r) !! this = Some (up o j pod address) /\
  placements (final r) !! sid o = Some {| p_job := j; p_pod := Some pod; p_channel := c |}.
Proof.
  intros Hp Hi Hc c Ha. cbn zeta. unfold startProcess_sandbox.
  pose proof (opens _ _ _ _ _ _ _ _ _ Hp) as Hr. cbn zeta in Hr. rewrite run_bind. cbn zeta. revert Hr.
  generalize (run h (open_channel config openAgent this) s w). intros [v s1 w1 t1]. cbn [value final world trace]. intros (-> & Ho & Hpl).
  rewrite !(run_self_bind _ _ _ _ _ _ _ Ho). change (env (up o j pod address)) with (env o).
  change (envDefaults (up o j pod address)) with (envDefaults o).
  rewrite run_bind, run_lift, Hi. cbn [value final world]. rewrite run_bind, run_lift, Hc. cbn [value final world].
  match goal with |- context [run h (try_catch ?p ?e ≫= ?k) s1 w1] => destruct (past_quiet (try_catch p e) k pid s1 w1) as (w2 & -> & ->) end.
  - intros I. by apply guarded_try; [apply quiet_startProcess|].
  - rewrite run_try. cbn zeta. unfold login_shell. cbn [startProcess AgentChannel]. unfold agent_startProcess.
    by rewrite (ask_value _ _ _ _ _ _ _ _ pid) by exact Ha.
  - rewrite !(run_self_bind _ _ _ _ _ _ _ Ho). done.
Qed.

(** The port of a process opens. *)
Lemma waits (p : @ArmadaProcess AgentEndpoint) port seen s w :
  answered h (wait_request (process_channel p) port (process_pid p)) (replies portWaitOf seen) -> open seen = true ->
  let r := run h (waitForPort_process p port None None None) s w in value r = Ok tt /\ final r = s.
Proof.
  intros Hw Ho. cbn zeta. unfold waitForPort_process. cbn zeta.
  match goal with |- context [run h (waitForPort ?c ?pt ?t ?pd ?pr ≫= ?k) s w] =>
    destruct (past_quiet (waitForPort c pt t pd pr) k seen s w) as (w1 & -> & ->) end.
  - intros I. apply quiet_waitForPort.
  - by apply (ask_value _ _ _ _ _ _ _ _ seen).
  - by rewrite Ho.
Qed.

(** The address of another port, from the same events. *)
Lemma exposes this o j pod address port served s w :
  objects s !! this = Some (up o j pod address) -> authorised config h ->
  streams config h j (announced j "ingressInfo" (fun e => address_in port e = Some served)) ->
  let r := run h (exposePort config openAgent this port) s w in
  value r = Ok (address_url config served) /\ final r = s.
Proof.
  intros Ho Ha Hs. cbn zeta. unfold exposePort. rewrite run_bind. cbn zeta.
  unfold openAgent. rewrite (ready_again config new_AgentChannel h this s w _ _ Ho eq_refl). cbn [value final world trace].
  rewrite !(run_self_bind _ _ _ _ _ _ _ Ho). change (job (up o j pod address)) with (Some j).
  split; [by apply portUrl_value|]. apply unchanged. intros I. apply guarded_portUrl.
Qed.

(** The job, cancelled where it is known. *)
Lemma cancels_it j s w :
  authorised config h -> (forall hs, answered h (posted config "/v1/job/cancel" (cancel_body j) None hs) (fun _ => True)) ->
  let r := run h (cancel config j) s w in
  value r = Ok tt /\ final r = s /\
  exists before hs, trace r = before ++ [Fetch (posted config "/v1/job/cancel" (cancel_body j) None hs)].
Proof.
  intros Ha Hc. cbn zeta. pose proof (unchanged h (cancel config j) s w ltac:(intros I; apply guarded_cancel)) as Hf.
  split_and!; [|done|]; unfold cancel in *; fold (cancel_body j) in *; rewrite run_bind; cbn zeta;
    destruct (post_value config h "/v1/job/cancel" (cancel_body j) None _ s w Ha Hc) as (r & Hv & _); rewrite Hv; [done|].
  cbn [run mret M_ret trace]. rewrite app_nil_r. destruct (Ha s w) as [hs Hh].
  pose proof (postTo_run config h (config_url config) "/v1/job/cancel" (cancel_body j) None s w) as Hp. cbn zeta in Hp.
  rewrite Hh in Hp. destruct Hp as [Ht _]. eexists _, hs. exact Ht.
Qed.

(** C6  A kernel is served and taken down: when a sandbox can come up, its
    agent starts the kernel's command, the kernel's port opens, and the job's
    events name an address for that port, then starting it, waiting for it
    and exposing it succeed, in one job: the process is the agent's, under the
    pid it gave, and the address is the announced one.  Destroying the
    sandbox after that sends one cancel, of that very job, and leaves nothing
    of the sandbox in what the process shares. *)
Theorem kernel_served this o q j pod address served port s w cmd options inner command pid seen :
  provided this o q j pod address (announced j "ingressInfo" (fun e => address_in port e = Some served)) s w ->
  withEnvPrefix cmd (process_env_of options) [] = Ok inner -> withEnvPrefix inner (env o) (envDefaults o) = Ok command ->
  let c := agent_at config (sid o) address pod in
  answered h (start_request c ["sh"; "-lc"; command] (options ≫= cwd)) (replies pidOf pid) ->
  answered h (wait_request c port pid) (replies portWaitOf seen) -> open seen = true ->
  (forall hs, answered h (posted config "/v1/job/cancel" (cancel_body j) None hs) (fun _ => True)) ->
  let r := run h (serve_kernel this cmd options port) s w in
  (exists p, value r = Ok (p, address_url config served) /\
     process_channel p = c /\ process_pid p = pid /\ process_command p = cmd) /\
  placements (final r) !! sid o = Some {| p_job := j; p_pod := Some pod; p_channel := c |} /\
  forall w', let d := run h (destroy config this) (final r) w' in
    value d = Ok tt /\
    (exists before hs, trace d = before ++ [Fetch (posted config "/v1/job/cancel" (cancel_body j) None hs)]) /\
    placements (final d) !! sid o = None /\ seen_queues (final d) !! sid o = None /\
    objects (final d) !! this = Some (set_job (Some j) (set_channel None (set_pod None o))).
Proof.
  intros Hp Hi Hc c Hst Hw Hopen Hcancel. cbn zeta. unfold serve_kernel.
  pose proof (starts _ _ _ _ _ _ _ _ _ _ _ _ _ _ Hp Hi Hc Hst) as Hr. cbn zeta in Hr. rewrite run_bind. cbn zeta. revert Hr.
  generalize (run h (startProcess_sandbox config openAgent this cmd options) s w). intros [v s1 w1 t1].
  cbn [value final world trace]. intros (-> & Ho & Hpl). fold c. set (p := {| process_id := _ |}).
  assert (value (run h (waitForPort_process p port None None None) s1 w1) = Ok tt /\
          final (run h (waitForPort_process p port None None None) s1 w1) = s1) as [Hwv Hwf].
  { pose proof (waits p port seen s1 w1) as Hwt. by apply Hwt. }
  rewrite run_bind. cbn zeta. revert Hwv Hwf. generalize (run h (waitForPort_process p port None None None) s1 w1).
  intros [v2 s2 w2 t2]. cbn [value final world trace]. intros -> ->.
  destruct (exposes this o j pod address port served s1 w2 Ho) as [Hev Hef]; [apply Hp| |].
  { eapply streams_weaken; [|apply Hp]. by intros l []. }
  rewrite run_bind. cbn zeta. revert Hev Hef. generalize (run h (exposePort config openAgent this port) s1 w2).
  intros [v3 s3 w3 t3]. cbn [value final world trace]. intros -> ->. cbn [run mret M_ret value final].
  split; [by exists p|]. split; [done|]. intros w'. rewrite (run_destroy config h this s1 w' _ Ho). cbn [value final trace].
  unfold cancelling. rewrite !(run_self_bind _ _ _ _ _ _ _ Ho). change (job (up o j pod address)) with (Some j).
  destruct (cancels_it j s1 w') as (Hcv & Hcf & Hct); [apply Hp|done|]. rewrite Hcv, Hcf.
  split; [done|]. split; [exact Hct|]. unfold forgotten. cbn [placements seen_queues objects]. rewrite !lookup_delete_eq.
  split; [done|]. split; [done|]. rewrite lookup_alter_eq, Ho. done.
Qed.
End session.

(** ** Witnesses *)

#[local] Existing Instance example_platform.

(** What the command writes: text outside ASCII, cut inside its character, and
    a line on stderr; and how the agent sends it. *)
Definition written : list (bool * list ascii) :=
  let bs := utf8_encode "café" in [(true, firstn 4 bs); (false, utf8_encode "warned"); (true, skipn 4 bs)].

Definition written_body : body :=
  let bs := utf8_encode (ndjson_text (command_events (Int 7) written (Int 0))) in
  {| chunks := [firstn 40 bs; skipn 40 bs]; ending := None |}.

(** Armada and the agent of [up_world], which runs commands and starts
    processes. *)
Definition session_world : handler unit := answering (fun r =>
  if includes "/exec" (url r) then Ok {| status := 200; statusText := "OK"; content := Some written_body |}
  else if includes "/process/start" (url r) then Ok (http_ok (q "{'pid': 7}"))
  else if includes "/process/waitport" (url r) then Ok (http_ok (q "{'open': true}"))
  else up_answer r).

Lemma session_provided :
  provided example_config session_world 0 fresh_object (Named "hub") example_job up_pod "pod-1.example"
    (announced example_job "ingressInfo" (fun e => address_in 2718 e = Some "kernel.example")) (alone_object fresh_object) tt.
Proof.
  split; [reflexivity|reflexivity|reflexivity|vm_compute; reflexivity| | | |].
  - intros s w. eexists. reflexivity.
  - eexists _, (event "{'jobResponseItems': [{'jobId': '01h'}]}"). split; [vm_compute; reflexivity|]. split; [|vm_compute; reflexivity].
    intros hs w. eexists. split; [reflexivity|]. split; [reflexivity|]. split; [vm_compute; reflexivity|reflexivity].
  - intros hs t w. eexists. split; [reflexivity|]. split; [reflexivity|]. eexists. split; [reflexivity|].
    split; [apply up_comes_up|]. apply up_address. vm_compute. reflexivity.
  - intros w. eexists. split; [reflexivity|]. by split.
Qed.

Lemma exec_returns_output_witness :
  value (run session_world (exec_sandbox example_config openAgent 0 "make" None) (alone_object fresh_object) tt)
  = Ok (ExecSuccess "café" "warned").
Proof.
  refine (proj1 (exec_returns_output example_config session_world 0 fresh_object (Named "hub") example_job up_pod "pod-1.example" _
    (alone_object fresh_object) tt "make" None "make" (Int 7) written (Int 0) "café" "warned" session_provided
    eq_refl eq_refl eq_refl _ _ _ _ _)).
  - reflexivity.
  - reflexivity.
  - vm_compute. reflexivity.
  - vm_compute. reflexivity.
  - intros w. eexists. split; [reflexivity|]. split; [reflexivity|]. exists written_body. split; [reflexivity|].
    split; [reflexivity|]. vm_compute. reflexivity.
Defined.

Lemma kernel_served_witness :
  exists p, value (run session_world (serve_kernel example_config 0 "marimo" None 2718) (alone_object fresh_object) tt)
            = Ok (p, address_url example_config "kernel.example") /\ process_pid p = Int 7.
Proof.
  destruct (kernel_served example_config session_world 0 fresh_object (Named "hub") example_job up_pod "pod-1.example" "kernel.example" 2718
    (alone_object fresh_object) tt "marimo" None "marimo" "marimo" (Int 7) {| open := true; exited := false; wait_exitCode := None |}
    session_provided eq_refl eq_refl) as [(p & Hv & _ & Hp & _) _].
  - intros w. eexists. split; [reflexivity|]. split; [reflexivity|]. exists (event "{'pid': 7}"). split; vm_compute; reflexivity.
  - intros w. eexists. split; [reflexivity|]. split; [reflexivity|]. exists (event "{'open': true}"). split; vm_compute; reflexivity.
  - reflexivity.
  - intros hs w. eexists. split; [reflexivity|]. by split.
  - exists p. split; [exact Hv|exact Hp].
Defined.
