(* ===== verification/FilesSpec.v ===== *)
(** The files of a sandbox (src/sandbox.ts over src/channel.ts) over those of
    the pod: what the agent is asked, and what its answers come to.

    The pod's files are what its paths hold.  Nothing is taken for granted of
    paths but what a file system keeps: two of them may name one file, a write
    may be refused, and a path may hold something that cannot be read.  It is
    taken for granted that the agent answers, and that nothing else in the pod
    touches the files meanwhile. *)
From S2P Require Import Prelude JsString Encoding Sha256 JsNumber Json Io Shell Ndjson Types Auth Config PodSpec Queues Armada Channel Sandbox SandboxInv SandboxSpec Provider.

(** ** An agent that serves files *)

(** What is at a path: a file that can be read, nothing at all, or something
    that cannot be read (a directory, a link to nothing, a file of another
    user). *)
Inductive node := Holds (bytes : list ascii) | Absent | Unreadable.

(** The file a request is about: its path, percent-encoded in the query, with
    the token of the sandbox. *)
Definition names_file (endpoint : AgentEndpoint) (path : string) (r : request) : Prop :=
  (exists e, url r = endpoint_url endpoint +:+ "/files?path=" +:+ e /\ percent_decode e = Some path) /\
  ("authorization", "Bearer " +:+ token endpoint) ∈ headers r.

Definition puts (endpoint : AgentEndpoint) (r : request) (f : string * list ascii) : Prop :=
  method r = "PUT" /\ names_file endpoint (fst f) r /\ payload_of r = Some (RawPayload (snd f)).

Definition gets_file (endpoint : AgentEndpoint) (path : string) (r : request) : Prop :=
  method r = "GET" /\ names_file endpoint path r /\ payload_of r = None.

Definition accepted (a : result response) : Prop := exists r, a = Ok r /\ ok_status r = true.

(** The answer to a read of a path that has something: the file, or a refusal
    with its code. *)
Definition answers_node (n : node) (r : response) : Prop :=
  match n with
  | Holds bytes => ok_status r = true /\ array_buffer r = Ok bytes
  | Absent => ok_status r = false /\ exists why, refusalOf r = Ok {| Channel.code := Some "not_found"; refusal_message := why |}
  | Unreadable => ok_status r = false /\ exists why, refusalOf r = Ok {| Channel.code := Some "read_failed"; refusal_message := why |}
  end.

(** The agent as the adapter relies on it (agent/files.go), with [at_path] the
    files of its pod.  A path is [ordinary] when it is not empty, which the
    agent refuses, and neither a device nor a pipe nor a file that can be
    written but not read.  Two paths are [apart] when writing one cannot touch
    what is at the other: neither a name of the same file nor one on the way to
    the other.

    Of writes sent at once each may fail; one that was accepted stored its
    octets, when no two of them touch each other; what is apart from all of
    them stays.  A read is answered with what is there, and changes nothing. *)
Record serves_files {W} (endpoint : AgentEndpoint) (h : handler W) (at_path : W -> string -> node)
    (ordinary : string -> Prop) (apart : string -> string -> Prop) : Prop := {
  ordinary_named path : ordinary path -> path <> "";
  apart_both p p' : apart p p' -> apart p' p;
  serves_writes rs fs w : Forall2 (puts endpoint) rs fs ->
    let '(answers, order, w') := h (FetchAll rs) w in
    length answers = length rs /\ order ≡ₚ seq 0 (length rs) /\
    (ForallOrdPairs apart (map fst fs) ->
     Forall2 (fun a f => accepted a -> ordinary (fst f) -> at_path w' (fst f) = Holds (snd f)) answers fs) /\
    (forall path, Forall (fun f => apart path (fst f)) fs -> at_path w' path = at_path w path);
  serves_reads path r w : ordinary path -> gets_file endpoint path r ->
    let '(a, w') := h (Fetch r) w in
    (forall p, at_path w' p = at_path w p) /\ exists response, a = Ok response /\ answers_node (at_path w path) response;
  serves_console to line w : forall p, at_path (snd (h (Console to line) w)) p = at_path w p
}.

(** ** Pairs of a list *)

Lemma pairs_app_inv {A} (R : A -> A -> Prop) l l' :
  ForallOrdPairs R (l ++ l') -> ForallOrdPairs R l /\ ForallOrdPairs R l' /\ Forall (fun x => Forall (R x) l') l.
Proof.
  induction l as [|x l IH]; cbn; [intros Hl; split; [constructor|done]|]. inversion 1 as [|? ? Hx Hl]; subst.
  apply IH in Hl as (? & ? & ?). apply list.Forall_app in Hx as [? ?]. repeat constructor; done.
Qed.

(** An outcome of a batch is the first failure, when there is one. *)
Lemma first_failure_named outcomes order :
  match first_failure outcomes order with
  | Ok _ => forall i, i ∈ order -> outcomes !! i = None \/ outcomes !! i = Some (Ok tt)
  | Err e => exists i, outcomes !! i = Some (Err e)
  end.
Proof.
  induction order as [|i order IH]; cbn [first_failure]; [set_solver|].
  destruct (outcomes !! i) as [[[]|e]|] eqn:E; [|by exists i|];
    (destruct (first_failure outcomes order); [|exact IH]; intros k [->|Hk]%elem_of_cons; auto).
Qed.

Section files.
Context `{Platform} {W : Type} (config : ArmadaConfig) (endpoint : AgentEndpoint) (h : handler W).
Context (at_path : W -> string -> node) (ordinary : string -> Prop) (apart : string -> string -> Prop).
Context (Hfiles : serves_files endpoint h at_path ordinary apart).
Implicit Types (s : process AgentEndpoint) (w : W) (f : SandboxFileWrite) (fs : list SandboxFileWrite).

(** What a write asks to be stored, and what it leaves when it was. *)
Definition file_of f : string * list ascii := (write_path f, content_bytes (write_content f)).
Definition is_stored w f : Prop := ordinary (write_path f) -> at_path w (write_path f) = Holds (content_bytes (write_content f)).

(** The error of a write that was refused names its file. *)
Definition write_error fs (e : err) : Prop :=
  exists f why, f ∈ fs /\ e = error ("Writing " +:+ write_path f +:+ " failed: " +:+ why).

(** What a number of writes come to: all are stored when they succeed, the
    error names one of them when they do not, and in both cases what is apart
    from all of them is as it was. *)
Definition wrote fs w (r : result unit) w' : Prop :=
  match r with Ok _ => Forall (is_stored w') fs | Err e => write_error fs e end /\
  forall path, Forall (fun f => apart path (write_path f)) fs -> at_path w' path = at_path w path.

Lemma write_request_puts f : puts endpoint (file_request endpoint f) (file_of f).
Proof.
  split; [done|]. split; [|done]. split; [|set_solver]. exists (encode_uri_component (write_path f)).
  split; [reflexivity|apply percent_roundtrip].
Qed.

(** The outcome of one write, from its answer. *)
Definition outcome_of f (a : result response) : result unit :=
  named_write f (write_outcome endpoint (write_path f) a).

Lemma outcome_accepted f a : outcome_of f a = Ok tt -> accepted a.
Proof.
  unfold outcome_of. destruct a as [r|e]; cbn; [|done]. unfold refused. destruct (ok_status r) eqn:E; [by exists r|].
  by destruct (refusalOf r).
Qed.

Lemma outcome_named f a e : outcome_of f a = Err e -> exists why, e = error ("Writing " +:+ write_path f +:+ " failed: " +:+ why).
Proof. unfold outcome_of, named_write. destruct (write_outcome _ _ _); [done|]. intros [= <-]. by eexists. Qed.

Lemma outcomes_eq fs (answers : list (result response)) :
  zip_with named_write fs (zip_with (fun (f : string * file_content) r => write_outcome endpoint (fst f) r)
    (map (fun f => (write_path f, write_content f)) fs) answers) = zip_with outcome_of fs answers.
Proof. revert answers; induction fs as [|f fs IH]; intros [|a answers]; cbn; [done..|]. by rewrite IH. Qed.

Lemma write_batch_wrote fs s w :
  ForallOrdPairs apart (map write_path fs) ->
  let r := run h (write_batch endpoint fs) s w in final r = s /\ wrote fs w (value r) (world r).
Proof.
  intros Hnd. cbn zeta. unfold write_batch. rewrite run_pbind. cbn [writeAll AgentChannel agent_writeAll run]. rewrite map_map.
  change (map (fun f => write_request endpoint _ _) fs) with (map (file_request endpoint) fs).
  pose proof (serves_writes _ _ _ _ _ Hfiles (map (file_request endpoint) fs) (map file_of fs) w) as Hw.
  destruct (h (FetchAll (map (file_request endpoint) fs)) w) as [[answers order] w1]. destruct Hw as (Hl & Hord & Hst & Hkeep).
  { clear Hnd. induction fs as [|f fs IH]; constructor; [apply write_request_puts|apply IH]. }
  rewrite length_map in Hl, Hord. rewrite map_map in Hst. specialize (Hst Hnd).
  cbn [value final world fst snd run lift]. rewrite outcomes_eq. split; [done|]. split.
  - pose proof (first_failure_named (zip_with outcome_of fs answers) order) as Hff. destruct (first_failure _ _) as [u|e].
    + apply list.Forall_lookup. intros i f Hf. assert (i < length fs)%nat as Hi by by apply lookup_lt_Some in Hf.
      destruct (lookup_lt_is_Some_2 answers i) as [a Ha]; [lia|].
      refine (Forall2_lookup_lr _ _ _ i a (file_of f) Hst Ha _ _); [by rewrite list_lookup_fmap, Hf|].
      apply (outcome_accepted f). destruct (Hff i) as [E|E].
      * rewrite Hord. apply elem_of_seq. lia.
      * rewrite lookup_zip_with, Hf, Ha in E. done.
      * rewrite lookup_zip_with, Hf, Ha in E. by injection E.
    + destruct Hff as [i Hi]. rewrite lookup_zip_with in Hi. destruct (fs !! i) as [f|] eqn:Hf; [|done].
      destruct (answers !! i) as [a|]; [|done]. injection Hi as Hi. apply outcome_named in Hi as [why ->].
      exists f, why. split; [by eapply list_elem_of_lookup_2|done].
  - intros path Hp. apply Hkeep. by apply Forall_fmap.
Qed.

Lemma write_error_app fs gs e : write_error fs e \/ write_error gs e -> write_error (fs ++ gs) e.
Proof. intros [(f & why & Hf & ->)|(f & why & Hf & ->)]; exists f, why; (split; [apply elem_of_app; auto|done]). Qed.

Lemma wrote_nil w : wrote [] w (Ok tt) w.
Proof. split; [constructor|done]. Qed.

Lemma write_from_wrote rounds fs s w :
  (length fs <= rounds)%nat -> ForallOrdPairs apart (map write_path fs) ->
  let r := run h (write_from rounds endpoint fs) s w in final r = s /\ wrote fs w (value r) (world r).
Proof.
  revert fs w; induction rounds as [|rounds IH]; intros fs w Hl Hnd; cbn zeta;
    (destruct fs as [|f fs]; [cbn; split; [done|apply wrote_nil]|]); [simpl in Hl; lia|]. set (all := f :: fs) in *.
  change (write_from (S rounds) endpoint all)
    with (write_batch endpoint (take WRITE_CONCURRENCY all);; write_from rounds endpoint (drop WRITE_CONCURRENCY all)).
  assert (length (drop WRITE_CONCURRENCY all) <= rounds)%nat as Hd
    by (rewrite length_drop; unfold all, WRITE_CONCURRENCY; simpl in *; lia).
  pose proof (take_drop WRITE_CONCURRENCY all) as Hall. revert Hd Hall. generalize (take WRITE_CONCURRENCY all), (drop WRITE_CONCURRENCY all).
  intros now later Hd Hall. rewrite <- Hall, map_app in Hnd. apply pairs_app_inv in Hnd as (Hnow & Hlater & Hcross).
  pose proof (write_batch_wrote now s w Hnow) as Hb. cbn zeta in Hb. rewrite run_bind. cbn zeta. revert Hb.
  generalize (run h (write_batch endpoint now) s w). intros [v s1 w1 t1]. cbn [value final world]. intros (-> & Hv & Hk).
  rewrite <- Hall. destruct v as [[]|e].
  - destruct (IH later w1 Hd Hlater) as (-> & Hv' & Hk'). cbn [value final world]. split; [done|]. split.
    + revert Hv'. destruct (value (run h (write_from rounds endpoint later) s w1)); [intros Hv'|intros Hv'; by apply write_error_app; right].
      apply list.Forall_app. split; [|done]. apply list.Forall_forall. intros g Hg. unfold is_stored in *.
      intros Hord. rewrite Hk'; [by eapply list.Forall_forall in Hv; eauto|].
      pose proof (proj1 (list.Forall_forall _ _) Hcross (write_path g) (list_elem_of_fmap_2 write_path _ _ Hg)) as Ha.
      exact (proj1 (List.Forall_map _ _ _) Ha).
    + intros path [Hp Hp']%list.Forall_app. by rewrite Hk', Hk.
  - split; [done|]. split; [by apply write_error_app; left|]. intros path [Hp _]%list.Forall_app. by apply Hk.
Qed.

(** ** Reading *)

Lemma read_request_gets path : gets_file endpoint path (agent_request endpoint "GET" (filePath "/files" path) None None).
Proof.
  split; [done|]. split; [|done]. split; [|set_solver]. exists (encode_uri_component path).
  split; [reflexivity|apply percent_roundtrip].
Qed.

(** What is read of a path, by what is there. *)
Definition reads_as (n : node) (o : ReadFileOutcome) : Prop :=
  match n with
  | Holds bytes => o = read_ok bytes
  | Absent => o = read_not_found
  | Unreadable => exists why, o = read_failed why
  end.

Lemma agent_reads path s w :
  ordinary path ->
  let r := run h (agent_readFile endpoint path) s w in
  (exists outcome, value r = Ok outcome /\ reads_as (at_path w path) outcome) /\
  final r = s /\ forall p, at_path (world r) p = at_path w p.
Proof.
  intros Hp. cbn zeta. unfold agent_readFile, request_, failing, fetch. rewrite run_bind, run_try. cbn [run].
  pose proof (serves_reads _ _ _ _ _ Hfiles path _ w Hp (read_request_gets path)) as Ha.
  destruct (h (Fetch (agent_request endpoint "GET" (filePath "/files" path) None None)) w) as [a w1].
  destruct Ha as (Hf & response & -> & Hr). cbn [value final world].
  destruct (at_path w path); destruct Hr as [Hok Hr]; cbn; rewrite Hok; unfold readRefused; cbn.
  - rewrite Hr. split; [|done]. eexists. by split.
  - destruct Hr as [why ->]. split; [|done]. eexists. by split.
  - destruct Hr as [why ->]. split; [|done]. eexists. split; [done|]. by eexists.
Qed.

(** C13 A sandbox's files are its pod's: with an agent that serves the pod's
    files and a pod where nothing else touches them, writing to paths that are
    apart from one another either succeeds, and then every ordinary path
    written holds exactly the octets given for it, or fails with an error that
    names one of the files; in both cases every path apart from those written
    holds what it did.  Reading an ordinary path, at any later moment, gives
    what is there, octet for octet, [NOT_FOUND] exactly when nothing is, and
    [READ_FAILED] exactly when it cannot be read; it changes nothing. *)
Theorem files_read_back this o fs s w :
  objects s !! this = Some o -> channel o = Some endpoint -> ForallOrdPairs apart (map write_path fs) ->
  let r := run h (writeFiles config openAgent this fs) s w in
  final r = s /\
  match value r with
  | Ok _ => Forall (fun f => ordinary (write_path f) -> at_path (world r) (write_path f) = Holds (content_bytes (write_content f))) fs
  | Err e => exists f why, f ∈ fs /\ e = error ("Writing " +:+ write_path f +:+ " failed: " +:+ why)
  end /\
  (forall path, Forall (fun f => apart path (write_path f)) fs -> at_path (world r) path = at_path w path) /\
  forall path w', ordinary path ->
    let g := run h (read_sandbox config openAgent this path) s w' in
    final g = s /\ (forall p, at_path (world g) p = at_path w' p) /\
    exists res, value g = Ok res /\
      match at_path w' path with
      | Holds bytes => result_bytes res = Some bytes
      | Absent => res = ReadFileFailure NOT_FOUND
      | Unreadable => res = ReadFileFailure READ_FAILED
      end.
Proof.
  intros Ho Hc Hnd. cbn zeta.
  assert (let r := run h (writeFiles config openAgent this fs) s w in final r = s /\ wrote fs w (value r) (world r)) as (Hs & Hv & Hk).
  { unfold writeFiles. case_decide as Hne; [subst; split; [done|apply wrote_nil]|]. unfold openAgent.
    rewrite run_bind, (run_open config new_AgentChannel h _ _ _ _ _ Ho Hc). cbn [value final world].
    by apply write_from_wrote. }
  split; [exact Hs|]. split; [exact Hv|]. split; [exact Hk|]. intros path w' Hp.
  unfold read_sandbox, readThrough, openAgent. rewrite run_bind, run_try, run_bind.
  rewrite (run_open config new_AgentChannel h _ _ _ _ _ Ho Hc). cbn [value final world]. rewrite run_bind. cbn zeta.
  change (readFile endpoint path) with (agent_readFile (S := process AgentEndpoint) endpoint path).
  pose proof (agent_reads path s w' Hp) as Hr. cbn zeta in Hr. revert Hr.
  generalize (run h (agent_readFile (S := process AgentEndpoint) endpoint path) s w'). intros [v s1 w1 t1].
  cbn [value final world]. intros ((outcome & -> & Hn) & -> & Hw). cbn [run mret M_ret value final world].
  destruct (at_path w' path) as [bytes| |]; cbn in Hn.
  - subst. cbn. split; [done|]. split; [done|]. eexists. split; [done|apply encoded_bytes].
  - subst. cbn. split; [done|]. split; [done|]. by eexists.
  - destruct Hn as [why ->]. unfold readFailed. rewrite (run_self_bind _ _ _ _ _ _ _ Ho).
    match goal with |- context [warn ?l] => pose proof (serves_console _ _ _ _ _ Hfiles console_warn l w1) as Hl; unfold warn, say end.
    rewrite run_bind. cbn [run]. destruct (h (Console console_warn _) w1) as [u w2]. cbn in Hl |- *.
    split; [done|]. split; [intros p; by rewrite Hl, Hw|]. by eexists.
Qed.
End files.

(** ** An agent that does: one directory, and files by path *)

#[local] Existing Instance example_platform.

Definition file_path (r : request) : option string :=
  percent_decode (str_drop (String.length (endpoint_url example_endpoint +:+ "/files?path=")) (url r)).

Definition named (p : string) : Prop := p <> "".
Definition differ (p p' : string) : Prop := p <> p'.
Definition writable (p : string) : bool := negb (bool_decide (p = "") || bool_decide (p = "/tmp")).

Definition in_store (m : gmap string (list ascii)) (p : string) : node :=
  if decide (p = "/tmp") then Unreadable else match m !! p with Some b => Holds b | None => Absent end.

Definition store_one (m : gmap string (list ascii)) (r : request) : gmap string (list ascii) :=
  match file_path r, payload_of r with
  | Some p, Some (RawPayload b) => if writable p then <[p := b]> m else m
  | _, _ => m
  end.

Definition refusal (status : Z) (code : string) : response :=
  {| Io.status := status; statusText := ""; content := Some {| chunks := [utf8_encode (q "{'code': '" +:+ code +:+ q "', 'error': 'no'}")]; ending := None |} |}.

Definition store_answer (r : request) : result response :=
  match file_path r with
  | Some p => if writable p then Ok (http_ok "{}") else Ok (refusal 500 "write_failed")
  | None => Ok (refusal 400 "")
  end.

Definition file_store : handler (gmap string (list ascii)) := fun c m =>
  match c return answer c * _ with
  | Fetch r =>
      (Ok (match file_path r with
           | Some p =>
               match in_store m p with
               | Holds b => {| status := 200; statusText := "OK"; content := Some {| chunks := [b]; ending := None |} |}
               | Absent => refusal 404 "not_found"
               | Unreadable => refusal 500 "read_failed"
               end
           | None => refusal 400 ""
           end), m)
  | FetchAll rs => ((map store_answer rs, rev (seq 0 (length rs))), foldl store_one m rs)
  | c => (fst (offline c tt), m)
  end.

Lemma file_path_named path r : names_file example_endpoint path r -> file_path r = Some path.
Proof.
  intros [(e & Hu & He) _]. unfold file_path. rewrite Hu, <- string_app_assoc. by rewrite str_drop_app.
Qed.

Lemma store_one_put m r f : puts example_endpoint r f -> store_one m r = if writable (fst f) then <[fst f := snd f]> m else m.
Proof. intros (_ & Hn & Hb). unfold store_one. by rewrite (file_path_named _ _ Hn), Hb. Qed.

Lemma store_keeps rs fs m path :
  Forall2 (puts example_endpoint) rs fs -> Forall (fun f => differ path (fst f)) fs -> in_store (foldl store_one m rs) path = in_store m path.
Proof.
  intros Hp. revert m; induction Hp as [|r f rs fs Hr Hp IH]; intros m; [done|]. intros [Hf Hfs]%list.Forall_cons_1.
  cbn [foldl]. rewrite IH, (store_one_put _ _ _ Hr) by done. destruct (writable (fst f)); [|done].
  unfold in_store. by rewrite lookup_insert_ne.
Qed.

Lemma store_holds rs fs m :
  Forall2 (puts example_endpoint) rs fs -> ForallOrdPairs differ (map fst fs) ->
  Forall2 (fun a f => accepted a -> named (fst f) -> in_store (foldl store_one m rs) (fst f) = Holds (snd f)) (map store_answer rs) fs.
Proof.
  intros Hp. revert m; induction Hp as [|r f rs fs Hr Hp IH]; intros m Hnd; cbn [map foldl]; [constructor|].
  inversion Hnd as [|? ? Hne Hnd']; subst. constructor; [|by apply IH].
  intros (response & Ha & Hok) _. rewrite (store_keeps rs fs) by (done || exact (proj1 (List.Forall_map _ _ _) Hne)).
  rewrite (store_one_put _ _ _ Hr). unfold store_answer in Ha. rewrite (file_path_named _ _ (proj1 (proj2 Hr))) in Ha.
  destruct (writable (fst f)) eqn:Ew; [|by injection Ha as <-].
  unfold in_store. rewrite decide_False, lookup_insert_eq; [done|]. intros E. by rewrite E in Ew.
Qed.

Lemma file_store_serves : serves_files example_endpoint file_store in_store named differ.
Proof.
  split.
  - done.
  - intros p p' Hp E. by apply Hp.
  - intros rs fs m Hp. cbn. rewrite length_map. split; [done|]. split; [symmetry; apply Permutation_rev|].
    split; [by apply store_holds|]. intros path. by apply store_keeps.
  - intros path r m _ (_ & Hn & _). unfold file_store. rewrite (file_path_named _ _ Hn). split; [done|]. eexists. split; [done|].
    destruct (in_store m path) as [b| |]; cbn [answers_node]; (split; [done|]).
    + cbn. by rewrite app_nil_r.
    + eexists. vm_compute. reflexivity.
    + eexists. vm_compute. reflexivity.
  - done.
Qed.

Definition two_files : list SandboxFileWrite :=
  [{| write_path := "/tmp/a b/é.bin"; write_content := Bytes [chr 0; chr 159; chr 10] |};
   {| write_path := "/tmp/it's.txt"; write_content := Text "hi" |}].

Definition after_writes : gmap string (list ascii) :=
  world (run file_store (writeFiles example_config openAgent 0 two_files) (one_object open_object) ∅).

Lemma files_read_back_witness :
  (exists res, value (run file_store (read_sandbox example_config openAgent 0 "/tmp/a b/é.bin") (one_object open_object) after_writes) = Ok res /\
     result_bytes res = Some [chr 0; chr 159; chr 10]) /\
  value (run file_store (read_sandbox example_config openAgent 0 "/tmp") (one_object open_object) after_writes) = Ok (ReadFileFailure READ_FAILED).
Proof.
  assert (ForallOrdPairs differ (map write_path two_files)) as Hnd by (repeat constructor; done).
  destruct (files_read_back example_config example_endpoint file_store in_store named differ file_store_serves 0 open_object two_files
    (one_object open_object) ∅ eq_refl eq_refl Hnd) as (_ & Hv & _ & Hr).
  assert (in_store after_writes "/tmp/a b/é.bin" = Holds [chr 0; chr 159; chr 10]) as Hin.
  { revert Hv. fold after_writes. destruct (value _) as [u|e] eqn:E; [|vm_compute in E; discriminate E].
    intros Hv. apply list.Forall_cons_1 in Hv as [Hv _]. by apply Hv. }
  split.
  - destruct (Hr "/tmp/a b/é.bin" after_writes ltac:(done)) as (_ & _ & res & Hres & Hb). exists res. split; [exact Hres|].
    by rewrite Hin in Hb.
  - destruct (Hr "/tmp" after_writes ltac:(done)) as (_ & _ & res & Hres & Hb). change (in_store after_writes "/tmp") with Unreadable in Hb. by rewrite Hres, Hb.
Defined.
