(* ===== verification/Lifecycle.v ===== *)
(** The life of a sandbox, as an abstract machine of three phases, and that the
    process (src/provider.ts, src/sandbox.ts) implements it: whatever
    interleaves, every move of the process is a move of that machine for each
    sandbox, or none. *)
From S2P Require Import Prelude JsString Regex Encoding Sha256 JsNumber Json Io Rely Shell Ndjson Types Auth Config PodSpec Queues Armada Channel Sandbox SandboxInv SandboxSpec Provider Operations Liveness.
(** ** The abstract machine *)

(** Where a sandbox is in its life: no job is known for it, one is, or its
    agent is reached too. *)
Inductive phase (C : Type) := Unplaced | Placed (j : SubmittedJob) | Reached (j : SubmittedJob) (c : C).
Arguments Unplaced {C}.
Arguments Placed {C} j.
Arguments Reached {C} j c.

(** Its moves.  A job is never given up for none, and an agent is only reached
    in the pod of a job. Two calls that make the same sandbox ready at once, or
    one that takes over what another instance reached, exchange the job or the
    agent. *)
Inductive life_step {C} : phase C -> phase C -> Prop :=
| life_place j : life_step Unplaced (Placed j)
| life_replace j j' : life_step (Placed j) (Placed j')
| life_reach j c : life_step (Placed j) (Reached j c)
| life_rejob j j' c : life_step (Reached j c) (Reached j' c)
| life_rereach j c c' : life_step (Reached j c) (Reached j c')
| life_leave j c : life_step (Reached j c) (Placed j).

Definition phase_of {C} (o : sandbox C) : phase C :=
  match job o, channel o with
  | None, _ => Unplaced
  | Some j, None => Placed j
  | Some j, Some c => Reached j c
  end.

(** An agent is held only with a job: what makes [phase_of] say all. *)
Definition well_phased {C} (o : sandbox C) : Prop := is_Some (channel o) -> is_Some (job o).

(** What stays of an object while others run. *)
Definition grown {C} (o o' : sandbox C) : Prop :=
  sid o' = sid o /\ attachOnly o' = attachOnly o /\ (is_Some (job o) -> is_Some (job o')).

(** What a single change makes of one. *)
Definition turned {C} (o o' : sandbox C) : Prop :=
  sid o' = sid o /\ attachOnly o' = attachOnly o /\
  (phase_of o' = phase_of o \/ life_step (phase_of o) (phase_of o')).

Definition lifecycle (C : Type) : rules (process C) := {|
  holds s := forall n o, objects s !! n = Some o -> well_phased o;
  evolves s t := forall n o, objects s !! n = Some o -> exists o', objects t !! n = Some o' /\ grown o o';
  moves s t := exists n, objects t = objects s \/
    (exists o o', objects s !! n = Some o /\ turned o o' /\ objects t = <[n := o']> (objects s));
  answerable _ _ := True
|}.

Lemma phase_job {C} (o : sandbox C) : is_Some (job o) <-> phase_of o <> Unplaced.
Proof.
  unfold phase_of. destruct (job o) as [j|]; [by destruct (channel o); split|].
  split; [by intros []|done].
Qed.

Lemma life_step_placed {C} (x y : phase C) : life_step x y -> y <> Unplaced.
Proof. by destruct 1. Qed.

Lemma turned_grown {C} (o o' : sandbox C) : turned o o' -> grown o o'.
Proof.
  intros (Hs & Ha & Hp). split; [done|]. split; [done|]. rewrite !phase_job.
  destruct Hp as [->|Hp%life_step_placed]; auto.
Qed.

#[export] Instance lifecycle_sound C : Sound (lifecycle C).
Proof.
  split.
  - intros s n o Ho. exists o. unfold grown. auto.
  - intros s t u Hst Htu n o Ho. destruct (Hst n o Ho) as (o1 & Ho1 & Hs1 & Ha1 & Hj1).
    destruct (Htu n o1 Ho1) as (o2 & Ho2 & Hs2 & Ha2 & Hj2). exists o2. split; [done|].
    split_and!; [congruence|congruence|auto].
  - intros s t [m Hm] n o Ho. destruct Hm as [Ht|(x & x' & Hx & Hxx & Ht)]; rewrite Ht; [exists o; unfold grown; auto|].
    destruct (decide (m = n)) as [<-|Hn].
    + rewrite Ho in Hx. injection Hx as ->. exists x'. rewrite lookup_insert_eq. auto using turned_grown.
    + exists o. rewrite lookup_insert_ne by done. unfold grown. auto.
Qed.

(** ** Every operation keeps to it *)

Section operations.
Context `{Platform} {C : Type} `{CalmChannel (process C) C}.
Context (config : ArmadaConfig) (openChannel : AgentEndpoint -> C).

Abbreviation LC := (lifecycle C).

(** The object is there, and a job is known for it. *)
Definition known (this : nat) (s : process C) : Prop := exists o, objects s !! this = Some o /\ is_Some (job o).

Lemma known_later this s t : known this s -> evolves LC s t -> known this t.
Proof. intros (o & Ho & Hj) Hst. destruct (Hst this o Ho) as (o' & Ho' & _ & _ & Hj'). exists o'. auto. Qed.

(** [eapply obeys_bind] with the sound rules, the value being anything. *)
Ltac then_any := eapply (obeys_bind LC anything).
Ltac by_calm := apply (obeys_calm LC); calm.

(** A change that leaves the objects alone. *)
Lemma obeys_aside f s : (forall t, objects (f t) = objects t) -> obeys LC (gives anything) s (modify f).
Proof.
  intros Hf t Ht _. split; [intros n o; rewrite Hf; apply Ht|]. split; [|done]. exists 0%nat. left. apply Hf.
Qed.

(** An assignment to a field. *)
Lemma obeys_assign (Q : process C -> Prop) this f s :
  (forall t o, evolves LC s t -> objects t !! this = Some o -> well_phased o ->
     turned o (f o) /\ well_phased (f o)) ->
  (forall t, evolves LC s t -> Q (on_objects (alter f this) t)) ->
  obeys LC (gives (fun t _ => Q t)) s (assign this f).
Proof.
  intros Hf HQ t Ht Hst. split; [|split; [|by apply HQ]].
  - intros n o. cbn [on_objects objects]. intros [(<- & o' & Ho & ->)|[_ Ho]]%lookup_alter_Some; [|by eapply Ht].
    apply (Hf t); auto. by eapply Ht.
  - exists this. cbn [on_objects objects]. destruct (objects t !! this) as [o|] eqn:Ho.
    + right. exists o, (f o). split; [done|]. split; [apply (Hf t); auto; by eapply Ht|].
      apply map_eq. intros n. destruct (decide (this = n)) as [<-|Hn].
      * by rewrite lookup_alter_eq, lookup_insert_eq, Ho.
      * by rewrite lookup_alter_ne, lookup_insert_ne by done.
    + left. apply map_eq. intros n. destruct (decide (this = n)) as [<-|Hn]; [by rewrite lookup_alter_eq, Ho|].
      by rewrite lookup_alter_ne by done.
Qed.

(** Reading the job, where there must be one. *)
Lemma obeys_this_job this what s :
  obeys LC (gives (fun t _ => known this t)) s (self this job ≫= defined what).
Proof.
  eapply (obeys_bind LC); [apply obeys_self|]. intros t j _ (o & Ho & ->). unfold defined.
  destruct (job o) eqn:Hj; simpl; [|done]. exists o. rewrite Hj. eauto.
Qed.

Lemma there_later this s t : there this s -> evolves LC s t -> there this t.
Proof. intros [o Ho] Hst. destruct (Hst this o Ho) as (o' & Ho' & _). by exists o'. Qed.

Lemma obeys_set_job this j s : there this s -> obeys LC (gives (fun t _ => known this t)) s (assign this (set_job (Some j))).
Proof.
  intros Hs. apply obeys_assign.
  - intros t o _ _ Hw. split; [|by intros _; eexists]. unfold turned, phase_of, well_phased in *. cbn.
    split; [done|]. split; [done|]. right. destruct (job o); destruct (channel o); try constructor.
    destruct Hw; [by eexists|done].
  - intros t Hst. destruct (there_later _ _ _ Hs Hst) as [o Ho]. exists (set_job (Some j) o).
    split; [by cbn; rewrite lookup_alter_eq, Ho | by eexists].
Qed.

(** A change of the other fields. *)
Lemma obeys_same_phase this f s :
  (forall o : sandbox C, sid (f o) = sid o /\ attachOnly (f o) = attachOnly o /\ job (f o) = job o /\ channel (f o) = channel o) ->
  obeys LC (gives anything) s (assign this f).
Proof.
  intros Hf. apply (obeys_assign (fun _ => True)); [|done]. intros t o _ _. destruct (Hf o) as (Hs & Ha & Hj & Hc).
  unfold turned, well_phased, phase_of. rewrite Hj, Hc. auto.
Qed.

Lemma obeys_set_channel this c s : known this s -> obeys LC (gives anything) s (assign this (set_channel (Some c))).
Proof.
  intros Hk. apply (obeys_assign (fun _ => True)); [|done]. intros t o Hst Ho _.
  destruct (known_later _ _ _ Hk Hst) as (o' & Ho' & [j Hj]). rewrite Ho in Ho'. injection Ho' as <-.
  unfold turned, phase_of, well_phased. cbn. rewrite Hj. split; [|by eexists]. split; [done|]. split; [done|].
  right. destruct (channel o); constructor.
Qed.

Lemma obeys_unset_channel this s : obeys LC (gives anything) s (assign (C := C) this (set_channel None)).
Proof.
  apply (obeys_assign (fun _ => True)); [|done]. intros t o _ _ Hw. split; [|by intros []].
  unfold turned, phase_of. cbn. split; [done|]. split; [done|].
  destruct (job o), (channel o); auto; right; constructor.
Qed.

(** ** The operations, one after another *)

Lemma obeys_queue this s : obeys LC (gives anything) s (queue_of config this).
Proof. apply (obeys_queue_of config LC). intros f t. by apply obeys_aside. Qed.

Lemma obeys_submit_job this s : obeys LC (gives anything) s (submit_job config this).
Proof.
  unfold submit_job. then_any; [by_calm|]. intros s1 id _ _. then_any; [by_calm|]. intros s2 o _ _.
  then_any; [by_calm|]. intros s3 pod _ _. then_any; [apply obeys_queue|]. intros s4 q _ _. by_calm.
Qed.

Lemma obeys_existingJob this s : obeys LC (gives anything) s (existingJob config this).
Proof.
  unfold existingJob. then_any; [by_calm|]. intros s1 id _ _. then_any; [apply obeys_queue|]. intros s2 q _ _. by_calm.
Qed.

Lemma obeys_adopt this s : there this s -> obeys LC (gives anything) s (adopt this).
Proof.
  intros Hs. unfold adopt. then_any; [by_calm|]. intros s1 id E1 _. eapply there_later in Hs; [|exact E1].
  then_any; [done|]. intros s2 [p|] E2 _; [|done]. eapply there_later in Hs; [|exact E2]. apply (obeys_try LC).
  - then_any; [by_calm|]. intros s3 a3 E3 _. eapply there_later in Hs; [|exact E3].
    eapply (obeys_bind LC); [by apply obeys_set_job|]. intros s4 a4 E4 Hk.
    then_any; [by apply obeys_same_phase|]. intros s5 a5 E5 _. eapply known_later in Hk; [|exact E5].
    then_any; [by apply obeys_set_channel|]. done.
  - intros s3 e _. then_any; [by apply obeys_aside|done].
Qed.

Lemma obeys_ensure_job this s : there this s -> obeys LC (gives anything) s (ensure_job config this).
Proof.
  intros Hs. unfold ensure_job. then_any; [by_calm|]. intros s1 [j|] E1 _; [done|].
  eapply there_later in Hs; [|exact E1]. then_any; [by_calm|]. intros s2 attach E2 _.
  eapply there_later in Hs; [|exact E2]. then_any.
  { destruct attach; [apply obeys_existingJob | apply obeys_submit_job]. }
  intros s3 j E3 _. eapply there_later in Hs; [|exact E3].
  eapply obeys_weaken; [apply lifecycle_sound| |by apply obeys_set_job]. by intros t [].
Qed.

Lemma obeys_reach this s : obeys LC (gives anything) s (reach config (plain openChannel) this).
Proof.
  unfold reach. then_any; [by_calm|]. intros s1 id _ _.
  eapply (obeys_bind LC); [apply obeys_this_job|]. intros s2 j _ Hk.
  then_any; [by_calm|]. intros s3 pod E3 _. eapply known_later in Hk; [|exact E3].
  then_any; [by apply obeys_same_phase|]. intros s4 a4 E4 _. eapply known_later in Hk; [|exact E4].
  then_any; [by_calm|]. intros s5 j' E5 _. eapply known_later in Hk; [|exact E5].
  then_any; [by_calm|]. intros s6 url E6 _. eapply known_later in Hk; [|exact E6].
  then_any; [by_calm|]. intros s7 p E7 _. eapply known_later in Hk; [|exact E7]. rewrite plain_bind.
  then_any; [by_calm|]. intros s8 a8 E8 _. eapply known_later in Hk; [|exact E8].
  then_any; [by apply obeys_set_channel|]. intros s9 _ _ _.
  then_any; [by_calm|]. intros s10 j'' _ _. then_any; [by_calm|]. intros s11 p' _ _. by apply obeys_aside.
Qed.

Lemma obeys_ready this s : there this s -> obeys LC (gives anything) s (ready_sandbox config (plain openChannel) this).
Proof.
  intros Hs. unfold ready_sandbox. then_any; [by_calm|]. intros s1 [c|] E1 _; [done|].
  eapply there_later in Hs; [|exact E1]. then_any; [by apply obeys_adopt|]. intros s2 [] E2 _; [done|].
  eapply there_later in Hs; [|exact E2]. then_any; [by apply obeys_ensure_job|]. intros s3 _ _ _. apply obeys_reach.
Qed.

Lemma obeys_setEnvVars this vars b s : obeys LC (gives anything) s (setEnvVars (C := C) this vars b).
Proof. unfold setEnvVars. then_any; [by_calm|]. intros t _ _ _. apply obeys_same_phase. by destruct b. Qed.

Lemma obeys_destroy this s : obeys LC (gives anything) s (destroy (C := C) config this).
Proof.
  unfold destroy. then_any; [by_calm|]. intros s1 j _ _. then_any; [by_calm|]. intros s2 id _ _.
  then_any; [destruct j; [by_calm|]; then_any; [apply obeys_queue | intros s3 q _ _; by_calm]|].
  intros s3 u3 _ _. then_any; [by apply obeys_aside|]. intros s4 u4 _ _.
  then_any; [by apply obeys_aside|]. intros s5 u5 _ _. then_any; [by apply obeys_same_phase|].
  intros s6 u6 _ _. apply obeys_unset_channel.
Qed.

Lemma obeys_life this op s : there this s -> obeys LC (gives anything) s (perform config (plain openChannel) this op).
Proof.
  apply (obeys_perform config openChannel LC); [apply obeys_ready|apply obeys_setEnvVars|apply obeys_destroy].
Qed.
End operations.

(** ** The process implements it *)

(** A sandbox as the abstract machine has it: whose it is, how it came to be,
    and where it is in its life. *)
Record life := { life_id : SandboxId; life_attached : bool; life_phase : phase AgentEndpoint }.

Definition life_of (o : sandbox AgentEndpoint) : life :=
  {| life_id := sid o; life_attached := attachOnly o; life_phase := phase_of o |}.

Section refinement.
Context `{Platform} (config : ArmadaConfig) (kind : bool -> Prop).

(** A job of the sandbox's own set; an agent addressed with its own token. *)
Definition lawful (id : SandboxId) (p : phase AgentEndpoint) : Prop :=
  match p with
  | Unplaced => True
  | Placed j => jobSetId j = id
  | Reached j c => jobSetId j = id /\ token c = token_of config id
  end.

(** One move of the abstract machine: a sandbox is made, which no job is known
    for, or one of them moves on. *)
Inductive life_moves : gmap nat life -> gmap nat life -> Prop :=
| life_born m n id attach :
    m !! n = None -> life_moves m (<[n := {| life_id := id; life_attached := attach; life_phase := Unplaced |}]> m)
| life_turns m n id attach p p' :
    m !! n = Some {| life_id := id; life_attached := attach; life_phase := p |} ->
    life_step p p' -> lawful id p' ->
    life_moves m (<[n := {| life_id := id; life_attached := attach; life_phase := p' |}]> m).

(** What the abstract machine sees of the process. *)
Definition lives (x : service) : gmap nat life := life_of <$> objects (shared (running x)).

(** Every program running keeps to the rules, and every sandbox made is there. *)
Definition orderly (x : service) : Prop :=
  holds (lifecycle AgentEndpoint) (shared (running x)) /\
  (forall n, n < length (births x) -> there n (shared (running x)))%nat /\
  Forall (obeys (lifecycle AgentEndpoint) anything (shared (running x))) (threads (running x)).

(** A sandbox made at a fresh address. *)
Lemma orderly_new x id o attach :
  orderly x -> objects (shared (running x)) !! length (births x) = None ->
  orderly {| running := with_shared (new_sandbox (length (births x)) id o attach (shared (running x))) (running x);
             births := births x ++ [(id, attach)] |}.
Proof.
  intros (Hs & Hb & Ht) Hn. unfold orderly. cbn [running births with_shared shared threads].
  assert (evolves (lifecycle AgentEndpoint) (shared (running x))
            (new_sandbox (length (births x)) id o attach (shared (running x)))) as Hev.
  { intros n y Hy. exists y. split; [|unfold grown; auto]. unfold new_sandbox. cbn [on_objects objects].
    rewrite lookup_insert_ne; [done|]. intros <-. congruence. }
  split; [|split; [|by eapply (all_later (lifecycle AgentEndpoint))]].
  - intros n y. unfold new_sandbox. cbn [on_objects objects]. intros [[<- <-]|[_ Hy]]%lookup_insert_Some; [by intros []|by eapply Hs].
  - intros n. rewrite length_app. simpl. intros Hlt. unfold there, new_sandbox. cbn [on_objects objects].
    destruct (decide (n = length (births x))) as [->|Hne]; [rewrite lookup_insert_eq; by eexists|].
    rewrite lookup_insert_ne by done. apply Hb. lia.
Qed.

Lemma fresh x : service_ok config kind x -> objects (shared (running x)) !! length (births x) = None.
Proof.
  intros (_ & _ & [Ho _] & _). destruct (objects _ !! length (births x)) as [o|] eqn:E; [|done].
  destruct (Ho _ _ E) as [Hb _]. unfold born in Hb. apply lookup_lt_Some in Hb. lia.
Qed.

Lemma orderly_thread x t :
  orderly x -> obeys (lifecycle AgentEndpoint) anything (shared (running x)) t ->
  orderly {| running := with_thread t (running x); births := births x |}.
Proof.
  intros (Hs & Hb & Hts) Ht. split; [done|]. split; [done|]. cbn [running with_thread threads shared].
  apply Forall_app. split; [done|]. by constructor.
Qed.

(** What a move of a program running makes of the whole. *)
Lemma orderly_move p p' bs :
  pool_step p p' -> orderly {| running := p; births := bs |} ->
  orderly {| running := p'; births := bs |} /\
  (shared p' = shared p \/ moves (lifecycle AgentEndpoint) (shared p) (shared p')).
Proof.
  intros [ts i t s cs l t' s' Hi Hstep] (Hs & Hb & Hts). unfold orderly. cbn [running births threads shared] in *.
  destruct (obeys_step _ _ _ s _ _ _ _ (anything_stable _) Hstep (Forall_lookup_1 _ _ _ _ Hts Hi) Hs (evolves_refl s) (or_intror (fun _ _ => I)))
    as (Hs' & Hm & Ht').
  assert (evolves (lifecycle AgentEndpoint) s s') as Hev by
    (destruct Hm as [->|Hm]; [apply evolves_refl | by apply moves_evolves]).
  split; [|done]. split; [done|]. split; [intros n Hn; eapply there_later; [by apply Hb|done]|].
  apply Forall_insert; [by eapply (all_later (lifecycle AgentEndpoint)) | done].
Qed.

Lemma orderly_step x y : service_step config kind x y -> service_ok config kind x -> orderly x -> orderly y.
Proof.
  intros Hxy Hok Hx. pose proof (fresh x Hok) as Hf. destruct Hxy as [p p' bs Hm|p bs id o _|p bs id o _|p bs n op Hn|p bs pages list Hl].
  - by apply (orderly_move p p').
  - by apply (orderly_new _ id o false Hx).
  - by apply (orderly_new _ id o true Hx).
  - apply (orderly_thread _ _ Hx), (obeys_any (lifecycle AgentEndpoint)), obeys_life. by apply Hx.
  - apply (orderly_thread _ _ Hx). revert Hl. cbn [new_ArmadaCompute list_active]. destruct (lookoutUrl config); [|done].
    intros [= <-]. apply (obeys_any (lifecycle AgentEndpoint)), (obeys_sweep config (lifecycle AgentEndpoint)).
    intros f t. by apply obeys_aside.
Qed.

Lemma orderly_reached x : rtc (service_step config kind) started x -> orderly x.
Proof.
  intros Hx. assert (service_ok config kind started) as Hok by apply service_ok_reached, rtc_refl.
  assert (orderly started) as H0 by (split; [done|]; split; [intros n Hn; cbn in Hn; lia | constructor]).
  clear -Hx Hok H0. induction Hx as [|x y z Hxy _ IH]; [done|]. eauto using orderly_step, service_ok_step.
Qed.

Lemma object_lawful s bs n o :
  process_ok config new_AgentChannel (born bs) s -> objects s !! n = Some o -> lawful (sid o) (phase_of o).
Proof.
  intros [Ho _] Hn. destruct (Ho n o Hn) as (_ & Hj & Hc & _). unfold phase_of, lawful.
  destruct (job o) as [j|]; [|done]. destruct (channel o) as [c|]; [|by apply Hj].
  split; [by apply Hj|]. by destruct (Hc c eq_refl) as (url & pod & ->).
Qed.

(** A change of the state, as the abstract machine sees it. *)
Lemma moves_abstract s s' bs :
  process_ok config new_AgentChannel (born bs) s' -> moves (lifecycle AgentEndpoint) s s' ->
  (life_of <$> objects s') = (life_of <$> objects s) \/ life_moves (life_of <$> objects s) (life_of <$> objects s').
Proof.
  intros Hok [n [->|(o & o' & Ho & (Hi & Ha & Hp) & Hs)]]; [by left|].
  assert (life_of o' = {| life_id := sid o; life_attached := attachOnly o; life_phase := phase_of o' |}) as Hl
    by (unfold life_of; congruence).
  rewrite Hs, fmap_insert, Hl. destruct Hp as [Hp|Hp].
  - left. apply insert_id. rewrite lookup_fmap, Ho, Hp. done.
  - right. apply (life_turns _ n _ _ (phase_of o)); [by rewrite lookup_fmap, Ho|done|].
    rewrite <- Hi. eapply object_lawful; [exact Hok|]. rewrite Hs. apply lookup_insert_eq.
Qed.

Lemma lives_step x y :
  service_step config kind x y -> service_ok config kind x -> orderly x ->
  lives y = lives x \/ life_moves (lives x) (lives y).
Proof.
  intros Hxy Hok Hx. pose proof (fresh x Hok) as Hf. pose proof (service_ok_step config kind x y Hxy Hok) as (_ & _ & Hoky & _).
  destruct Hxy as [p p' bs Hm|p bs id o _|p bs id o _|p bs n op Hn|p bs pages list Hl]; unfold lives;
    cbn [running births with_shared with_thread shared create connectExisting new_sandbox on_objects objects] in *;
    [|right|right|by left|by left].
  - destruct (orderly_move p p' bs Hm Hx) as [_ [->|Hmv]]; [by left|]. by eapply moves_abstract.
  - rewrite fmap_insert. apply life_born. by rewrite lookup_fmap, Hf.
  - rewrite fmap_insert. apply life_born. by rewrite lookup_fmap, Hf.
Qed.

(** C2 The process implements the abstract machine of its sandboxes' lives:
    from a process just started, whatever sandboxes are made, used and swept,
    however that interleaves and whatever the outside answers, what there is
    to see of its sandboxes is a state the abstract machine reaches, and
    every further move of the process is one of the machine or none. A sandbox
    is made without a job; it gets one of its own set, and an agent
    addressed with its own token only after that; it never loses a job for
    none; and no move changes two sandboxes. *)
Theorem process_implements_lives x :
  rtc (service_step config kind) started x ->
  rtc life_moves ∅ (lives x) /\
  forall y, service_step config kind x y -> lives y = lives x \/ life_moves (lives x) (lives y).
Proof.
  intros Hx. split; [|intros y Hxy; apply lives_step; [done|by apply service_ok_reached|by apply orderly_reached]].
  assert (lives started = ∅) as H0 by apply fmap_empty. rewrite <- H0.
  assert (service_ok config kind started) as Hok by apply service_ok_reached, rtc_refl.
  assert (orderly started) as Ho by apply orderly_reached, rtc_refl. clear H0.
  induction Hx as [x|x y z Hxy _ IH]; [done|]. transitivity (lives y).
  - destruct (lives_step x y Hxy Hok Ho) as [->|Hm]; [done|by apply rtc_once].
  - apply IH; eauto using orderly_step, service_ok_step.
Qed.
End refinement.

(** ** Witness *)

#[local] Existing Instance example_platform.

(** A program of the process that is left to itself. *)
Lemma service_run config kind p p' bs :
  rtc pool_step p p' -> rtc (service_step config kind) {| running := p; births := bs |} {| running := p'; births := bs |}.
Proof. induction 1 as [|p q r Hpq _ IH]; [done|]. eapply rtc_l; [by apply svc_move|done]. Qed.

(** A process that made one sandbox and asked it to be ready, in a world that
    answers. *)
Definition making : service :=
  {| running := with_thread (perform example_config openAgent 0 op_ready)
                  (with_shared (create 0 "s1" None (shared (running started))) (running started));
     births := [("s1", false)] |}.

Definition made : outcome (process AgentEndpoint) unit (result unit) :=
  run up_world (perform example_config openAgent 0 op_ready) (shared (running making)) tt.

Definition made_service : service :=
  {| running := {| threads := [Done (value made)]; shared := final made; calls := trace made |}; births := births making |}.

Lemma made_reached : rtc (service_step example_config (fun _ => True)) started made_service.
Proof.
  eapply rtc_l; [exact (svc_create example_config _ (running started) [] "s1" None I)|].
  eapply rtc_l; [exact (svc_use example_config _ _ [("s1", false)] 0 op_ready (Nat.lt_0_succ 0))|].
  apply service_run. exact (pool_run up_world (perform example_config openAgent 0 op_ready) [perform example_config openAgent 0 op_ready] 0 (shared (running making)) tt [] eq_refl).
Qed.

Lemma process_implements_lives_witness :
  rtc (life_moves example_config) ∅ (lives made_service) /\
  lives made_service !! 0%nat =
    Some {| life_id := "s1"; life_attached := false;
            life_phase := Reached example_job (agent_at example_config "s1" "pod-1.example" up_pod) |}.
Proof.
  split; [|vm_compute; reflexivity].
  exact (proj1 (process_implements_lives example_config (fun _ => True) made_service made_reached)).
Defined.
