(* ===== verification/Dedup.v ===== *)
(** One job per sandbox: two objects of one sandbox that become ready at once
    (src/sandbox.ts) both submit, and what makes that one job is that Armada
    answers a client id it knows with the job it has.  The sandbox's part of
    the bargain is the client id; with it, no interleaving leaves two objects
    of a sandbox with different jobs. *)
From S2P Require Import Prelude JsString Regex Encoding Sha256 JsNumber Json Io Rely Shell Ndjson Types Auth Config PodSpec Queues Armada Channel Sandbox SandboxInv SandboxSpec Provider Operations Liveness Lifecycle.

(** ** A process whose outside keeps a law *)

Section lawful.
Context `{Platform} (config : ArmadaConfig) (kind : bool -> Prop) (law : forall c : io, answer c -> Prop).

(** As [service_step], but every call is answered by the law. *)
Inductive lawful_step : service -> service -> Prop :=
| lawful_call ts i c k r s cs bs :
    ts !! i = Some (Call c k) -> law c r ->
    lawful_step {| running := {| threads := ts; shared := s; calls := cs |}; births := bs |}
                {| running := {| threads := <[i := k r]> ts; shared := s; calls := cs ++ [c] |}; births := bs |}
| lawful_quiet x y :
    service_step config kind x y -> calls (running y) = calls (running x) -> lawful_step x y.

Lemma lawful_is_step x y : lawful_step x y -> service_step config kind x y.
Proof.
  destruct 1 as [ts i c k r s cs bs Hi Hr|]; [|done]. apply svc_move.
  by apply (pool_move ts i (Call c k) s cs (Some c) (k r) s), step_call.
Qed.

Lemma lawful_move ts i t s t' s' cs bs :
  ts !! i = Some t -> pstep (t, s) None (t', s') ->
  lawful_step {| running := {| threads := ts; shared := s; calls := cs |}; births := bs |}
              {| running := {| threads := <[i := t']> ts; shared := s'; calls := cs |}; births := bs |}.
Proof.
  intros Hi Hs. apply lawful_quiet; [|done]. apply svc_move. pose proof (pool_move ts i t s cs None t' s' Hi Hs) as Hp.
  cbn [option_list] in Hp. by rewrite app_nil_r in Hp.
Qed.

Lemma lawful_reached x : rtc lawful_step started x -> rtc (service_step config kind) started x.
Proof. induction 1; [done|]. eapply rtc_l; [by apply lawful_is_step|done]. Qed.

(** A program that is left to itself, in a world that keeps the law. *)
Lemma lawful_run {W} (h : handler W) p ts i s w cs bs :
  (forall c w, law c (fst (h c w))) -> ts !! i = Some p ->
  rtc lawful_step {| running := {| threads := ts; shared := s; calls := cs |}; births := bs |}
    {| running := {| threads := <[i := Done (value (run h p s w))]> ts; shared := final (run h p s w); calls := cs ++ trace (run h p s w) |};
       births := bs |}.
Proof.
  intros Hl. revert ts s w cs; induction p as [a|k IH|f p IH|c k IH]; intros ts s w cs Hi; cbn [run value final trace].
  - rewrite list_insert_id by done. by rewrite app_nil_r.
  - specialize (IH s (<[i := k s]> ts) s w cs). rewrite list_insert_insert_eq in IH.
    eapply rtc_l; [by eapply lawful_move, step_get|]. by eapply IH, placed_at.
  - specialize (IH (<[i := p]> ts) (f s) w cs). rewrite list_insert_insert_eq in IH.
    eapply rtc_l; [by eapply lawful_move, step_modify|]. by eapply IH, placed_at.
  - pose proof (Hl c w) as Hr. destruct (h c w) as [r w']. specialize (IH r (<[i := k r]> ts) s w' (cs ++ [c])).
    rewrite list_insert_insert_eq, <- (assoc_L (++)) in IH. eapply rtc_l; [by eapply lawful_call|]. by eapply IH, placed_at.
Qed.
End lawful.

(** ** The law *)

Section dedup.
Context `{Platform} (config : ArmadaConfig) (original : SandboxId -> qname -> string).

(** A request that submits one job for a client in a queue, and one that asks
    for the jobs of a sandbox. *)
Definition submits_for (req : request) (client : string) (q : qname) : Prop :=
  url req = strip_slash (config_url config) +:+ "/v1/job/submit" /\
  exists body item, payload_of req = Some (JsonPayload body) /\ prop "queue" body = queue_json q /\
    prop "jobRequestItems" body = Some (JArr [item]) /\ prop "clientId" item = Some (JStr client).

Definition asks_for (req : request) (client : string) (q : qname) : Prop :=
  url req = strip_slash (config_url config) +:+ "/v1/job/statusUsingExternalJobUri" /\
  exists body, payload_of req = Some (JsonPayload body) /\ prop "queue" body = queue_json q /\
    prop "externalJobUri" body = Some (JStr client).

(** "Resubmitting with the same value returns the original job"
    (src/armada-types.ts): a job id in the answer to a submit is that of the
    one job there is for the client, and so is every unfinished one in the
    answer to the question. *)
Definition dedupes (c : io) : answer c -> Prop :=
  match c return answer c -> Prop with
  | Fetch req => fun r => forall response v client q, r = Ok response -> json_of response = Ok v ->
      (submits_for req client q -> forall item rest x,
         list_field "jobResponseItems" v = Some (item :: rest) -> str_field "jobId" item = Some x -> x = original client q) /\
      (asks_for req client q -> forall x state, (x, state) ∈ job_states v -> finished state = false -> x = original client q)
  | _ => fun _ => True
  end.

(** A job is the one there is for its set in its queue. *)
Definition the_job (j : SubmittedJob) : Prop := jobId j = original (jobSetId j) (job_queue j).

Definition one_job : rules (process AgentEndpoint) := {|
  holds s := (forall n o j, objects s !! n = Some o -> job o = Some j -> the_job j) /\
             (forall id p, placements s !! id = Some p -> the_job (p_job p));
  evolves _ _ := True;
  moves _ _ := True;
  answerable := dedupes
|}.

#[export] Instance one_job_sound : Sound one_job.
Proof. by split. Qed.

Ltac then_any := eapply (obeys_bind one_job anything).
Ltac then_knows Q := eapply (obeys_bind one_job (fun _ => Q)).
Ltac by_calm := apply (obeys_calm one_job); calm.

(** ** Every operation keeps to it *)

Lemma obeys_aside_jobs f s :
  (forall t, objects (f t) = objects t /\ forall id p, placements (f t) !! id = Some p -> placements t !! id = Some p) ->
  obeys one_job (gives anything) s (modify f).
Proof.
  intros Hf t [Ho Hp] _. destruct (Hf t) as [E1 E2]. split; [|done]. split; [by rewrite E1|]. intros id p Hi. by eapply Hp, E2.
Qed.

Lemma obeys_assign_job this f s :
  (forall o j, job (f o) = Some j -> job o = Some j \/ the_job j) -> obeys one_job (gives anything) s (assign this f).
Proof.
  intros Hf t [Ho Hp] _. split; [|done]. split; [|done]. intros n o j. cbn [on_objects objects].
  intros [(<- & o' & Hn & ->)|[_ Hn]]%lookup_alter_Some Hj; [|by eapply Ho]. destruct (Hf _ _ Hj); [by eapply Ho|done].
Qed.

(** The job of an object, where it has one. *)
Lemma obeys_job this s : obeys one_job (gives (fun _ j => forall j', j = Some j' -> the_job j')) s (self this job).
Proof.
  intros t [Ho _] _. simpl. destruct (objects t !! this) as [o|] eqn:E; simpl; [|done]. intros j' Hj. by eapply Ho.
Qed.

Lemma obeys_that_job this what s : obeys one_job (gives (fun _ j => the_job j)) s (self this job ≫= defined what).
Proof.
  eapply (obeys_bind one_job); [apply obeys_job|]. intros t [j|] _ Hj; [by apply Hj|done].
Qed.

(** What came back from a POST. *)
Lemma obeys_postJson path body s :
  obeys one_job (gives (fun _ v => exists hs response, dedupes (Fetch (posted config path body None hs)) (Ok response) /\ json_of response = Ok v))
    s (postJson config path body).
Proof.
  unfold postJson, postJsonTo, postTo. eapply (obeys_bind one_job (fun _ r => exists hs, dedupes (Fetch (posted config path body None hs)) (Ok r))).
  - then_any; [apply (obeys_calm one_job), calm_headers|]. intros t hs _ _.
    eapply (obeys_bind one_job (fun _ r => dedupes (Fetch (posted config path body None hs)) (Ok r))).
    + intros r Hr. by destruct r.
    + intros t' r _ Hr. destruct (ok_status r); [by exists hs|]. then_any; [by destruct (text_of r)|]. by intros.
  - intros t r _ (hs & Hr). eapply (obeys_bind one_job (fun _ v => json_of r = Ok v)); [by destruct (json_of r)|].
    intros t' v _ Hv. unfold asObject. destruct (is_object v); [by exists hs, r|done].
Qed.

Lemma nonempty_Some v x : nonempty_string v = Some x -> v = Some x.
Proof. destruct v as [y|]; cbn; [|done]. by case_decide. Qed.

Lemma submitted_job_inv id q v j :
  submitted_job id q v = Ok j -> jobSetId j = id /\ job_queue j = q /\
    exists item rest, list_field "jobResponseItems" v = Some (item :: rest) /\ str_field "jobId" item = Some (jobId j).
Proof.
  unfold submitted_job. destruct (nonempty_string (_ ≫= str_field "error")); [done|].
  destruct (nonempty_string (_ ≫= str_field "jobId")) as [x|] eqn:E; [|done]. intros [= <-]. cbn.
  split; [done|]. split; [done|]. apply nonempty_Some in E. destruct (list_field "jobResponseItems" v) as [[|item rest]|]; [done| |done].
  by exists item, rest.
Qed.

Lemma submit_submits id spec q hs : submits_for (posted config "/v1/job/submit" (submit_request config id spec q) None hs) id q.
Proof.
  split; [done|]. exists (submit_request config id spec q), (job_request_item config id spec). split; [done|].
  unfold submit_request. by destruct (queue_json q).
Qed.

Lemma obeys_submit id spec q s : obeys one_job (gives (fun _ j => the_job j)) s (submit config id spec q).
Proof.
  unfold submit. eapply (obeys_bind one_job); [apply obeys_postJson|]. intros t v _ (hs & r & Hr & Hv).
  destruct (submitted_job id q v) as [j|] eqn:Ej; [|done]. apply submitted_job_inv in Ej as (Hi & Hq & item & rest & Hl & Hx).
  destruct (Hr r v id q eq_refl Hv) as [Hs _]. cbn. unfold the_job. rewrite Hi, Hq.
  eapply Hs; [apply submit_submits|exact Hl|exact Hx].
Qed.

Lemma obeys_findJob id q s : obeys one_job (gives (fun _ j => forall j', j = Some j' -> the_job j')) s (findJob config id q).
Proof.
  unfold findJob. eapply (obeys_bind one_job); [apply obeys_postJson|]. intros t v _ (hs & r & Hr & Hv) j'.
  destruct (Hr r v id q eq_refl Hv) as [_ Hs]. destruct (list.last _) as [x|] eqn:E; cbn; [|done]. intros [= <-].
  unfold the_job. cbn. apply to_sorted_last in E as [Hx _]. unfold live_jobs in Hx.
  apply list_elem_of_fmap in Hx as ([y state] & -> & Hin). apply list_elem_of_In, filter_In in Hin as [Hin Hf].
  eapply Hs; [|by apply list_elem_of_In|by apply negb_true_iff]. split; [done|]. eexists. split; [done|]. by destruct (queue_json q).
Qed.

Lemma obeys_queue_jobs this s : obeys one_job (gives anything) s (queue_of config this).
Proof. apply (obeys_queue_of config one_job). intros f t. by apply obeys_aside_jobs. Qed.

Lemma obeys_get_job this s :
  obeys one_job (gives (fun _ j => the_job j)) s (existingJob config this) /\
  obeys one_job (gives (fun _ j => the_job j)) s (submit_job config this).
Proof.
  split.
  - unfold existingJob. then_any; [by_calm|]. intros s1 id _ _. then_any; [apply obeys_queue_jobs|]. intros s2 q _ _.
    eapply (obeys_bind one_job); [apply obeys_findJob|]. intros s3 [j|] _ Hj; [by apply Hj|done].
  - unfold submit_job. then_any; [by_calm|]. intros s1 id _ _. then_any; [by_calm|]. intros s2 o _ _.
    then_any; [by_calm|]. intros s3 pod _ _. then_any; [apply obeys_queue_jobs|]. intros s4 q _ _. apply obeys_submit.
Qed.

Lemma obeys_adopt_jobs this s : obeys one_job (gives anything) s (adopt (C := AgentEndpoint) this).
Proof.
  unfold adopt. then_any; [by_calm|]. intros s1 id _ _.
  eapply (obeys_bind one_job (fun _ p => forall p', p = Some p' -> the_job (p_job p'))).
  { intros t [_ Hp] _. simpl. intros p' Hp'. by eapply Hp. }
  intros s2 [p|] _ Hp; [|done]. apply (obeys_try one_job).
  - then_any; [by_calm|]. intros s3 u3 _ _. then_any; [apply obeys_assign_job; intros o j [= <-]; right; by apply Hp|].
    intros s4 u4 _ _. then_any; [apply obeys_assign_job; by left|]. intros s5 u5 _ _.
    then_any; [apply obeys_assign_job; by left|]. done.
  - intros s3 e _. then_any; [|done]. apply obeys_aside_jobs. intros t. split; [done|]. cbn.
    intros k p' Hk. by apply lookup_delete_Some in Hk as [_ Hk].
Qed.

Lemma obeys_share id p s : the_job (p_job p) -> obeys one_job (gives anything) s (modify (on_placements <[id := p]>)).
Proof.
  intros Hj t [Ho Hp] _. split; [|done]. split; [done|]. intros k p'. cbn [on_placements placements].
  intros [[<- <-]|[_ Hk]]%lookup_insert_Some; [done|by eapply Hp].
Qed.

Lemma obeys_ready_jobs this s : obeys one_job (gives anything) s (ready_sandbox config openAgent this).
Proof.
  unfold ready_sandbox. then_any; [by_calm|]. intros s1 [c|] _ _; [done|].
  then_any; [apply obeys_adopt_jobs|]. intros s2 [] _ _; [done|]. then_any.
  { unfold ensure_job. then_any; [by_calm|]. intros s3 [j|] _ _; [done|]. then_any; [by_calm|]. intros s4 attach _ _.
    eapply (obeys_bind one_job); [destruct attach; apply obeys_get_job|]. intros s5 j _ Hj.
    apply obeys_assign_job. intros o j' [= <-]. by right. }
  intros s3 u3 _ _. unfold reach. then_any; [by_calm|]. intros s4 id _ _. then_any; [by_calm|]. intros s5 j _ _.
  then_any; [by_calm|]. intros s6 pod _ _. then_any; [apply obeys_assign_job; by left|]. intros s7 u7 _ _.
  then_any; [by_calm|]. intros s8 j' _ _. then_any; [by_calm|]. intros s9 url _ _. then_any; [by_calm|]. intros s10 pod' _ _.
  unfold openAgent. rewrite plain_bind. then_any; [by_calm|]. intros s11 u11 _ _. then_any; [apply obeys_assign_job; by left|]. intros s12 u12 _ _.
  eapply (obeys_bind one_job); [apply obeys_that_job|]. intros s13 j'' _ Hj. then_any; [by_calm|]. intros s14 pod'' _ _.
  by apply obeys_share.
Qed.

Lemma obeys_destroy_jobs this s : obeys one_job (gives anything) s (destroy (C := AgentEndpoint) config this).
Proof.
  unfold destroy. then_any; [by_calm|]. intros s1 j _ _. then_any; [by_calm|]. intros s2 id _ _.
  then_any; [destruct j; [by_calm|]; then_any; [apply obeys_queue_jobs | intros s3 q _ _; by_calm]|].
  intros s3 u3 _ _. then_any; [by apply obeys_aside_jobs|]. intros s4 u4 _ _. then_any.
  { apply obeys_aside_jobs. intros t. split; [done|]. cbn. intros k p' Hk. by apply lookup_delete_Some in Hk as [_ Hk]. }
  intros s5 u5 _ _. then_any; [apply obeys_assign_job; by left|]. intros s6 u6 _ _. apply obeys_assign_job. by left.
Qed.

Lemma obeys_perform_jobs this op s : there this s -> obeys one_job (gives anything) s (perform config openAgent this op).
Proof.
  apply (obeys_perform config new_AgentChannel one_job); [intros n t _; apply obeys_ready_jobs| |apply obeys_destroy_jobs].
  intros n vars b t. unfold setEnvVars. then_any; [by_calm|]. intros t' l _ _. apply obeys_assign_job. intros o j. by destruct b; left.
Qed.

(** ** The process *)

Section process.
Context (kind : bool -> Prop).

Definition one_job_each (x : service) : Prop :=
  holds one_job (shared (running x)) /\ Forall (obeys one_job anything (shared (running x))) (threads (running x)).

Lemma one_job_thread p bs t :
  one_job_each {| running := p; births := bs |} -> obeys one_job (gives anything) (shared p) t ->
  one_job_each {| running := with_thread t p; births := bs |}.
Proof.
  intros [Hs Hts] Ht. split; [done|]. apply Forall_app. split; [done|]. constructor; [|done]. by apply (obeys_any one_job).
Qed.

Lemma one_job_new p bs bs' id o attach :
  one_job_each {| running := p; births := bs |} ->
  one_job_each {| running := with_shared (new_sandbox (length bs) id o attach (shared p)) p; births := bs' |}.
Proof.
  intros [[Ho Hp] Hts]. split; [|by eapply (all_later one_job)]. split; [|done]. intros n y j. cbn.
  intros [[<- <-]|[_ Hn]]%lookup_insert_Some; [done|by eapply Ho].
Qed.

Lemma one_job_step x y : lawful_step config kind dedupes x y -> orderly x -> one_job_each x -> one_job_each y.
Proof.
  intros Hxy (_ & Hb & _) Hx. destruct Hxy as [ts i c k r s cs bs Hi Hr|x y Hxy Hc].
  - destruct Hx as [Hs Hts]. split; [done|]. cbn [running threads shared] in *. apply Forall_insert; [done|].
    eapply (obeys_call one_job); [|exact (Forall_lookup_1 _ _ _ _ Hts Hi)|done|done]. done.
  - destruct Hxy as [p p' bs Hm|p bs id o _|p bs id o _|p bs n op Hn|p bs pages list Hl].
    + destruct Hm as [ts i t s cs l t' s' Hi Hstep]. destruct Hx as [Hs Hts]. cbn [running threads shared calls] in *.
      destruct l as [c|]; [exfalso; apply (f_equal (@length _)) in Hc; rewrite length_app in Hc; cbn in Hc; lia|].
      destruct (obeys_step one_job anything t s s None t' s' (anything_stable one_job) Hstep (Forall_lookup_1 _ _ _ _ Hts Hi) Hs Logic.I (or_introl eq_refl))
        as (Hs' & _ & Ht').
      split; [done|]. cbn [running threads shared]. apply Forall_insert; [by eapply (all_later one_job)|done].
    + by eapply one_job_new.
    + by eapply one_job_new.
    + apply one_job_thread; [done|]. apply obeys_perform_jobs. by apply Hb.
    + apply one_job_thread; [done|]. revert Hl. cbn [new_ArmadaCompute list_active]. destruct (lookoutUrl config); [|done].
      intros [= <-]. apply (obeys_sweep config one_job). intros f t. by apply obeys_aside_jobs.
Qed.

Lemma one_job_reached x : rtc (lawful_step config kind dedupes) started x -> one_job_each x.
Proof.
  intros Hx. assert (one_job_each started) as H0 by (split; [by split|constructor]).
  assert (forall a b, rtc (lawful_step config kind dedupes) a b -> rtc (service_step config kind) started a ->
            one_job_each a -> one_job_each b) as Hall; [|by eapply Hall].
  induction 1 as [|a b c Hab _ IH]; intros Hr Ha; [done|]. apply IH.
  - eapply rtc_r; [exact Hr|by eapply lawful_is_step].
  - eapply one_job_step; [exact Hab| |done]. by eapply orderly_reached.
Qed.
End process.
End dedup.

(** C7 A sandbox never has two jobs: when Armada answers every client id it
    knows with the job it has, then from a process just started, whatever
    sandboxes are made, used and swept, and however many objects of one
    sandbox become ready at once, all that hold a job in the same queue hold
    the same one, and so do the placements they share. *)
Theorem one_job_per_sandbox `{Platform} config original x :
  rtc (lawful_step config (fun _ => True) (dedupes config original)) started x ->
  forall n o j, objects (shared (running x)) !! n = Some o -> job o = Some j ->
    (forall n' o' j', objects (shared (running x)) !! n' = Some o' -> sid o' = sid o -> job o' = Some j' ->
       job_queue j' = job_queue j -> j' = j) /\
    (forall p, placements (shared (running x)) !! sid o = Some p -> job_queue (p_job p) = job_queue j -> p_job p = j).
Proof.
  intros Hx n o j Ho Hj. destruct (one_job_reached config original _ x Hx) as [[Hone Hpl] _].
  pose proof (service_ok_reached config _ x (lawful_reached config _ _ x Hx)) as (_ & _ & [Hok Hpok] & _).
  assert (forall j1 j2, the_job original j1 -> the_job original j2 -> jobSetId j1 = jobSetId j2 -> job_queue j1 = job_queue j2 -> j1 = j2)
    as Hsame
    by (intros [] []; unfold the_job; cbn; intros; congruence).
  destruct (Hok n o Ho) as (_ & Hset & _). split.
  - intros n' o' j' Ho' Hs Hj' Hq. destruct (Hok n' o' Ho') as (_ & Hset' & _).
    apply Hsame; [exact (Hone n' o' j' Ho' Hj')|exact (Hone n o j Ho Hj)| |done]. by rewrite (Hset' j' Hj'), (Hset j Hj).
  - intros p Hp Hq. destruct (Hpok _ _ Hp) as [Hset' _].
    apply Hsame; [exact (Hpl _ p Hp)|exact (Hone n o j Ho Hj)| |done]. by rewrite Hset', (Hset j Hj).
Qed.

(** ** Witness *)

#[local] Existing Instance example_platform.

(** An Armada that takes the job, and an agent that is not well: nothing is
    shared, and every object submits. *)
Definition sick_world : handler unit := answering (fun r =>
  if includes "/v1/job/submit" (url r) then Ok (http_ok (q "{'jobResponseItems': [{'jobId': '01h'}]}"))
  else if includes "/v1/job-set/" (url r) then Ok (http_ok (join (String newline "") coming_up))
  else if includes "/api/v1/jobs" (url r) then Ok (http_ok "{}")
  else throw "connection refused").

Definition the_original (id : SandboxId) (q : qname) : string := "01h".

Lemma sick_dedupes c w : dedupes example_config the_original c (fst (sick_world c w)).
Proof.
  destruct c as [req| | | | |]; try exact I. intros response v client q Hr Hj. split.
  - intros [Hu _] item rest x Hl Hx. cbn [sick_world answering fst] in Hr. rewrite Hu in Hr. vm_compute in Hr. injection Hr as <-.
    vm_compute in Hj. injection Hj as <-. vm_compute in Hl. injection Hl as <- <-. vm_compute in Hx. by injection Hx as <-.
  - intros [Hu _]. cbn [sick_world answering fst] in Hr. rewrite Hu in Hr. vm_compute in Hr. discriminate Hr.
Qed.

(** Two objects of one sandbox, asked to be ready. *)
Definition twice : service :=
  let made := new_sandbox 1 "s1" None false (new_sandbox 0 "s1" None false (shared (running started))) in
  {| running := {| threads := [perform example_config openAgent 0 op_ready; perform example_config openAgent 1 op_ready];
                   shared := made; calls := [] |};
     births := [("s1", false); ("s1", false)] |}.

Definition ran (n : nat) (s : process AgentEndpoint) : outcome (process AgentEndpoint) unit (result unit) :=
  run sick_world (perform example_config openAgent n op_ready) s tt.

Definition both : service :=
  let o := ran 0 (shared (running twice)) in let o' := ran 1 (final o) in
  {| running := {| threads := [Done (value o); Done (value o')]; shared := final o'; calls := trace o ++ trace o' |};
     births := births twice |}.

Definition made_once : service :=
  {| running := with_shared (create 0 "s1" None (shared (running started))) (running started); births := [("s1", false)] |}.
Definition made_twice : service :=
  {| running := with_shared (create 1 "s1" None (shared (running made_once))) (running made_once); births := births twice |}.
Definition one_asked : service :=
  {| running := with_thread (perform example_config openAgent 0 op_ready) (running made_twice); births := births twice |}.

Abbreviation step := (lawful_step example_config (fun _ => True) (dedupes example_config the_original)).

Lemma made_steps : step started made_once /\ step made_once made_twice /\ step made_twice one_asked /\ step one_asked twice.
Proof.
  split; [|split; [|split]]; (apply lawful_quiet; [|reflexivity]).
  - exact (svc_create example_config _ (running started) [] "s1" None I).
  - exact (svc_create example_config _ (running made_once) [("s1", false)] "s1" None I).
  - exact (svc_use example_config _ (running made_twice) (births twice) 0 op_ready (Nat.lt_0_succ 1)).
  - exact (svc_use example_config _ (running one_asked) (births twice) 1 op_ready (Nat.lt_succ_diag_r 1)).
Qed.

Lemma both_reached : rtc step started both.
Proof.
  destruct made_steps as (H1 & H2 & H3 & H4).
  eapply rtc_l; [exact H1|]. eapply rtc_l; [exact H2|]. eapply rtc_l; [exact H3|]. eapply rtc_l; [exact H4|].
  etransitivity.
  - exact (lawful_run example_config (fun _ => True) _ sick_world (perform example_config openAgent 0 op_ready)
             (threads (running twice)) 0 (shared (running twice)) tt [] (births twice) sick_dedupes eq_refl).
  - exact (lawful_run example_config (fun _ => True) _ sick_world (perform example_config openAgent 1 op_ready)
             [Done (value (ran 0 (shared (running twice)))); perform example_config openAgent 1 op_ready] 1
             (final (ran 0 (shared (running twice)))) tt (trace (ran 0 (shared (running twice)))) (births twice) sick_dedupes eq_refl).
Qed.

(** They both submitted, and hold one job. *)
Lemma one_job_per_sandbox_witness :
  exists o o' j j', objects (shared (running both)) !! 0%nat = Some o /\ objects (shared (running both)) !! 1%nat = Some o' /\
    job o = Some j /\ job o' = Some j' /\ j' = j /\
    length (List.filter (fun c => match c with Fetch r => includes "/v1/job/submit" (url r) | _ => false end) (calls (running both))) = 2%nat.
Proof.
  set (o := set_pod (Some up_pod) (set_job (Some example_job) (construct (C := AgentEndpoint) "s1" None false))).
  assert (objects (shared (running both)) !! 0%nat = Some o) as H0 by (vm_compute; reflexivity).
  assert (objects (shared (running both)) !! 1%nat = Some o) as H1 by (vm_compute; reflexivity).
  exists o, o, example_job, example_job. split; [exact H0|]. split; [exact H1|]. split; [reflexivity|]. split; [reflexivity|].
  split; [|vm_compute; reflexivity].
  exact (proj1 (one_job_per_sandbox example_config the_original both both_reached 0%nat o example_job H0 eq_refl)
           1%nat o example_job H1 eq_refl eq_refl eq_refl).
Defined.
