(* ===== verification/Contract.v ===== *)
(** What marimohub is promised (src/types.ts): the interfaces of a sandbox, of
    a process in one and of the provider, the laws a sandbox keeps, and that
    [ArmadaSandbox] (src/sandbox.ts) and [ArmadaCompute] (src/provider.ts)
    implement them. *)
From S2P Require Import Prelude JsString Regex Encoding Sha256 JsNumber Json Io Rely Shell Ndjson Types Auth Config PodSpec Queues Armada Channel Sandbox SandboxInv SandboxSpec Provider Operations Liveness Lifecycle.

(** ** The interfaces

    Over the state [S] of the process that implements them. *)

Record SandboxProcess (S : Type) := {
  proc_id : string;
  proc_command : string;
  proc_kill : option string -> M S unit;
  proc_waitForPort : Z -> option probe_mode -> option string -> option Z -> M S unit;
  proc_getLogs : M S (string * string)
}.
Arguments proc_id {S} _.
Arguments proc_command {S} _.
Arguments proc_kill {S} _ _.
Arguments proc_waitForPort {S} _ _ _ _ _.
Arguments proc_getLogs {S} _.

Record MountBucketOptions := {
  bucketName : string; mountPath : string; mount_prefix : string; mount_endpoint : option string;
  credentials : option (string * string)
}.

(** The hostname of an exposed port, and the rest of its options, go unused. *)
Record ExposePortOptions := { hostname : string; expose_token : option string; expose_name : option string }.

Record SandboxInstance (S : Type) := {
  supportsBucketMount : bool;
  inst_isPortReady : Z -> option probe_mode -> option string -> M S bool;
  inst_ready : M S unit;
  inst_exec : string -> option Z -> M S ExecResult;
  inst_execStream : string -> option Z -> M S byte_stream;
  inst_readFile : string -> M S ReadFileResult;
  inst_readFileBounded : string -> BoundedReadOptions -> M S ReadFileResult;
  inst_listFiles : string -> option ListFilesOptions -> M S ListFilesResult;
  inst_writeFiles : list SandboxFileWrite -> M S unit;
  inst_gitCheckout : string -> option GitCheckoutOptions -> M S unit;
  inst_setEnvVars : obj string -> bool -> M S unit;
  inst_mountBucket : MountBucketOptions -> M S unit;
  inst_unmountBucket : string -> M S unit;
  inst_startProcess : string -> option StartProcessOptions -> M S (SandboxProcess S);
  inst_exposePort : Z -> ExposePortOptions -> M S string;
  inst_destroy : M S unit
}.
Arguments supportsBucketMount {S} _.
Arguments inst_isPortReady {S} _ _ _ _.
Arguments inst_ready {S} _.
Arguments inst_exec {S} _ _ _.
Arguments inst_execStream {S} _ _ _.
Arguments inst_readFile {S} _ _.
Arguments inst_readFileBounded {S} _ _ _.
Arguments inst_listFiles {S} _ _ _.
Arguments inst_writeFiles {S} _ _.
Arguments inst_gitCheckout {S} _ _ _.
Arguments inst_setEnvVars {S} _ _ _.
Arguments inst_mountBucket {S} _ _.
Arguments inst_unmountBucket {S} _ _.
Arguments inst_startProcess {S} _ _ _.
Arguments inst_exposePort {S} _ _ _.
Arguments inst_destroy {S} _.

(** ** The laws *)

(** Run in that state, it comes back with a value, whatever is answered. *)
Definition answers {S A} (s : S) (p : M S A) : Prop :=
  forall W (h : handler W) w, exists a, value (run h p s w) = Ok a.

(** What a caller may count on of a process, in a state: killing is best effort
    and never throws, waiting for a port changes nothing however it ends, and
    the log is all on one stream. *)
Record process_contract {S} (s : S) (p : SandboxProcess S) : Prop := {
  kill_answers signal : answers s (proc_kill p signal);
  wait_changes_nothing port m path t W (h : handler W) w : final (run h (proc_waitForPort p port m path t) s w) = s;
  one_log W (h : handler W) w out err : value (run h (proc_getLogs p) s w) = Ok (out, err) -> err = ""
}.

(** What a caller may count on in a state. *)
Record contract {S} (s : S) (i : SandboxInstance S) : Prop := {
  (** What has a result type of its own reports every failure in it. *)
  exec_answers cmd t : answers s (inst_exec i cmd t);
  readFile_answers path : answers s (inst_readFile i path);
  readFileBounded_answers path o : answers s (inst_readFileBounded i path o);
  listFiles_answers path o : answers s (inst_listFiles i path o);
  isPortReady_answers port m path : answers s (inst_isPortReady i port m path);
  (** A checkout that fails says so. *)
  gitCheckout_says repo o W (h : handler W) w e :
    value (run h (inst_gitCheckout i repo o) s w) = Err e -> starts_with "git checkout failed: " (message e) = true;
  (** Variables are all set, or none. *)
  setEnvVars_atomic vars b W (h : handler W) w e :
    value (run h (inst_setEnvVars i vars b) s w) = Err e -> final (run h (inst_setEnvVars i vars b) s w) = s;
  (** What cannot mount a bucket says so both times it is asked, and taking
      away a mount it never made is no failure. *)
  mount_refused o : supportsBucketMount i = false -> forall W (h : handler W) w, exists e, value (run h (inst_mountBucket i o) s w) = Err e;
  unmount_answers path : answers s (inst_unmountBucket i path);
  (** Once ready, being ready asks nothing and changes nothing. *)
  ready_idempotent W W' (h : handler W) (h' : handler W') w w' :
    let s' := final (run h (inst_ready i) s w) in
    value (run h (inst_ready i) s w) = Ok tt ->
    run h' (inst_ready i) s' w' = {| value := Ok tt; final := s'; world := w'; trace := [] |};
  (** A process that was started is the one asked for, by the id asked for, and
      keeps its own contract for as long as it is held. *)
  startProcess_hands cmd o W (h : handler W) w p : value (run h (inst_startProcess i cmd o) s w) = Ok p ->
    proc_command p = cmd /\ (forall id, o ≫= processId = Some id -> proc_id p = id) /\ forall s', process_contract s' p
}.

(** ** The implementations *)

Section implementation.
Context `{Platform} (config : ArmadaConfig).

Definition process_handle (p : @ArmadaProcess AgentEndpoint) : SandboxProcess (process AgentEndpoint) :=
  {| proc_id := process_id p; proc_command := process_command p; proc_kill := kill p;
     proc_waitForPort := waitForPort_process p; proc_getLogs := getLogs p |}.

Definition ArmadaSandbox (this : nat) : SandboxInstance (process AgentEndpoint) :=
  {| supportsBucketMount := false;
     inst_isPortReady := isPortReady this;
     inst_ready := ready_sandbox config openAgent this;
     inst_exec := exec_sandbox config openAgent this;
     inst_execStream := execStream config openAgent this;
     inst_readFile := read_sandbox config openAgent this;
     inst_readFileBounded := read_bounded config openAgent this;
     inst_listFiles := list_sandbox config openAgent this;
     inst_writeFiles := writeFiles config openAgent this;
     inst_gitCheckout := gitCheckout config openAgent this;
     inst_setEnvVars := setEnvVars this;
     inst_mountBucket _ := mountBucket;
     inst_unmountBucket _ := unmountBucket;
     inst_startProcess cmd o := p ← startProcess_sandbox config openAgent this cmd o; mret (process_handle p);
     inst_exposePort port _ := exposePort config openAgent this port;
     inst_destroy := destroy config this |}.
End implementation.

(** ** They keep the contract *)

Section keeping.
Context `{Platform} (config : ArmadaConfig).

Abbreviation LC := (lifecycle AgentEndpoint).

(** The object is there, and exports only shell names. *)
Definition usable (this : nat) (s : process AgentEndpoint) : Prop :=
  exists o, objects s !! this = Some o /\ env_ok (env o) /\ env_ok (envDefaults o).

Lemma usable_there this s : usable this s -> there this s.
Proof. intros (o & Ho & _). by exists o. Qed.

Lemma try_answers {S A} (p : M S A) (f : err -> A) s : answers s (try_catch p (fun e => mret (f e))).
Proof. intros W h w. rewrite run_try. cbn zeta. destruct (value (run h p s w)); by eexists. Qed.

Lemma there_after {A W} (h : handler W) (p : M (process AgentEndpoint) A) this s w :
  holds LC s -> there this s -> obeys LC (gives anything) s p -> there this (final (run h p s w)).
Proof.
  intros Hs Ht Hp. destruct (obeys_run LC (gives anything) h p s s w) as (_ & He & _);
    [by intros ?? []|done|apply evolves_refl|done|done|]. by eapply there_later.
Qed.

Lemma readFailed_answers this path code why s : there this s -> answers s (readFailed (C := AgentEndpoint) config this path code why).
Proof.
  intros [o Ho] W h w. unfold readFailed. rewrite (run_self_bind _ _ _ _ _ _ _ Ho). unfold warn, say, mbind, M_bind.
  cbn [pbind run]. destruct (h (Console _ _) w) as [[] w']. by eexists.
Qed.

Lemma readThrough_answers this path read encode s :
  holds LC s -> there this s -> (forall c, calm (read c)) ->
  answers s (readThrough config openAgent this path read encode).
Proof.
  intros Hs Ht Hr W h w. unfold readThrough. rewrite run_bind. cbn zeta.
  match goal with |- context [run h (try_catch ?p ?k) s w] =>
    assert (obeys LC (gives anything) s (try_catch p k)) as Ho;
    [|pose proof (there_after h (try_catch p k) this s w Hs Ht Ho) as Ht';
      destruct (try_answers p (fun e => inr (message e)) s W h w) as [a Ha]] end.
  { apply (obeys_try LC); [|done]. apply (obeys_opened config new_AgentChannel LC); [apply obeys_ready|]. intros c. apply calm_bind; [apply Hr|done]. }
  rewrite Ha. destruct a as [[bytes| |why]|why]; cbn [value].
  - by eexists.
  - by eexists.
  - by apply readFailed_answers.
  - by apply readFailed_answers.
Qed.

Lemma exec_sandbox_answers this cmd t s : usable this s -> answers s (exec_sandbox config openAgent this cmd t).
Proof. intros (o & Ho & He & Hd) W h w. by eapply exec_never_throws. Qed.

Lemma isPortReady_answers_sandbox this port m path s : there this s -> answers s (isPortReady (C := AgentEndpoint) this port m path).
Proof.
  intros [o Ho] W h w. unfold isPortReady. rewrite !(run_self_bind _ _ _ _ _ _ _ Ho). rewrite run_bind.
  cbn [gets run value final world trace]. destruct (match channel o with Some c => Some c | None => _ end); [|by eexists].
  destruct (try_answers (wait ← waitForPort a port PORT_READY_TIMEOUT_MS None (probeOf (Some (default http m)) path); mret (open wait))
              (fun _ => false) s W h w) as [b Hb]. exists b. cbn [value]. exact Hb.
Qed.

Lemma ready_sandbox_idempotent {W W'} (h : handler W) (h' : handler W') this s w w' :
  there this s ->
  let s' := final (run h (ready_sandbox config openAgent this) s w) in
  value (run h (ready_sandbox config openAgent this) s w) = Ok tt ->
  run h' (ready_sandbox config openAgent this) s' w' = {| value := Ok tt; final := s'; world := w'; trace := [] |}.
Proof.
  unfold openAgent. intros [o Ho]. cbn zeta. intros Hv. destruct (channel o) as [c|] eqn:Hc.
  - rewrite (ready_again config new_AgentChannel h this s w o c) in Hv |- * by done. by apply (ready_again config new_AgentChannel h' this s w' o c).
  - pose proof (run_ready config new_AgentChannel h this s w o Ho Hc) as Hr. cbn zeta in Hr. rewrite Hv in Hr.
    destruct Hr as (o' & c & Ho' & _ & Hc' & _). by apply (ready_again config new_AgentChannel h' this _ w' o' c).
Qed.

Lemma setEnvVars_all_or_none {W} (h : handler W) this vars b s w e :
  value (run h (setEnvVars (C := AgentEndpoint) this vars b) s w) = Err e ->
  final (run h (setEnvVars (C := AgentEndpoint) this vars b) s w) = s.
Proof.
  unfold setEnvVars. rewrite run_bind, run_lift. cbn [value final world]. by destruct (map_result assertEnvName (obj_keys vars)).
Qed.

Lemma gitCheckout_reports {W} (h : handler W) this repo o s w e :
  usable this s -> value (run h (gitCheckout config openAgent this repo o) s w) = Err e ->
  starts_with "git checkout failed: " (message e) = true.
Proof.
  intros Hu. unfold gitCheckout. rewrite run_bind. cbn zeta.
  destruct (exec_sandbox_answers this (gitCloneCommand repo o) None s Hu W h w) as [r Hr]. rewrite Hr.
  destruct r; cbn [value run lift mret M_ret]; [done|]. intros [= <-]. exact (starts_with_app "git checkout failed: " stderr).
Qed.

Lemma process_keeps_contract s (p : @ArmadaProcess AgentEndpoint) : process_contract s (process_handle p).
Proof.
  constructor.
  - intros signal. apply (try_answers _ (fun _ => tt)).
  - intros port m path t W h w. apply run_calm. cbn [process_handle proc_waitForPort]. unfold waitForPort_process, logsQuietly. calm.
  - intros W h w out err. cbn [process_handle proc_getLogs]. unfold getLogs. rewrite run_bind. cbn zeta.
    destruct (value (run h (processLogs (process_channel p) (process_pid p)) s w)); [|done]. by intros [= _ <-].
Qed.

Lemma started_as_asked {W} (h : handler W) this cmd o s w p :
  value (run h (startProcess_sandbox config openAgent this cmd o) s w) = Ok p ->
  process_command p = cmd /\ forall id, o ≫= processId = Some id -> process_id p = id.
Proof.
  intros Hv. assert (guarded (fun _ => True) (fun _ => True)
    (returns (fun p => process_command p = cmd /\ forall id, o ≫= processId = Some id -> process_id p = id))
    (startProcess_sandbox config openAgent this cmd o)) as Hg.
  { unfold startProcess_sandbox.
    repeat (eapply (guarded_bind _ _ (fun _ => True)); [eapply guarded_weaken; [..|apply guarded_any]; [done|by intros []]|intros ? _]).
    split; [done|]. intros id' Hid. cbn [process_id]. by rewrite Hid. }
  destruct (guarded_run _ _ _ h _ s w Hg Logic.I) as (Hr & _). by rewrite Hv in Hr.
Qed.

(** A sandbox of the process keeps its contract. *)
Lemma contract_kept this s : holds LC s -> usable this s -> contract s (ArmadaSandbox config this).
Proof.
  intros Hs Hu. pose proof (usable_there _ _ Hu) as Ht. constructor; cbn [ArmadaSandbox supportsBucketMount inst_exec inst_readFile
    inst_readFileBounded inst_listFiles inst_isPortReady inst_gitCheckout inst_setEnvVars inst_mountBucket inst_unmountBucket inst_ready].
  - intros cmd t. by apply exec_sandbox_answers.
  - intros path. apply readThrough_answers; [done..|]. intros c. apply calm_readFile.
  - intros path o. unfold read_bounded. destruct (negb (isValidBudget o)); [by apply readFailed_answers|].
    apply readThrough_answers; [done..|]. intros c. apply calm_readFileBounded.
  - intros path o W h w. unfold list_sandbox. rewrite run_bind. cbn zeta.
    match goal with |- context [run h (try_catch ?p ?k) s w] => destruct (try_answers p (fun _ => None) s W h w) as [a Ha] end.
    rewrite Ha. by eexists.
  - intros port m path. by apply isPortReady_answers_sandbox.
  - intros repo o W h w e. by apply gitCheckout_reports.
  - intros vars b W h w e. apply setEnvVars_all_or_none.
  - intros o _ W h w. by eexists.
  - intros path W h w. by eexists.
  - intros W W' h h' w w'. by apply ready_sandbox_idempotent.
  - intros cmd o W h w p. cbn [ArmadaSandbox inst_startProcess]. rewrite run_bind. cbn zeta.
    destruct (value (run h (startProcess_sandbox config openAgent this cmd o) s w)) as [q|e] eqn:Hq; [|done].
    intros [= <-]. destruct (started_as_asked h this cmd o s w q Hq) as [Hc Hi].
    split; [done|]. split; [done|]. intros s'. apply process_keeps_contract.
Qed.
End keeping.

(** ** The provider *)

(** [create] is synchronous: a change of the state, and the sandbox, at the
    address the allocator gives. *)
Record SandboxProvider (S : Type) := {
  provider_capabilities : capabilities;
  provider_create : nat -> SandboxId -> option CreateSandboxOptions -> S -> S * SandboxInstance S;
  provider_proxy : request -> option response;
  provider_listActive : option (nat -> M S (list ActiveSandbox))
}.
Arguments provider_capabilities {S} _.
Arguments provider_create {S} _ _ _ _ _.
Arguments provider_proxy {S} _ _.
Arguments provider_listActive {S} _.

Definition ArmadaProvider `{Platform} (config : ArmadaConfig) : SandboxProvider (process AgentEndpoint) :=
  {| provider_capabilities := declared (new_ArmadaCompute config);
     provider_create at_ id o s := (create at_ id o s, ArmadaSandbox config at_);
     provider_proxy := proxy;
     provider_listActive := list_active (new_ArmadaCompute config) |}.

(** What [ArmadaCompute] offers besides. *)
Definition attach `{Platform} (config : ArmadaConfig) (at_ : nat) (id : SandboxId) (o : option CreateSandboxOptions)
    (s : process AgentEndpoint) : process AgentEndpoint * SandboxInstance (process AgentEndpoint) :=
  (connectExisting at_ id o s, ArmadaSandbox config at_).

(** Every sandbox of a process that runs is usable. *)
Lemma reached_usable `{Platform} config kind x n :
  rtc (service_step config kind) started x -> (n < length (births x))%nat -> usable n (shared (running x)).
Proof.
  intros Hx Hn. pose proof (orderly_reached config kind x Hx) as (_ & Hb & _). destruct (Hb n Hn) as [o Ho].
  pose proof (service_ok_reached config kind x Hx) as (_ & _ & [Hok _] & _). destruct (Hok n o Ho) as (_ & _ & _ & He & Hd).
  by exists o.
Qed.

(** C12 Every sandbox the provider ever made keeps its contract, at every moment
    of the process, however its operations interleave and whatever is
    answered; and so does one it makes now, by [create] or by
    [connectExisting], from the start.  Executing, reading and listing never
    throw, nor does asking for a port; a checkout that fails says so;
    variables are set all or none; mounting is refused as declared; a ready
    sandbox is made ready again for nothing; and a process it starts is the one
    asked for, which may be killed, waited for and read at any later moment. *)
Theorem sandbox_keeps_contract `{Platform} config x :
  rtc (service_step config (fun _ => True)) started x ->
  (forall n, (n < length (births x))%nat -> contract (shared (running x)) (ArmadaSandbox config n)) /\
  forall id o,
    let '(s, i) := provider_create (ArmadaProvider config) (length (births x)) id o (shared (running x)) in
    let '(s', i') := attach config (length (births x)) id o (shared (running x)) in
    contract s i /\ contract s' i'.
Proof.
  assert (forall y n, rtc (service_step config (fun _ => True)) started y -> (n < length (births y))%nat ->
            contract (shared (running y)) (ArmadaSandbox config n)) as Hall.
  { intros y n Hy Hn. apply contract_kept; [by apply (orderly_reached config (fun _ => True))|by eapply reached_usable]. }
  intros Hx. split; [intros n Hn; by apply Hall|]. intros id o. unfold attach. cbn [ArmadaProvider provider_create].
  destruct x as [p bs]. cbn [running births] in *. split.
  - apply (Hall {| running := with_shared (create (length bs) id o (shared p)) p; births := bs ++ [(id, false)] |}).
    + eapply rtc_r; [exact Hx|by apply svc_create].
    + cbn. rewrite length_app. cbn. lia.
  - apply (Hall {| running := with_shared (connectExisting (length bs) id o (shared p)) p; births := bs ++ [(id, true)] |}).
    + eapply rtc_r; [exact Hx|by apply svc_connect].
    + cbn. rewrite length_app. cbn. lia.
Qed.

(** ** Witness *)

#[local] Existing Instance example_platform.

(** The sandbox that was made ready, where the agent answers nothing more:
    its files cannot be read, and reading says so. *)
Lemma sandbox_keeps_contract_witness :
  exists r, value (run offline (inst_readFile (ArmadaSandbox example_config 0) "/etc/hostname") (shared (running made_service)) tt) = Ok r /\
    r = ReadFileFailure READ_BACKEND_ERROR.
Proof.
  destruct (sandbox_keeps_contract example_config made_service made_reached) as [Hc _].
  destruct (readFile_answers _ _ (Hc 0%nat (Nat.lt_0_succ 0)) "/etc/hostname" unit offline tt) as [r Hr].
  exists r. split; [exact Hr|]. vm_compute in Hr. by injection Hr as <-.
Defined.
