(* ===== verification/Changelog.v ===== *)
(** The release script (scripts/changelog.ts): which version is the newest, its
    notes, and the refusal of a changelog a release could not use.  The parser
    of the changelog is a package, and a parameter here. *)
From S2P Require Import Prelude JsString Encoding JsNumber Json Io Ndjson.

(** ** The headings

    Every match of the script's expression: two hashes, a space and a name in
    square brackets, at the start of a line. *)

(** Where in a line the scan is: at its start, or inside, having seen the first
    octets of U+2028 or U+2029, which end lines too. *)
Inductive place := line_start | inside | seen_e2 | seen_e280.

Definition next (p : place) (c : ascii) : place :=
  if (bool_decide (c = newline) || bool_decide (c = chr 13))%bool then line_start
  else if decide (c = chr 226) then seen_e2
  else match p with
       | seen_e2 => if decide (c = chr 128) then seen_e280 else inside
       | seen_e280 => if (bool_decide (c = chr 168) || bool_decide (c = chr 169))%bool then line_start else inside
       | _ => inside
       end.

(** The name of the heading the text starts with. *)
Definition heading_at (s : string) : option string :=
  r ← expect "## [" s;
  n ← index_of "]" r;
  Some (str_take n r).

(** Every match, from a place; [skip] is what is left of the last one. *)
Fixpoint headings_from (p : place) (skip : nat) (s : string) : list string :=
  match s with
  | "" => []
  | String c s' =>
      match skip with
      | S k => headings_from (next p c) k s'
      | O =>
          match (match p with line_start => heading_at s | _ => None end) with
          | Some name => name :: headings_from (next p c) (4 + String.length name) s'
          | None => headings_from (next p c) 0 s'
          end
      end
  end.

Definition headings (text : string) : list string := headings_from line_start 0 text.

(** [s.toLowerCase()], as far as comparing with ASCII letters goes. *)
Definition lower_char (c : ascii) : ascii := if is_upper c then chr (code c + 32) else c.
Definition lower (s : string) : string := map_chars (fun c => String (lower_char c) "") s.

(** ** The script *)

Section script.
Context {S Changelog Release : Type}.
Context (parser : string -> result Changelog) (releases : Changelog -> list Release)
        (version : Release -> option string) (toString : Release -> Changelog -> string).

(** The versions: releases that have one, newest first. *)
Definition released (c : Changelog) : list Release :=
  List.filter (fun r => bool_decide (version r <> None)) (releases c).

Definition is_released (c : Changelog) (name : string) : bool :=
  existsb (fun r => bool_decide (version r = Some name)) (released c).

(** A heading the release would skip without a word. *)
Definition stray (c : Changelog) (name : string) : bool :=
  (negb (bool_decide (lower name = "unreleased")) && negb (is_released c name))%bool.

Definition check_headings (text : string) (c : Changelog) : result unit :=
  match List.find (stray c) (headings text) with
  | Some name => throw ("CHANGELOG.md: [" +:+ name +:+ "] is not a semantic version")
  | None => Ok tt
  end.

Definition notes_of (c : Changelog) (r : Release) : string :=
  trim (join (String newline "") (drop 1 (split_on newline (toString r c)))).

(** The process, given [process.argv.slice(2)]: its exit status. *)
Definition main (argv : list string) : M S Z :=
  text ← read_text_file "../CHANGELOG.md";
  changelog ← lift (parser text);
  _ ← lift (check_headings text changelog);
  match argv !! 0%nat, argv !! 1%nat with
  | Some command, wanted =>
      if decide (command = "version") then
        say console_log (default "" (List.hd_error (released changelog) ≫= version));; mret 0%Z
      else match (if decide (command = "notes") then wanted else None) with
           | Some wanted =>
               match List.find (fun r => bool_decide (version r = Some wanted)) (released changelog) with
               | None => lift (throw ("CHANGELOG.md has no [" +:+ wanted +:+ "]"))
               | Some r => say console_log (notes_of changelog r);; mret 0%Z
               end
           | None => say console_error "usage: changelog.ts version | notes <version>";; mret 2%Z
           end
  | None, _ => say console_error "usage: changelog.ts version | notes <version>";; mret 2%Z
  end.
End script.

(** ** The scan goes line by line *)

Fixpoint at_ (p : place) (s : string) : place :=
  match s with "" => p | String c s' => at_ (next p c) s' end.

(** No line ends in it, whatever follows. *)
Fixpoint within (p : place) (s : string) : bool :=
  match s with
  | "" => true
  | String c s' => match next p c with line_start => false | p' => within p' s' end
  end.

Lemma headings_skip p a b : headings_from p (String.length a) (a +:+ b) = headings_from (at_ p a) 0 b.
Proof. revert p; induction a as [|c a IH]; intros p; [done|]. cbn. apply IH. Qed.

(** The rest of a line holds no heading. *)
Lemma headings_inside p s rest :
  p <> line_start -> within p s = true ->
  headings_from p 0 (s +:+ String newline rest) = headings_from line_start 0 rest.
Proof.
  revert p; induction s as [|c s IH]; intros p Hp Hw.
  - cbn [String.append headings_from]. by destruct p.
  - cbn [String.append headings_from within] in *. destruct p; [done|..]; destruct (next _ c) eqn:E; try done; by apply IH.
Qed.

Lemma within_app p a b : within p (a +:+ b) = true -> within p a = true /\ within (at_ p a) b = true.
Proof.
  revert p; induction a as [|c a IH]; intros p; cbn; [done|]. destruct (next p c) eqn:E; [done|..]; apply IH.
Qed.

Lemma within_place p a : a <> "" -> within p a = true -> at_ p a <> line_start.
Proof.
  revert p; induction a as [|c a IH]; intros p Ha; [done|]. cbn [within at_]. intros Hw.
  destruct a as [|d a]; [cbn in *; by destruct (next p c)|]. apply IH; [done|]. by destruct (next p c).
Qed.

(** The heading of a line, which must close in it. *)
Definition line_ok (l : string) : Prop :=
  within line_start l = true /\ (starts_with "## [" l = true -> is_Some (heading_at l)).

Lemma heading_at_inv l name :
  heading_at l = Some name -> exists tail, l = "## [" +:+ name +:+ String "]" tail /\ no_char "]" name = true.
Proof.
  unfold heading_at, expect. destruct (starts_with "## [" l) eqn:E; [|done].
  apply starts_with_inv in E as [r ->]. cbn [mbind option_bind]. rewrite str_drop_app.
  destruct (index_of "]" r) as [n|] eqn:En; [|done]. intros [= <-].
  assert (exists tail, r = str_take n r +:+ String "]" tail /\ no_char "]" (str_take n r) = true) as (tail & Hr & Hn).
  { clear -En. revert n En; induction r as [|c r IH]; intros n; [done|]. cbn [index_of]. case_decide as Hc.
    - intros [= <-]. subst c. by exists r.
    - destruct (index_of "]" r) as [m|]; [|done]. intros [= <-]. destruct (IH m eq_refl) as (tail & Hr & Hn).
      exists tail. cbn. rewrite <- Hr. split; [done|]. rewrite bool_decide_false by done. exact Hn. }
  exists tail. by rewrite <- Hr.
Qed.

Lemma heading_at_made name rest : no_char "]" name = true -> heading_at ("## [" +:+ name +:+ String "]" rest) = Some name.
Proof.
  intros Hn. unfold heading_at, expect. rewrite starts_with_app, str_drop_app. cbn [mbind option_bind].
  rewrite index_of_first by done. cbn. by rewrite str_take_app.
Qed.

Lemma starts_within p l rest :
  no_char newline p = true -> starts_with p (l +:+ String newline rest) = true -> starts_with p l = true.
Proof.
  revert l; induction p as [|c p IH]; intros l Hp Hs; [done|]. unfold no_char in Hp. cbn [all_chars] in Hp.
  apply andb_true_iff in Hp as [Hc Hp]. apply negb_true_iff, bool_decide_eq_false in Hc.
  destruct l as [|d l]; cbn [String.append starts_with] in *.
  - case_decide; [congruence|done].
  - case_decide; [by apply IH|done].
Qed.

(** One line of the text. *)
Lemma headings_line l rest :
  line_ok l -> headings (l +:+ String newline rest) = option_list (heading_at l) ++ headings rest.
Proof.
  intros [Hw Hc]. unfold headings. destruct (heading_at l) as [name|] eqn:E.
  - apply heading_at_inv in E as (tail & -> & Hn). set (t := String newline rest).
    set (a := "# [" +:+ name +:+ "]").
    assert (("## [" +:+ name +:+ String "]" tail) +:+ t = String "#" (a +:+ tail +:+ t)) as ->
      by (unfold a; cbn [String.append]; by rewrite !string_app_assoc).
    assert ("## [" +:+ name +:+ String "]" tail = String "#" (a +:+ tail)) as Hl
      by (unfold a; cbn [String.append]; by rewrite !string_app_assoc).
    rewrite Hl in Hw. cbn [within] in Hw. change (next line_start "#") with inside in Hw. cbn match in Hw.
    apply within_app in Hw as [Ha Ht].
    assert (heading_at (String "#" (a +:+ tail +:+ t)) = Some name) as Hh.
    { rewrite <- (heading_at_made name (tail +:+ t) Hn). unfold a. cbn [String.append]. by rewrite !string_app_assoc. }
    cbn [headings_from]. rewrite Hh. change (next line_start "#") with inside.
    replace (4 + String.length name)%nat with (String.length a) by (unfold a; cbn; rewrite str_length_app; cbn; lia).
    rewrite headings_skip. cbn [option_list app]. f_equal. apply headings_inside; [by apply within_place|done].
  - assert (heading_at (l +:+ String newline rest) = None) as Hh.
    { unfold heading_at, expect. destruct (starts_with "## [" (l +:+ String newline rest)) eqn:Es; [|done].
      apply starts_within in Es; [|done]. destruct (Hc Es) as [? ?]. congruence. }
    destruct l as [|c l]; [done|]. cbn [String.append headings_from] in *. rewrite Hh. cbn [within] in Hw.
    destruct (next line_start c) eqn:En; [done|..]; by apply headings_inside.
Qed.

(** The headings of a text are those of its lines, when every heading closes in
    its line. *)
Lemma headings_lines ls :
  Forall line_ok ls -> headings (join "" (map (fun l => l +:+ String newline "") ls)) = omap heading_at ls.
Proof.
  induction 1 as [|l ls Hl _ IH]; [done|]. cbn [map]. rewrite join_empty_cons, string_app_assoc.
  change (String newline "" +:+ ?x) with (String newline x). rewrite headings_line, IH by done. cbn.
  by destruct (heading_at l).
Qed.

(** ** What the script does *)

Section outcome.
Context {S W Changelog Release : Type}.
Context (parser : string -> result Changelog) (releases : Changelog -> list Release)
        (version : Release -> option string) (toString : Release -> Changelog -> string) (h : handler W).

Abbreviation script := (main (S := S) parser releases version toString).
Abbreviation the_released := (released releases version).

(** A heading a release can use: the unreleased one, or a version's. *)
Definition usable (c : Changelog) (name : string) : Prop :=
  lower name = "unreleased" \/ exists r, r ∈ releases c /\ version r = Some name.

Lemma is_released_iff c name : is_released releases version c name = true <-> exists r, r ∈ releases c /\ version r = Some name.
Proof.
  unfold is_released, released. rewrite existsb_exists. split.
  - intros (r & [Hr _]%filter_In & Hv). exists r. split; [by apply list_elem_of_In|by apply bool_decide_eq_true in Hv].
  - intros (r & Hr & Hv). exists r. split; [|by apply bool_decide_eq_true]. apply filter_In.
    split; [by apply list_elem_of_In|]. apply bool_decide_eq_true. congruence.
Qed.

Lemma stray_iff c name : stray releases version c name = false <-> usable c name.
Proof.
  unfold stray, usable. rewrite andb_false_iff, !negb_false_iff, bool_decide_eq_true, is_released_iff. done.
Qed.

Lemma check_headings_iff text c :
  check_headings releases version text c = Ok tt <-> Forall (usable c) (headings text).
Proof.
  unfold check_headings. rewrite list.Forall_forall. destruct (List.find _ _) as [name|] eqn:E.
  - split; [done|]. intros Hu. apply find_some in E as [Hin Hs]. apply list_elem_of_In in Hin.
    apply Hu, stray_iff in Hin. congruence.
  - split; [|done]. intros _ name Hin. apply stray_iff. by apply (find_none _ _ E), list_elem_of_In.
Qed.

Lemma newest_released c :
  List.hd_error (the_released c) = List.find (fun r => bool_decide (version r <> None)) (releases c).
Proof. unfold released. induction (releases c) as [|r rs IH]; [done|]. cbn. by destruct (bool_decide _). Qed.

Lemma find_released c v :
  List.find (fun r => bool_decide (version r = Some v)) (the_released c)
  = List.find (fun r => bool_decide (version r = Some v)) (releases c).
Proof.
  unfold released. induction (releases c) as [|r rs IH]; [done|]. cbn. destruct (bool_decide (version r <> None)) eqn:E; cbn.
  - by rewrite IH.
  - rewrite IH. apply bool_decide_eq_false, dec_stable in E. by rewrite bool_decide_false by congruence.
Qed.

Definition read_changelog : io := ReadTextFile "../CHANGELOG.md".

(** C29 Of a changelog whose lines end in LF and whose bracketed headings close
    within their line: one with a heading that is neither [Unreleased] nor the version
    of a release is refused whatever the script is asked, before anything is
    printed.  Of any other, [version] prints the version of the first release
    that has one, or an empty line; and [notes] the text of the release asked
    for without its first line, or fails when there is none. *)
Theorem changelog_outcome text ls c (s : S) w :
  fst (h read_changelog w) = Ok text -> text = join "" (map (fun l => l +:+ String newline "") ls) -> Forall line_ok ls ->
  parser text = Ok c ->
  (forall argv name, name ∈ omap heading_at ls -> ~ usable c name ->
     exists bad, value (run h (script argv) s w) = throw ("CHANGELOG.md: [" +:+ bad +:+ "] is not a semantic version") /\
       trace (run h (script argv) s w) = [read_changelog]) /\
  (Forall (usable c) (omap heading_at ls) ->
     let newest := default "" (List.find (fun r => bool_decide (version r <> None)) (releases c) ≫= version) in
     value (run h (script ["version"]) s w) = Ok 0%Z /\
     trace (run h (script ["version"]) s w) = [read_changelog; Console console_log newest] /\
     forall v, match List.find (fun r => bool_decide (version r = Some v)) (releases c) with
               | None => value (run h (script ["notes"; v]) s w) = throw ("CHANGELOG.md has no [" +:+ v +:+ "]")
               | Some r => value (run h (script ["notes"; v]) s w) = Ok 0%Z /\
                   trace (run h (script ["notes"; v]) s w)
                   = [read_changelog; Console console_log (trim (join (String newline "") (drop 1 (split_on newline (toString r c)))))]
               end).
Proof.
  intros Hr -> Hls Hp. rewrite <- headings_lines by done. set (text := join "" _) in *. split.
  - intros argv name Hin Hu. unfold main, read_text_file, mbind, M_bind. cbn [pbind run]. unfold read_changelog in Hr.
    destruct (h (ReadTextFile "../CHANGELOG.md") w) as [a w1]. cbn [fst] in Hr. subst a. cbn [pbind lift]. rewrite Hp.
    cbn [pbind]. destruct (check_headings releases version text c) as [[]|e] eqn:E.
    + exfalso. apply check_headings_iff in E. rewrite list.Forall_forall in E. by apply Hu, E.
    + revert E. unfold check_headings. destruct (List.find _ _) as [bad|]; [|done]. intros [= <-]. by exists bad.
  - intros Hu. apply check_headings_iff in Hu. cbn zeta. rewrite <- newest_released.
    unfold main, read_text_file, mbind, M_bind. cbn [pbind run]. unfold read_changelog in *.
    destruct (h (ReadTextFile "../CHANGELOG.md") w) as [a w1]. cbn [fst] in Hr. subst a. cbn [pbind lift]. rewrite Hp.
    cbn [pbind]. rewrite Hu. cbn [pbind lookup list_lookup]. unfold say. rewrite decide_True by done. cbn [pbind run].
    destruct (h (Console console_log _) w1) as [[] w2]. cbn [pbind run value trace mret M_ret]. split; [done|]. split; [done|].
    intros v. rewrite decide_False by done. rewrite decide_True by done. rewrite <- find_released.
    destruct (List.find _ (the_released c)) as [r|]; [|done]. cbn [pbind run].
    destruct (h (Console console_log _) w1) as [[] w3]. done.
Qed.
End outcome.

(** ** Witness *)

(** A package that reads the dates of a changelog in a form of its own: one
    release, without a date. *)
Definition one_release (text : string) : result (list string) := Ok ["1.2.0"].
Definition its_notes (v : string) (c : list string) : string := "## [" +:+ v +:+ "]" +:+ String newline "- fixed".

Definition example_lines : list string := ["# Changelog"; "## [Unreleased]"; "## [1.2.0] - 2026-01-02"; "- fixed"].
Definition mistyped_lines : list string := ["# Changelog"; "## [1.2.O] - 2026-01-02"].
Definition written (ls : list string) : string := join "" (map (fun l => l +:+ String newline "") ls).

Definition holding (text : string) : handler unit := fun c w =>
  match c return answer c * unit with
  | ReadTextFile _ => (Ok text, w)
  | c => offline c w
  end.

Ltac lines_ok :=
  repeat (apply Forall_cons_2; [split; [reflexivity | intros Hs; first [discriminate Hs | eexists; reflexivity]]|]);
  apply Forall_nil_2.

Lemma changelog_outcome_witness :
  trace (run (holding (written example_lines)) (main one_release id Some its_notes ["notes"; "1.2.0"]) tt tt)
  = [read_changelog; Console console_log "- fixed"] /\
  trace (run (holding (written mistyped_lines)) (main one_release id Some its_notes ["version"]) tt tt) = [read_changelog].
Proof.
  split.
  - destruct (changelog_outcome one_release id Some its_notes (holding (written example_lines)) (written example_lines) example_lines
                ["1.2.0"] tt tt) as [_ Hok]; [done|done|lines_ok|done|].
    assert (Forall (usable id Some ["1.2.0"]) (omap heading_at example_lines)) as Hu.
    { constructor; [by left|]. constructor; [|constructor]. right. exists "1.2.0". split; [by left|done]. }
    destruct (Hok Hu) as (_ & _ & Hn). specialize (Hn "1.2.0"). etransitivity; [apply Hn|]. reflexivity.
  - destruct (changelog_outcome one_release id Some its_notes (holding (written mistyped_lines)) (written mistyped_lines) mistyped_lines
                ["1.2.0"] tt tt) as [Hbad _]; [done|done|lines_ok|done|].
    destruct (Hbad ["version"] "1.2.O") as (bad & _ & Ht); [by left| |exact Ht].
    intros [Hl|(r & Hr & Hv)]; [vm_compute in Hl; discriminate Hl|].
    apply list_elem_of_singleton in Hr. subst r. discriminate Hv.
Defined.
