(* ===== verification/Smoke.v ===== *)
(** The smoke test (dev/smoke.ts): one sandbox driven through every operation
    against a real Armada, what it checks on the way, and what it leaves
    behind. *)
From S2P Require Import Prelude JsString Regex Encoding Sha256 JsNumber Json Io Shell Ndjson Types Auth Config PodSpec Queues Armada Channel Sandbox SandboxInv SandboxSpec Provider.

(** ** Text *)

(** [n.toString(36)] of an integer. *)
Definition digit36 (d : Z) : ascii := if (d <? 10)%Z then digit_char d else chr (Z.to_N (87 + d)).

Fixpoint digits36 (fuel : nat) (n : Z) (acc : string) : string :=
  let acc := String (digit36 (n mod 36)) acc in
  match fuel with
  | O => acc
  | S f => if (n <? 36)%Z then acc else digits36 f (n / 36) acc
  end.

Definition to_string36 (n : Z) : string :=
  if (n <? 0)%Z then "-" +:+ digits36 (Z.to_nat (Z.log2 (- n))) (- n) "" else digits36 (Z.to_nat (Z.log2 n)) n "".

(** [x.toFixed(1)]: of two decimals as near, the larger. *)
Definition to_fixed1 (x : num) : string :=
  match ratio x with
  | Some (a, b) =>
      if (Z.abs a <? 10 ^ 21 * b)%Z then
        let n := ((20 * Z.abs a + b) / (2 * b))%Z in
        (if (a <? 0)%Z then "-" else "") +:+ string_of_Z (n / 10) +:+ "." +:+ string_of_Z (n mod 10)
      else num_to_string x
  | None => num_to_string x
  end.

(** [s.replace(needle, '')]: the first occurrence. *)
Fixpoint without_first (needle s : string) : string :=
  if starts_with needle s then str_drop (String.length needle) s
  else match s with String c s' => String c (without_first needle s') | "" => "" end.

Example text_forms :
  (to_string36 1735689600000, map to_fixed1 [num_div (Int 12345) 1000; num_div (Int 250) 1000; num_div (Int (-40)) 1000],
   without_first "armada-proc-" "armada-proc-7")
  = ("m5d4ruo0", ["12.3"; "0.3"; "-0.0"], "7").
Proof. vm_compute. reflexivity. Qed.

Definition said (line : string) : string := String newline line.

(** ** What the run is given *)

Definition smoke_defaults : environment :=
  [("ARMADA_URL", "http://localhost:30001"); ("ARMADA_QUEUE", "marimohub");
   ("ARMADA_AGENT_IMAGE", "marimohub-kernel-agent:local");
   ("ARMADA_AGENT_TOKEN_SECRET", "armada-dev-only-agent-token-secret");
   ("MARIMOHUB_SURFACES", "vscode")].

Definition smoke_config `{Platform} (files : file_reader) (env : environment) : result ArmadaConfig :=
  readConfig files (obj_spread smoke_defaults env) None.

Definition smoke_owner (env : environment) : option SandboxOwner :=
  p ← var env "SMOKE_OWNER_PROJECT"; Some {| projectId := p; userId := var env "SMOKE_OWNER_USER" |}.

Definition owner_json (o : SandboxOwner) : json :=
  JObj (("projectId", JStr (projectId o)) :: match userId o with Some u => [("userId", JStr u)] | None => [] end).

(** ** The state of the script

    Its own sandbox's process, that of the provider it makes at the end, the
    count of failed checks and the exit status set so far. *)
Record script := {
  mine : process AgentEndpoint;
  others : process AgentEndpoint;
  failures : Z;
  exit_code : Z
}.

Definition empty_process : process AgentEndpoint :=
  {| objects := ∅; placements := ∅; seen_queues := ∅; kept := None |}.
Definition script_start : script :=
  {| mine := empty_process; others := empty_process; failures := 0; exit_code := 0 |}.

Definition put_mine (p : process AgentEndpoint) (s : script) : script :=
  {| mine := p; others := others s; failures := failures s; exit_code := exit_code s |}.
Definition put_others (p : process AgentEndpoint) (s : script) : script :=
  {| mine := mine s; others := p; failures := failures s; exit_code := exit_code s |}.
Definition on_mine {A} : prog (process AgentEndpoint) A -> prog script A := zoom mine put_mine.
Definition on_others {A} : prog (process AgentEndpoint) A -> prog script A := zoom others put_others.

Definition one_more (s : script) : script :=
  {| mine := mine s; others := others s; failures := failures s + 1; exit_code := 1 |}.

Definition check (passed : bool) (message : string) : M script unit :=
  say console_log ("  " +:+ (if passed then "ok" else "FAILED") +:+ ": " +:+ message);;
  if passed then mret tt else modify one_more.

(** The callback the sandbox opens its channel with. *)
Definition keepAgent (endpoint : AgentEndpoint) : M (process AgentEndpoint) AgentEndpoint :=
  say console_log ("  agent   " +:+ endpoint_url endpoint);;
  modify (on_kept (fun _ => Some (new_AgentChannel endpoint)));;
  mret (new_AgentChannel endpoint).

(** ** The run, part by part *)

Section run.
Context `{Platform} (config : ArmadaConfig) (owner : option SandboxOwner) (sandboxId : SandboxId).

(** [new ArmadaSandbox(...)], at the only address, with maps of its own. *)
Definition make_sandbox : M script unit :=
  on_mine (modify (new_sandbox 0 sandboxId
    (match owner with
     | None => None
     | Some o => Some {| opt_image := None; opt_resources := None; opt_owner := Some o |}
     end) false)).

Definition announce : M script unit :=
  say console_log ("submitting " +:+ sandboxId
    +:+ (match owner with None => "" | Some o => " for " +:+ json_stringify (owner_json o) end)
    +:+ " at " +:+ config_url config);;
  say console_log ("  kernel image " +:+ image config);;
  say console_log ("  agent image  " +:+ agentImage config).

(** The agent and the pod, once the sandbox is ready, and its queue. *)
Definition come_up : M script (AgentEndpoint * qname) :=
  startedAt ← now;
  on_mine (ready_sandbox config keepAgent 0);;
  pod ← on_mine (self 0 sandbox_pod);
  agent ← gets (fun s => kept (mine s));
  match agent, pod with
  | Some agent, Some pod =>
      t ← now;
      q ← on_mine (queue_of config 0);
      say console_log (said ("running and answering after " +:+ to_fixed1 (num_div (Int (t - startedAt)) 1000) +:+ "s"));;
      say console_log ("  queue   " +:+ queue_text q);;
      say console_log ("  cluster " +:+ clusterId pod);;
      say console_log ("  pod     " +:+ podNamespace pod +:+ "/" +:+ podName pod);;
      say console_log ("  node    " +:+ default "unknown" (nodeName pod));;
      mret (agent, q)
  | _, _ => lift (throw "ready() returned without a pod")
  end.

Definition hello : string :=
  dq "echo `hello from $(hostname)`; python3 -V; echo `PID 1 is $(tr -d '\0' < /proc/1/cmdline | head -c 40)`".

Definition succeeded (r : ExecResult) : bool := match r with ExecSuccess _ _ => true | ExecFailure _ _ _ => false end.
Definition exec_stdout (r : ExecResult) : string := match r with ExecSuccess o _ | ExecFailure o _ _ => o end.
Definition exec_stderr (r : ExecResult) : string := match r with ExecSuccess _ e | ExecFailure _ e _ => e end.

Definition run_hello : M script unit :=
  say console_log (said "running a command in it");;
  r ← on_mine (exec_sandbox config keepAgent 0 hello None);
  say_all console_log (map (fun line => "  " +:+ line) (split_on newline (trim_end (exec_stdout r))));;
  (if decide (exec_stderr r = "") then mret tt else say console_log ("  stderr: " +:+ trim_end (exec_stderr r)));;
  check (succeeded r) "exec through the agent".

Definition filePath_ : string := "/tmp/smoke dir/it's.bin".
Definition fileBytes : list ascii := map chr [0; 159; 146; 150; 10]%N.

Definition reads_back (r : ReadFileResult) : bool :=
  match r with
  | ReadFileSuccess content base64 => bool_decide (base64_decode content = fileBytes)
  | _ => false
  end.

Definition lists_it (r : ListFilesResult) : bool :=
  match r with
  | ListFilesSuccess [f] => (bool_decide (name f = "it's.bin") && bool_decide (info_size f = Int (Z.of_nat (length fileBytes))))%bool
  | _ => false
  end.

Definition run_files : M script unit :=
  say console_log (said "writing, reading and listing files through the agent");;
  on_mine (writeFiles config keepAgent 0 [{| write_path := filePath_; write_content := Bytes fileBytes |}]);;
  readBack ← on_mine (read_sandbox config keepAgent 0 filePath_);
  check (reads_back readBack) "binary bytes round-trip exactly, reported as base64";;
  listed ← on_mine (list_sandbox config keepAgent 0 "/tmp/smoke dir" None);
  check (lists_it listed) "the listing names the file with its size";;
  missing ← on_mine (read_sandbox config keepAgent 0 "/tmp/smoke dir/never-written");
  check (match missing with ReadFileFailure NOT_FOUND => true | _ => false end) "an absent path is NOT_FOUND".

(** The polls for the end of a process that was killed. *)
Fixpoint await_end (attempts : nat) (agent : AgentEndpoint) (pid : num) (afterKill : bool) : M script bool :=
  match attempts with
  | S more =>
      if afterKill then
        sleep 100;;
        status ← on_mine (processStatus agent pid);
        await_end more agent pid (Channel.running status)
      else mret afterKill
  | O => mret afterKill
  end.

Definition run_process (agent : AgentEndpoint) : M script unit :=
  say console_log (said "starting a detached process and waiting for its port");;
  serving ← on_mine (startProcess_sandbox config keepAgent 0 (dq "echo `serving on 8123`; python3 -m http.server 8123") None);
  let servingPid := to_number (without_first "armada-proc-" (process_id serving)) in
  on_mine (waitForPort_process serving 8123 None None (Some 30000%Z));;
  say console_log "  port 8123 answered";;
  on_mine (waitForPort_process serving 8123 (Some http) (Some "/") (Some 10000%Z));;
  answers ← on_mine (isPortReady 0 8123 None (Some "/"));
  check answers "isPortReady sees the server answer over http";;
  quiet ← on_mine (isPortReady 0 8125 None None);
  check (negb quiet) "isPortReady is false for a port nothing listens on";;
  alive ← on_mine (processStatus agent servingPid);
  check (Channel.running alive) "the agent reports the server running";;
  on_mine (kill serving None);;
  afterKill ← await_end 50 agent servingPid true;
  check (negb afterKill) "kill() really terminated it";;
  logs ← on_mine (getLogs serving);
  check (negb (bool_decide (fst logs = ""))) "its log survived it".

Definition run_ports : M script unit :=
  say console_log "exposing the kernel port and a surface port";;
  kernelUrl ← on_mine (exposePort config keepAgent 0 (port config));
  surfaceUrl ← on_mine (exposePort config keepAgent 0 8443);
  surfaceAgain ← on_mine (exposePort config keepAgent 0 8443);
  say console_log ("  kernel  " +:+ kernelUrl);;
  say console_log ("  surface " +:+ surfaceUrl);;
  check (multiPort (declared (new_ArmadaCompute config)) && negb (bool_decide (surfaceUrl = kernelUrl))
         && bool_decide (surfaceAgain = surfaceUrl))%bool
    "multiPort: the surface port has its own stable address next to the kernel's".

Definition run_crash : M script unit :=
  say console_log "starting a process that dies at once";;
  crashing ← on_mine (startProcess_sandbox config keepAgent 0 "echo boom; exit 7" None);
  crashReport ← try_catch (on_mine (waitForPort_process crashing 8124 None None (Some 20000%Z));; mret "")
                  (fun error => mret (message error));
  check (includes "process exited before port 8124 opened" crashReport && includes "boom" crashReport)%bool
    "the wait reports a crash with the log, not a timeout".

Definition spin : string := "while true; do echo tick; sleep 0.2; done".

(** [reader.read()]: the first chunk of a stream, or its end. *)
Definition first_read (agent : AgentEndpoint) (source : byte_stream) : result unit :=
  match ended (pull agent source (stream_start source)) with Some (Errored e) => Err e | _ => Ok tt end.

(** A stream that is cancelled is not pulled again: the cancel is decided when
    the first chunk arrives. *)
Definition abandon (agent : AgentEndpoint) : M script unit :=
  say console_log (said "abandoning a command that outruns its timeout");;
  timedOut ← on_mine (exec_sandbox config keepAgent 0 spin (Some 1500%Z));
  say console_log ("  " +:+ (if succeeded timedOut then "returned" else "failed") +:+ ": " +:+ trim (exec_stderr timedOut));;
  say console_log "cancelling a stream while its command is still running";;
  stream ← on_mine (execStream config keepAgent 0 spin None);
  lift (first_read agent stream);;
  say console_log "  cancelled after the first chunk".

Definition stray_line (stray : StrayProcess) : string :=
  let what := if decide (Shell.state stray = "Z") then "zombie" else "state " +:+ Shell.state stray in
  "  pid " +:+ Shell.pid stray +:+ " (" +:+ what +:+ ") " +:+ Shell.command stray.

Definition run_strays (agent : AgentEndpoint) : M script unit :=
  sleep 2000;;
  say console_log "looking for processes nothing is waiting on";;
  strays ← on_mine (run_command agent ["sh"; "-c"; strayProcessCommand] {| stdin := None; timeoutMs := None |});
  let found := parseStrayProcesses (stdout strays) in
  say_all console_log (map stray_line found);;
  check (bool_decide (found = []))
    "nothing is left behind, zombies included: the agent kills what its callers abandon and reaps the rest".

Definition sees_it (active : list ActiveSandbox) : bool := existsb (fun a => bool_decide (active_id a = sandboxId)) active.

(** The sweeps until the sandbox is gone from Lookout. *)
Fixpoint await_gone (attempts : nat) (list : M (process AgentEndpoint) (list ActiveSandbox)) (gone : bool) : M script bool :=
  match attempts with
  | S more =>
      if gone then mret gone
      else sleep 2000;; after ← on_others list; await_gone more list (negb (sees_it after))
  | O => mret gone
  end.

(** A provider with no memory of the sandbox finds and destroys it. *)
Definition destroy_elsewhere (pages : nat) (q : qname) : M script unit :=
  say console_log (said "destroying through a provider that knows only the id");;
  found ← on_mine (findQueue config sandboxId);
  check (bool_decide (Named <$> found = Some q))
    ("Lookout names queue " +:+ String dquote (queue_text q +:+ String dquote " for the job set, by the installation's mark"));;
  match list_active (new_ArmadaCompute config) with
  | None => lift (throw "unreachable: Lookout was checked above")
  | Some list =>
      before ← on_others (list pages);
      check (sees_it before) ("listActive sees it (" +:+ string_of_Z (Z.of_nat (length before)) +:+ " active across "
                              +:+ join ", " (all_queues config) +:+ ")");;
      on_others (modify (create 0 sandboxId None));;
      on_others (destroy config 0);;
      gone ← await_gone 15 (list pages) false;
      check gone ("cancelled in queue " +:+ String dquote (queue_text q +:+ String dquote " by a provider that had to look it up"))
  end.

Definition finish (argv : list string) (pages : nat) (q : qname) : M script unit :=
  if bool_decide ("--keep" ∈ argv) then
    say console_log (said "left running. cancel it with:");;
    say console_log ("  armadactl cancel --queue " +:+ queue_text q +:+ " --jobSet " +:+ sandboxId)
  else match owner with
       | None => on_mine (destroy config 0);; say console_log (said "cancelled")
       | Some _ => destroy_elsewhere pages q
       end.

Definition verdict : M script unit :=
  n ← gets failures;
  say console_log (if decide (n = 0%Z) then "all checks passed" else string_of_Z n +:+ " check(s) FAILED").

(** Everything between the sandbox being ready and the end of it. *)
Definition exercise (agent : AgentEndpoint) : M script unit :=
  run_hello;; run_files;; run_process agent;; run_ports;; run_crash;; abandon agent;; run_strays agent.
End run.

(** The script. An owner needs a Lookout, which is asked for before anything
    is submitted. *)
Definition smoke `{Platform} (files : file_reader) (env : environment) (argv : list string) (pages : nat) : M script unit :=
  config ← lift (smoke_config files env);
  t ← now;
  let sandboxId := "smoke-" +:+ to_string36 t in
  let owner := smoke_owner env in
  (if (negb (bool_decide (owner = None)) && bool_decide (lookoutUrl config = None))%bool
   then lift (throw "an owner check needs ARMADA_LOOKOUT_URL") else mret tt);;
  make_sandbox owner sandboxId;;
  announce config owner sandboxId;;
  '(agent, q) ← come_up config;
  exercise config agent;;
  finish config owner sandboxId argv pages q;;
  verdict.

(** How the script's process ends: an error nothing catches ends it with 1. *)
Definition exit_status {W} (o : outcome script W (result unit)) : Z :=
  match value o with Ok _ => exit_code (final o) | Err _ => 1 end.
