(* ===== verification/SmokeSpec.v ===== *)
(** What a run of the smoke test (dev/smoke.ts) comes to: the agent it talks
    to is its sandbox's, its exit status is the verdict, and a run that
    returns has cancelled its job. *)
From S2P Require Import Prelude JsString Regex Encoding Sha256 JsNumber Json Io Rely Shell Ndjson Types Auth Config PodSpec Queues Armada Channel Sandbox SandboxInv SandboxSpec Provider Operations Smoke.

(** ** What every part of the run keeps *)

Section keeping.
Context `{Platform} (config : ArmadaConfig) (sandboxId : SandboxId).

Abbreviation any := (fun _ : io => True).

(** The one object of the script. *)
Definition only (n : nat) : option (SandboxId * bool) := match n with O => Some (sandboxId, false) | _ => None end.

Abbreviation mine_ok := (process_ok config new_AgentChannel only).

(** The sandbox is what it was made as, and the status says whether a check
    failed. *)
Definition script_ok (s : script) : Prop :=
  mine_ok (mine s) /\ (0 <= failures s)%Z /\ exit_code s = (if decide (failures s = 0%Z) then 0 else 1)%Z.

Abbreviation keeps p := (guarded script_ok any (returns (fun _ => True)) p).

Lemma keeps_bind {A B} (p : M script A) (k : A -> M script B) : keeps p -> (forall a, keeps (k a)) -> keeps (p ≫= k).
Proof. intros Hp Hk. by eapply (guarded_bind _ _ (fun _ => True)). Qed.

Lemma keeps_calm {A} (p : M script A) : calm p -> keeps p.
Proof. intros Hp. eapply guarded_weaken; [done| |by apply calm_guarded]. by intros []. Qed.

Lemma keeps_mine {A} (p : M (process AgentEndpoint) A) :
  guarded mine_ok any (returns (fun _ => True)) p -> keeps (on_mine p).
Proof. apply guarded_zoom; [by intros s []|]. by intros s t (_ & Hs) Ht. Qed.

Lemma keeps_mine_calm {A} (p : M (process AgentEndpoint) A) : calm p -> keeps (on_mine p).
Proof. intros Hp. apply keeps_mine. eapply guarded_weaken; [done| |by apply calm_guarded]. by intros []. Qed.

Lemma keeps_others {A} (p : M (process AgentEndpoint) A) : keeps (on_others p).
Proof.
  eapply guarded_weaken; [done| |apply (guarded_zoom _ _ (fun _ => True) _ _ _ p); [done| |apply guarded_any]]; [by intros []|].
  by intros s t Hs _.
Qed.

Lemma keepAgent_opens endpoint :
  guarded mine_ok any (returns (fun c => c = new_AgentChannel endpoint)) (keepAgent endpoint).
Proof. cbn. split; [done|]. intros _. by split. Qed.

(** An operation of the sandbox. *)
Lemma keeps_op {A} op (p : M (process AgentEndpoint) A) :
  perform config keepAgent 0 op = ignore p -> keeps (on_mine p).
Proof.
  intros Hp. apply keeps_mine.
  assert (guarded mine_ok any (returns (fun _ => True)) (perform config keepAgent 0 op)) as Hg.
  { eapply guarded_weaken; [..|apply (guarded_perform config new_AgentChannel only 0 sandboxId false eq_refl keepAgent)]; [done..|].
    intros endpoint. eapply guarded_weaken; [..|apply keepAgent_opens]; [|done]. by intros c _ [=]. }
  rewrite Hp in Hg. apply guarded_pbind_inv in Hg. eapply guarded_weaken; [..|exact Hg]; [done|by intros []].
Qed.

Lemma keeps_do op p : perform config keepAgent 0 op = p -> keeps (on_mine p).
Proof.
  intros <-. apply keeps_mine. eapply guarded_weaken; [..|apply (guarded_perform config new_AgentChannel only 0 sandboxId false eq_refl keepAgent)]; [done..|].
  intros endpoint. eapply guarded_weaken; [..|apply keepAgent_opens]; [|done]. by intros c _ [=].
Qed.

Lemma keeps_check passed message : keeps (check passed message).
Proof.
  unfold check. apply keeps_bind; [by split|]. intros _. destruct passed; [done|]. split; [|done].
  intros s (Hm & Hf & He). split; [done|]. cbn [one_more failures exit_code]. split; [lia|]. by rewrite decide_False by lia.
Qed.

Lemma keeps_say_all to lines : keeps (say_all to lines).
Proof. induction lines as [|l lines IH]; cbn [say_all]; [done|]. apply keeps_bind; [by split|]. by intros _. Qed.
Lemma keeps_processStatus agent pid : keeps (on_mine (processStatus agent pid)).
Proof. apply keeps_mine_calm. cbn [AgentChannel processStatus]. unfold agent_processStatus, ask. calm. Qed.

(** One step of the script, and then the next. *)
Ltac keep_op :=
  lazymatch goal with
  | |- guarded _ _ _ (on_mine ?p) =>
      lazymatch p with
      | ready_sandbox _ _ _ => exact (keeps_do op_ready _ eq_refl)
      | destroy _ _ => exact (keeps_do op_destroy _ eq_refl)
      | writeFiles _ _ _ ?files => exact (keeps_do (op_writeFiles files) p eq_refl)
      | kill ?x ?sg => exact (keeps_do (op_kill x sg) p eq_refl)
      | waitForPort_process ?x ?port ?m ?path ?t => exact (keeps_do (op_waitForPort x port m path t) p eq_refl)
      | exec_sandbox _ _ _ ?cmd ?t => exact (keeps_op (op_exec cmd t) p eq_refl)
      | execStream _ _ _ ?cmd ?t => exact (keeps_op (op_execStream cmd t) p eq_refl)
      | read_sandbox _ _ _ ?path => exact (keeps_op (op_readFile path) p eq_refl)
      | list_sandbox _ _ _ ?path ?o => exact (keeps_op (op_listFiles path o) p eq_refl)
      | startProcess_sandbox _ _ _ ?cmd ?o => exact (keeps_op (op_startProcess cmd o) p eq_refl)
      | isPortReady _ ?port ?m ?path => exact (keeps_op (op_isPortReady port m path) p eq_refl)
      | exposePort _ _ _ ?port => exact (keeps_op (op_exposePort port) p eq_refl)
      | getLogs ?x => exact (keeps_op (op_getLogs x) p eq_refl)
      | processStatus _ _ => apply keeps_processStatus
      end
  end.
Ltac keep_bind :=
  lazymatch goal with |- guarded _ _ _ (mbind _ _) => apply keeps_bind; [|intros ?]; cbn beta end.
Ltac keep :=
  repeat first [ exact I | apply keeps_check | apply keeps_say_all | keep_op
               | apply keeps_others | apply keeps_mine_calm; solve [calm]
               | keep_bind | apply keeps_calm; solve [unfold now, sleep, say; calm; by intros] ].

Lemma keeps_hello : keeps (run_hello config).
Proof. unfold run_hello. keep. Qed.

Lemma keeps_files : keeps (run_files config).
Proof. unfold run_files. keep. Qed.

Lemma keeps_await_end attempts agent pid after : keeps (await_end attempts agent pid after).
Proof.
  revert after; induction attempts as [|more IH]; intros after; cbn [await_end]; [done|]. destruct after; [|done].
  keep. apply IH.
Qed.

Lemma keeps_process agent : keeps (run_process config agent).
Proof. unfold run_process. keep. apply keeps_await_end. Qed.

Lemma keeps_ports : keeps (run_ports config).
Proof. unfold run_ports. keep. Qed.

Lemma keeps_try {A} (p : M script A) f : keeps p -> (forall e, keeps (f e)) -> keeps (try_catch p f).
Proof. apply guarded_try. Qed.

Lemma keeps_crash : keeps (run_crash config).
Proof. unfold run_crash. keep. apply keeps_try; [|done]. keep. Qed.

Lemma keeps_abandon agent : keeps (abandon config agent).
Proof. unfold abandon. keep. Qed.

Lemma keeps_strays agent : keeps (run_strays agent).
Proof. unfold run_strays. keep. Qed.

Lemma keeps_exercise agent : keeps (exercise config agent).
Proof.
  unfold exercise. apply keeps_bind; [apply keeps_hello|intros _]. apply keeps_bind; [apply keeps_files|intros _].
  apply keeps_bind; [apply keeps_process|intros _]. apply keeps_bind; [apply keeps_ports|intros _].
  apply keeps_bind; [apply keeps_crash|intros _]. apply keeps_bind; [apply keeps_abandon|intros _]. apply keeps_strays.
Qed.
End keeping.

(** ** The agent of the script *)

Section alone.
Context `{Platform} {W : Type} (config : ArmadaConfig) (h : handler W).
Implicit Types (s : process AgentEndpoint).

(** The sandbox has a job, a pod and a channel, which is what the script has
    kept. *)
Definition in_hand s : Prop :=
  exists o j p c, objects s !! 0%nat = Some o /\ job o = Some j /\ sandbox_pod o = Some p /\
    channel o = Some c /\ kept s = Some c.

Lemma run_keepAgent {A} endpoint (k : AgentEndpoint -> M (process AgentEndpoint) A) s w :
  exists w', let s' := on_kept (fun _ => Some endpoint) s in
    value (run h (c ← keepAgent endpoint; k c) s w) = value (run h (k endpoint) s' w') /\
    final (run h (c ← keepAgent endpoint; k c) s w) = final (run h (k endpoint) s' w').
Proof.
  exists (snd (h (Console console_log ("  agent   " +:+ endpoint_url endpoint)) w)).
  unfold keepAgent, say, modify, mbind, M_bind. cbn [pbind run mret M_ret new_AgentChannel].
  by destruct (h (Console _ _) w) as [[] w'].
Qed.

Lemma reach_in_hand s w o j :
  objects s !! 0%nat = Some o -> job o = Some j ->
  value (run h (reach config keepAgent 0) s w) = Ok tt -> in_hand (final (run h (reach config keepAgent 0) s w)).
Proof.
  intros Ho Hj. unfold reach. rewrite (run_self_bind _ _ _ _ _ _ o), (run_defined_bind _ _ _ _ j _ _ _ o) by done.
  intros Hv. eapply past_calm; [|exact Hv|]; [calm|]. clear Hv w. intros pod w. rewrite run_assign_bind.
  set (s1 := on_objects _ s). assert (objects s1 !! 0%nat = Some (set_pod (Some pod) o)) as Ho1 by (simpl; by rewrite lookup_alter_eq, Ho).
  rewrite (run_defined_bind _ _ _ _ j _ _ _ _ Ho1) by done.
  intros Hv. eapply past_calm; [|exact Hv|]; [calm|]. clear Hv w. intros url w.
  rewrite (run_defined_bind _ _ _ _ pod _ _ _ _ Ho1) by done. set (c := {| endpoint_url := url |}).
  match goal with |- context [keepAgent c ≫= ?k] => destruct (run_keepAgent c k s1 w) as (w' & Ev & Ef) end.
  intros Hv. rewrite Ev in Hv. rewrite Ef. clear Ev Ef. set (s2 := on_kept _ s1) in *.
  eapply past_calm; [|exact Hv|]; [calm|]. clear Hv. intros u w2. rewrite run_assign_bind.
  set (s3 := on_objects _ s2). set (o3 := set_channel (Some c) (set_pod (Some pod) o)).
  assert (objects s3 !! 0%nat = Some o3) as Ho3
    by (change (objects s3) with (alter (set_channel (Some c)) 0%nat (objects s1)); by rewrite lookup_alter_eq, Ho1).
  rewrite (run_defined_bind _ _ _ _ j _ _ _ _ Ho3), (run_self_bind _ _ _ _ _ _ _ Ho3) by done. intros _.
  by exists o3, j, pod, c.
Qed.

(** A sandbox that becomes ready without taking another's placement over. *)
Lemma ready_in_hand s w o :
  objects s !! 0%nat = Some o -> channel o = None -> placements s !! sid o = None ->
  value (run h (ready_sandbox config keepAgent 0) s w) = Ok tt ->
  in_hand (final (run h (ready_sandbox config keepAgent 0) s w)).
Proof.
  intros Ho Hc Hp. unfold ready_sandbox. rewrite (run_self_bind _ _ _ _ _ _ o), Hc by done.
  rewrite (run_unshared _ _ _ _ o) by done. intros (u & Hv1 & Hv2 & -> & _)%run_bind_Ok. revert Hv2.
  destruct (run_ensure_job config h 0 s w o Ho) as [_ He]. rewrite Hv1 in He. destruct He as [j He].
  intros Hv2. by eapply reach_in_hand.
Qed.
(** ** What is cancelled *)

(** A POST that cancels the job set of a sandbox. *)
Definition cancels (id : SandboxId) (r : request) : Prop :=
  method r = "POST" /\ url r = strip_slash (config_url config) +:+ "/v1/job/cancel" /\
  exists body, payload_of r = Some (JsonPayload body) /\ prop "jobSetId" body = Some (JStr id).

(** Answered with success, at some moment. *)
Definition accepted (r : request) : Prop :=
  exists w response, fst (h (Fetch r) w) = Ok response /\ ok_status response = true.

(** Somewhere among the calls, and taken. *)
Definition cancelled (id : SandboxId) (calls : list io) : Prop :=
  exists r, Fetch r ∈ calls /\ cancels id r /\ accepted r.

Lemma cancelled_app id before calls after : cancelled id calls -> cancelled id (before ++ calls ++ after).
Proof. intros (r & Hr & Hc). exists r. split; [set_solver|done]. Qed.

Lemma post_cancels {S} id body (k : response -> M S unit) (s : S) w :
  prop "jobSetId" body = Some (JStr id) ->
  value (run h (r ← post config "/v1/job/cancel" body None; k r) s w) = Ok tt ->
  cancelled id (trace (run h (r ← post config "/v1/job/cancel" body None; k r) s w)).
Proof.
  intros Hb (response & Hv & _ & _ & _ & ->)%run_bind_Ok. apply (cancelled_app id []).
  pose proof (postTo_run config h (config_url config) "/v1/job/cancel" body None s w) as Hp. cbn zeta in Hp.
  unfold post in *. destruct (value (run h (requestHeaders config) s w)) as [hs|e]; [|destruct Hp; congruence].
  destruct Hp as [-> Hv']. rewrite Hv in Hv'. eexists. split; [apply elem_of_app; right; by apply list_elem_of_singleton|].
  split; [by repeat split; eexists|]. eexists _, response. unfold accepted.
  destruct (fst (h (Fetch _) _)) as [r|e] eqn:E; [|done]. cbn in Hv'.
  destruct (ok_status r) eqn:Er; [|by destruct (text_of r)]. injection Hv' as ->. split; [exact E|done].
Qed.

Lemma destroy_cancels s w o :
  objects s !! 0%nat = Some o -> (forall j, job o = Some j -> jobSetId j = sid o) ->
  value (run h (destroy config 0) s w) = Ok tt -> cancelled (sid o) (trace (run h (destroy config 0) s w)).
Proof.
  intros Ho Hj. rewrite (run_destroy config h 0 s w o Ho). cbn [value trace]. unfold cancelling.
  rewrite !(run_self_bind _ _ _ _ _ _ o) by done. destruct (job o) as [j|] eqn:Ej.
  - apply post_cancels. rewrite <- (Hj j eq_refl). by destruct (queue_json (job_queue j)).
  - intros (q & _ & Hv & _ & _ & ->)%run_bind_Ok. rewrite <- (app_nil_r (trace (run h (cancelSet _ _ _) _ _))). apply cancelled_app.
    revert Hv. apply post_cancels. by destruct (queue_json q).
Qed.
End alone.

(** ** The run as a whole *)

Section whole.
Context `{Platform} {W : Type} (config : ArmadaConfig) (owner : option SandboxOwner) (sandboxId : SandboxId) (h : handler W).
Implicit Types (s : script).

(** The sandbox just made. *)
Definition made_options : option CreateSandboxOptions :=
  match owner with
  | None => None
  | Some o => Some {| opt_image := None; opt_resources := None; opt_owner := Some o |}
  end.
Definition just_made : script :=
  put_mine (new_sandbox 0 sandboxId made_options false empty_process) script_start.

Lemma just_made_ok : script_ok config sandboxId just_made.
Proof.
  split; [|by split]. split; [|done]. intros n o. cbn.
  intros [[<- <-]|[_ Hn]]%lookup_insert_Some; [|done]. split; [done|apply object_ok_construct].
Qed.

Lemma keeps_come_up : guarded (script_ok config sandboxId) (fun _ => True) (returns (fun _ => True)) (come_up config).
Proof.
  unfold come_up. apply keeps_bind; [apply keeps_calm; by intros|intros t]. apply keeps_bind; [exact (keeps_do config sandboxId op_ready _ eq_refl)|intros _].
  apply keeps_bind; [apply keeps_mine_calm; calm|intros pod]. apply keeps_bind; [by intros s|intros agent].
  destruct agent as [agent|], pod as [pod|]; try done.
  apply keeps_bind; [apply keeps_calm; by intros|intros t']. apply keeps_bind.
  { apply keeps_mine. eapply guarded_weaken; [..|apply (guarded_queue_of config new_AgentChannel (only sandboxId) 0 sandboxId false)]; done. }
  intros q. repeat (apply keeps_bind; [apply keeps_calm; by intros|intros _]). done.
Qed.
Lemma run_mine {A} (p : prog (process AgentEndpoint) A) s w :
  value (run h (on_mine p) s w) = value (run h p (mine s) w) /\ mine (final (run h (on_mine p) s w)) = final (run h p (mine s) w) /\
  trace (run h (on_mine p) s w) = trace (run h p (mine s) w).
Proof. destruct (run_zoom mine put_mine ltac:(done) h p s w) as (Hv & Hf & _ & Ht). done. Qed.

Lemma run_say {B} to line (k : M script B) (R : result B -> script -> Prop) s w :
  (forall w', R (value (run h k s w')) (final (run h k s w'))) ->
  R (value (run h (say to line;; k) s w)) (final (run h (say to line;; k) s w)).
Proof.
  intros Hk. unfold say, mbind, M_bind. cbn [pbind run]. destruct (h (Console to line) w) as [[] w']. cbn [value final]. apply Hk.
Qed.

Lemma run_now {B} (k : Z -> M script B) s w :
  let '(t, w') := h Now w in let o := run h (k t) s w' in
  run h (t ← now; k t) s w = {| value := value o; final := final o; world := world o; trace := Now :: trace o |}.
Proof. unfold now, mbind, M_bind. cbn [pbind run]. by destruct (h Now w). Qed.

Lemma run_field {A B} (f : sandbox AgentEndpoint -> A) (k : A -> M script B) s w o :
  objects (mine s) !! 0%nat = Some o -> run h (x ← on_mine (self 0 f); k x) s w = run h (k (f o)) s w.
Proof. intros Ho. unfold on_mine, self, mbind, M_bind, gets. cbn [pbind zoom run]. by rewrite Ho. Qed.

Lemma run_queue {B} (k : qname -> M script B) s w o j :
  objects (mine s) !! 0%nat = Some o -> job o = Some j ->
  run h (q ← on_mine (queue_of config 0); k q) s w = run h (k (job_queue j)) s w.
Proof.
  intros Ho Hj. unfold on_mine, queue_of, self, mbind, M_bind, gets. cbn [pbind zoom run]. rewrite Ho. cbn [pbind zoom run mret M_ret].
  by rewrite Hj.
Qed.

(** C18 The agent the script goes on to talk to is its own sandbox's: once the
    sandbox is ready the variable its callback set is the sandbox's channel,
    to an agent addressed with that sandbox's token, and the queue it prints
    is the job's; and coming up fails only where [ready] does, never for want
    of an agent or a pod. *)
Theorem come_up_outcome w :
  let up := run h (ready_sandbox config keepAgent 0) (mine just_made) (snd (h Now w)) in
  let r := run h (come_up config) just_made w in
  match value r with
  | Ok (agent, q) => exists o j, objects (mine (final r)) !! 0%nat = Some o /\ sid o = sandboxId /\
      channel o = Some agent /\ token agent = token_of config sandboxId /\
      job o = Some j /\ jobSetId j = sandboxId /\ q = job_queue j
  | Err e => value up = Err e
  end.
Proof.
  cbn zeta. pose proof (guarded_run _ _ _ h _ just_made w keeps_come_up just_made_ok) as (_ & ([Hok _] & _) & _). revert Hok.
  unfold come_up. match goal with |- context [now ≫= ?k] => pose proof (run_now k just_made w) as Hn end.
  destruct (h Now w) as [t0 w0]. cbn zeta in Hn. rewrite Hn. cbn [value final snd]. clear Hn.
  rewrite run_bind. cbn zeta. destruct (run_mine (ready_sandbox config keepAgent 0) just_made w0) as (Ev & Ef & _).
  pose proof (ready_in_hand config h (mine just_made) w0 (construct sandboxId made_options false) eq_refl eq_refl eq_refl) as Hh.
  rewrite <- Ev. revert Ev Ef. generalize (run h (on_mine (ready_sandbox config keepAgent 0)) just_made w0).
  intros [[[]|e] s1 w1 t1]; cbn [value final world trace]; intros Ev Ef; [|done].
  destruct (Hh (eq_sym Ev)) as (o & j & p & c & Ho & Hj & Hp & Hc & Hk). rewrite <- Ef in Ho, Hk. clear Hh Ev Ef.
  match goal with |- context [value (run h ?pr s1 w1)] => set (rest := pr) end.
  enough (value (run h rest s1 w1) = Ok (c, job_queue j) /\ final (run h rest s1 w1) = s1) as [Hv Hf].
  { rewrite Hv. cbn [value final]. rewrite Hf. intros Hok. destruct (Hok 0%nat o Ho) as [Hb (Hjob & Hch & _)].
    injection Hb as Hsid _. exists o, j. destruct (Hch c Hc) as (url & pod' & ->). rewrite Hsid. split_and!; auto. }
  subst rest. rewrite (run_field _ _ _ _ _ Ho). cbv beta.
  match goal with |- context [gets ?f ≫= ?k] => change (run h (gets f ≫= k) s1 w1) with (run h (k (f s1)) s1 w1) end.
  cbv beta. rewrite Hk, Hp. match goal with |- context [now ≫= ?k] => pose proof (run_now k s1 w1) as Hn end.
  destruct (h Now w1) as [t2 w2]. cbn zeta in Hn. rewrite Hn. cbn [value final]. clear Hn.
  rewrite (run_queue _ _ _ _ _ Ho Hj). cbv beta.
  repeat (apply (run_say _ _ _ (fun v f => v = Ok (c, job_queue j) /\ f = s1)); intros ?). done.
Qed.
End whole.

(** ** The end of a run *)

Section ending.
Context `{Platform} {W : Type} (config : ArmadaConfig) (owner : option SandboxOwner) (sandboxId : SandboxId) (h : handler W).

Abbreviation keeps p := (guarded (script_ok config sandboxId) (fun _ => True) (returns (fun _ => True)) p).

Lemma keeps_await_gone attempts list gone : keeps (await_gone sandboxId attempts list gone).
Proof.
  revert gone; induction attempts as [|more IH]; intros gone; cbn [await_gone]; [done|]. destruct gone; [done|].
  apply keeps_bind; [apply keeps_calm; by intros|intros _]. apply keeps_bind; [apply keeps_others|intros after]. apply IH.
Qed.

Lemma keeps_find : keeps (on_mine (findQueue config sandboxId)).
Proof. apply keeps_mine_calm. calm. Qed.

Lemma keeps_destroy_elsewhere pages q : keeps (destroy_elsewhere config sandboxId pages q).
Proof.
  unfold destroy_elsewhere. apply keeps_bind; [apply keeps_calm; by intros|intros _]. apply keeps_bind; [apply keeps_find|intros found].
  apply keeps_bind; [apply keeps_check|intros _]. destruct (list_active (new_ArmadaCompute config)) as [list|]; [|done].
  apply keeps_bind; [apply keeps_others|intros before]. apply keeps_bind; [apply keeps_check|intros _].
  apply keeps_bind; [apply keeps_others|intros _]. apply keeps_bind; [apply keeps_others|intros _].
  apply keeps_bind; [apply keeps_await_gone|intros gone]. apply keeps_check.
Qed.

Lemma keeps_finish argv pages q : keeps (finish config owner sandboxId argv pages q).
Proof.
  unfold finish. destruct (bool_decide _).
  - apply keeps_bind; [apply keeps_calm; by intros|intros _]. apply keeps_calm; by intros.
  - destruct owner; [apply keeps_destroy_elsewhere|]. apply keeps_bind; [exact (keeps_do config sandboxId op_destroy _ eq_refl)|intros _].
    apply keeps_calm; by intros.
Qed.

(** A part of the run that returned, before the part that cancels. *)
Lemma past_cancelled {A} (p : M script A) (k : A -> M script unit) s w :
  (forall a s' w', value (run h (k a) s' w') = Ok tt -> cancelled config h sandboxId (trace (run h (k a) s' w'))) ->
  value (run h (p ≫= k) s w) = Ok tt -> cancelled config h sandboxId (trace (run h (p ≫= k) s w)).
Proof.
  intros Hk (a & _ & Hv & _ & _ & ->)%run_bind_Ok. rewrite <- (app_nil_r (trace (run h (k a) _ _))). by apply cancelled_app, Hk.
Qed.

(** The part that cancels, and what follows it. *)
Lemma cancelled_first {A} (p : M script A) (k : A -> M script unit) s w :
  (forall a, value (run h p s w) = Ok a -> cancelled config h sandboxId (trace (run h p s w))) ->
  value (run h (p ≫= k) s w) = Ok tt -> cancelled config h sandboxId (trace (run h (p ≫= k) s w)).
Proof. intros Hp (a & Ha & _ & _ & _ & ->)%run_bind_Ok. apply (cancelled_app config h sandboxId []). by eapply Hp. Qed.

(** The other provider's sandbox is cancelled. *)
Lemma elsewhere_cancels pages q s w :
  value (run h (destroy_elsewhere config sandboxId pages q) s w) = Ok tt ->
  cancelled config h sandboxId (trace (run h (destroy_elsewhere config sandboxId pages q) s w)).
Proof.
  unfold destroy_elsewhere. do 3 (apply past_cancelled; intros ? ? ?).
  destruct (list_active (new_ArmadaCompute config)) as [list|]; [|done].
  apply past_cancelled; intros before s1 w1. apply past_cancelled; intros _ s2 w2.
  change (run h (on_others (modify ?f);; ?k) ?s ?w) with (run h k (put_others (f (others s)) s) w).
  apply cancelled_first. intros [] Hv. set (s3 := put_others _ s2) in *.
  destruct (run_zoom others put_others ltac:(done) h (destroy config 0) s3 w2) as (Ev & _ & _ & Et).
  unfold on_others in *. rewrite Et. rewrite Ev in Hv.
  apply (destroy_cancels config h (others s3) w2 (construct sandboxId None false)); [|done|done].
  apply lookup_insert_eq.
Qed.

(** A run that comes to its end without being told to keep the job has
    cancelled it. *)
Lemma finish_cancels argv pages q s w :
  script_ok config sandboxId s -> "--keep" ∉ argv ->
  value (run h (finish config owner sandboxId argv pages q) s w) = Ok tt ->
  cancelled config h sandboxId (trace (run h (finish config owner sandboxId argv pages q) s w)).
Proof.
  intros ([Hok _] & _) Hkeep. unfold finish. rewrite bool_decide_false by done. destruct owner; [apply elsewhere_cancels|].
  apply cancelled_first. intros [] Hv. destruct (run_mine h (destroy config 0) s w) as (Ev & _ & Et).
  rewrite Et. rewrite Ev in Hv. destruct (objects (mine s) !! 0%nat) as [o|] eqn:Ho.
  - destruct (Hok 0%nat o Ho) as [[= Hid _] (Hj & _)]. rewrite Hid. by apply destroy_cancels.
  - revert Hv. unfold destroy, self, mbind, M_bind, gets. cbn [pbind run]. by rewrite Ho.
Qed.
End ending.

Lemma calm_announce config owner id : calm (announce config owner id).
Proof. unfold announce. calm; by intros. Qed.

Section verdict.
Context `{Platform} {W : Type} (files : file_reader) (env : environment) (argv : list string) (pages : nat) (h : handler W).

(** The id of the sandbox of a run: the time it starts at. *)
Definition smoke_id (w : W) : SandboxId := "smoke-" +:+ to_string36 (fst (h Now w)).

Definition verdict_line (failures : Z) : string :=
  if decide (failures = 0%Z) then "all checks passed" else string_of_Z failures +:+ " check(s) FAILED".

Lemma run_verdict s w :
  run h verdict s w = {| value := Ok tt; final := s; world := snd (h (Console console_log (verdict_line (failures s))) w);
                         trace := [Console console_log (verdict_line (failures s))] |}.
Proof. unfold verdict, gets, say, mbind, M_bind. cbn [pbind run]. by destruct (h (Console _ _) w) as [[] w']. Qed.

Lemma run_guard (b : bool) m s (w : W) u :
  let p : M script unit := if b then lift (throw m) else mret tt in
  value (run h p s w) = Ok u -> run h p s w = {| value := Ok tt; final := s; world := w; trace := [] |}.
Proof. by destruct b. Qed.

(** A run that returns got to its end, and the checks it counts are the status
    it sets. *)
Lemma smoke_Ok w :
  let o := run h (smoke files env argv pages) script_start w in
  value o = Ok tt ->
  exists config q s w', smoke_config files env = Ok config /\
    script_ok config (smoke_id w) s /\
    let e := run h (finish config (smoke_owner env) (smoke_id w) argv pages q) s w' in
    value e = Ok tt /\ final o = final e /\
    (trace e ++ [Console console_log (verdict_line (failures (final e)))]) `suffix_of` trace o.
Proof.
  cbn zeta. unfold smoke. intros (config & Hc & Hv & -> & _ & ->)%run_bind_Ok. cbn [lift run value final world trace] in *.
  exists config. revert Hv. match goal with |- context [now ≫= ?k] => pose proof (run_now h k script_start w) as Hn end.
  unfold smoke_id. destruct (h Now w) as [t w0]. cbn zeta in Hn. rewrite Hn. clear Hn. cbn [value final trace fst].
  set (id := "smoke-" +:+ to_string36 t). set (owner := smoke_owner env).
  intros (u1 & Hg%run_guard & Hv & -> & _ & ->)%run_bind_Ok. rewrite Hg in *. clear Hg u1. cbn [value final world trace] in *.
  revert Hv. intros ([] & _ & Hv & -> & _ & ->)%run_bind_Ok.
  change (final (run h (make_sandbox _ _) script_start _)) with (just_made owner id) in *. revert Hv.
  match goal with |- context [world ?o] => generalize (world o) end. intros w1 Hv.
  pose proof (just_made_ok config owner id) as Hok.
  edestruct (past_kept h _ _ _ _ _ _ _ _ (keeps_calm config id _ (calm_announce config owner id)) Hok Hv)
    as (u2 & s2 & w2 & tr2 & _ & Hok2 & Hv2 & -> & ->). clear Hv.
  edestruct (past_kept h _ _ _ _ _ _ _ _ (keeps_come_up config id) Hok2 Hv2) as ([agent q] & s3 & w3 & tr3 & _ & Hok3 & Hv3 & -> & ->).
  edestruct (past_kept h _ _ _ _ _ _ _ _ (keeps_exercise config id agent) Hok3 Hv3) as (u4 & s4 & w4 & tr4 & _ & Hok4 & Hv4 & -> & ->).
  exists q, s4, w4. split; [done|]. split; [done|].
  apply run_bind_Ok in Hv4 as ([] & Hfin & _ & -> & _ & ->). rewrite run_verdict. cbn [final trace].
  split; [done|]. split; [done|]. cbn [app].
  apply suffix_cons_r. do 4 apply suffix_app_r. reflexivity.
Qed.

(** The exit status is the verdict: it is 0 exactly when the run returned
    and no check failed, and a run that returns ends by saying which it
    was. *)
Theorem smoke_verdict w :
  let o := run h (smoke files env argv pages) script_start w in
  (exit_status o = 0%Z <-> value o = Ok tt /\ failures (final o) = 0%Z) /\
  (value o = Ok tt -> list.last (trace o) = Some (Console console_log
     (if decide (exit_status o = 0%Z) then "all checks passed" else string_of_Z (failures (final o)) +:+ " check(s) FAILED"))).
Proof.
  cbn zeta. unfold exit_status. pose proof (smoke_Ok w) as Hr. cbn zeta in Hr. revert Hr.
  generalize (run h (smoke files env argv pages) script_start w). intros [[[]|e] s w' tr]; cbn [value final trace]; [|intros _; split; [split; [done|by intros []]|done]].
  intros Hr. destruct (Hr eq_refl) as (config & q & s1 & w1 & _ & Hok & _ & -> & tr0 & ->).
  destruct (guarded_run _ _ _ h _ _ w1 (keeps_finish config (smoke_owner env) (smoke_id w) argv pages q) Hok) as (_ & (_ & Hf & ->) & _).
  rewrite list.last_app, last_snoc. unfold verdict_line. split; [|intros _].
  - case_decide; naive_solver lia.
  - by destruct (decide (failures _ = 0%Z)).
Qed.

(** C17 A run leaves nothing behind: one that needs a Lookout it does not have
    ends before it asks anything of anyone, and one that returns without
    [--keep] has cancelled the job set of its sandbox, with a request that was
    answered with success, whichever provider sent it. *)
Theorem smoke_leaves_nothing w :
  let o := run h (smoke files env argv pages) script_start w in
  (forall config, smoke_config files env = Ok config -> smoke_owner env <> None -> lookoutUrl config = None ->
     value o = throw "an owner check needs ARMADA_LOOKOUT_URL" /\ trace o = [Now]) /\
  (value o = Ok tt -> "--keep" ∉ argv ->
     exists config, smoke_config files env = Ok config /\ cancelled config h (smoke_id w) (trace o)).
Proof.
  cbn zeta. split.
  - intros config Hc Ho Hl. unfold smoke. rewrite run_bind, Hc. cbn [lift run value final world trace app].
    match goal with |- context [now ≫= ?k] => pose proof (run_now h k script_start w) as Hn end.
    destruct (h Now w) as [t w0]. cbn zeta in Hn. rewrite Hn. cbn [value trace].
    rewrite (bool_decide_false _ Ho), Hl. done.
  - intros Hv Hkeep. destruct (smoke_Ok w Hv) as (config & q & s & w' & Hc & Hok & Hf & _ & tr & ->).
    exists config. split; [done|]. apply cancelled_app. by eapply finish_cancels.
Qed.
End verdict.

(** ** Witnesses *)

#[local] Existing Instance example_platform.

(** A pod whose agent does what it should: one server, which listens on 8123
    until it is killed, and one process that dies at once; and around it an
    Armada that takes the job and a Lookout that knows it until it is
    cancelled. *)
Record pod_state := { server_killed : bool; job_cancelled : bool }.

Definition ok_json (text : string) : result response := Ok (http_ok (q text)).
Definition ok_lines (l : list string) : result response := ok_json (join (String newline "") l).
Definition ok_bytes (b : list ascii) : result response :=
  Ok {| status := 200; statusText := "OK"; content := Some {| chunks := [b]; ending := None |} |}.
Definition no_such_file : result response :=
  Ok {| status := 404; statusText := "Not Found";
        content := Some {| chunks := [utf8_encode (q "{'code': 'not_found'}")]; ending := None |} |}.

Definition armada_answer (s : pod_state) (on : string -> bool) : option (result response) :=
  if on "/v1/job/submit" then Some (ok_json "{'jobResponseItems': [{'jobId': '01h'}]}")
  else if on "/v1/job-set/" then Some (ok_lines
    ["{'result': {'message': {'running': {'jobId': '01h', 'clusterId': 'c1', 'podName': 'pod-1', 'podNamespace': 'hub'}}}}";
     "{'result': {'message': {'ingressInfo': {'jobId': '01h', 'ingressAddresses': " +:+
     "{'8718': 'agent.example', '2718': 'kernel.example', '8443': 'code.example'}}}}}"])
  else if on "/v1/job/cancel" then Some (ok_json "{}")
  else if on "/api/v1/jobs" then Some (ok_json (if job_cancelled s then "{'jobs': []}"
    else "{'jobs': [{'jobSet': 'smoke-m5d4ruo0', 'queue': 'team', 'submitted': '2025-01-01T00:00:00Z'}]}"))
  else None.

Definition agent_answer (s : pod_state) (on : string -> bool) (body : string) : result response :=
  if on "/exec" then
    if includes "1500" body then ok_lines ["{'pid': 9}"; "{'exit': 0, 'timedOut': true}"]
    else if includes "tick" body then ok_lines ["{'pid': 9}"; "{'stdout': 'dGljaw=='}"]
    else if includes "hostname" body then ok_lines ["{'pid': 9}"; "{'stdout': 'aGVsbG8K'}"; "{'exit': 0}"]
    else ok_lines ["{'pid': 9}"; "{'exit': 0}"]
  else if on "/files/list" then
    Ok (http_ok (json_stringify (JObj [("entries", JArr [JObj
      [("path", JStr filePath_); ("type", JStr "file"); ("size", JNum (Int 5))]])])))
  else if on "never-written" then no_such_file
  else if on "/files" then ok_bytes fileBytes
  else if on "/process/start" then ok_json "{'pid': 7}"
  else if on "/process/waitport" then
    if includes "8123" body then ok_json "{'open': true}"
    else if includes "8124" body then ok_json "{'open': false, 'exited': true}" else ok_json "{'open': false}"
  else if on "/process/status" then ok_json (if server_killed s then "{'running': false}" else "{'running': true}")
  else ok_json "boom".

Definition pod_answer (s : pod_state) (r : request) : result response :=
  let on part := includes part (url r) in
  let body := match payload_of r with Some (JsonPayload j) => json_stringify j | _ => "" end in
  match armada_answer s on with Some a => a | None => agent_answer s on body end.

Definition pod_world : handler pod_state := fun c s =>
  (match c return answer c with
   | Fetch r => pod_answer s r
   | FetchAll rs => (map (pod_answer s) rs, seq 0 (length rs))
   | ReadTextFile _ => throw "ENOENT"
   | Now => 1735689600000%Z
   | Sleep _ => tt
   | Console _ _ => tt
   end,
   match c with
   | Fetch r => {| server_killed := (server_killed s || includes "/process/signal" (url r))%bool;
                   job_cancelled := (job_cancelled s || includes "/v1/job/cancel" (url r))%bool |}
   | _ => s
   end).

Definition no_files : file_reader := fun _ => None.
Definition new_pod : pod_state := {| server_killed := false; job_cancelled := false |}.

(** A run for nobody in particular, and one for an owner with a queue. *)
Definition plain_run := run pod_world (smoke no_files [] [] 1) script_start new_pod.
Definition owner_env : environment :=
  [("ARMADA_LOOKOUT_URL", "http://lookout.example"); ("ARMADA_QUEUE_BY_PROJECT", q "{'p1': 'team'}"); ("SMOKE_OWNER_PROJECT", "p1")].
Definition owner_run := run pod_world (smoke no_files owner_env [] 1) script_start new_pod.

Lemma smoke_verdict_witness :
  exit_status plain_run = 0%Z /\ list.last (trace plain_run) = Some (Console console_log "all checks passed").
Proof.
  destruct (smoke_verdict no_files [] [] 1 pod_world new_pod) as [He Hl].
  assert (exit_status plain_run = 0%Z) as H0 by (apply He; vm_compute; split; reflexivity).
  split; [exact H0|]. etransitivity; [apply Hl; vm_compute; reflexivity|]. change (run pod_world _ _ _) with plain_run.
  by rewrite H0.
Defined.

(** The owner's sandbox is cancelled in the queue Lookout named. *)
Lemma smoke_leaves_nothing_witness :
  exit_status owner_run = 0%Z /\
  exists config, smoke_config no_files owner_env = Ok config /\ cancelled config pod_world "smoke-m5d4ruo0" (trace owner_run).
Proof.
  split; [vm_compute; reflexivity|].
  assert (smoke_id pod_world new_pod = "smoke-m5d4ruo0") as <- by (vm_compute; reflexivity).
  assert (value owner_run = Ok tt) as Hv by (vm_compute; reflexivity).
  exact (proj2 (smoke_leaves_nothing no_files owner_env [] 1 pod_world new_pod) Hv (not_elem_of_nil _)).
Defined.
